(** * Mesh generators and the twist deformer of blender-gui

    A shallow embedding of the generator plugins
    [plugins/mesh_cylinder.py], [plugins/mesh_disc.py],
    [plugins/mesh_sphere.py], [plugins/mesh_torus.py],
    [plugins/mesh_tube.py] and of the deformer [plugins/mesh_twist.py],
    with the callbacks of the plugins and the part of [gui.py] they run
    on: the number widgets, the toggles, the selection widgets and the
    event tables of the interface.

    Conventions of the embedding:
    - Python integers are [Z]; [xrange n] is the list [0; ...; n-1]
      (empty when [n <= 0]); [%] is [Z.modulo], which agrees with Python's
      floored remainder.  Every [%] of the source stands in the body of a
      loop over [xrange] of its divisor, which is therefore positive there.
    - Python floats are idealised as real numbers [R]: rounding is not
      modelled, whereas the exceptions of float arithmetic are
      ([ZeroDivisionError] of [/], [ValueError] of [math.acos]).  A
      division by a non-zero literal ([/180], [/50.0], [/pi]) is written
      with the division of [R]; every other division goes through [fdiv].
    - [poly = NMesh.GetRaw()] is a record of the two lists [poly.verts] and
      [poly.faces]; a face keeps, for each [poly.verts[k]] appended to
      [f.v], the position of that vertex object in [poly.verts] (vertices
      are only ever appended, so positions are stable).  Indexing follows
      Python: negative indices count from the end, indices out of range
      raise [IndexError].
    - A builder returns the mesh it hands to [NMesh.PutRaw]; a builder that
      raises never reaches [PutRaw], so nothing is emitted.
    - A widget is the record of its private attributes; what the host
      draws is not modelled.  Python integers being [Z], the [long] that
      [int] returns beyond the machine range is not told apart from an
      [int].  The widgets of a plugin are module globals, which its
      callbacks read and the events of the host change. *)

From Stdlib Require Import String ZArith List Bool Lia Reals Lra.
Import ListNotations.

Open Scope Z_scope.

(** ** Python values, exceptions and the builder monad *)

Inductive exn : Type :=
| ZeroDivisionError
| IndexError
| ValueError.

Inductive result (A : Type) : Type :=
| Ok (a : A)
| Raise (e : exn).

Arguments Ok {A} a.
Arguments Raise {A} e.

(** Float division [x / y]; an integer divisor is first converted with
    [IZR]. *)
Definition fdiv (x y : R) : result R :=
  if Req_dec_T y 0%R then Raise ZeroDivisionError else Ok (x / y)%R.

(** [math.acos]: a math domain error outside [-1, 1]. *)
Definition py_acos (x : R) : result R :=
  if Rle_dec (-1) x then
    if Rle_dec x 1 then Ok (acos x) else Raise ValueError
  else Raise ValueError.

Definition xrange (n : Z) : list Z := map Z.of_nat (seq 0 (Z.to_nat n)).

(** [lst[k]] on a list of length [len]: the position that is read. *)
Definition py_index (len k : Z) : option Z :=
  if (0 <=? k) && (k <? len) then Some k
  else if (k <? 0) && (0 <=? len + k) then Some (len + k)
  else None.

Definition Vert : Type := (R * R * R)%type.

Record Face : Type := mkFace { v : list Z; smooth : bool }.

Record NMesh : Type := mkMesh { verts : list Vert; faces : list Face }.

(** [NMesh.GetRaw()] *)
Definition GetRaw : NMesh := mkMesh [] [].

Definition M (A : Type) : Type := NMesh -> result (A * NMesh).

Definition ret {A} (a : A) : M A := fun poly => Ok (a, poly).

Definition bind {A B} (m : M A) (k : A -> M B) : M B :=
  fun poly =>
    match m poly with
    | Ok (a, poly') => k a poly'
    | Raise e => Raise e
    end.

Notation "x <- m ;; k" := (bind m (fun x => k))
  (at level 61, m at next level, right associativity).
Notation "m ;; k" := (bind m (fun _ => k))
  (at level 61, right associativity).
Notation "' pat <- m ;; k" :=
  (bind m (fun x => match x with pat => k end))
  (at level 61, pat pattern, m at next level, right associativity).

Definition lift {A} (r : result A) : M A :=
  fun poly =>
    match r with
    | Ok a => Ok (a, poly)
    | Raise e => Raise e
    end.

(** [poly.verts.append(NMesh.Vert(x, y, z))] *)
Definition verts_append (p : Vert) : M unit :=
  fun poly => Ok (tt, mkMesh (verts poly ++ [p]) (faces poly)).

(** [poly.verts[k]] *)
Definition verts_get (k : Z) : M Z :=
  fun poly =>
    match py_index (Z.of_nat (length (verts poly))) k with
    | Some i => Ok (i, poly)
    | None => Raise IndexError
    end.

Fixpoint verts_get_all (ks : list Z) : M (list Z) :=
  match ks with
  | [] => ret []
  | k :: ks' => i <- verts_get k ;; ids <- verts_get_all ks' ;; ret (i :: ids)
  end.

(** [f = NMesh.Face(); f.smooth = sm; f.v.append(poly.verts[k])] for each
    [k] of [ks] in turn; [poly.faces.append(f)]. *)
Definition new_face (sm : bool) (ks : list Z) : M unit :=
  ids <- verts_get_all ks ;;
  fun poly => Ok (tt, mkMesh (verts poly) (faces poly ++ [mkFace ids sm])).

(** A [for] loop over [l] whose body updates the local variables [a]. *)
Fixpoint for_acc {A T} (l : list A) (body : A -> T -> M T) (a : T) : M T :=
  match l with
  | [] => ret a
  | x :: l' => a' <- body x a ;; for_acc l' body a'
  end.

Definition for_in {A} (l : list A) (body : A -> M unit) : M unit :=
  for_acc l (fun x _ => body x) tt.

(** The successive values [p; step p; step (step p); ...] of a local
    variable over [n] rounds of a loop that ends each round with [step]:
    [for i in xrange(n): vertex_list.append((x,y,z)); z += dz] appends
    [walk n (move_z dz) (x,y,z)]. *)
Fixpoint walk {T} (n : nat) (step : T -> T) (p : T) : list T :=
  match n with
  | O => []
  | S n' => p :: walk n' step (step p)
  end.

(** Run a builder body on a fresh mesh and hand the mesh to [PutRaw]. *)
Definition build (m : M unit) : result NMesh :=
  match m GetRaw with
  | Ok (_, poly) => Ok poly
  | Raise e => Raise e
  end.

(** ** mesh_cylinder.py *)

Module Cyl.

Definition MakeVertexRing (Segments : Z) (r z : R) : M unit :=
  for_in (xrange Segments) (fun i =>
    phi <- lift (fdiv (PI * 2 * IZR i) (IZR Segments)) ;;
    verts_append (r * cos phi, r * sin phi, z)%R).

Definition Cylinder_body (Radius Height : R) (Segments Divisions CapDivisions : Z)
    (Smooth : bool) : M unit :=
  (* make vertexes *)
  dr <- lift (fdiv Radius (IZR CapDivisions)) ;;
  _ <- for_acc (xrange CapDivisions) (fun _ r =>
         MakeVertexRing Segments r 0 ;; ret (r + dr)%R) dr ;;
  dz <- lift (fdiv Height (IZR Divisions)) ;;
  _ <- for_acc (xrange Divisions) (fun _ z =>
         MakeVertexRing Segments Radius z ;; ret (z + dz)%R) 0%R ;;
  dr <- lift (fdiv Radius (IZR CapDivisions)) ;;
  _ <- for_acc (xrange CapDivisions) (fun _ r =>
         MakeVertexRing Segments r Height ;; ret (r - dr)%R) Radius ;;
  (* make faces *)
  let tvc := 2 * (CapDivisions - 1) + Divisions + 1 in
  for_in (xrange tvc) (fun i =>
    let ring1_num := Segments * i in
    let ring2_num := Segments * (i + 1) in
    for_in (xrange Segments) (fun j =>
      let j0 := j in
      let j1 := (j + 1) mod Segments in
      new_face Smooth
        [ring1_num + j0; ring1_num + j1; ring2_num + j1; ring2_num + j0])) ;;
  (* cap caps *)
  verts_append (0, 0, 0)%R ;;
  verts_append (0, 0, Height)%R ;;
  for_in (xrange Segments) (fun j =>
    let j0 := j in
    let j1 := (j + 1) mod Segments in
    new_face Smooth [-2; j0; j1] ;;
    new_face Smooth [-1; - (j0 + 3); - (j1 + 3)]).

Definition Cylinder (Radius Height : R) (Segments Divisions CapDivisions : Z)
    (Smooth : bool) : result NMesh :=
  build (Cylinder_body Radius Height Segments Divisions CapDivisions Smooth).

End Cyl.

(** ** mesh_disc.py *)

Module Dsc.

(** The inner [for i in range(0, Segments)] loop of [Disc]; [alpha] is its
    local variable. *)
Definition ring (Segments : Z) (r da : R) : M unit :=
  _ <- for_acc (xrange Segments) (fun _ alpha =>
         verts_append (r * cos alpha, r * sin alpha, 0)%R ;;
         ret (alpha + da)%R) 0%R ;;
  ret tt.

Definition Disc_body (InnerRadius OuterRadius : R) (Segments Subdivisions : Z)
    : M unit :=
  (* make vertices *)
  dr <- lift (fdiv (OuterRadius - InnerRadius) (IZR Subdivisions)) ;;
  da <- lift (fdiv (PI * 2) (IZR Segments)) ;;
  _ <- for_acc (xrange (Subdivisions + 1)) (fun _ r =>
         ring Segments r da ;; ret (r + dr)%R) InnerRadius ;;
  (* make faces; [NMesh.Face()] is not smooth unless told so *)
  for_in (xrange Subdivisions) (fun i =>
    let ring0 := Segments * i in
    let ring1 := Segments * (i + 1) in
    for_in (xrange Segments) (fun j =>
      let j0 := j in
      let j1 := (j + 1) mod Segments in
      new_face false [ring0 + j0; ring0 + j1; ring1 + j1; ring1 + j0])).

Definition Disc (InnerRadius OuterRadius : R) (Segments Subdivisions : Z)
    : result NMesh :=
  build (Disc_body InnerRadius OuterRadius Segments Subdivisions).

End Dsc.

(** ** mesh_sphere.py *)

Module Sph.

Definition MakeVertexRing (UDivisions : Z) (r z : R) : M unit :=
  for_in (xrange UDivisions) (fun i =>
    phi <- lift (fdiv (PI * 2 * IZR i) (IZR UDivisions)) ;;
    verts_append (r * cos phi, r * sin phi, z)%R).

(** The skin between consecutive latitude rings, shared by both variants. *)
Definition skin (UDivisions VDivisions : Z) (Smooth : bool) : M unit :=
  for_in (xrange (VDivisions - 2)) (fun i =>
    let ring1_num := UDivisions * i in
    let ring2_num := UDivisions * (i + 1) in
    for_in (xrange UDivisions) (fun j =>
      new_face Smooth
        [ring1_num + j; ring1_num + (j + 1) mod UDivisions;
         ring2_num + (j + 1) mod UDivisions; ring2_num + j])).

Definition Sphere_body (Radius : R) (UDivisions VDivisions : Z) (Smooth : bool)
    : M unit :=
  da <- lift (fdiv 180 (IZR VDivisions)) ;;
  _ <- for_acc (xrange (VDivisions - 1)) (fun _ angle =>
         let r := (Radius * sin (angle / 180 * PI))%R in
         let z := (Radius * cos (angle / 180 * PI))%R in
         MakeVertexRing UDivisions r z ;;
         ret (angle + da)%R) da ;;
  verts_append (0, 0, Radius)%R ;;
  verts_append (0, 0, - Radius)%R ;;
  (* make faces *)
  skin UDivisions VDivisions Smooth ;;
  for_in (xrange UDivisions) (fun k =>
    let i := k in
    let j := (k + 1) mod UDivisions in
    new_face Smooth [-1; - (i + 3); - (j + 3)] ;;
    new_face Smooth [-2; i; j]).

Definition Sphere (Radius : R) (UDivisions VDivisions : Z) (Smooth : bool)
    : result NMesh :=
  build (Sphere_body Radius UDivisions VDivisions Smooth).

(** [norm_z = 1.0-(Clip/50.0)] *)
Definition norm_z (Clip : R) : R := (1 - Clip / 50)%R.

(** [rang = 180*acos(norm_z)/pi], the clip latitude in degrees, measured
    from the north pole. *)
Definition rang (Clip : R) : result R :=
  match py_acos (norm_z Clip) with
  | Ok a => Ok (180 * a / PI)%R
  | Raise e => Raise e
  end.

(** [min_z = Radius * cos(rang/180 * pi)], the height of the clip plane. *)
Definition min_z (Radius rng : R) : R := (Radius * cos (rng / 180 * PI))%R.

Definition Sphere2_body (Radius : R) (UDivisions VDivisions : Z) (Clip : R)
    (CapBottom CapSymmetrical Smooth : bool) : M unit :=
  rng <- lift (rang Clip) ;;
  da <- lift (fdiv rng (IZR VDivisions)) ;;
  _ <- for_acc (xrange (VDivisions - 1)) (fun _ angle =>
         let r := (Radius * sin (angle / 180 * PI))%R in
         let z := (Radius * cos (angle / 180 * PI))%R in
         MakeVertexRing UDivisions r z ;;
         ret (angle - da)%R) rng ;;
  verts_append (0, 0, Radius)%R ;;
  (* make "inner" sphere skin *)
  skin UDivisions VDivisions Smooth ;;
  (* make faces around top (single) vertex *)
  for_in (xrange UDivisions) (fun k =>
    let i := k in
    let j := (k + 1) mod UDivisions in
    new_face Smooth [-1; - (i + 2); - (j + 2)]) ;;
  (* cap the hole *)
  if CapBottom then
    if CapSymmetrical then
      verts_append (0, 0, min_z Radius rng)%R ;;
      for_in (xrange UDivisions) (fun i =>
        new_face Smooth [-1; i; (i + 1) mod UDivisions])
    else
      for_in (xrange (UDivisions - 2)) (fun i =>
        new_face Smooth [0; i + 1; i + 2])
  else ret tt.

Definition Sphere2 (Radius : R) (UDivisions VDivisions : Z) (Clip : R)
    (CapBottom CapSymmetrical Smooth : bool) : result NMesh :=
  build (Sphere2_body Radius UDivisions VDivisions Clip
           CapBottom CapSymmetrical Smooth).

End Sph.

(** ** mesh_torus.py *)

Module Tor.

(** [Mathutils.VecMultMat(v, Mathutils.RotationMatrix(angle, 3, "z"))] of
    the host: the vector turned about the z axis by [angle] degrees. *)
Definition RotateZ (angle : R) (p : Vert) : Vert :=
  let '(x, y, z) := p in
  let a := (angle * PI / 180)%R in
  (x * cos a - y * sin a, x * sin a + y * cos a, z)%R.

(** [StartMinorAngle] is the value after the "deg 2 rad" line. *)
Definition MakeVertexRing (MajorRadius MinorRadius : R) (MinorDivisions : Z)
    (StartMinorAngle : R) (angle : R) : M unit :=
  for_in (xrange MinorDivisions) (fun i =>
    q <- lift (fdiv (PI * 2 * IZR i) (IZR MinorDivisions)) ;;
    let phi := (q + StartMinorAngle)%R in
    let x := (MajorRadius + MinorRadius * cos phi)%R in
    let y := 0%R in
    let z := (MinorRadius * sin phi)%R in
    verts_append (RotateZ angle (x, y, z))).

Definition Torus_body (MajorRadius MinorRadius : R)
    (MajorDivisions MinorDivisions : Z) (StartMinorAngle : R) (Smooth : bool)
    : M unit :=
  (* deg 2 rad *)
  let StartMinorAngle := (StartMinorAngle * 2 * PI / 180)%R in
  da <- lift (fdiv 360 (IZR MajorDivisions)) ;;
  _ <- for_acc (xrange MajorDivisions) (fun _ angle =>
         MakeVertexRing MajorRadius MinorRadius MinorDivisions
           StartMinorAngle angle ;;
         ret (angle + da)%R) 0%R ;;
  (* make faces *)
  for_in (xrange MajorDivisions) (fun i =>
    let ring1_num := MinorDivisions * i in
    let ring2_num := MinorDivisions * ((i + 1) mod MajorDivisions) in
    for_in (xrange MinorDivisions) (fun j =>
      new_face Smooth
        [ring1_num + j; ring1_num + (j + 1) mod MinorDivisions;
         ring2_num + (j + 1) mod MinorDivisions; ring2_num + j])).

Definition Torus (MajorRadius MinorRadius : R)
    (MajorDivisions MinorDivisions : Z) (StartMinorAngle : R) (Smooth : bool)
    : result NMesh :=
  build (Torus_body MajorRadius MinorRadius MajorDivisions MinorDivisions
           StartMinorAngle Smooth).

Definition Torus2_body (MajorRadius MinorRadius : R)
    (MajorDivisions MinorDivisions : Z) (StartMajorAngle : R) (CapStart : bool)
    (EndMajorAngle : R) (CapEnd : bool) (StartMinorAngle : R) (Smooth : bool)
    : M unit :=
  (* deg 2 rad *)
  let StartMinorAngle := (StartMinorAngle * 2 * PI / 180)%R in
  let '(StartMajorAngle, EndMajorAngle) :=
    (Rmin StartMajorAngle EndMajorAngle, Rmax StartMajorAngle EndMajorAngle) in
  da <- lift (fdiv (EndMajorAngle - StartMajorAngle) (IZR MajorDivisions)) ;;
  _ <- for_acc (xrange (MajorDivisions + 1)) (fun _ angle =>
         MakeVertexRing MajorRadius MinorRadius MinorDivisions
           StartMinorAngle angle ;;
         ret (angle + da)%R) StartMajorAngle ;;
  (* make faces *)
  for_in (xrange MajorDivisions) (fun i =>
    let ring1_num := MinorDivisions * i in
    let ring2_num := MinorDivisions * (i + 1) in
    for_in (xrange MinorDivisions) (fun j =>
      new_face Smooth
        [ring1_num + j; ring1_num + (j + 1) mod MinorDivisions;
         ring2_num + (j + 1) mod MinorDivisions; ring2_num + j])) ;;
  (if CapStart then
     for_in (xrange (MinorDivisions - 1)) (fun i =>
       new_face Smooth [0; i; i + 1])
   else ret tt) ;;
  (if CapEnd then
     for_in (xrange (MinorDivisions - 1)) (fun i =>
       new_face Smooth [-1; - (i + 1); - (i + 2)])
   else ret tt).

Definition Torus2 (MajorRadius MinorRadius : R)
    (MajorDivisions MinorDivisions : Z) (StartMajorAngle : R) (CapStart : bool)
    (EndMajorAngle : R) (CapEnd : bool) (StartMinorAngle : R) (Smooth : bool)
    : result NMesh :=
  build (Torus2_body MajorRadius MinorRadius MajorDivisions MinorDivisions
           StartMajorAngle CapStart EndMajorAngle CapEnd StartMinorAngle
           Smooth).

End Tor.

(** ** mesh_tube.py *)

Module Tub.

Definition move_x (dx : R) (p : Vert) : Vert :=
  let '(x, y, z) := p in ((x + dx)%R, y, z).

Definition move_z (dz : R) (p : Vert) : Vert :=
  let '(x, y, z) := p in (x, y, (z + dz)%R).

Definition rbind {A B} (r : result A) (k : A -> result B) : result B :=
  match r with
  | Ok a => k a
  | Raise e => Raise e
  end.

(** One side of a tube's section. *)
Definition MakeVertexRectange (InnerRadius OuterRadius Height : R)
    (InnerDivisions OuterDivisions CapDivisions : Z) : result (list Vert) :=
  (* inner vertexes (except top one) *)
  rbind (fdiv Height (IZR InnerDivisions)) (fun dz =>
  let l1 := walk (Z.to_nat InnerDivisions) (move_z dz) (InnerRadius, 0, 0)%R in
  (* top vertexes (except outer one) *)
  rbind (fdiv (OuterRadius - InnerRadius) (IZR CapDivisions)) (fun dx =>
  let l2 := walk (Z.to_nat CapDivisions) (move_x dx)
              (InnerRadius, 0, Height)%R in
  (* outer vertexes (except bottom one) *)
  rbind (fdiv Height (IZR OuterDivisions)) (fun dz =>
  let l3 := walk (Z.to_nat OuterDivisions) (move_z (- dz))
              (OuterRadius, 0, Height)%R in
  (* outer vertexes (except inner one) *)
  let l4 := walk (Z.to_nat CapDivisions) (move_x (- dx))
              (OuterRadius, 0, 0)%R in
  Ok (l1 ++ l2 ++ l3 ++ l4)))).

Definition RotateZvert (p : Vert) (angle : R) : Vert :=
  let '(x, y, z) := p in
  let c := cos angle in
  let s := sin angle in
  (c * x - s * y, s * x + c * y, z)%R.

Definition AddYRotatedVertexes (vertex_list : list Vert) (angle : R) : M unit :=
  for_in vertex_list (fun p => verts_append (RotateZvert p angle)).

Definition deg2rad (angle : R) : R := (PI * angle / 180)%R.

Definition Tube_body (InnerRadius OuterRadius Height : R)
    (InnerDivisions OuterDivisions CapDivisions Segments : Z) (Smooth : bool)
    (StartAngle EndAngle : R) (UseAngles : bool) : M unit :=
  (* make vertexes *)
  vert <- lift (MakeVertexRectange InnerRadius OuterRadius Height
                  InnerDivisions OuterDivisions CapDivisions) ;;
  '(da, angle, segments) <-
     (if UseAngles then
        da <- lift (fdiv (EndAngle - StartAngle) (IZR Segments)) ;;
        ret (da, StartAngle, Segments + 1)
      else
        da <- lift (fdiv 360 (IZR Segments)) ;;
        ret (da, 0%R, Segments)) ;;
  let angle := deg2rad angle in
  let da := deg2rad da in
  _ <- for_acc (xrange segments) (fun _ angle =>
         AddYRotatedVertexes vert angle ;; ret (angle + da)%R) angle ;;
  (* make faces *)
  let vps := 2 * CapDivisions + InnerDivisions + OuterDivisions in
  (* skin *)
  for_in (xrange Segments) (fun i =>
    let section0 := vps * i in
    let section1 := vps * ((i + 1) mod segments) in
    for_in (xrange vps) (fun j =>
      let j0 := j in
      let j1 := (j + 1) mod vps in
      new_face Smooth
        [section0 + j0; section0 + j1; section1 + j1; section1 + j0])) ;;
  (* caps *)
  if UseAngles then
    (* add vertex at center of caps *)
    let cX := ((InnerRadius + OuterRadius) / 2)%R in
    let cY := 0%R in
    let cZ := (Height / 2)%R in
    verts_append (RotateZvert (cX, cY, cZ) (deg2rad StartAngle)) ;;
    verts_append (RotateZvert (cX, cY, cZ) (deg2rad EndAngle)) ;;
    (* and make faces *)
    for_in (xrange vps) (fun i =>
      let i0 := i in
      let i1 := (i + 1) mod vps in
      new_face Smooth [-2; i0; i1] ;;
      new_face Smooth [-1; - (i0 + 3); - (i1 + 3)])
  else ret tt.

Definition Tube (InnerRadius OuterRadius Height : R)
    (InnerDivisions OuterDivisions CapDivisions Segments : Z) (Smooth : bool)
    (StartAngle EndAngle : R) (UseAngles : bool) : result NMesh :=
  build (Tube_body InnerRadius OuterRadius Height InnerDivisions
           OuterDivisions CapDivisions Segments Smooth StartAngle EndAngle
           UseAngles).

End Tub.

(** ** mesh_twist.py *)

Module Twist.

(** The module globals set by [get_selected]: the extents of the bounding
    box of the acquired mesh. *)
Record BoundBox : Type := mkBoundBox {
  min_x : R; max_x : R;
  min_y : R; max_y : R;
  min_z : R; max_z : R
}.

Definition rot_x (p : Vert) (angle : R) : Vert :=
  let '(x, y, z) := p in
  let c := cos angle in
  let s := sin angle in
  (x, y * c - z * s, y * s + z * c)%R.

Definition rot_y (p : Vert) (angle : R) : Vert :=
  let '(x, y, z) := p in
  let c := cos angle in
  let s := sin angle in
  (x * c - z * s, y, x * s + z * c)%R.

Definition rot_z (p : Vert) (angle : R) : Vert :=
  let '(x, y, z) := p in
  let c := cos angle in
  let s := sin angle in
  (x * c - y * s, x * s + y * s, z)%R.

(** What [twist_mesh] did: it returned a value or raised. *)
Inductive outcome : Type :=
| Returned (b : bool)
| Raised (e : exn).

(** The body of the three [for index, v in enumerate(mesh.verts)] loops for
    the coordinates [p = vertex_list[index]]: the new coordinates of [v].
    [coord] picks the coordinate on the axis, [lo] is the lower extent and
    [d] the extent of the bounding box on it, [rot] the rotation. *)
Definition twist_vertex (coord : Vert -> R) (rot : Vert -> R -> Vert)
    (lo d rd Angle StartFrom EndAt : R) (p : Vert) : result Vert :=
  match fdiv (coord p - lo) d with
  | Raise e => Raise e
  | Ok t =>
      if Rle_dec StartFrom t then
        if Rle_dec t EndAt then
          match fdiv (Angle * (t - StartFrom)) rd with
          | Raise e => Raise e
          | Ok ang => Ok (rot p ang)
          end
        else Ok p
      else Ok p
  end.

(** [for index, v in enumerate(mesh.verts): v.co[0], v.co[1], v.co[2] = ...]
    The mesh is updated in place: when the body raises at some vertex, the
    vertices before it keep their new coordinates and the others their
    old ones. *)
Fixpoint enumerate_update (upd : Vert -> result Vert) (vertex_list : list Vert)
    (index : nat) (mesh_verts : list Vert) : list Vert * option exn :=
  match mesh_verts with
  | [] => ([], None)
  | v0 :: rest =>
      match nth_error vertex_list index with
      | None => (v0 :: rest, Some IndexError)
      | Some p =>
          match upd p with
          | Raise e => (v0 :: rest, Some e)
          | Ok p' =>
              let '(rest', r) :=
                enumerate_update upd vertex_list (S index) rest in
              (p' :: rest', r)
          end
      end
  end.

(** [p[0]], [p[1]], [p[2]] *)
Definition co0 (p : Vert) : R := fst (fst p).
Definition co1 (p : Vert) : R := snd (fst p).
Definition co2 (p : Vert) : R := snd p.

Definition finish (r : list Vert * option exn) : list Vert * outcome :=
  match r with
  | (mesh_verts, None) => (mesh_verts, Returned true)
  | (mesh_verts, Some e) => (mesh_verts, Raised e)
  end.

(** [twist_mesh]: the coordinates of [mesh.verts] after the call, and what
    the call did. *)
Definition twist_mesh (bb : BoundBox) (vertex_list mesh_verts : list Vert)
    (Axis : string) (Angle StartFrom EndAt : R) : list Vert * outcome :=
  let '(StartFrom, EndAt) :=
    (Rmin StartFrom EndAt / 100, Rmax StartFrom EndAt / 100)%R in
  let Angle := (PI * Angle / 180)%R in
  if String.eqb Axis "x" then
    let d := (max_x bb - min_x bb)%R in
    let rd := (EndAt - StartFrom)%R in
    finish (enumerate_update
              (twist_vertex co0 rot_x (min_x bb) d rd Angle StartFrom EndAt)
              vertex_list 0 mesh_verts)
  else if String.eqb Axis "y" then
    let d := (max_y bb - min_y bb)%R in
    let rd := (EndAt - StartFrom)%R in
    finish (enumerate_update
              (twist_vertex co1 rot_y (min_y bb) d rd Angle StartFrom EndAt)
              vertex_list 0 mesh_verts)
  else if String.eqb Axis "z" then
    let d := (max_z bb - min_z bb)%R in
    let rd := (EndAt - StartFrom)%R in
    finish (enumerate_update
              (twist_vertex co2 rot_z (min_z bb) d rd Angle StartFrom EndAt)
              vertex_list 0 mesh_verts)
  else (mesh_verts, Returned false).

End Twist.

(** ** mesh_twist.py: the callbacks of the plugin *)

Module TwistPlugin.

(** A selected object of the host, seen through the getters the plugin
    calls: [getData()] is the NMesh whose [verts] have the coordinates
    given, [getBoundBox()] the list of the corners of its bounding box. *)
Record BObject : Type := mkObject {
  getType : string;
  getName : string;
  getData : list Vert;
  getBoundBox : list Vert
}.

(** The global [mesh]: [None], the empty list that [apply] stores, or the
    NMesh acquired, with the coordinates of its vertices.  Only the last is
    true in [if mesh]. *)
Inductive mesh_ref : Type :=
| MeshNone
| MeshEmptyList
| MeshData (mesh_verts : list Vert).

(** The module globals; [bounds] is [None] while [min_x], ..., [max_z] are
    (they are assigned together), and [Info_text] is [Info.text]. *)
Record globals : Type := mkGlobals {
  vertex_list : list Vert;
  mesh : mesh_ref;
  bounds : option Twist.BoundBox;
  Info_text : string
}.

Definition initial : globals :=
  mkGlobals [] MeshNone None "No mesh selected".

Inductive error : Type :=
| PyExn (e : exn)
| KeyError
| TypeError.

(** What a callback did: the globals after it, the coordinates it handed
    to the host with [mesh.update()] if it called it, and the exception it
    raised if it did. *)
Record effect : Type := mkEffect {
  after : globals;
  updated : option (list Vert);
  raised : option error
}.

(** [min(lst)] and [max(lst)] *)
Definition py_min (l : list R) : result R :=
  match l with
  | [] => Raise ValueError
  | x :: l' => Ok (fold_left Rmin l' x)
  end.

Definition py_max (l : list R) : result R :=
  match l with
  | [] => Raise ValueError
  | x :: l' => Ok (fold_left Rmax l' x)
  end.

(** The six assignments [min_x = min([x for x,_,_ in object.getBoundBox()])]
    to [max_z = ...]; the first of them raises when the list is empty. *)
Definition extents (bbox : list Vert) : result Twist.BoundBox :=
  match py_min (map Twist.co0 bbox) with Raise e => Raise e | Ok min_x =>
  match py_max (map Twist.co0 bbox) with Raise e => Raise e | Ok max_x =>
  match py_min (map Twist.co1 bbox) with Raise e => Raise e | Ok min_y =>
  match py_max (map Twist.co1 bbox) with Raise e => Raise e | Ok max_y =>
  match py_min (map Twist.co2 bbox) with Raise e => Raise e | Ok min_z =>
  match py_max (map Twist.co2 bbox) with Raise e => Raise e | Ok max_z =>
  Ok (Twist.mkBoundBox min_x max_x min_y max_y min_z max_z)
  end end end end end end.

(** The loop of [get_selected] over [Blender.Object.GetSelected()]. *)
Fixpoint get_selected_loop (selected : list BObject) (g : globals) : effect :=
  match selected with
  | [] => mkEffect (mkGlobals (vertex_list g) (mesh g) (bounds g)
                      "No mesh selected") None None
  | object :: rest =>
      if String.eqb (getType object) "Mesh" then
        let Info := String.append (getName object) " selected" in
        match extents (getBoundBox object) with
        | Ok bb =>
            mkEffect (mkGlobals (getData object) (MeshData (getData object))
                        (Some bb) Info) None None
        | Raise e =>
            mkEffect (mkGlobals (getData object) (MeshData (getData object))
                        (bounds g) Info) None (Some (PyExn e))
        end
      else get_selected_loop rest g
  end.

Definition get_selected (selected : list BObject) (g : globals) : effect :=
  match mesh g with
  | MeshData _ => mkEffect g None None
  | _ => get_selected_loop selected g
  end.

Definition cancel (g : globals) : effect :=
  let reset := mkGlobals [] MeshNone (bounds g) "No mesh selected" in
  match mesh g with
  | MeshData mesh_verts =>
      match Twist.enumerate_update (fun p => Ok p) (vertex_list g) 0
              mesh_verts with
      | (mesh_verts', None) => mkEffect reset (Some mesh_verts') None
      | (mesh_verts', Some e) =>
          mkEffect (mkGlobals (vertex_list g) (MeshData mesh_verts')
                      (bounds g) (Info_text g)) None (Some (PyExn e))
      end
  | _ => mkEffect reset None None
  end.

Definition AXIS_X : Z := 1.
Definition AXIS_Y : Z := 2.
Definition AXIS_Z : Z := 3.

(** [{AXIS_X: 'x', AXIS_Y: 'y', AXIS_Z: 'z'}[k]] *)
Definition axis (k : Z) : option string :=
  if k =? AXIS_X then Some "x"%string
  else if k =? AXIS_Y then Some "y"%string
  else if k =? AXIS_Z then Some "z"%string
  else None.

(** [update()], given the values of the widgets [Axis], [Angle],
    [StartFrom] and [EndAt]. *)
Definition update (g : globals) (Axis_value : Z)
    (Angle_value StartFrom_value EndAt_value : R) : effect :=
  match mesh g with
  | MeshData mesh_verts =>
      match axis Axis_value with
      | None => mkEffect g None (Some KeyError)
      | Some Axis =>
          match bounds g with
          | None => mkEffect g None (Some TypeError)
          | Some bb =>
              let '(mesh_verts', out) :=
                Twist.twist_mesh bb (vertex_list g) mesh_verts Axis
                  Angle_value StartFrom_value EndAt_value in
              let g' := mkGlobals (vertex_list g) (MeshData mesh_verts')
                          (bounds g) (Info_text g) in
              match out with
              | Twist.Returned b =>
                  mkEffect g' (if b then Some mesh_verts' else None) None
              | Twist.Raised e => mkEffect g' None (Some (PyExn e))
              end
          end
      end
  | _ => mkEffect g None None
  end.

Definition live_update (LiveUpdate_state : bool) (g : globals)
    (Axis_value : Z) (Angle_value StartFrom_value EndAt_value : R) : effect :=
  if LiveUpdate_state
  then update g Axis_value Angle_value StartFrom_value EndAt_value
  else mkEffect g None None.

Definition apply (g : globals) (Axis_value : Z)
    (Angle_value StartFrom_value EndAt_value : R) : effect :=
  match mesh g with
  | MeshData _ =>
      let e := update g Axis_value Angle_value StartFrom_value EndAt_value in
      match raised e with
      | Some _ => e
      | None =>
          mkEffect (mkGlobals [] MeshEmptyList (bounds (after e))
                      "No mesh selected") (updated e) None
      end
  | _ => mkEffect g None None
  end.

End TwistPlugin.

(** ** gui.py: the value widgets *)

Module Gui.

(** The values that reach a widget: numbers, [True] and [False], strings,
    [None] and tuples. *)
Inductive number : Type :=
| NInt (n : Z)
| NFloat (x : R).

#[warnings="-register-all"]
Inductive pyval : Type :=
| PNum (x : number)
| PBool (b : bool)
| PStr (s : string)
| PNone
| PTuple (items : list pyval).

Inductive error : Type :=
| TypeError
| PyExn (e : exn).

Inductive res (A : Type) : Type :=
| Val (a : A)
| Err (e : error).

Arguments Val {A} a.
Arguments Err {A} e.

(** [int(x)] of a number truncates towards zero; [float(x)] *)
Definition py_int (x : number) : Z :=
  match x with
  | NInt n => n
  | NFloat r => if Rle_dec 0 r then Int_part r else - Int_part (- r)
  end.

Definition py_float (x : number) : R :=
  match x with
  | NInt n => IZR n
  | NFloat r => r
  end.

Definition Rleb (a b : R) : bool := if Rle_dec a b then true else false.
Definition Rltb (a b : R) : bool := if Rlt_dec a b then true else false.

(** [type(v) == types.IntType] and [type(v) == types.FloatType], with the
    number held when they are true; [True] is not of [IntType]. *)
Definition typed_int (v : pyval) : option Z :=
  match v with
  | PNum (NInt n) => Some n
  | _ => None
  end.

Definition typed_float (v : pyval) : option R :=
  match v with
  | PNum (NFloat x) => Some x
  | _ => None
  end.

(** [v == k] for an integer [k] *)
Definition eq_int (v : pyval) (k : Z) : bool :=
  match v with
  | PNum (NInt n) => n =? k
  | PNum (NFloat x) => if Req_dec_T x (IZR k) then true else false
  | PBool b => (if b then 1 else 0) =? k
  | _ => false
  end.

(** *** Toggle *)

Module Toggle.

(** [__setstate], which [__init__] calls with [onoff]: [state == True] *)
Definition __setstate (state : pyval) : bool := eq_int state 1.

Definition __init__ (onoff : pyval) : bool := __setstate onoff.

Definition event (state : bool) : bool := negb state.

End Toggle.

(** *** Number and its subclasses

    [Number] is abstract: it is instantiated by [IntNumber] and
    [IntSlider], which convert [value], [min] and [max] with [int], and by
    [FloatNumber] and [FloatSlider], which convert them with [float].  The
    three attributes of a widget therefore have one type [T], at which
    [numeric] returns its argument; [le] and [lt] are [<=] and [<] on [T],
    and [typed v] holds the number [v] when [type(v)] is the type of
    [self.__value]. *)

Module Number.

Section Number.

Variable T : Type.
Variables le lt : T -> T -> bool.
Variable typed : pyval -> option T.

Record t : Type := mk { value : T; min : T; max : T }.

Definition __init__ (value min max : T) : t :=
  if le min max then mk value min max else mk value max min.

(** The builtins [min(a, b)] and [max(a, b)]: the first argument unless the
    second is smaller, respectively greater. *)
Definition builtin_min (a b : T) : T := if lt b a then b else a.
Definition builtin_max (a b : T) : T := if lt a b then b else a.

Definition _setvalue (self : t) (v : pyval) : res t :=
  match typed v with
  | Some x =>
      Val (mk (builtin_max (builtin_min x (max self)) (min self))
              (min self) (max self))
  | None => Err TypeError
  end.

(** [event], where [val] is [self.blender_obj.val]; no callback is set. *)
Definition event (self : t) (val : pyval) : res t := _setvalue self val.

End Number.

Arguments value {T} _.
Arguments min {T} _.
Arguments max {T} _.

End Number.

Definition IntNumber (value min max : number) : Number.t Z :=
  Number.__init__ Z Z.leb (py_int value) (py_int min) (py_int max).

Definition IntSlider (value min max : number) : Number.t Z :=
  Number.__init__ Z Z.leb (py_int value) (py_int min) (py_int max).

Definition FloatNumber (value min max : number) : Number.t R :=
  Number.__init__ R Rleb (py_float value) (py_float min) (py_float max).

Definition FloatSlider (value min max : number) : Number.t R :=
  Number.__init__ R Rleb (py_float value) (py_float min) (py_float max).

(** Assignment to [value] and [event] of a widget of integers and of a
    widget of floats. *)
Definition int_setvalue : Number.t Z -> pyval -> res (Number.t Z) :=
  Number._setvalue Z Z.ltb typed_int.

Definition float_setvalue : Number.t R -> pyval -> res (Number.t R) :=
  Number._setvalue R Rltb typed_float.

(** *** MultipleSelect, RadioButtons and MultipleToggle *)

Module MultipleSelect.

Record t : Type := mk {
  available_values : list Z;
  titles : list string;
  selected : Z
}.

(** The loop of [__init__] over [options], from the running [value]. *)
Fixpoint parse (options : list pyval) (value : Z)
    : res (list Z * list string) :=
  match options with
  | [] => Val ([], [])
  | PStr item :: rest =>
      let value := value + 1 in
      match parse rest value with
      | Val (values, titles) => Val (value :: values, item :: titles)
      | Err e => Err e
      end
  | PTuple [PStr item0; PNum (NInt item1)] :: rest =>
      match parse rest item1 with
      | Val (values, titles) => Val (item1 :: values, item0 :: titles)
      | Err e => Err e
      end
  | _ => Err TypeError
  end.

(** [lst.index(value)]: the first position that holds a value equal to
    [value], [None] for [ValueError]. *)
Fixpoint index (lst : list Z) (value : pyval) : option Z :=
  match lst with
  | [] => None
  | x :: rest =>
      if eq_int value x then Some 0
      else match index rest value with
           | Some i => Some (i + 1)
           | None => None
           end
  end.

Definition __setvalue (self : t) (value : pyval) : t :=
  let idx := match index (available_values self) value with
             | Some i => i
             | None => 0
             end in
  mk (available_values self) (titles self) idx.

Definition __init__ (options : list pyval) (default : pyval) : res t :=
  match parse options (-1) with
  | Err e => Err e
  | Val (values, titles) =>
      if Z.of_nat (length values) =? 0 then Err (PyExn ValueError)
      else Val (__setvalue (mk values titles 0) default)
  end.

Definition _setselected (self : t) (idx : Z) : t :=
  if (0 <=? idx) && (idx <? Z.of_nat (length (available_values self)))
  then mk (available_values self) (titles self) idx
  else mk (available_values self) (titles self) 0.

(** [lst[k]] *)
Definition getitem {A : Type} (lst : list A) (k : Z) : res A :=
  match py_index (Z.of_nat (length lst)) k with
  | Some p =>
      match nth_error lst (Z.to_nat p) with
      | Some x => Val x
      | None => Err (PyExn IndexError)
      end
  | None => Err (PyExn IndexError)
  end.

Definition __getvalue (self : t) : res Z :=
  getitem (available_values self) (selected self).

Definition __gettitle (self : t) : res string :=
  getitem (titles self) (selected self).

End MultipleSelect.

Module RadioButtons.


(** [event(index)], bound to the button of each option with its position *)
Definition event (self : MultipleSelect.t) (index : Z) : MultipleSelect.t :=
  MultipleSelect._setselected self index.

End RadioButtons.

Module MultipleToggle.

Definition event (self : MultipleSelect.t) : MultipleSelect.t :=
  MultipleSelect._setselected self (MultipleSelect.selected self + 1).

End MultipleToggle.

End Gui.

(** ** mesh_cylinder.py: the widgets and [create] *)

Module CylPlugin.

Definition XZ : Z := 1.
Definition XY : Z := 2.
Definition YZ : Z := 4.

Definition CENTER : Z := 256.
Definition CURSOR : Z := 512.

(** The widgets of the module that [create] reads; [Smooth] is the state
    of the toggle. *)
Record widgets : Type := mkWidgets {
  Radius : Gui.Number.t R;
  Height : Gui.Number.t R;
  CapDivisions : Gui.Number.t Z;
  OuterDivisions : Gui.Number.t Z;
  Segments : Gui.Number.t Z;
  Origin : Gui.MultipleSelect.t;
  Orientation : Gui.MultipleSelect.t;
  Smooth : bool
}.

(** The widgets as the module makes them when it is loaded. *)
Definition make_widgets : Gui.res widgets :=
  let Radius :=
    Gui.FloatNumber (Gui.NFloat 1) (Gui.NFloat (1 / 10000))
      (Gui.NFloat 100000000) in
  let Height :=
    Gui.FloatNumber (Gui.NFloat 3) (Gui.NFloat (1 / 10000))
      (Gui.NFloat 100000000) in
  let CapDivisions :=
    Gui.IntNumber (Gui.NInt 1) (Gui.NInt 1) (Gui.NInt 256) in
  let OuterDivisions :=
    Gui.IntNumber (Gui.NInt 1) (Gui.NInt 1) (Gui.NInt 256) in
  let Segments :=
    Gui.IntNumber (Gui.NInt 32) (Gui.NInt 3) (Gui.NInt 1024) in
  match Gui.MultipleSelect.__init__
          [Gui.PTuple [Gui.PStr "World center"; Gui.PNum (Gui.NInt CENTER)];
           Gui.PTuple [Gui.PStr "3D cursor"; Gui.PNum (Gui.NInt CURSOR)]]
          (Gui.PNum (Gui.NInt 0)) with
  | Gui.Err e => Gui.Err e
  | Gui.Val Origin =>
      match Gui.MultipleSelect.__init__
              [Gui.PTuple [Gui.PStr "xz"; Gui.PNum (Gui.NInt XZ)];
               Gui.PTuple [Gui.PStr "xy"; Gui.PNum (Gui.NInt XY)];
               Gui.PTuple [Gui.PStr "yz"; Gui.PNum (Gui.NInt YZ)]]
              (Gui.PNum (Gui.NInt XZ)) with
      | Gui.Err e => Gui.Err e
      | Gui.Val Orientation =>
          let Smooth := Gui.Toggle.__init__ (Gui.PBool true) in
          Gui.Val (mkWidgets Radius Height CapDivisions OuterDivisions
                     Segments Origin Orientation Smooth)
      end
  end.

(** The object that [create] leaves in the scene: the mesh handed to
    [PutRaw], and what [create] writes to the object, [None] where it
    writes nothing. *)
Record placed : Type := mkPlaced {
  data : NMesh;
  setLocation : option Vert;
  RotX : option R;
  RotY : option R
}.

(** [create()], where [cursor] is [Blender.Window.GetCursorPos()] *)
Definition create (w : widgets) (cursor : Vert) : Gui.res placed :=
  match Cyl.Cylinder (Gui.Number.value (Radius w))
          (Gui.Number.value (Height w)) (Gui.Number.value (Segments w))
          (Gui.Number.value (OuterDivisions w))
          (Gui.Number.value (CapDivisions w)) (Smooth w) with
  | Raise e => Gui.Err (Gui.PyExn e)
  | Ok poly =>
      match Gui.MultipleSelect.__getvalue (Origin w) with
      | Gui.Err e => Gui.Err e
      | Gui.Val origin =>
          let location := if origin =? CURSOR then Some cursor else None in
          match Gui.MultipleSelect.__getvalue (Orientation w) with
          | Gui.Err e => Gui.Err e
          | Gui.Val orientation =>
              if orientation =? XZ then
                Gui.Val (mkPlaced poly location None None)
              else if orientation =? XY then
                Gui.Val (mkPlaced poly location None (Some (PI / 2)%R))
              else if orientation =? YZ then
                Gui.Val (mkPlaced poly location (Some (PI / 2)%R) None)
              else Gui.Val (mkPlaced poly location None None)
          end
      end
  end.

End CylPlugin.

(** ** mesh_twist.py: the widgets and the callbacks that read them *)

Module TwistGui.

Record widgets : Type := mkWidgets {
  StartFrom : Gui.Number.t R;
  EndAt : Gui.Number.t R;
  Axis : Gui.MultipleSelect.t;
  Angle : Gui.Number.t R;
  LiveUpdate : bool
}.

(** The widgets as the module makes them when it is loaded. *)
Definition make_widgets : Gui.res widgets :=
  let StartFrom :=
    Gui.FloatSlider (Gui.NFloat 0) (Gui.NFloat 0) (Gui.NFloat 100) in
  let EndAt :=
    Gui.FloatSlider (Gui.NFloat 100) (Gui.NFloat 0) (Gui.NFloat 100) in
  match Gui.MultipleSelect.__init__
          [Gui.PTuple [Gui.PStr "X"; Gui.PNum (Gui.NInt TwistPlugin.AXIS_X)];
           Gui.PTuple [Gui.PStr "Y"; Gui.PNum (Gui.NInt TwistPlugin.AXIS_Y)];
           Gui.PTuple [Gui.PStr "Z"; Gui.PNum (Gui.NInt TwistPlugin.AXIS_Z)]]
          (Gui.PNum (Gui.NInt TwistPlugin.AXIS_Y)) with
  | Gui.Err e => Gui.Err e
  | Gui.Val Axis =>
      let Angle :=
        Gui.FloatSlider (Gui.NFloat 0) (Gui.NFloat 0)
          (Gui.NFloat (360 * 100)) in
      let LiveUpdate := Gui.Toggle.__init__ (Gui.PBool false) in
      Gui.Val (mkWidgets StartFrom EndAt Axis Angle LiveUpdate)
  end.

(** [update()], reading the widgets once the mesh is found to be held *)
Definition update (w : widgets) (g : TwistPlugin.globals)
    : TwistPlugin.effect :=
  match TwistPlugin.mesh g with
  | TwistPlugin.MeshData _ =>
      match Gui.MultipleSelect.__getvalue (Axis w) with
      | Gui.Val Axis_value =>
          TwistPlugin.update g Axis_value (Gui.Number.value (Angle w))
            (Gui.Number.value (StartFrom w)) (Gui.Number.value (EndAt w))
      | Gui.Err Gui.TypeError =>
          TwistPlugin.mkEffect g None (Some TwistPlugin.TypeError)
      | Gui.Err (Gui.PyExn e) =>
          TwistPlugin.mkEffect g None (Some (TwistPlugin.PyExn e))
      end
  | _ => TwistPlugin.mkEffect g None None
  end.

(** [live_update(_)], the callback of the sliders and of the axis buttons *)
Definition live_update (w : widgets) (g : TwistPlugin.globals)
    : TwistPlugin.effect :=
  if LiveUpdate w then update w g else TwistPlugin.mkEffect g None None.

End TwistGui.

(** ** mesh_sphere.py: the widgets and [create] *)

Module SphPlugin.

Definition XZ : Z := 1.
Definition XY : Z := 2.
Definition YZ : Z := 4.

Definition CENTER : Z := 256.
Definition CURSOR : Z := 512.

(** The widgets of the module that [create] reads; a toggle is given by
    its state. *)
Record widgets : Type := mkWidgets {
  Radius : Gui.Number.t R;
  UDivisions : Gui.Number.t Z;
  VDivisions : Gui.Number.t Z;
  Smooth : bool;
  Hemisphere : bool;
  Cap : bool;
  CapMethod : Gui.MultipleSelect.t;
  Percent : Gui.Number.t R;
  Origin : Gui.MultipleSelect.t;
  Orientation : Gui.MultipleSelect.t
}.

(** The widgets as the module makes them when it is loaded. *)
Definition make_widgets : Gui.res widgets :=
  let Radius :=
    Gui.FloatNumber (Gui.NInt 1) (Gui.NFloat (1 / 1000))
      (Gui.NFloat 100000000) in
  let UDivisions :=
    Gui.IntNumber (Gui.NInt 16) (Gui.NInt 3) (Gui.NInt 1024) in
  let VDivisions :=
    Gui.IntNumber (Gui.NInt 16) (Gui.NInt 3) (Gui.NInt 1024) in
  let Smooth := Gui.Toggle.__init__ (Gui.PBool true) in
  let Hemisphere := Gui.Toggle.__init__ (Gui.PBool false) in
  let Cap := Gui.Toggle.__init__ (Gui.PBool true) in
  match Gui.MultipleSelect.__init__
          [Gui.PStr "simple"; Gui.PStr "symmetrical"]
          (Gui.PNum (Gui.NInt 0)) with
  | Gui.Err e => Gui.Err e
  | Gui.Val CapMethod =>
      let Percent :=
        Gui.FloatSlider (Gui.NInt 50) (Gui.NInt 0) (Gui.NInt 100) in
      match Gui.MultipleSelect.__init__
              [Gui.PTuple [Gui.PStr "World center";
                           Gui.PNum (Gui.NInt CENTER)];
               Gui.PTuple [Gui.PStr "3D cursor"; Gui.PNum (Gui.NInt CURSOR)]]
              (Gui.PNum (Gui.NInt 0)) with
      | Gui.Err e => Gui.Err e
      | Gui.Val Origin =>
          match Gui.MultipleSelect.__init__
                  [Gui.PTuple [Gui.PStr "xz"; Gui.PNum (Gui.NInt XZ)];
                   Gui.PTuple [Gui.PStr "xy"; Gui.PNum (Gui.NInt XY)];
                   Gui.PTuple [Gui.PStr "yz"; Gui.PNum (Gui.NInt YZ)]]
                  (Gui.PNum (Gui.NInt XZ)) with
          | Gui.Err e => Gui.Err e
          | Gui.Val Orientation =>
              Gui.Val (mkWidgets Radius UDivisions VDivisions Smooth
                         Hemisphere Cap CapMethod Percent Origin Orientation)
          end
      end
  end.

(** The object that [create] leaves in the scene: the mesh handed to
    [PutRaw], and what [create] writes to the object, [None] where it
    writes nothing. *)
Record placed : Type := mkPlaced {
  data : NMesh;
  setLocation : option Vert;
  RotX : option R;
  RotY : option R
}.

(** The call of [Sphere2] or of [Sphere] in [create].  [Sphere2] takes the
    integer [CapMethod.value] as [CapSymmetrical], which it only tests for
    truth. *)
Definition create_obj (w : widgets) : Gui.res NMesh :=
  if Hemisphere w then
    match Gui.MultipleSelect.__getvalue (CapMethod w) with
    | Gui.Err e => Gui.Err e
    | Gui.Val CapMethod_value =>
        match Sph.Sphere2 (Gui.Number.value (Radius w))
                (Gui.Number.value (UDivisions w))
                (Gui.Number.value (VDivisions w))
                (Gui.Number.value (Percent w)) (Cap w)
                (negb (CapMethod_value =? 0)) (Smooth w) with
        | Ok poly => Gui.Val poly
        | Raise e => Gui.Err (Gui.PyExn e)
        end
    end
  else
    match Sph.Sphere (Gui.Number.value (Radius w))
            (Gui.Number.value (UDivisions w))
            (Gui.Number.value (VDivisions w)) (Smooth w) with
    | Ok poly => Gui.Val poly
    | Raise e => Gui.Err (Gui.PyExn e)
    end.

(** [create()], where [cursor] is [Blender.Window.GetCursorPos()] *)
Definition create (w : widgets) (cursor : Vert) : Gui.res placed :=
  match create_obj w with
  | Gui.Err e => Gui.Err e
  | Gui.Val poly =>
      match Gui.MultipleSelect.__getvalue (Origin w) with
      | Gui.Err e => Gui.Err e
      | Gui.Val origin =>
          let location := if origin =? CURSOR then Some cursor else None in
          match Gui.MultipleSelect.__getvalue (Orientation w) with
          | Gui.Err e => Gui.Err e
          | Gui.Val orientation =>
              if orientation =? XZ then
                Gui.Val (mkPlaced poly location None None)
              else if orientation =? XY then
                Gui.Val (mkPlaced poly location None (Some (PI / 2)%R))
              else if orientation =? YZ then
                Gui.Val (mkPlaced poly location (Some (PI / 2)%R) None)
              else Gui.Val (mkPlaced poly location None None)
          end
      end
  end.

End SphPlugin.

(** ** gui.py: the event tables of Interface *)

Module Interface.

(** Handlers are functions, which the tables compare by identity: a
    handler is named by a number.  A dict is the list of its items, with
    one item for a key. *)
Fixpoint dict_get {K A : Type} (eqb : K -> K -> bool) (d : list (K * A))
    (k : K) : option A :=
  match d with
  | [] => None
  | (k', a) :: rest => if eqb k' k then Some a else dict_get eqb rest k
  end.

Fixpoint dict_set {K A : Type} (eqb : K -> K -> bool) (d : list (K * A))
    (k : K) (a : A) : list (K * A) :=
  match d with
  | [] => [(k, a)]
  | (k', a') :: rest =>
      if eqb k' k then (k, a) :: rest else (k', a') :: dict_set eqb rest k a
  end.

(** [lst.remove(x)] where it succeeds, the list as it is where it raises
    [ValueError]. *)
Fixpoint remove_first (x : Z) (lst : list Z) : list Z :=
  match lst with
  | [] => []
  | y :: rest => if y =? x then rest else y :: remove_first x rest
  end.

(** The two tables, the class attribute [__modifiers] with the key codes
    of the host, and the attributes that track the modifier keys.  The
    name of the interface and its list of containers play no part in the
    events and are left out. *)
Record t : Type := mk {
  events_lookup : list (Z * list Z);
  button_events_lookup : list (Z * (Z * Gui.pyval));
  modifiers : list (Z * string);
  attrs : list (string * bool)
}.

Definition __init__ (modifiers : list (Z * string)) : t :=
  mk [] [] modifiers
     (fold_left (fun attrs item => dict_set String.eqb attrs (snd item) false)
        modifiers []).

Definition __bind_single (self : t) (function event : Z) : t :=
  match dict_get Z.eqb (events_lookup self) event with
  | Some chain =>
      if existsb (Z.eqb function) chain then self
      else mk (dict_set Z.eqb (events_lookup self) event (function :: chain))
              (button_events_lookup self) (modifiers self) (attrs self)
  | None =>
      mk (dict_set Z.eqb (events_lookup self) event [function])
         (button_events_lookup self) (modifiers self) (attrs self)
  end.

(** The argument [event] of [bind]: one event, or a tuple or list of
    events. *)
Inductive events : Type :=
| One (event : Z)
| Many (event : list Z).

Definition bind (self : t) (function : Z) (event : events) : t :=
  match event with
  | Many es => fold_left (fun self e => __bind_single self function e) es self
  | One e => __bind_single self function e
  end.

(** [unbind], with the value it returns *)
Definition unbind (self : t) (function : Z) : t * bool :=
  (mk (map (fun item => (fst item, remove_first function (snd item)))
         (events_lookup self))
      (button_events_lookup self) (modifiers self) (attrs self),
   existsb (fun item => existsb (Z.eqb function) (snd item))
     (events_lookup self)).

(** [bind_button_event], with the event number it returns *)
Definition bind_button_event (self : t) (function : Z) (constant : Gui.pyval)
    : t * Z :=
  let id := Z.of_nat (length (button_events_lookup self)) + 1 in
  (mk (events_lookup self)
      (dict_set Z.eqb (button_events_lookup self) id (function, constant))
      (modifiers self) (attrs self),
   id).

(** The loop of [__events_process] over a chain: the handlers it calls, in
    order, where [stops handler event value] says whether
    [handler(event, value)] returns something other than [None]. *)
Fixpoint call_chain (stops : Z -> Z -> Z -> bool) (event value : Z)
    (chain : list Z) : list Z :=
  match chain with
  | [] => []
  | handler :: rest =>
      if stops handler event value then [handler]
      else handler :: call_chain stops event value rest
  end.

(** [__events_process]: the handlers called and the interface after it. *)
Definition __events_process (self : t) (stops : Z -> Z -> Z -> bool)
    (event value : Z) : list Z * t :=
  let called :=
    match dict_get Z.eqb (events_lookup self) event with
    | Some chain => call_chain stops event value chain
    | None => []
    end in
  (called,
   match dict_get Z.eqb (modifiers self) event with
   | Some attr =>
       mk (events_lookup self) (button_events_lookup self) (modifiers self)
          (dict_set String.eqb (attrs self) attr (value =? 1))
   | None => self
   end).

(** [__button_events_process]: the call [function(extra)] it makes, if
    any. *)
Definition __button_events_process (self : t) (event : Z)
    : option (Z * Gui.pyval) :=
  dict_get Z.eqb (button_events_lookup self) event.

End Interface.

(** ** mesh_torus.py: the widgets and [create] *)

Module TorPlugin.

Definition XZ : Z := 1.
Definition XY : Z := 2.
Definition YZ : Z := 4.

Definition CENTER : Z := 256.
Definition CURSOR : Z := 512.

(** The widgets of the module that [create] reads; a toggle is given by
    its state. *)
Record widgets : Type := mkWidgets {
  Smooth : bool;
  MajorRadius : Gui.Number.t R;
  MinorRadius : Gui.Number.t R;
  MajorDivisions : Gui.Number.t Z;
  MinorDivisions : Gui.Number.t Z;
  StartMinorAngle : Gui.Number.t R;
  StartMajorAngle : Gui.Number.t R;
  EndMajorAngle : Gui.Number.t R;
  CapStart : bool;
  CapEnd : bool;
  Cut : bool;
  Origin : Gui.MultipleSelect.t;
  Orientation : Gui.MultipleSelect.t
}.

(** The widgets as the module makes them when it is loaded. *)
Definition make_widgets : Gui.res widgets :=
  let Smooth := Gui.Toggle.__init__ (Gui.PBool true) in
  let MajorRadius :=
    Gui.FloatNumber (Gui.NFloat 1) (Gui.NFloat (1 / 100000))
      (Gui.NFloat 100000000) in
  let MinorRadius :=
    Gui.FloatNumber (Gui.NFloat (1 / 4)) (Gui.NFloat (1 / 100000))
      (Gui.NFloat 100000000) in
  let MajorDivisions :=
    Gui.IntNumber (Gui.NInt 32) (Gui.NInt 3) (Gui.NInt 1024) in
  let MinorDivisions :=
    Gui.IntNumber (Gui.NInt 16) (Gui.NInt 3) (Gui.NInt 1024) in
  let StartMinorAngle :=
    Gui.FloatSlider (Gui.NInt 0) (Gui.NInt 0) (Gui.NInt 360) in
  let StartMajorAngle :=
    Gui.FloatSlider (Gui.NInt 0) (Gui.NInt 0) (Gui.NInt 360) in
  let EndMajorAngle :=
    Gui.FloatSlider (Gui.NInt 0) (Gui.NInt 0) (Gui.NInt 360) in
  let CapStart := Gui.Toggle.__init__ (Gui.PBool true) in
  let CapEnd := Gui.Toggle.__init__ (Gui.PBool true) in
  let Cut := Gui.Toggle.__init__ (Gui.PBool false) in
  match Gui.MultipleSelect.__init__
          [Gui.PTuple [Gui.PStr "World center"; Gui.PNum (Gui.NInt CENTER)];
           Gui.PTuple [Gui.PStr "3D cursor"; Gui.PNum (Gui.NInt CURSOR)]]
          (Gui.PNum (Gui.NInt 0)) with
  | Gui.Err e => Gui.Err e
  | Gui.Val Origin =>
      match Gui.MultipleSelect.__init__
              [Gui.PTuple [Gui.PStr "xz"; Gui.PNum (Gui.NInt XZ)];
               Gui.PTuple [Gui.PStr "xy"; Gui.PNum (Gui.NInt XY)];
               Gui.PTuple [Gui.PStr "yz"; Gui.PNum (Gui.NInt YZ)]]
              (Gui.PNum (Gui.NInt XZ)) with
      | Gui.Err e => Gui.Err e
      | Gui.Val Orientation =>
          Gui.Val (mkWidgets Smooth MajorRadius MinorRadius MajorDivisions
                     MinorDivisions StartMinorAngle StartMajorAngle
                     EndMajorAngle CapStart CapEnd Cut Origin Orientation)
      end
  end.

(** The object that [create] leaves in the scene: the mesh handed to
    [PutRaw], and what [create] writes to the object, [None] where it
    writes nothing. *)
Record placed : Type := mkPlaced {
  data : NMesh;
  setLocation : option Vert;
  RotX : option R;
  RotY : option R
}.

(** The call of [Torus2] or of [Torus] in [create] *)
Definition create_obj (w : widgets) : result NMesh :=
  if Cut w then
    Tor.Torus2 (Gui.Number.value (MajorRadius w))
      (Gui.Number.value (MinorRadius w))
      (Gui.Number.value (MajorDivisions w))
      (Gui.Number.value (MinorDivisions w))
      (Gui.Number.value (StartMajorAngle w)) (CapStart w)
      (Gui.Number.value (EndMajorAngle w)) (CapEnd w)
      (Gui.Number.value (StartMinorAngle w)) (Smooth w)
  else
    Tor.Torus (Gui.Number.value (MajorRadius w))
      (Gui.Number.value (MinorRadius w))
      (Gui.Number.value (MajorDivisions w))
      (Gui.Number.value (MinorDivisions w))
      (Gui.Number.value (StartMinorAngle w)) (Smooth w).

(** [create()], where [cursor] is [Blender.Window.GetCursorPos()] *)
Definition create (w : widgets) (cursor : Vert) : Gui.res placed :=
  match create_obj w with
  | Raise e => Gui.Err (Gui.PyExn e)
  | Ok poly =>
      match Gui.MultipleSelect.__getvalue (Origin w) with
      | Gui.Err e => Gui.Err e
      | Gui.Val origin =>
          let location := if origin =? CURSOR then Some cursor else None in
          match Gui.MultipleSelect.__getvalue (Orientation w) with
          | Gui.Err e => Gui.Err e
          | Gui.Val orientation =>
              if orientation =? XZ then
                Gui.Val (mkPlaced poly location None None)
              else if orientation =? XY then
                Gui.Val (mkPlaced poly location None (Some (PI / 2)%R))
              else if orientation =? YZ then
                Gui.Val (mkPlaced poly location (Some (PI / 2)%R) None)
              else Gui.Val (mkPlaced poly location None None)
          end
      end
  end.

End TorPlugin.

(** ** mesh_tube.py: the widgets and [create] *)

Module TubPlugin.

Definition XZ : Z := 1.
Definition XY : Z := 2.
Definition YZ : Z := 4.

Definition CENTER : Z := 256.
Definition CURSOR : Z := 512.

(** The widgets of the module that [create] reads; a toggle is given by
    its state. *)
Record widgets : Type := mkWidgets {
  InnerRadius : Gui.Number.t R;
  OuterRadius : Gui.Number.t R;
  Height : Gui.Number.t R;
  InnerDivisions : Gui.Number.t Z;
  OuterDivisions : Gui.Number.t Z;
  CapDivisions : Gui.Number.t Z;
  Segments : Gui.Number.t Z;
  UseAngles : bool;
  StartAngle : Gui.Number.t R;
  EndAngle : Gui.Number.t R;
  Origin : Gui.MultipleSelect.t;
  Orientation : Gui.MultipleSelect.t;
  Smooth : bool
}.

(** The widgets as the module makes them when it is loaded. *)
Definition make_widgets : Gui.res widgets :=
  let InnerRadius :=
    Gui.FloatNumber (Gui.NFloat 1) (Gui.NFloat (1 / 10000))
      (Gui.NFloat 100000000) in
  let OuterRadius :=
    Gui.FloatNumber (Gui.NFloat 2) (Gui.NFloat (1 / 10000))
      (Gui.NFloat 100000000) in
  let Height :=
    Gui.FloatNumber (Gui.NFloat 5) (Gui.NFloat (1 / 10000))
      (Gui.NFloat 100000000) in
  let InnerDivisions :=
    Gui.IntNumber (Gui.NInt 1) (Gui.NInt 1) (Gui.NInt 512) in
  let OuterDivisions :=
    Gui.IntNumber (Gui.NInt 1) (Gui.NInt 1) (Gui.NInt 512) in
  let CapDivisions :=
    Gui.IntNumber (Gui.NInt 1) (Gui.NInt 1) (Gui.NInt 256) in
  let Segments :=
    Gui.IntNumber (Gui.NInt 32) (Gui.NInt 3) (Gui.NInt 1024) in
  let UseAngles := Gui.Toggle.__init__ (Gui.PBool false) in
  let StartAngle :=
    Gui.FloatSlider (Gui.NInt 0) (Gui.NInt 0) (Gui.NInt 360) in
  let EndAngle :=
    Gui.FloatSlider (Gui.NInt 0) (Gui.NInt 0) (Gui.NInt 360) in
  match Gui.MultipleSelect.__init__
          [Gui.PTuple [Gui.PStr "World center"; Gui.PNum (Gui.NInt CENTER)];
           Gui.PTuple [Gui.PStr "3D cursor"; Gui.PNum (Gui.NInt CURSOR)]]
          (Gui.PNum (Gui.NInt 0)) with
  | Gui.Err e => Gui.Err e
  | Gui.Val Origin =>
      match Gui.MultipleSelect.__init__
              [Gui.PTuple [Gui.PStr "xz"; Gui.PNum (Gui.NInt XZ)];
               Gui.PTuple [Gui.PStr "xy"; Gui.PNum (Gui.NInt XY)];
               Gui.PTuple [Gui.PStr "yz"; Gui.PNum (Gui.NInt YZ)]]
              (Gui.PNum (Gui.NInt XZ)) with
      | Gui.Err e => Gui.Err e
      | Gui.Val Orientation =>
          let Smooth := Gui.Toggle.__init__ (Gui.PBool true) in
          Gui.Val (mkWidgets InnerRadius OuterRadius Height InnerDivisions
                     OuterDivisions CapDivisions Segments UseAngles
                     StartAngle EndAngle Origin Orientation Smooth)
      end
  end.

(** The object that [create] leaves in the scene: the mesh handed to
    [PutRaw], and what [create] writes to the object, [None] where it
    writes nothing. *)
Record placed : Type := mkPlaced {
  data : NMesh;
  setLocation : option Vert;
  RotX : option R;
  RotY : option R
}.

(** [create()], where [cursor] is [Blender.Window.GetCursorPos()] *)
Definition create (w : widgets) (cursor : Vert) : Gui.res placed :=
  match Tub.Tube (Gui.Number.value (InnerRadius w))
          (Gui.Number.value (OuterRadius w)) (Gui.Number.value (Height w))
          (Gui.Number.value (InnerDivisions w))
          (Gui.Number.value (OuterDivisions w))
          (Gui.Number.value (CapDivisions w))
          (Gui.Number.value (Segments w)) (Smooth w)
          (Gui.Number.value (StartAngle w)) (Gui.Number.value (EndAngle w))
          (UseAngles w) with
  | Raise e => Gui.Err (Gui.PyExn e)
  | Ok poly =>
      match Gui.MultipleSelect.__getvalue (Origin w) with
      | Gui.Err e => Gui.Err e
      | Gui.Val origin =>
          let location := if origin =? CURSOR then Some cursor else None in
          match Gui.MultipleSelect.__getvalue (Orientation w) with
          | Gui.Err e => Gui.Err e
          | Gui.Val orientation =>
              if orientation =? XZ then
                Gui.Val (mkPlaced poly location None None)
              else if orientation =? XY then
                Gui.Val (mkPlaced poly location None (Some (PI / 2)%R))
              else if orientation =? YZ then
                Gui.Val (mkPlaced poly location (Some (PI / 2)%R) None)
              else Gui.Val (mkPlaced poly location None None)
          end
      end
  end.

End TubPlugin.

(** ** mesh_disc.py: the widgets and [create] *)

Module DscPlugin.

Definition XZ : Z := 1.
Definition XY : Z := 2.
Definition YZ : Z := 4.

Definition CENTER : Z := 256.
Definition CURSOR : Z := 512.

Record widgets : Type := mkWidgets {
  InnerRadius : Gui.Number.t R;
  OuterRadius : Gui.Number.t R;
  Segments : Gui.Number.t Z;
  Subdivisions : Gui.Number.t Z;
  Center : Gui.MultipleSelect.t;
  Orientation : Gui.MultipleSelect.t
}.

(** The widgets as the module makes them when it is loaded. *)
Definition make_widgets : Gui.res widgets :=
  let InnerRadius :=
    Gui.FloatNumber (Gui.NFloat (1 / 2)) (Gui.NFloat (1 / 100000))
      (Gui.NFloat 100000000) in
  let OuterRadius :=
    Gui.FloatNumber (Gui.NFloat 1) (Gui.NFloat (1 / 100000))
      (Gui.NFloat 100000000) in
  let Segments :=
    Gui.IntSlider (Gui.NInt 32) (Gui.NInt 3) (Gui.NInt 1024) in
  let Subdivisions :=
    Gui.IntSlider (Gui.NInt 1) (Gui.NInt 1) (Gui.NInt 256) in
  match Gui.MultipleSelect.__init__
          [Gui.PTuple [Gui.PStr "World center"; Gui.PNum (Gui.NInt CENTER)];
           Gui.PTuple [Gui.PStr "3D cursor"; Gui.PNum (Gui.NInt CURSOR)]]
          (Gui.PNum (Gui.NInt 0)) with
  | Gui.Err e => Gui.Err e
  | Gui.Val Center =>
      match Gui.MultipleSelect.__init__
              [Gui.PTuple [Gui.PStr "xz"; Gui.PNum (Gui.NInt XZ)];
               Gui.PTuple [Gui.PStr "xy"; Gui.PNum (Gui.NInt XY)];
               Gui.PTuple [Gui.PStr "yz"; Gui.PNum (Gui.NInt YZ)]]
              (Gui.PNum (Gui.NInt XZ)) with
      | Gui.Err e => Gui.Err e
      | Gui.Val Orientation =>
          Gui.Val (mkWidgets InnerRadius OuterRadius Segments Subdivisions
                     Center Orientation)
      end
  end.

Record placed : Type := mkPlaced {
  data : NMesh;
  setLocation : option Vert;
  RotX : option R;
  RotY : option R
}.

(** [create()], where [cursor] is [Blender.Window.GetCursorPos()] *)
Definition create (w : widgets) (cursor : Vert) : Gui.res placed :=
  match Dsc.Disc (Gui.Number.value (InnerRadius w))
          (Gui.Number.value (OuterRadius w)) (Gui.Number.value (Segments w))
          (Gui.Number.value (Subdivisions w)) with
  | Raise e => Gui.Err (Gui.PyExn e)
  | Ok poly =>
      match Gui.MultipleSelect.__getvalue (Center w) with
      | Gui.Err e => Gui.Err e
      | Gui.Val origin =>
          let location := if origin =? CURSOR then Some cursor else None in
          match Gui.MultipleSelect.__getvalue (Orientation w) with
          | Gui.Err e => Gui.Err e
          | Gui.Val orientation =>
              if orientation =? XZ then
                Gui.Val (mkPlaced poly location None None)
              else if orientation =? XY then
                Gui.Val (mkPlaced poly location None (Some (PI / 2)%R))
              else if orientation =? YZ then
                Gui.Val (mkPlaced poly location (Some (PI / 2)%R) None)
              else Gui.Val (mkPlaced poly location None None)
          end
      end
  end.

End DscPlugin.

(** ** Vocabulary of the statements *)

(** The mesh [poly] after more vertices, or more faces, were appended. *)
Definition add_verts (poly : NMesh) (vs : list Vert) : NMesh :=
  mkMesh (verts poly ++ vs) (faces poly).

Definition add_faces (poly : NMesh) (fs : list Face) : NMesh :=
  mkMesh (verts poly) (faces poly ++ fs).

(** The position read by [lst[k]] when [k] is in range. *)
Definition resolve (len k : Z) : Z := if 0 <=? k then k else len + k.

Definition is_quad (f : Face) : bool := Nat.eqb (length (v f)) 4.
Definition is_tri (f : Face) : bool := Nat.eqb (length (v f)) 3.

Definition quads (poly : NMesh) : Z :=
  Z.of_nat (length (filter is_quad (faces poly))).
Definition tris (poly : NMesh) : Z :=
  Z.of_nat (length (filter is_tri (faces poly))).
Definition nverts (poly : NMesh) : Z := Z.of_nat (length (verts poly)).
Definition nfaces (poly : NMesh) : Z := Z.of_nat (length (faces poly)).

(** A builder call that raised: nothing was handed to [PutRaw]. *)
Definition aborts (r : result NMesh) : Prop :=
  match r with
  | Ok _ => False
  | Raise _ => True
  end.

(** The points of a ring of [n] vertices of radius [r] at height [z]. *)
Definition ring_pts (n : Z) (r z : R) : list Vert :=
  map (fun i =>
         let phi := (PI * 2 * IZR i / IZR n)%R in
         (r * cos phi, r * sin phi, z)%R) (xrange n).

(** The quads between the ring of [n] vertices that starts at position
    [r1] and the one that starts at [r2]. *)
Definition quad_strip (n r1 r2 : Z) (sm : bool) : list Face :=
  map (fun j => mkFace [r1 + j; r1 + (j + 1) mod n;
                        r2 + (j + 1) mod n; r2 + j] sm) (xrange n).

(** The skin of a stack of [tvc + 1] rings of [Segments] vertices. *)
Definition stack_skin (Segments tvc : Z) (sm : bool) : list Face :=
  flat_map (fun i => quad_strip Segments (Segments * i) (Segments * (i + 1)) sm)
           (xrange tvc).

(** The two cap fans of a cylinder of [len] vertices. *)
Definition cylinder_caps (len Segments : Z) (sm : bool) : list Face :=
  flat_map (fun j =>
              let j1 := (j + 1) mod Segments in
              [mkFace [len - 2; j; j1] sm;
               mkFace [len - 1; len - (j + 3); len - (j1 + 3)] sm])
           (xrange Segments).

(** The two pole fans of a sphere of [len] vertices. *)
Definition sphere_fans (len UDivisions : Z) (sm : bool) : list Face :=
  flat_map (fun k =>
              let j := (k + 1) mod UDivisions in
              [mkFace [len - 1; len - (k + 3); len - (j + 3)] sm;
               mkFace [len - 2; k; j] sm])
           (xrange UDivisions).

(** The points of the cross-section of a torus turned to [angle] degrees;
    [sma] is the start minor angle after the "deg 2 rad" line. *)
Definition torus_ring (MajorRadius MinorRadius : R) (MinorDivisions : Z)
    (sma angle : R) : list Vert :=
  map (fun i =>
         let phi := (PI * 2 * IZR i / IZR MinorDivisions + sma)%R in
         Tor.RotateZ angle
           (MajorRadius + MinorRadius * cos phi, 0, MinorRadius * sin phi)%R)
      (xrange MinorDivisions).

(** The skin of the full torus: the last strip wraps to the first ring. *)
Definition torus_skin (MajorDivisions MinorDivisions : Z) (sm : bool)
    : list Face :=
  flat_map (fun i =>
              quad_strip MinorDivisions (MinorDivisions * i)
                (MinorDivisions * ((i + 1) mod MajorDivisions)) sm)
           (xrange MajorDivisions).

(** The cap fans of the cut torus of [len] vertices. *)
Definition torus_cap_start (MinorDivisions : Z) (sm : bool) : list Face :=
  map (fun i => mkFace [0; i; i + 1] sm) (xrange (MinorDivisions - 1)).

Definition torus_cap_end (len MinorDivisions : Z) (sm : bool) : list Face :=
  map (fun i => mkFace [len - 1; len - (i + 1); len - (i + 2)] sm)
      (xrange (MinorDivisions - 1)).

(** A face is degenerate when it names one vertex twice. *)
Fixpoint has_dup (l : list Z) : bool :=
  match l with
  | [] => false
  | k :: l' => existsb (Z.eqb k) l' || has_dup l'
  end.

Definition degenerate (f : Face) : bool := has_dup (v f).

(** Gluing the vertices at positions [n], [n+1], ... onto [0], [1], ...:
    the seam of a revolution of [n] vertices closed by a copy of its first
    ring. *)
Definition glue (n : Z) (f : Face) : Face :=
  mkFace (map (fun k => k mod n) (v f)) (smooth f).

(** The twist axis of [twist_mesh]: the coordinate it reads, the lower
    extent and the extent of the bounding box on it, its rotation, and the
    fraction [t] of a vertex along it. *)
Definition axis_co (Axis : string) : Vert -> R :=
  if String.eqb Axis "x" then Twist.co0
  else if String.eqb Axis "y" then Twist.co1 else Twist.co2.

Definition axis_rot (Axis : string) : Vert -> R -> Vert :=
  if String.eqb Axis "x" then Twist.rot_x
  else if String.eqb Axis "y" then Twist.rot_y else Twist.rot_z.

Definition axis_lo (bb : Twist.BoundBox) (Axis : string) : R :=
  if String.eqb Axis "x" then Twist.min_x bb
  else if String.eqb Axis "y" then Twist.min_y bb else Twist.min_z bb.

Definition axis_extent (bb : Twist.BoundBox) (Axis : string) : R :=
  if String.eqb Axis "x" then (Twist.max_x bb - Twist.min_x bb)%R
  else if String.eqb Axis "y" then (Twist.max_y bb - Twist.min_y bb)%R
  else (Twist.max_z bb - Twist.min_z bb)%R.

Definition axis_t (bb : Twist.BoundBox) (Axis : string) (p : Vert) : R :=
  ((axis_co Axis p - axis_lo bb Axis) / axis_extent bb Axis)%R.

Definition is_axis (Axis : string) : Prop :=
  Axis = "x"%string \/ Axis = "y"%string \/ Axis = "z"%string.

(** The polar angle, in degrees from the north pole, of the [k]-th ring
    of the clipped sphere: the clip latitude [rng] lowered [k] times by
    [rng / VDivisions]. *)
Definition ring_angle (rng : R) (VDivisions k : Z) : R :=
  (rng - IZR k * (rng / IZR VDivisions))%R.

(** The rings of the clipped sphere. *)
Definition sphere2_rings (Radius : R) (UDivisions VDivisions : Z) (rng : R)
    : list Vert :=
  flat_map (fun k =>
              let theta := (ring_angle rng VDivisions k / 180 * PI)%R in
              ring_pts UDivisions (Radius * sin theta) (Radius * cos theta))
           (xrange (VDivisions - 1)).

(** The square of the distance of a point from the origin. *)
Definition norm2 (p : Vert) : R :=
  let '(x, y, z) := p in (x * x + y * y + z * z)%R.

(** The torus of revolution about the z axis with the major radius
    [Rmaj] and the minor radius [rmin], as the zero set of its quartic. *)
Definition on_torus (Rmaj rmin : R) (p : Vert) : Prop :=
  let '(x, y, z) := p in
  ((x * x + y * y + z * z + Rmaj * Rmaj - rmin * rmin)
   * (x * x + y * y + z * z + Rmaj * Rmaj - rmin * rmin)
   = 4 * (Rmaj * Rmaj) * (x * x + y * y))%R.

(** What the user does between acquiring a mesh and ending the session
    with Cancel or Apply: press "Get mesh" again, press "Update", or move
    a widget (which calls [live_update]). *)
Inductive action : Type :=
| DoGetSelected (selected : list TwistPlugin.BObject)
| DoUpdate (Axis_value : Z) (Angle_value StartFrom_value EndAt_value : R)
| DoLiveUpdate (LiveUpdate_state : bool) (Axis_value : Z)
    (Angle_value StartFrom_value EndAt_value : R).

Definition act (a : action) (g : TwistPlugin.globals) : TwistPlugin.effect :=
  match a with
  | DoGetSelected selected => TwistPlugin.get_selected selected g
  | DoUpdate k an st en => TwistPlugin.update g k an st en
  | DoLiveUpdate b k an st en => TwistPlugin.live_update b g k an st en
  end.

(** The globals after a run of actions, each started whether or not the
    one before raised (the host catches the exceptions of callbacks). *)
Definition session (acts : list action) (g : TwistPlugin.globals)
    : TwistPlugin.globals :=
  fold_left (fun g a => TwistPlugin.after (act a g)) acts g.

(** The first mesh object of a selection. *)
Definition first_mesh (selected : list TwistPlugin.BObject)
    : option TwistPlugin.BObject :=
  find (fun ob => String.eqb (TwistPlugin.getType ob) "Mesh") selected.

(** What holds from the acquisition of [ob] on: the baseline is that of
    [ob] and the mesh held has as many vertices. *)
Definition holds_mesh (ob : TwistPlugin.BObject) (g : TwistPlugin.globals)
    : Prop :=
  TwistPlugin.vertex_list g = TwistPlugin.getData ob /\
  exists cur,
    TwistPlugin.mesh g = TwistPlugin.MeshData cur /\
    length cur = length (TwistPlugin.getData ob).

(** Successive assignments to the [value] of a number widget, as its
    [event] makes them; the first one that raises ends the run. *)
Fixpoint assign_all {T : Type}
    (setvalue : Gui.Number.t T -> Gui.pyval -> Gui.res (Gui.Number.t T))
    (w : Gui.Number.t T) (vals : list Gui.pyval)
    : Gui.res (Gui.Number.t T) :=
  match vals with
  | [] => Gui.Val w
  | v :: rest =>
      match setvalue w v with
      | Gui.Val w' => assign_all setvalue w' rest
      | Gui.Err e => Gui.Err e
      end
  end.

(** What a script or the host does to a selection widget. *)
Inductive select_op : Type :=
| SetValue (value : Gui.pyval)
| ButtonEvent (index : Z)
| ToggleEvent.

Definition select (w : Gui.MultipleSelect.t) (op : select_op)
    : Gui.MultipleSelect.t :=
  match op with
  | SetValue value => Gui.MultipleSelect.__setvalue w value
  | ButtonEvent index => Gui.RadioButtons.event w index
  | ToggleEvent => Gui.MultipleToggle.event w
  end.

Definition select_all (w : Gui.MultipleSelect.t) (ops : list select_op)
    : Gui.MultipleSelect.t :=
  fold_left select ops w.

(** The selection is a position of the list of values, which is as long
    as the list of titles and not empty. *)
Definition select_ok (w : Gui.MultipleSelect.t) : Prop :=
  0 <= Gui.MultipleSelect.selected w
     < Z.of_nat (length (Gui.MultipleSelect.available_values w)) /\
  length (Gui.MultipleSelect.titles w)
    = length (Gui.MultipleSelect.available_values w).

(** An event of the host on a widget of the cylinder plugin: a new value
    of the host's number button, a click on the origin toggle, on the
    button [index] of the orientation, or on the smooth toggle. *)
Inductive cyl_event : Type :=
| RadiusEvent (val : Gui.pyval)
| HeightEvent (val : Gui.pyval)
| CapDivisionsEvent (val : Gui.pyval)
| OuterDivisionsEvent (val : Gui.pyval)
| SegmentsEvent (val : Gui.pyval)
| OriginEvent
| OrientationEvent (index : Z)
| SmoothEvent.

Definition cyl_handle (w : CylPlugin.widgets) (ev : cyl_event)
    : Gui.res CylPlugin.widgets :=
  let '(CylPlugin.mkWidgets Radius Height CapDivisions OuterDivisions
          Segments Origin Orientation Smooth) := w in
  match ev with
  | RadiusEvent val =>
      match Gui.Number.event R Gui.Rltb Gui.typed_float Radius val with
      | Gui.Val Radius' =>
          Gui.Val (CylPlugin.mkWidgets Radius' Height CapDivisions
                     OuterDivisions Segments Origin Orientation Smooth)
      | Gui.Err e => Gui.Err e
      end
  | HeightEvent val =>
      match Gui.Number.event R Gui.Rltb Gui.typed_float Height val with
      | Gui.Val Height' =>
          Gui.Val (CylPlugin.mkWidgets Radius Height' CapDivisions
                     OuterDivisions Segments Origin Orientation Smooth)
      | Gui.Err e => Gui.Err e
      end
  | CapDivisionsEvent val =>
      match Gui.Number.event Z Z.ltb Gui.typed_int CapDivisions val with
      | Gui.Val CapDivisions' =>
          Gui.Val (CylPlugin.mkWidgets Radius Height CapDivisions'
                     OuterDivisions Segments Origin Orientation Smooth)
      | Gui.Err e => Gui.Err e
      end
  | OuterDivisionsEvent val =>
      match Gui.Number.event Z Z.ltb Gui.typed_int OuterDivisions val with
      | Gui.Val OuterDivisions' =>
          Gui.Val (CylPlugin.mkWidgets Radius Height CapDivisions
                     OuterDivisions' Segments Origin Orientation Smooth)
      | Gui.Err e => Gui.Err e
      end
  | SegmentsEvent val =>
      match Gui.Number.event Z Z.ltb Gui.typed_int Segments val with
      | Gui.Val Segments' =>
          Gui.Val (CylPlugin.mkWidgets Radius Height CapDivisions
                     OuterDivisions Segments' Origin Orientation Smooth)
      | Gui.Err e => Gui.Err e
      end
  | OriginEvent =>
      Gui.Val (CylPlugin.mkWidgets Radius Height CapDivisions OuterDivisions
                 Segments (Gui.MultipleToggle.event Origin) Orientation
                 Smooth)
  | OrientationEvent index =>
      Gui.Val (CylPlugin.mkWidgets Radius Height CapDivisions OuterDivisions
                 Segments Origin (Gui.RadioButtons.event Orientation index)
                 Smooth)
  | SmoothEvent =>
      Gui.Val (CylPlugin.mkWidgets Radius Height CapDivisions OuterDivisions
                 Segments Origin Orientation (Gui.Toggle.event Smooth))
  end.

(** The widgets after the events [evs], from the widgets [w]; an event
    whose handler raises ends the run. *)
Fixpoint cyl_run (w : CylPlugin.widgets) (evs : list cyl_event)
    : Gui.res CylPlugin.widgets :=
  match evs with
  | [] => Gui.Val w
  | ev :: rest =>
      match cyl_handle w ev with
      | Gui.Val w' => cyl_run w' rest
      | Gui.Err e => Gui.Err e
      end
  end.

Definition cyl_session (evs : list cyl_event) : Gui.res CylPlugin.widgets :=
  match CylPlugin.make_widgets with
  | Gui.Val w => cyl_run w evs
  | Gui.Err e => Gui.Err e
  end.

(** A number widget with the bounds [lo] and [hi] whose value lies within
    them. *)
Definition int_within (lo hi : Z) (w : Gui.Number.t Z) : Prop :=
  Gui.Number.min w = lo /\ Gui.Number.max w = hi /\
  lo <= Gui.Number.value w <= hi.

Definition float_within (lo hi : R) (w : Gui.Number.t R) : Prop :=
  Gui.Number.min w = lo /\ Gui.Number.max w = hi /\
  (lo <= Gui.Number.value w <= hi)%R.

(** A selection widget with the values [values], one of them selected. *)
Definition selects_among (values : list Z) (w : Gui.MultipleSelect.t)
    : Prop :=
  select_ok w /\ Gui.MultipleSelect.available_values w = values.

Definition cyl_widgets_ok (w : CylPlugin.widgets) : Prop :=
  float_within (1 / 10000) 100000000 (CylPlugin.Radius w) /\
  float_within (1 / 10000) 100000000 (CylPlugin.Height w) /\
  int_within 1 256 (CylPlugin.CapDivisions w) /\
  int_within 1 256 (CylPlugin.OuterDivisions w) /\
  int_within 3 1024 (CylPlugin.Segments w) /\
  selects_among [CylPlugin.CENTER; CylPlugin.CURSOR] (CylPlugin.Origin w) /\
  selects_among [CylPlugin.XZ; CylPlugin.XY; CylPlugin.YZ]
    (CylPlugin.Orientation w).

(** An event of the host on a widget of the twist plugin.  The callbacks of
    the widgets do not touch the widgets, and an assignment that raises
    leaves its widget as it was. *)
Inductive twist_event : Type :=
| StartFromEvent (val : Gui.pyval)
| EndAtEvent (val : Gui.pyval)
| AxisEvent (index : Z)
| AngleEvent (val : Gui.pyval)
| LiveUpdateEvent.

Definition slide (w : Gui.Number.t R) (val : Gui.pyval) : Gui.Number.t R :=
  match Gui.Number.event R Gui.Rltb Gui.typed_float w val with
  | Gui.Val w' => w'
  | Gui.Err _ => w
  end.

Definition twist_handle (w : TwistGui.widgets) (ev : twist_event)
    : TwistGui.widgets :=
  let '(TwistGui.mkWidgets StartFrom EndAt Axis Angle LiveUpdate) := w in
  match ev with
  | StartFromEvent val =>
      TwistGui.mkWidgets (slide StartFrom val) EndAt Axis Angle LiveUpdate
  | EndAtEvent val =>
      TwistGui.mkWidgets StartFrom (slide EndAt val) Axis Angle LiveUpdate
  | AxisEvent index =>
      TwistGui.mkWidgets StartFrom EndAt (Gui.RadioButtons.event Axis index)
        Angle LiveUpdate
  | AngleEvent val =>
      TwistGui.mkWidgets StartFrom EndAt Axis (slide Angle val) LiveUpdate
  | LiveUpdateEvent =>
      TwistGui.mkWidgets StartFrom EndAt Axis Angle
        (Gui.Toggle.event LiveUpdate)
  end.

Definition twist_widgets_after (evs : list twist_event)
    : Gui.res TwistGui.widgets :=
  match TwistGui.make_widgets with
  | Gui.Val w => Gui.Val (fold_left twist_handle evs w)
  | Gui.Err e => Gui.Err e
  end.

Definition twist_widgets_ok (w : TwistGui.widgets) : Prop :=
  float_within 0 100 (TwistGui.StartFrom w) /\
  float_within 0 100 (TwistGui.EndAt w) /\
  float_within 0 (360 * 100) (TwistGui.Angle w) /\
  selects_among [TwistPlugin.AXIS_X; TwistPlugin.AXIS_Y; TwistPlugin.AXIS_Z]
    (TwistGui.Axis w).

(** An event on a number widget of integers; an assignment that raises
    leaves the widget as it was. *)
Definition spin (w : Gui.Number.t Z) (val : Gui.pyval) : Gui.Number.t Z :=
  match Gui.Number.event Z Z.ltb Gui.typed_int w val with
  | Gui.Val w' => w'
  | Gui.Err _ => w
  end.

(** A selection widget with the values and the titles given, one of the
    options selected. *)
Definition shows_among (values : list Z) (names : list string)
    (w : Gui.MultipleSelect.t) : Prop :=
  selects_among values w /\ Gui.MultipleSelect.titles w = names.

Module SphSession.

(** An event of the host on a widget of the sphere plugin. *)
Inductive event : Type :=
| OnRadius (val : Gui.pyval)
| OnUDivisions (val : Gui.pyval)
| OnVDivisions (val : Gui.pyval)
| OnSmooth
| OnHemisphere
| OnCap
| OnCapMethod
| OnPercent (val : Gui.pyval)
| OnOrigin
| OnOrientation (index : Z).

Definition handle (w : SphPlugin.widgets) (ev : event) : SphPlugin.widgets :=
  let '(SphPlugin.mkWidgets Radius UDivisions VDivisions Smooth Hemisphere
          Cap CapMethod Percent Origin Orientation) := w in
  match ev with
  | OnRadius val =>
      SphPlugin.mkWidgets (slide Radius val) UDivisions VDivisions Smooth
        Hemisphere Cap CapMethod Percent Origin Orientation
  | OnUDivisions val =>
      SphPlugin.mkWidgets Radius (spin UDivisions val) VDivisions Smooth
        Hemisphere Cap CapMethod Percent Origin Orientation
  | OnVDivisions val =>
      SphPlugin.mkWidgets Radius UDivisions (spin VDivisions val) Smooth
        Hemisphere Cap CapMethod Percent Origin Orientation
  | OnSmooth =>
      SphPlugin.mkWidgets Radius UDivisions VDivisions
        (Gui.Toggle.event Smooth) Hemisphere Cap CapMethod Percent Origin
        Orientation
  | OnHemisphere =>
      SphPlugin.mkWidgets Radius UDivisions VDivisions Smooth
        (Gui.Toggle.event Hemisphere) Cap CapMethod Percent Origin
        Orientation
  | OnCap =>
      SphPlugin.mkWidgets Radius UDivisions VDivisions Smooth Hemisphere
        (Gui.Toggle.event Cap) CapMethod Percent Origin Orientation
  | OnCapMethod =>
      SphPlugin.mkWidgets Radius UDivisions VDivisions Smooth Hemisphere
        Cap (Gui.MultipleToggle.event CapMethod) Percent Origin Orientation
  | OnPercent val =>
      SphPlugin.mkWidgets Radius UDivisions VDivisions Smooth Hemisphere
        Cap CapMethod (slide Percent val) Origin Orientation
  | OnOrigin =>
      SphPlugin.mkWidgets Radius UDivisions VDivisions Smooth Hemisphere
        Cap CapMethod Percent (Gui.MultipleToggle.event Origin) Orientation
  | OnOrientation index =>
      SphPlugin.mkWidgets Radius UDivisions VDivisions Smooth Hemisphere
        Cap CapMethod Percent Origin (Gui.RadioButtons.event Orientation index)
  end.

Definition widgets_after (evs : list event) : Gui.res SphPlugin.widgets :=
  match SphPlugin.make_widgets with
  | Gui.Val w => Gui.Val (fold_left handle evs w)
  | Gui.Err e => Gui.Err e
  end.

Definition widgets_ok (w : SphPlugin.widgets) : Prop :=
  float_within (1 / 1000) 100000000 (SphPlugin.Radius w) /\
  int_within 3 1024 (SphPlugin.UDivisions w) /\
  int_within 3 1024 (SphPlugin.VDivisions w) /\
  shows_among [0; 1] ["simple"%string; "symmetrical"%string]
    (SphPlugin.CapMethod w) /\
  float_within 0 100 (SphPlugin.Percent w) /\
  selects_among [SphPlugin.CENTER; SphPlugin.CURSOR] (SphPlugin.Origin w) /\
  selects_among [SphPlugin.XZ; SphPlugin.XY; SphPlugin.YZ]
    (SphPlugin.Orientation w).

End SphSession.

(** What a script does to the tables of an interface. *)
Inductive interface_op : Type :=
| Bind (function : Z) (event : Interface.events)
| Unbind (function : Z)
| BindButton (function : Z) (constant : Gui.pyval).

Definition interface_do (s : Interface.t) (op : interface_op)
    : Interface.t :=
  match op with
  | Bind function event => Interface.bind s function event
  | Unbind function => fst (Interface.unbind s function)
  | BindButton function constant =>
      fst (Interface.bind_button_event s function constant)
  end.

Definition interface_after (modifiers : list (Z * string))
    (ops : list interface_op) : Interface.t :=
  fold_left interface_do ops (Interface.__init__ modifiers).

(** The chain of handlers bound to an event, empty when there is none. *)
Definition chain_of (s : Interface.t) (event : Z) : list Z :=
  match Interface.dict_get Z.eqb (Interface.events_lookup s) event with
  | Some chain => chain
  | None => []
  end.

(** The handlers that an event of the host calls. *)
Definition called (s : Interface.t) (stops : Z -> Z -> Z -> bool)
    (event value : Z) : list Z :=
  fst (Interface.__events_process s stops event value).

(** The number of button events bound by a list of operations. *)
Definition button_bindings (ops : list interface_op) : nat :=
  length (filter (fun op => match op with
                            | BindButton _ _ => true
                            | _ => false
                            end) ops).

(** The chains of an interface hold no handler twice. *)
Definition chains_nodup (s : Interface.t) : Prop :=
  forall event, NoDup (chain_of s event).

(** The button events bound are numbered from 1 on. *)
Definition buttons_numbered (s : Interface.t) : Prop :=
  map fst (Interface.button_events_lookup s)
  = map (fun i => Z.of_nat i + 1)
      (seq 0 (length (Interface.button_events_lookup s))).

(** The table of the handlers has one item for an event. *)
Definition keys_unique (s : Interface.t) : Prop :=
  NoDup (map fst (Interface.events_lookup s)).

Module TorSession.

(** The widgets of the torus plugin after events of the host: each
    widget is the one the module made after events of its own, since no
    callback touches another widget; the toggles are in any state. *)
Definition reachable (w : TorPlugin.widgets) : Prop :=
  exists w0, TorPlugin.make_widgets = Gui.Val w0 /\
    (exists vals, TorPlugin.MajorRadius w
                  = fold_left slide vals (TorPlugin.MajorRadius w0)) /\
    (exists vals, TorPlugin.MinorRadius w
                  = fold_left slide vals (TorPlugin.MinorRadius w0)) /\
    (exists vals, TorPlugin.MajorDivisions w
                  = fold_left spin vals (TorPlugin.MajorDivisions w0)) /\
    (exists vals, TorPlugin.MinorDivisions w
                  = fold_left spin vals (TorPlugin.MinorDivisions w0)) /\
    (exists vals, TorPlugin.StartMinorAngle w
                  = fold_left slide vals (TorPlugin.StartMinorAngle w0)) /\
    (exists vals, TorPlugin.StartMajorAngle w
                  = fold_left slide vals (TorPlugin.StartMajorAngle w0)) /\
    (exists vals, TorPlugin.EndMajorAngle w
                  = fold_left slide vals (TorPlugin.EndMajorAngle w0)) /\
    (exists n, TorPlugin.Origin w
               = Nat.iter n Gui.MultipleToggle.event (TorPlugin.Origin w0)) /\
    (exists indices, TorPlugin.Orientation w
               = fold_left Gui.RadioButtons.event indices
                   (TorPlugin.Orientation w0)).

End TorSession.

Module TubSession.

(** The widgets of the tube plugin after events of the host: each widget
    is the one the module made after events of its own; the toggles are
    in any state. *)
Definition reachable (w : TubPlugin.widgets) : Prop :=
  exists w0, TubPlugin.make_widgets = Gui.Val w0 /\
    (exists vals, TubPlugin.InnerRadius w
                  = fold_left slide vals (TubPlugin.InnerRadius w0)) /\
    (exists vals, TubPlugin.OuterRadius w
                  = fold_left slide vals (TubPlugin.OuterRadius w0)) /\
    (exists vals, TubPlugin.Height w
                  = fold_left slide vals (TubPlugin.Height w0)) /\
    (exists vals, TubPlugin.InnerDivisions w
                  = fold_left spin vals (TubPlugin.InnerDivisions w0)) /\
    (exists vals, TubPlugin.OuterDivisions w
                  = fold_left spin vals (TubPlugin.OuterDivisions w0)) /\
    (exists vals, TubPlugin.CapDivisions w
                  = fold_left spin vals (TubPlugin.CapDivisions w0)) /\
    (exists vals, TubPlugin.Segments w
                  = fold_left spin vals (TubPlugin.Segments w0)) /\
    (exists vals, TubPlugin.StartAngle w
                  = fold_left slide vals (TubPlugin.StartAngle w0)) /\
    (exists vals, TubPlugin.EndAngle w
                  = fold_left slide vals (TubPlugin.EndAngle w0)) /\
    (exists n, TubPlugin.Origin w
               = Nat.iter n Gui.MultipleToggle.event (TubPlugin.Origin w0)) /\
    (exists indices, TubPlugin.Orientation w
               = fold_left Gui.RadioButtons.event indices
                   (TubPlugin.Orientation w0)).

End TubSession.

Module DscSession.

(** The widgets of the disc plugin after events of the host. *)
Definition reachable (w : DscPlugin.widgets) : Prop :=
  exists w0, DscPlugin.make_widgets = Gui.Val w0 /\
    (exists vals, DscPlugin.InnerRadius w
                  = fold_left slide vals (DscPlugin.InnerRadius w0)) /\
    (exists vals, DscPlugin.OuterRadius w
                  = fold_left slide vals (DscPlugin.OuterRadius w0)) /\
    (exists vals, DscPlugin.Segments w
                  = fold_left spin vals (DscPlugin.Segments w0)) /\
    (exists vals, DscPlugin.Subdivisions w
                  = fold_left spin vals (DscPlugin.Subdivisions w0)) /\
    (exists n, DscPlugin.Center w
               = Nat.iter n Gui.MultipleToggle.event (DscPlugin.Center w0)) /\
    (exists indices, DscPlugin.Orientation w
               = fold_left Gui.RadioButtons.event indices
                   (DscPlugin.Orientation w0)).

End DscSession.


(** ** The monad and its loops *)

Lemma xrange_length n : length (xrange n) = Z.to_nat n.
Proof. unfold xrange. now rewrite length_map, length_seq. Qed.

Lemma xrange_In n i : In i (xrange n) <-> 0 <= i < n.
Proof.
  unfold xrange. rewrite in_map_iff. split.
  - intros (k & <- & Hk). apply in_seq in Hk. lia.
  - intros Hi. exists (Z.to_nat i). split; [lia|]. apply in_seq. lia.
Qed.

Lemma xrange_nonpos n : n <= 0 -> xrange n = [].
Proof. intros Hn. unfold xrange. now replace (Z.to_nat n) with O by lia. Qed.

Lemma xrange_succ n : 0 <= n -> xrange (n + 1) = xrange n ++ [n].
Proof.
  intros Hn. unfold xrange.
  replace (Z.to_nat (n + 1)) with (S (Z.to_nat n)) by lia.
  rewrite seq_S, map_app. simpl. now rewrite Z2Nat.id.
Qed.

Lemma py_index_resolve len k :
  - len <= k < len -> py_index len k = Some (resolve len k).
Proof.
  intros Hk. unfold py_index, resolve.
  destruct (0 <=? k) eqn:E0; simpl.
  - replace (k <? len) with true by (symmetry; apply Z.ltb_lt; lia).
    reflexivity.
  - apply Z.leb_gt in E0.
    replace (k <? 0) with true by (symmetry; apply Z.ltb_lt; lia).
    replace (0 <=? len + k) with true by (symmetry; apply Z.leb_le; lia).
    reflexivity.
Qed.

Lemma verts_get_all_ok poly ks :
  Forall (fun k => - nverts poly <= k < nverts poly) ks ->
  verts_get_all ks poly = Ok (map (resolve (nverts poly)) ks, poly).
Proof.
  induction 1 as [|k ks Hk _ IH]; [reflexivity|].
  simpl. unfold bind at 1. unfold verts_get.
  fold (nverts poly). rewrite (py_index_resolve _ _ Hk).
  unfold bind. now rewrite IH.
Qed.

Lemma new_face_ok sm ks poly :
  Forall (fun k => - nverts poly <= k < nverts poly) ks ->
  new_face sm ks poly =
  Ok (tt, add_faces poly [mkFace (map (resolve (nverts poly)) ks) sm]).
Proof.
  intros H. unfold new_face, bind. now rewrite verts_get_all_ok.
Qed.

Lemma add_verts_nil poly : add_verts poly [] = poly.
Proof. destruct poly. unfold add_verts. simpl. now rewrite app_nil_r. Qed.

Lemma add_faces_nil poly : add_faces poly [] = poly.
Proof. destruct poly. unfold add_faces. simpl. now rewrite app_nil_r. Qed.

Lemma add_verts_app poly vs ws :
  add_verts (add_verts poly vs) ws = add_verts poly (vs ++ ws).
Proof. unfold add_verts. simpl. now rewrite app_assoc. Qed.

Lemma add_faces_app poly fs gs :
  add_faces (add_faces poly fs) gs = add_faces poly (fs ++ gs).
Proof. unfold add_faces. simpl. now rewrite app_assoc. Qed.

Lemma nverts_add_faces poly fs : nverts (add_faces poly fs) = nverts poly.
Proof. reflexivity. Qed.

Lemma nverts_add_verts poly vs :
  nverts (add_verts poly vs) = nverts poly + Z.of_nat (length vs).
Proof. unfold nverts, add_verts. simpl. rewrite length_app. lia. Qed.

(** A loop whose rounds only append vertices. *)
Lemma for_acc_verts {A T} (body : A -> T -> M T) (step : T -> T)
    (vs : T -> list Vert) (l : list A) :
  (forall x a poly, In x l ->
     body x a poly = Ok (step a, add_verts poly (vs a))) ->
  forall a poly,
    for_acc l body a poly =
    Ok (Nat.iter (length l) step a,
        add_verts poly (flat_map vs (walk (length l) step a))).
Proof.
  induction l as [|x l IH]; intros Hb a poly.
  - simpl. unfold ret. now rewrite add_verts_nil.
  - simpl for_acc. unfold bind. rewrite Hb by now left.
    rewrite IH by (intros; apply Hb; now right).
    rewrite add_verts_app. simpl length. rewrite Nat.iter_succ_r.
    reflexivity.
Qed.

(** A loop whose rounds only append faces, the number of vertices being
    known. *)
Lemma for_in_faces {A} (body : A -> M unit) (fs : A -> list Face) (n : Z)
    (l : list A) :
  (forall x poly, In x l -> nverts poly = n ->
     body x poly = Ok (tt, add_faces poly (fs x))) ->
  forall poly, nverts poly = n ->
    for_in l body poly = Ok (tt, add_faces poly (flat_map fs l)).
Proof.
  unfold for_in.
  induction l as [|x l IH]; intros Hb poly Hn.
  - simpl. unfold ret. now rewrite add_faces_nil.
  - simpl for_acc. unfold bind. rewrite Hb by (auto; now left).
    rewrite IH by (auto; intros; apply Hb; auto; now right).
    now rewrite add_faces_app.
Qed.

Lemma for_in_verts {A} (body : A -> M unit) (f : A -> Vert) (l : list A) :
  (forall x poly, In x l -> body x poly = Ok (tt, add_verts poly [f x])) ->
  forall poly, for_in l body poly = Ok (tt, add_verts poly (map f l)).
Proof.
  unfold for_in.
  induction l as [|x l IH]; intros Hb poly.
  - simpl. unfold ret. now rewrite add_verts_nil.
  - simpl for_acc. unfold bind. rewrite Hb by now left.
    rewrite IH by (intros; apply Hb; now right).
    now rewrite add_verts_app.
Qed.

Lemma fdiv_ok x y : y <> 0%R -> fdiv x y = Ok (x / y)%R.
Proof. intros Hy. unfold fdiv. now destruct (Req_dec_T y 0). Qed.

Lemma fdiv_zero x : fdiv x 0 = Raise ZeroDivisionError.
Proof. unfold fdiv. destruct (Req_dec_T 0 0); congruence. Qed.

Lemma fdiv_IZR_ok x n : n <> 0 -> fdiv x (IZR n) = Ok (x / IZR n)%R.
Proof. intros Hn. apply fdiv_ok. now apply not_0_IZR. Qed.

Lemma bind_ok {A B} (m : M A) (k : A -> M B) poly a poly' :
  m poly = Ok (a, poly') -> bind m k poly = k a poly'.
Proof. intros H. unfold bind. now rewrite H. Qed.

Lemma bind_raise {A B} (m : M A) (k : A -> M B) poly e :
  m poly = Raise e -> bind m k poly = Raise e.
Proof. intros H. unfold bind. now rewrite H. Qed.

Lemma lift_ok {A} (r : result A) a poly : r = Ok a -> lift r poly = Ok (a, poly).
Proof. now intros ->. Qed.

Lemma lift_raise {A} (r : result A) e poly : r = Raise e -> lift r poly = Raise e.
Proof. now intros ->. Qed.

Lemma walk_length {T} n (step : T -> T) p : length (walk n step p) = n.
Proof. revert p. induction n; simpl; auto. Qed.

Lemma flat_map_length_const {A B} (f : A -> list B) n l :
  (forall x, In x l -> length (f x) = n) ->
  length (flat_map f l) = (n * length l)%nat.
Proof.
  induction l as [|x l IH]; intros H; simpl; [lia|].
  rewrite length_app, (H x (or_introl eq_refl)), IH; [lia|].
  intros; apply H; now right.
Qed.

Lemma flat_map_singleton {A B} (f : A -> B) l :
  flat_map (fun x => [f x]) l = map f l.
Proof. induction l; simpl; congruence. Qed.

Lemma filter_all {A} (p : A -> bool) l :
  (forall x, In x l -> p x = true) -> filter p l = l.
Proof.
  induction l as [|x l IH]; intros H; simpl; [reflexivity|].
  rewrite H by now left. f_equal. apply IH. intros; apply H; now right.
Qed.

Lemma filter_none {A} (p : A -> bool) l :
  (forall x, In x l -> p x = false) -> filter p l = [].
Proof.
  induction l as [|x l IH]; intros H; simpl; [reflexivity|].
  rewrite H by now left. apply IH. intros; apply H; now right.
Qed.

Lemma ring_pts_length n r z : length (ring_pts n r z) = Z.to_nat n.
Proof. unfold ring_pts. now rewrite length_map, xrange_length. Qed.

(** A strip of quads between the rings that start at [r1] and [r2]. *)
Lemma strip_ok n r1 r2 sm poly :
  (0 < n -> 0 <= r1 /\ 0 <= r2 /\
            r1 + n <= nverts poly /\ r2 + n <= nverts poly) ->
  for_in (xrange n) (fun j =>
    new_face sm [r1 + j; r1 + (j + 1) mod n; r2 + (j + 1) mod n; r2 + j]) poly
  = Ok (tt, add_faces poly (quad_strip n r1 r2 sm)).
Proof.
  intros H. unfold quad_strip. rewrite <- flat_map_singleton.
  apply for_in_faces with (n := nverts poly); [|reflexivity].
  intros j q Hj Hq. apply xrange_In in Hj.
  destruct H as (H1 & H2 & H3 & H4); [lia|].
  pose proof (Z.mod_pos_bound (j + 1) n ltac:(lia)) as Hm.
  rewrite new_face_ok.
  - unfold resolve. simpl.
    repeat match goal with
           | |- context [0 <=? ?k] =>
               replace (0 <=? k) with true by (symmetry; apply Z.leb_le; lia)
           end.
    reflexivity.
  - rewrite Hq. repeat constructor; lia.
Qed.

(** Two fans around the last two vertices: the first [n] vertices around
    the one before last, the [n] vertices before these two, backwards,
    around the last. *)
Lemma fan_pair_ok n sm poly :
  (0 < n -> n + 2 <= nverts poly) ->
  for_in (xrange n) (fun j =>
    new_face sm [-2; j; (j + 1) mod n] ;;
    new_face sm [-1; - (j + 3); - ((j + 1) mod n + 3)]) poly
  = Ok (tt, add_faces poly (cylinder_caps (nverts poly) n sm)).
Proof.
  intros H. unfold cylinder_caps.
  apply for_in_faces with (n := nverts poly); [|reflexivity].
  intros j q Hj Hq. apply xrange_In in Hj.
  pose proof (Z.mod_pos_bound (j + 1) n ltac:(lia)) as Hm.
  specialize (H ltac:(lia)).
  erewrite bind_ok by (apply new_face_ok; rewrite Hq; repeat constructor; lia).
  rewrite new_face_ok by (rewrite nverts_add_faces, Hq; repeat constructor; lia).
  rewrite add_faces_app, nverts_add_faces, Hq.
  unfold resolve. simpl.
  replace (0 <=? j) with true by (symmetry; apply Z.leb_le; lia).
  replace (0 <=? (j + 1) mod n) with true by (symmetry; apply Z.leb_le; lia).
  replace (0 <=? - (j + 3)) with false by (symmetry; apply Z.leb_gt; lia).
  replace (0 <=? - ((j + 1) mod n + 3)) with false
    by (symmetry; apply Z.leb_gt; lia).
  repeat f_equal; lia.
Qed.

(** *** The cylinder *)

Lemma Cyl_MakeVertexRing_ok Segments r z poly :
  Cyl.MakeVertexRing Segments r z poly
  = Ok (tt, add_verts poly (ring_pts Segments r z)).
Proof.
  unfold Cyl.MakeVertexRing, ring_pts. apply for_in_verts.
  intros i q Hi. apply xrange_In in Hi.
  erewrite bind_ok by (apply lift_ok, fdiv_IZR_ok; lia). reflexivity.
Qed.

Lemma rings_loop_ok (ring : R -> M unit) (step : R -> R) (pts : R -> list Vert)
    n a poly :
  (forall r q, ring r q = Ok (tt, add_verts q (pts r))) ->
  for_acc (xrange n) (fun _ r => ring r ;; ret (step r)) a poly
  = Ok (Nat.iter (Z.to_nat n) step a,
        add_verts poly (flat_map pts (walk (Z.to_nat n) step a))).
Proof.
  intros Hr. rewrite <- (xrange_length n). apply for_acc_verts.
  intros x r q _. erewrite bind_ok by apply Hr. reflexivity.
Qed.

Lemma Cylinder_closed Radius Height Segments Divisions CapDivisions Smooth :
  0 <= Segments -> 1 <= Divisions -> 1 <= CapDivisions ->
  exists ringverts,
    Z.of_nat (length ringverts) = Segments * (2 * CapDivisions + Divisions) /\
    Cyl.Cylinder Radius Height Segments Divisions CapDivisions Smooth
    = Ok (mkMesh (ringverts ++ [(0, 0, 0)%R; (0, 0, Height)%R])
            (stack_skin Segments (2 * CapDivisions + Divisions - 1) Smooth ++
             cylinder_caps (Segments * (2 * CapDivisions + Divisions) + 2)
               Segments Smooth)).
Proof.
  intros HS HD HC.
  unfold Cyl.Cylinder, build, Cyl.Cylinder_body. cbv zeta.
  erewrite bind_ok by (apply lift_ok, fdiv_IZR_ok; lia).
  erewrite bind_ok by (apply rings_loop_ok; intros; apply Cyl_MakeVertexRing_ok).
  erewrite bind_ok by (apply lift_ok, fdiv_IZR_ok; lia).
  erewrite bind_ok by (apply rings_loop_ok; intros; apply Cyl_MakeVertexRing_ok).
  erewrite bind_ok by (apply lift_ok, fdiv_IZR_ok; lia).
  erewrite bind_ok by (apply rings_loop_ok; intros; apply Cyl_MakeVertexRing_ok).
  rewrite !add_verts_app.
  match goal with
  | |- context [add_verts GetRaw ?l] => set (rv := l)
  end.
  assert (Hrv : Z.of_nat (length rv) = Segments * (2 * CapDivisions + Divisions)).
  { unfold rv. rewrite !length_app.
    rewrite !(flat_map_length_const _ (Z.to_nat Segments))
      by (intros; apply ring_pts_length).
    rewrite !walk_length. nia. }
  exists rv. split; [exact Hrv|].
  set (tvc := 2 * (CapDivisions - 1) + Divisions + 1).
  assert (Hskin : forall poly, nverts poly = Z.of_nat (length rv) ->
    for_in (xrange tvc) (fun i =>
      for_in (xrange Segments) (fun j =>
        new_face Smooth
          [Segments * i + j; Segments * i + (j + 1) mod Segments;
           Segments * (i + 1) + (j + 1) mod Segments;
           Segments * (i + 1) + j])) poly
    = Ok (tt, add_faces poly (stack_skin Segments tvc Smooth))).
  { intros poly Hp. unfold stack_skin.
    apply for_in_faces with (n := nverts poly); [|reflexivity].
    intros i q Hi Hq. apply xrange_In in Hi. apply strip_ok.
    intros Hpos. rewrite Hq, Hp, Hrv. unfold tvc in Hi. nia. }
  erewrite bind_ok by (apply Hskin; reflexivity).
  unfold verts_append at 1. erewrite bind_ok by reflexivity.
  unfold verts_append at 1. erewrite bind_ok by reflexivity.
  rewrite fan_pair_ok.
  - unfold add_faces, add_verts, nverts, GetRaw. cbn [verts faces app].
    rewrite <- !app_assoc. cbn [app]. rewrite !length_app. cbn [length].
    replace (Z.of_nat (length rv + 2)) with
      (Segments * (2 * CapDivisions + Divisions) + 2) by lia.
    replace (2 * CapDivisions + Divisions - 1) with tvc by (unfold tvc; lia).
    reflexivity.
  - intros Hpos. unfold nverts, add_faces, add_verts, GetRaw.
    cbn [verts faces app]. rewrite !length_app. cbn [length]. nia.
Qed.

(** *** Counting faces *)

Lemma quad_strip_quads n r1 r2 sm :
  Forall (fun f => is_quad f = true /\ is_tri f = false) (quad_strip n r1 r2 sm).
Proof. unfold quad_strip. apply Forall_map, Forall_forall. now intros. Qed.

Lemma quad_strip_length n r1 r2 sm :
  length (quad_strip n r1 r2 sm) = Z.to_nat n.
Proof. unfold quad_strip. now rewrite length_map, xrange_length. Qed.

Lemma stack_skin_quads n tvc sm :
  Forall (fun f => is_quad f = true /\ is_tri f = false) (stack_skin n tvc sm).
Proof.
  unfold stack_skin. apply Forall_flat_map, Forall_forall.
  intros i _. apply quad_strip_quads.
Qed.

Lemma stack_skin_length n tvc sm :
  length (stack_skin n tvc sm) = (Z.to_nat n * Z.to_nat tvc)%nat.
Proof.
  unfold stack_skin.
  rewrite (flat_map_length_const _ (Z.to_nat n)), xrange_length; [lia|].
  intros; apply quad_strip_length.
Qed.

Lemma cylinder_caps_tris len n sm :
  Forall (fun f => is_quad f = false /\ is_tri f = true) (cylinder_caps len n sm).
Proof.
  unfold cylinder_caps. apply Forall_flat_map, Forall_forall.
  intros j _. repeat constructor.
Qed.

Lemma cylinder_caps_length len n sm :
  length (cylinder_caps len n sm) = (2 * Z.to_nat n)%nat.
Proof.
  unfold cylinder_caps.
  rewrite (flat_map_length_const _ 2%nat), xrange_length; [lia|].
  reflexivity.
Qed.

(** The faces of a mesh made of quads [qs] and triangles [ts], in any
    interleaving of two blocks. *)
Lemma count_quads_tris vs qs ts :
  Forall (fun f => is_quad f = true /\ is_tri f = false) qs ->
  Forall (fun f => is_quad f = false /\ is_tri f = true) ts ->
  quads (mkMesh vs (qs ++ ts)) = Z.of_nat (length qs) /\
  tris (mkMesh vs (qs ++ ts)) = Z.of_nat (length ts) /\
  nfaces (mkMesh vs (qs ++ ts)) = Z.of_nat (length qs) + Z.of_nat (length ts).
Proof.
  intros Hq Ht. rewrite Forall_forall in Hq, Ht.
  unfold quads, tris, nfaces. cbn [faces]. rewrite !filter_app.
  rewrite (filter_all is_quad qs) by (intros; now apply Hq).
  rewrite (filter_none is_quad ts) by (intros; now apply Ht).
  rewrite (filter_none is_tri qs) by (intros; now apply Hq).
  rewrite (filter_all is_tri ts) by (intros; now apply Ht).
  rewrite !length_app. cbn [length]. lia.
Qed.

(** The cylinder builder succeeds on any segment count that is not
    negative and any radius or height; its mesh has two apex vertices
    besides the ring vertices. *)
Lemma Cylinder_shape Radius Height Segments Divisions CapDivisions Smooth :
  0 <= Segments -> 1 <= Divisions -> 1 <= CapDivisions ->
  exists poly,
    Cyl.Cylinder Radius Height Segments Divisions CapDivisions Smooth = Ok poly /\
    nverts poly = Segments * (2 * CapDivisions + Divisions) + 2 /\
    quads poly = Segments * (2 * CapDivisions + Divisions - 1) /\
    tris poly = 2 * Segments /\
    nfaces poly = Segments * (2 * CapDivisions + Divisions - 1) + 2 * Segments.
Proof.
  intros HS HD HC.
  destruct (Cylinder_closed Radius Height _ _ _ Smooth HS HD HC)
    as (rv & Hrv & ->).
  eexists. split; [reflexivity|].
  split.
  { unfold nverts. cbn [verts]. rewrite length_app. cbn [length]. lia. }
  destruct (count_quads_tris (rv ++ [(0, 0, 0)%R; (0, 0, Height)%R]) _ _
              (stack_skin_quads Segments
                 (2 * CapDivisions + Divisions - 1) Smooth)
              (cylinder_caps_tris
                 (Segments * (2 * CapDivisions + Divisions) + 2)
                 Segments Smooth)) as (Hq & Ht & Hf).
  rewrite Hq, Ht, Hf, stack_skin_length, cylinder_caps_length.
  repeat split; nia.
Qed.

(** C6 (as amended): for every cylinder build with segments [S >= 3],
    outer-divisions [O >= 1] and cap-divisions [C >= 1] the builder returns
    a mesh of [S * (2*C + O)] ring vertices plus the two apex vertices,
    that is [S * (2*C + O) + 2] vertices, and of [S * (2*C + O - 1)] skin
    quads plus [2*S] cap triangles. *)
Theorem Cylinder_counts Radius Height S O C Smooth :
  3 <= S -> 1 <= O -> 1 <= C ->
  exists poly,
    Cyl.Cylinder Radius Height S O C Smooth = Ok poly /\
    nverts poly = S * (2 * C + O) + 2 /\
    quads poly = S * (2 * C + O - 1) /\
    tris poly = 2 * S /\
    nfaces poly = S * (2 * C + O - 1) + 2 * S.
Proof. intros HS HO HC. apply Cylinder_shape; lia. Qed.

Lemma Cylinder_counts_witness :
  3 <= 4 /\ 1 <= 1 /\ 1 <= 1 /\
  exists poly,
    Cyl.Cylinder 1 3 4 1 1 true = Ok poly /\
    nverts poly = 4 * (2 * 1 + 1) + 2 /\
    quads poly = 4 * (2 * 1 + 1 - 1) /\
    tris poly = 2 * 4 /\
    nfaces poly = 4 * (2 * 1 + 1 - 1) + 2 * 4.
Proof.
  split; [lia|]. split; [lia|]. split; [lia|].
  apply (Cylinder_counts 1 3 4 1 1 true); lia.
Defined.

(** C6 (as stated) fails: the cylinder of the spec's own example (radius 1,
    height 3, 4 segments, 1 outer division, 1 cap division) has 14
    vertices, not [4 * (2*1 + 1) = 12]. *)
Lemma Cylinder_vertex_count_counterexample :
  ~ (forall Radius Height S O C Smooth,
       3 <= S -> 1 <= O -> 1 <= C ->
       exists poly,
         Cyl.Cylinder Radius Height S O C Smooth = Ok poly /\
         nverts poly = S * (2 * C + O) /\
         nfaces poly = S * (2 * C + O - 1) + 2 * S).
Proof.
  intros H.
  destruct (H 1%R 3%R 4 1 1 true) as (poly & Hp & Hv & _); try lia.
  destruct (Cylinder_shape 1 3 4 1 1 true) as (poly' & Hp' & Hv' & _); try lia.
  rewrite Hp in Hp'. injection Hp' as <-. lia.
Qed.

(** *** The sphere *)

Ltac resolve_all :=
  unfold resolve; cbn [map];
  repeat match goal with
         | |- context [0 <=? ?k] =>
             first [ replace (0 <=? k) with true
                       by (symmetry; apply Z.leb_le; lia)
                   | replace (0 <=? k) with false
                       by (symmetry; apply Z.leb_gt; lia) ]
         end.

Lemma Sph_MakeVertexRing_ok UDivisions r z poly :
  Sph.MakeVertexRing UDivisions r z poly
  = Ok (tt, add_verts poly (ring_pts UDivisions r z)).
Proof.
  unfold Sph.MakeVertexRing, ring_pts. apply for_in_verts.
  intros i q Hi. apply xrange_In in Hi.
  erewrite bind_ok by (apply lift_ok, fdiv_IZR_ok; lia). reflexivity.
Qed.

Lemma Sph_skin_ok U V sm poly :
  (0 < U -> U * (V - 1) <= nverts poly) ->
  Sph.skin U V sm poly = Ok (tt, add_faces poly (stack_skin U (V - 2) sm)).
Proof.
  intros H. unfold Sph.skin, stack_skin. cbv zeta.
  apply for_in_faces with (n := nverts poly); [|reflexivity].
  intros i q Hi Hq. apply xrange_In in Hi. apply strip_ok.
  intros Hpos. specialize (H Hpos). rewrite Hq. nia.
Qed.

Lemma sphere_fans_ok n sm poly :
  (0 < n -> n + 2 <= nverts poly) ->
  for_in (xrange n) (fun k =>
    new_face sm [-1; - (k + 3); - ((k + 1) mod n + 3)] ;;
    new_face sm [-2; k; (k + 1) mod n]) poly
  = Ok (tt, add_faces poly (sphere_fans (nverts poly) n sm)).
Proof.
  intros H. unfold sphere_fans.
  apply for_in_faces with (n := nverts poly); [|reflexivity].
  intros j q Hj Hq. apply xrange_In in Hj.
  pose proof (Z.mod_pos_bound (j + 1) n ltac:(lia)) as Hm.
  specialize (H ltac:(lia)).
  erewrite bind_ok by (apply new_face_ok; rewrite Hq; repeat constructor; lia).
  rewrite new_face_ok by (rewrite nverts_add_faces, Hq; repeat constructor; lia).
  rewrite add_faces_app, nverts_add_faces, Hq.
  resolve_all. repeat f_equal; lia.
Qed.

Lemma sphere_fans_tris len n sm :
  Forall (fun f => is_quad f = false /\ is_tri f = true) (sphere_fans len n sm).
Proof.
  unfold sphere_fans. apply Forall_flat_map, Forall_forall.
  intros j _. repeat constructor.
Qed.

Lemma sphere_fans_length len n sm :
  length (sphere_fans len n sm) = (2 * Z.to_nat n)%nat.
Proof.
  unfold sphere_fans.
  rewrite (flat_map_length_const _ 2%nat), xrange_length; [lia|].
  reflexivity.
Qed.

Lemma Sphere_closed Radius U V Smooth :
  0 <= U -> 2 <= V ->
  exists ringverts,
    Z.of_nat (length ringverts) = U * (V - 1) /\
    Sph.Sphere Radius U V Smooth
    = Ok (mkMesh (ringverts ++ [(0, 0, Radius)%R; (0, 0, - Radius)%R])
            (stack_skin U (V - 2) Smooth ++
             sphere_fans (U * (V - 1) + 2) U Smooth)).
Proof.
  intros HU HV.
  unfold Sph.Sphere, build, Sph.Sphere_body. cbv zeta.
  erewrite bind_ok by (apply lift_ok, fdiv_IZR_ok; lia).
  erewrite bind_ok by
    (apply (rings_loop_ok
              (fun a => Sph.MakeVertexRing U (Radius * sin (a / 180 * PI))
                          (Radius * cos (a / 180 * PI)))
              (fun a => (a + 180 / IZR V)%R));
     intros; apply Sph_MakeVertexRing_ok).
  match goal with
  | |- context [add_verts GetRaw ?l] => set (rv := l)
  end.
  assert (Hrv : Z.of_nat (length rv) = U * (V - 1)).
  { unfold rv.
    rewrite (flat_map_length_const _ (Z.to_nat U))
      by (intros; apply ring_pts_length).
    rewrite walk_length. nia. }
  exists rv. split; [exact Hrv|].
  unfold verts_append at 1. erewrite bind_ok by reflexivity.
  unfold verts_append at 1. erewrite bind_ok by reflexivity.
  assert (Hn : forall fs,
             nverts (add_faces
                       {| verts := (verts (add_verts GetRaw rv)
                                      ++ [(0, 0, Radius)%R])
                                   ++ [(0, 0, - Radius)%R];
                          faces := faces (add_verts GetRaw rv) |} fs)
             = U * (V - 1) + 2).
  { intros fs. unfold nverts, add_faces, add_verts, GetRaw.
    cbn [verts faces app]. rewrite !length_app. cbn [length]. lia. }
  erewrite bind_ok
    by (apply Sph_skin_ok; rewrite <- (add_faces_nil {| verts := _ |}), Hn; nia).
  rewrite sphere_fans_ok by (rewrite Hn; nia).
  rewrite Hn. unfold add_faces, add_verts, GetRaw. cbn [verts faces app].
  rewrite <- !app_assoc. reflexivity.
Qed.

Lemma Sphere_shape Radius U V Smooth :
  0 <= U -> 2 <= V ->
  exists poly,
    Sph.Sphere Radius U V Smooth = Ok poly /\
    nverts poly = U * (V - 1) + 2 /\
    quads poly = U * (V - 2) /\
    tris poly = 2 * U /\
    nfaces poly = U * (V - 2) + 2 * U.
Proof.
  intros HU HV.
  destruct (Sphere_closed Radius _ _ Smooth HU HV) as (rv & Hrv & ->).
  eexists. split; [reflexivity|].
  split.
  { unfold nverts. cbn [verts]. rewrite length_app. cbn [length]. lia. }
  destruct (count_quads_tris (rv ++ [(0, 0, Radius)%R; (0, 0, - Radius)%R]) _ _
              (stack_skin_quads U (V - 2) Smooth)
              (sphere_fans_tris (U * (V - 1) + 2) U Smooth)) as (Hq & Ht & Hf).
  rewrite Hq, Ht, Hf, stack_skin_length, sphere_fans_length.
  repeat split; nia.
Qed.

(** C7: for every full-sphere build with U-divisions [U >= 3] and
    V-divisions [V >= 3] the builder returns a mesh with [U * (V-1) + 2]
    vertices and [U * (V-2)] skin quads plus [2*U] pole-fan triangles. *)
Theorem Sphere_counts Radius U V Smooth :
  3 <= U -> 3 <= V ->
  exists poly,
    Sph.Sphere Radius U V Smooth = Ok poly /\
    nverts poly = U * (V - 1) + 2 /\
    quads poly = U * (V - 2) /\
    tris poly = 2 * U /\
    nfaces poly = U * (V - 2) + 2 * U.
Proof. intros HU HV. apply Sphere_shape; lia. Qed.

Lemma Sphere_counts_witness :
  3 <= 16 /\ 3 <= 16 /\
  exists poly,
    Sph.Sphere 1 16 16 true = Ok poly /\
    nverts poly = 16 * (16 - 1) + 2 /\
    quads poly = 16 * (16 - 2) /\
    tris poly = 2 * 16 /\
    nfaces poly = 16 * (16 - 2) + 2 * 16.
Proof.
  split; [lia|]. split; [lia|].
  apply (Sphere_counts 1 16 16 true); lia.
Defined.

(** *** The torus *)

Lemma walk_snoc {T} n (step : T -> T) p :
  walk (S n) step p = walk n step p ++ [Nat.iter n step p].
Proof.
  revert p. induction n as [|n IH]; intros p; [reflexivity|].
  change (walk (S (S n)) step p) with (p :: walk (S n) step (step p)).
  rewrite IH. cbn [walk app]. now rewrite Nat.iter_succ_r.
Qed.

Lemma iter_add n (da a : R) :
  Nat.iter n (fun x => (x + da)%R) a = (a + INR n * da)%R.
Proof.
  induction n as [|n IH].
  - simpl. ring.
  - rewrite Nat.iter_succ, IH, S_INR. ring.
Qed.

Lemma walk_add n (da a : R) :
  walk n (fun x => (x + da)%R) a
  = map (fun k => (a + INR k * da)%R) (seq 0 n).
Proof.
  induction n as [|n IH]; [reflexivity|].
  rewrite walk_snoc, seq_S, map_app, IH, iter_add. reflexivity.
Qed.

Lemma Tor_MakeVertexRing_ok MajorRadius MinorRadius MinorDivisions sma angle poly :
  Tor.MakeVertexRing MajorRadius MinorRadius MinorDivisions sma angle poly
  = Ok (tt, add_verts poly
              (torus_ring MajorRadius MinorRadius MinorDivisions sma angle)).
Proof.
  unfold Tor.MakeVertexRing, torus_ring. apply for_in_verts.
  intros i q Hi. apply xrange_In in Hi.
  erewrite bind_ok by (apply lift_ok, fdiv_IZR_ok; lia). reflexivity.
Qed.

Lemma torus_ring_length MajorRadius MinorRadius MinorDivisions sma angle :
  length (torus_ring MajorRadius MinorRadius MinorDivisions sma angle)
  = Z.to_nat MinorDivisions.
Proof. unfold torus_ring. now rewrite length_map, xrange_length. Qed.

Lemma Torus_closed MajorRadius MinorRadius MajorDivisions MinorDivisions
    StartMinorAngle Smooth :
  1 <= MajorDivisions -> 0 <= MinorDivisions ->
  Tor.Torus MajorRadius MinorRadius MajorDivisions MinorDivisions
    StartMinorAngle Smooth
  = Ok (mkMesh
          (flat_map (torus_ring MajorRadius MinorRadius MinorDivisions
                       (StartMinorAngle * 2 * PI / 180))
             (walk (Z.to_nat MajorDivisions)
                (fun a => (a + 360 / IZR MajorDivisions)%R) 0%R))
          (torus_skin MajorDivisions MinorDivisions Smooth)).
Proof.
  intros HM Hm.
  unfold Tor.Torus, build, Tor.Torus_body. cbv zeta.
  erewrite bind_ok by (apply lift_ok, fdiv_IZR_ok; lia).
  erewrite bind_ok by
    (apply (rings_loop_ok
              (Tor.MakeVertexRing MajorRadius MinorRadius MinorDivisions
                 (StartMinorAngle * 2 * PI / 180)));
     intros; apply Tor_MakeVertexRing_ok).
  match goal with
  | |- context [add_verts GetRaw ?l] => set (rv := l)
  end.
  assert (Hrv : Z.of_nat (length rv) = MinorDivisions * MajorDivisions).
  { unfold rv.
    rewrite (flat_map_length_const _ (Z.to_nat MinorDivisions))
      by (intros; apply torus_ring_length).
    rewrite walk_length. nia. }
  unfold torus_skin.
  rewrite (for_in_faces _
             (fun i => quad_strip MinorDivisions (MinorDivisions * i)
                         (MinorDivisions * ((i + 1) mod MajorDivisions)) Smooth)
             (MinorDivisions * MajorDivisions)).
  - reflexivity.
  - intros i q Hi Hq. apply xrange_In in Hi. apply strip_ok.
    intros Hpos. rewrite Hq.
    pose proof (Z.mod_pos_bound (i + 1) MajorDivisions ltac:(lia)). nia.
  - exact Hrv.
Qed.

Lemma Torus2_cap_start_ok (CapStart : bool) MinorDivisions sm poly :
  (0 < MinorDivisions - 1 -> MinorDivisions <= nverts poly) ->
  (if CapStart then
     for_in (xrange (MinorDivisions - 1)) (fun i => new_face sm [0; i; i + 1])
   else ret tt) poly
  = Ok (tt, add_faces poly
              (if CapStart then torus_cap_start MinorDivisions sm else [])).
Proof.
  intros H. destruct CapStart; [|unfold ret; now rewrite add_faces_nil].
  unfold torus_cap_start. rewrite <- flat_map_singleton.
  apply for_in_faces with (n := nverts poly); [|reflexivity].
  intros i q Hi Hq. apply xrange_In in Hi.
  rewrite new_face_ok by (rewrite Hq; repeat constructor; lia).
  resolve_all. reflexivity.
Qed.

Lemma Torus2_cap_end_ok (CapEnd : bool) MinorDivisions sm poly :
  (0 < MinorDivisions - 1 -> MinorDivisions <= nverts poly) ->
  (if CapEnd then
     for_in (xrange (MinorDivisions - 1)) (fun i =>
       new_face sm [-1; - (i + 1); - (i + 2)])
   else ret tt) poly
  = Ok (tt, add_faces poly
              (if CapEnd
               then torus_cap_end (nverts poly) MinorDivisions sm else [])).
Proof.
  intros H. destruct CapEnd; [|unfold ret; now rewrite add_faces_nil].
  unfold torus_cap_end. rewrite <- flat_map_singleton.
  apply for_in_faces with (n := nverts poly); [|reflexivity].
  intros i q Hi Hq. apply xrange_In in Hi.
  rewrite new_face_ok by (rewrite Hq; repeat constructor; lia).
  rewrite Hq. resolve_all. repeat f_equal; lia.
Qed.

Lemma Torus2_closed MajorRadius MinorRadius MajorDivisions MinorDivisions
    StartMajorAngle CapStart EndMajorAngle CapEnd StartMinorAngle Smooth :
  1 <= MajorDivisions -> 0 <= MinorDivisions ->
  Tor.Torus2 MajorRadius MinorRadius MajorDivisions MinorDivisions
    StartMajorAngle CapStart EndMajorAngle CapEnd StartMinorAngle Smooth
  = Ok (mkMesh
          (flat_map (torus_ring MajorRadius MinorRadius MinorDivisions
                       (StartMinorAngle * 2 * PI / 180))
             (walk (Z.to_nat (MajorDivisions + 1))
                (fun a => (a + (Rmax StartMajorAngle EndMajorAngle
                                - Rmin StartMajorAngle EndMajorAngle)
                               / IZR MajorDivisions)%R)
                (Rmin StartMajorAngle EndMajorAngle)))
          (stack_skin MinorDivisions MajorDivisions Smooth ++
           (if CapStart then torus_cap_start MinorDivisions Smooth else []) ++
           (if CapEnd
            then torus_cap_end (MinorDivisions * (MajorDivisions + 1))
                   MinorDivisions Smooth
            else []))).
Proof.
  intros HM Hm.
  unfold Tor.Torus2, build, Tor.Torus2_body. cbv zeta.
  erewrite bind_ok by (apply lift_ok, fdiv_IZR_ok; lia).
  erewrite bind_ok by
    (apply (rings_loop_ok
              (Tor.MakeVertexRing MajorRadius MinorRadius MinorDivisions
                 (StartMinorAngle * 2 * PI / 180)));
     intros; apply Tor_MakeVertexRing_ok).
  match goal with
  | |- context [add_verts GetRaw ?l] => set (rv := l)
  end.
  assert (Hrv : Z.of_nat (length rv) = MinorDivisions * (MajorDivisions + 1)).
  { unfold rv.
    rewrite (flat_map_length_const _ (Z.to_nat MinorDivisions))
      by (intros; apply torus_ring_length).
    rewrite walk_length. nia. }
  erewrite bind_ok.
  2:{ apply (for_in_faces _
               (fun i => quad_strip MinorDivisions (MinorDivisions * i)
                           (MinorDivisions * (i + 1)) Smooth)
               (MinorDivisions * (MajorDivisions + 1))); [|exact Hrv].
      intros i q Hi Hq. apply xrange_In in Hi. apply strip_ok.
      intros Hpos. rewrite Hq. nia. }
  fold (stack_skin MinorDivisions MajorDivisions Smooth).
  assert (Hn : forall fs, nverts (add_faces (add_verts GetRaw rv) fs)
                          = MinorDivisions * (MajorDivisions + 1))
    by (intros; exact Hrv).
  erewrite bind_ok by (apply Torus2_cap_start_ok; intros _; rewrite Hn; nia).
  rewrite !add_faces_app.
  rewrite Torus2_cap_end_ok by (intros _; rewrite Hn; nia).
  rewrite !add_faces_app, Hn. unfold add_faces, add_verts, GetRaw.
  cbn [verts faces app]. rewrite <- app_assoc. reflexivity.
Qed.

Lemma map_flat_map {A B C} (g : B -> C) (f : A -> list B) l :
  map g (flat_map f l) = flat_map (fun x => map g (f x)) l.
Proof.
  induction l as [|x l IH]; [reflexivity|].
  simpl. now rewrite map_app, IH.
Qed.

Lemma flat_map_ext_on {A B} (f g : A -> list B) l :
  (forall x, In x l -> f x = g x) -> flat_map f l = flat_map g l.
Proof.
  induction l as [|x l IH]; intros H; [reflexivity|].
  simpl. rewrite (H x) by now left. f_equal. apply IH.
  intros; apply H; now right.
Qed.

Lemma RotateZ_full_turn p : Tor.RotateZ 360 p = Tor.RotateZ 0 p.
Proof.
  destruct p as [[x y] z]. unfold Tor.RotateZ.
  replace (360 * PI / 180)%R with (2 * PI)%R by field.
  replace (0 * PI / 180)%R with 0%R by field.
  now rewrite cos_2PI, sin_2PI, cos_0, sin_0.
Qed.

Lemma torus_ring_full_turn MajorRadius MinorRadius MinorDivisions sma :
  torus_ring MajorRadius MinorRadius MinorDivisions sma 360
  = torus_ring MajorRadius MinorRadius MinorDivisions sma 0.
Proof.
  unfold torus_ring. apply map_ext. intros i. apply RotateZ_full_turn.
Qed.

Lemma Rmax_0_360 : Rmax 0 360 = 360%R.
Proof. apply Rmax_right. lra. Qed.

Lemma Rmin_0_360 : Rmin 0 360 = 0%R.
Proof. apply Rmin_left. lra. Qed.

Lemma mod_wrap n k : 0 <= k < n -> (n + k) mod n = k.
Proof.
  intros H. replace (n + k) with (k + 1 * n) by lia.
  rewrite Z_mod_plus_full. apply Z.mod_small; lia.
Qed.

(** Away from the seam the glued strip is the strip itself; at the seam
    it wraps to the first ring. *)
Lemma glue_strip Maj Min i sm :
  0 <= i < Maj ->
  map (glue (Min * Maj)) (quad_strip Min (Min * i) (Min * (i + 1)) sm)
  = quad_strip Min (Min * i) (Min * ((i + 1) mod Maj)) sm.
Proof.
  intros Hi. unfold quad_strip. rewrite map_map. apply map_ext_in.
  intros j Hj. apply xrange_In in Hj.
  pose proof (Z.mod_pos_bound (j + 1) Min ltac:(lia)) as Hm.
  unfold glue. cbn [v smooth map].
  rewrite (Z.mod_small (Min * i + j)) by nia.
  rewrite (Z.mod_small (Min * i + (j + 1) mod Min)) by nia.
  destruct (Z.eq_dec (i + 1) Maj) as [E|E].
  - rewrite E, Z.mod_same by lia.
    assert (Min <= Min * Maj) by nia.
    rewrite (mod_wrap (Min * Maj) j) by lia.
    rewrite (mod_wrap (Min * Maj) ((j + 1) mod Min)) by lia.
    rewrite Z.mul_0_r, !Z.add_0_l. reflexivity.
  - rewrite (Z.mod_small (i + 1)) by lia.
    rewrite (Z.mod_small (Min * (i + 1) + j)) by nia.
    rewrite (Z.mod_small (Min * (i + 1) + (j + 1) mod Min)) by nia.
    reflexivity.
Qed.

(** C5: for [MajorDivisions >= 3] and [MinorDivisions >= 3] the cut torus
    built from 0 to 360 degrees without caps is the full torus up to its
    seam: both have [MajorDivisions * MinorDivisions] faces; the cut
    torus has the vertices of the full one followed by a copy of its first
    ring; the faces are the same strips of quads but the last, which runs
    to the copied ring where the full torus wraps to the first ring, so
    that gluing the copy onto the first ring turns the faces of the cut
    torus into those of the full torus. *)
Theorem Torus2_full_turn_equiv MajorRadius MinorRadius MajorDivisions
    MinorDivisions StartMinorAngle Smooth :
  3 <= MajorDivisions -> 3 <= MinorDivisions ->
  exists full cut,
    Tor.Torus MajorRadius MinorRadius MajorDivisions MinorDivisions
      StartMinorAngle Smooth = Ok full /\
    Tor.Torus2 MajorRadius MinorRadius MajorDivisions MinorDivisions
      0 false 360 false StartMinorAngle Smooth = Ok cut /\
    nfaces cut = nfaces full /\
    nfaces full = MajorDivisions * MinorDivisions /\
    verts cut = verts full ++ firstn (Z.to_nat MinorDivisions) (verts full) /\
    map (glue (nverts full)) (faces cut) = faces full /\
    exists strips,
      Z.of_nat (length strips) = (MajorDivisions - 1) * MinorDivisions /\
      faces cut = strips ++
                  quad_strip MinorDivisions
                    (MinorDivisions * (MajorDivisions - 1))
                    (MinorDivisions * MajorDivisions) Smooth /\
      faces full = strips ++
                   quad_strip MinorDivisions
                     (MinorDivisions * (MajorDivisions - 1)) 0 Smooth.
Proof.
  intros HM Hm.
  rewrite Torus_closed, Torus2_closed by lia.
  do 2 eexists. split; [reflexivity|]. split; [reflexivity|].
  cbn [verts faces]. rewrite !app_nil_r.
  set (sma := (StartMinorAngle * 2 * PI / 180)%R).
  set (ring := torus_ring MajorRadius MinorRadius MinorDivisions sma).
  assert (Hlen : forall l, Z.of_nat (length (flat_map ring l))
                           = MinorDivisions * Z.of_nat (length l)).
  { intros l. rewrite (flat_map_length_const _ (Z.to_nat MinorDivisions))
      by (intros; apply torus_ring_length). nia. }
  assert (Hglue : map (glue (MinorDivisions * MajorDivisions))
                    (stack_skin MinorDivisions MajorDivisions Smooth)
                  = torus_skin MajorDivisions MinorDivisions Smooth).
  { unfold stack_skin, torus_skin. rewrite map_flat_map.
    apply flat_map_ext_on. intros i Hi. apply xrange_In in Hi.
    now apply glue_strip. }
  split; [|split; [|split; [|split]]].
  - unfold nfaces. cbn [faces]. rewrite <- Hglue. now rewrite length_map.
  - unfold nfaces, torus_skin. cbn [faces].
    rewrite (flat_map_length_const _ (Z.to_nat MinorDivisions))
      by (intros; apply quad_strip_length).
    rewrite xrange_length. nia.
  - rewrite Rmax_0_360, Rmin_0_360.
    replace (360 - 0)%R with 360%R by ring.
    replace (Z.to_nat (MajorDivisions + 1))
      with (S (Z.to_nat MajorDivisions)) by lia.
    rewrite walk_snoc, flat_map_app. f_equal.
    cbn [flat_map]. rewrite app_nil_r, iter_add.
    rewrite INR_IZR_INZ, Z2Nat.id by lia.
    replace (0 + IZR MajorDivisions * (360 / IZR MajorDivisions))%R
      with 360%R by (field; apply not_0_IZR; lia).
    unfold ring. rewrite torus_ring_full_turn.
    destruct (Z.to_nat MajorDivisions) as [|n] eqn:En; [lia|].
    cbn [walk flat_map].
    rewrite firstn_app, torus_ring_length, Nat.sub_diag, firstn_O, app_nil_r.
    rewrite firstn_all2 by (rewrite torus_ring_length; lia). reflexivity.
  - unfold nverts. cbn [verts]. rewrite Hlen, walk_length.
    rewrite Z2Nat.id by lia. exact Hglue.
  - exists (stack_skin MinorDivisions (MajorDivisions - 1) Smooth).
    split; [rewrite stack_skin_length; nia|].
    assert (Hx : xrange MajorDivisions
                 = xrange (MajorDivisions - 1) ++ [MajorDivisions - 1]).
    { rewrite <- xrange_succ by lia. f_equal. lia. }
    unfold stack_skin at 1. unfold torus_skin.
    rewrite Hx, !flat_map_app. cbn [flat_map]. rewrite !app_nil_r.
    replace (MajorDivisions - 1 + 1) with MajorDivisions by lia.
    split; [reflexivity|].
    rewrite Z.mod_same by lia. rewrite Z.mul_0_r. f_equal.
    apply flat_map_ext_on. intros i Hi. apply xrange_In in Hi.
    rewrite Z.mod_small by lia. reflexivity.
Qed.

Lemma Torus2_full_turn_equiv_witness :
  3 <= 3 /\ 3 <= 4 /\
  exists full cut,
    Tor.Torus 1 (1 / 4) 3 4 0 true = Ok full /\
    Tor.Torus2 1 (1 / 4) 3 4 0 false 360 false 0 true = Ok cut /\
    nfaces cut = nfaces full /\
    nfaces full = 3 * 4 /\
    verts cut = verts full ++ firstn (Z.to_nat 4) (verts full) /\
    map (glue (nverts full)) (faces cut) = faces full /\
    exists strips,
      Z.of_nat (length strips) = (3 - 1) * 4 /\
      faces cut = strips ++ quad_strip 4 (4 * (3 - 1)) (4 * 3) true /\
      faces full = strips ++ quad_strip 4 (4 * (3 - 1)) 0 true.
Proof.
  split; [lia|]. split; [lia|].
  apply (Torus2_full_turn_equiv 1 (1 / 4) 3 4 0 true); lia.
Defined.

Lemma xrange_cons n : 0 < n -> xrange n = 0 :: map Z.succ (xrange (n - 1)).
Proof.
  intros Hn. unfold xrange.
  replace (Z.to_nat n) with (S (Z.to_nat (n - 1))) by lia.
  cbn [seq map]. f_equal. rewrite <- seq_shift, !map_map.
  apply map_ext. intros k. lia.
Qed.

Ltac eqb_all :=
  repeat match goal with
         | |- context [?a =? ?b] =>
             first [ replace (a =? b) with true
                       by (symmetry; apply Z.eqb_eq; lia)
                   | replace (a =? b) with false
                       by (symmetry; apply Z.eqb_neq; lia) ]
         end.

(** In a fan [f 0; f 1; ...] whose first triangle only is degenerate, the
    degenerate triangles are [f 0] alone. *)
Lemma fan_one_degenerate (f : Z -> Face) n :
  0 < n ->
  degenerate (f 0) = true ->
  (forall i, 1 <= i < n -> degenerate (f i) = false) ->
  filter degenerate (map f (xrange n)) = [f 0].
Proof.
  intros Hn H0 Hi. rewrite xrange_cons by lia. cbn [map filter].
  rewrite H0. f_equal. apply filter_none.
  intros x Hx. rewrite map_map in Hx. apply in_map_iff in Hx.
  destruct Hx as (i & <- & Hx). apply xrange_In in Hx. apply Hi. lia.
Qed.

Lemma torus_cap_start_degenerate Min sm :
  3 <= Min ->
  hd_error (torus_cap_start Min sm) = Some (mkFace [0; 0; 1] sm) /\
  filter degenerate (torus_cap_start Min sm) = [mkFace [0; 0; 1] sm].
Proof.
  intros Hm. unfold torus_cap_start. split.
  - rewrite xrange_cons by lia. reflexivity.
  - rewrite (fan_one_degenerate (fun i => mkFace [0; i; i + 1] sm)).
    + reflexivity.
    + lia.
    + reflexivity.
    + intros i Hi. unfold degenerate. cbn [v has_dup existsb].
      eqb_all. reflexivity.
Qed.

Lemma torus_cap_end_degenerate len Min sm :
  3 <= Min ->
  hd_error (torus_cap_end len Min sm)
  = Some (mkFace [len - 1; len - 1; len - 2] sm) /\
  filter degenerate (torus_cap_end len Min sm)
  = [mkFace [len - 1; len - 1; len - 2] sm].
Proof.
  intros Hm. unfold torus_cap_end.
  assert (E : mkFace [len - 1; len - (0 + 1); len - (0 + 2)] sm
              = mkFace [len - 1; len - 1; len - 2] sm)
    by (repeat f_equal; lia).
  split.
  - rewrite xrange_cons by lia. cbn [map hd_error]. now rewrite E.
  - rewrite (fan_one_degenerate
               (fun i => mkFace [len - 1; len - (i + 1); len - (i + 2)] sm)).
    + now rewrite E.
    + lia.
    + unfold degenerate. cbn [v has_dup existsb]. eqb_all. reflexivity.
    + intros i Hi. unfold degenerate. cbn [v has_dup existsb].
      eqb_all. reflexivity.
Qed.

(** C10: in the cut torus (with [MajorDivisions >= 3] and
    [MinorDivisions >= 3]) the faces are the skin, then the start cap,
    then the end cap.  An enabled start cap has [MinorDivisions - 1]
    triangles, the first of which is [(ring[0], ring[0], ring[1])], and this
    is its only degenerate triangle; an enabled end cap has
    [MinorDivisions - 1] triangles, the first of which names the last vertex
    twice, and this is its only degenerate triangle. *)
Theorem Torus2_caps_degenerate MajorRadius MinorRadius MajorDivisions
    MinorDivisions StartMajorAngle CapStart EndMajorAngle CapEnd
    StartMinorAngle Smooth :
  3 <= MajorDivisions -> 3 <= MinorDivisions ->
  exists cut cap_start cap_end,
    Tor.Torus2 MajorRadius MinorRadius MajorDivisions MinorDivisions
      StartMajorAngle CapStart EndMajorAngle CapEnd StartMinorAngle Smooth
    = Ok cut /\
    faces cut = stack_skin MinorDivisions MajorDivisions Smooth
                ++ cap_start ++ cap_end /\
    (CapStart = false -> cap_start = []) /\
    (CapEnd = false -> cap_end = []) /\
    (CapStart = true ->
       Z.of_nat (length cap_start) = MinorDivisions - 1 /\
       hd_error cap_start = Some (mkFace [0; 0; 1] Smooth) /\
       filter degenerate cap_start = [mkFace [0; 0; 1] Smooth]) /\
    (CapEnd = true ->
       let last := nverts cut - 1 in
       Z.of_nat (length cap_end) = MinorDivisions - 1 /\
       hd_error cap_end = Some (mkFace [last; last; last - 1] Smooth) /\
       filter degenerate cap_end = [mkFace [last; last; last - 1] Smooth]).
Proof.
  intros HM Hm. rewrite Torus2_closed by lia.
  do 3 eexists. split; [reflexivity|]. cbn [faces]. split; [reflexivity|].
  split; [now intros ->|]. split; [now intros ->|]. split.
  - intros ->. split.
    + unfold torus_cap_start. rewrite length_map, xrange_length. lia.
    + now apply torus_cap_start_degenerate.
  - intros ->. cbv zeta.
    assert (Hn : nverts
                   {| verts :=
                        flat_map
                          (torus_ring MajorRadius MinorRadius MinorDivisions
                             (StartMinorAngle * 2 * PI / 180))
                          (walk (Z.to_nat (MajorDivisions + 1))
                             (fun a => (a + (Rmax StartMajorAngle EndMajorAngle
                                             - Rmin StartMajorAngle EndMajorAngle)
                                            / IZR MajorDivisions)%R)
                             (Rmin StartMajorAngle EndMajorAngle));
                      faces :=
                        stack_skin MinorDivisions MajorDivisions Smooth ++
                        (if CapStart
                         then torus_cap_start MinorDivisions Smooth else []) ++
                        torus_cap_end (MinorDivisions * (MajorDivisions + 1))
                          MinorDivisions Smooth |}
                 = MinorDivisions * (MajorDivisions + 1)).
    { unfold nverts. cbn [verts].
      rewrite (flat_map_length_const _ (Z.to_nat MinorDivisions))
        by (intros; apply torus_ring_length).
      rewrite walk_length. nia. }
    rewrite Hn. split.
    + unfold torus_cap_end. rewrite length_map, xrange_length. lia.
    + replace (MinorDivisions * (MajorDivisions + 1) - 1 - 1)
        with (MinorDivisions * (MajorDivisions + 1) - 2) by lia.
      now apply torus_cap_end_degenerate.
Qed.

Lemma Torus2_caps_degenerate_witness :
  3 <= 3 /\ 3 <= 4 /\
  exists cut cap_start cap_end,
    Tor.Torus2 1 (1 / 4) 3 4 0 true 90 true 0 true = Ok cut /\
    faces cut = stack_skin 4 3 true ++ cap_start ++ cap_end /\
    (true = false -> cap_start = []) /\
    (true = false -> cap_end = []) /\
    (true = true ->
       Z.of_nat (length cap_start) = 4 - 1 /\
       hd_error cap_start = Some (mkFace [0; 0; 1] true) /\
       filter degenerate cap_start = [mkFace [0; 0; 1] true]) /\
    (true = true ->
       let last := nverts cut - 1 in
       Z.of_nat (length cap_end) = 4 - 1 /\
       hd_error cap_end = Some (mkFace [last; last; last - 1] true) /\
       filter degenerate cap_end = [mkFace [last; last; last - 1] true]).
Proof.
  split; [lia|]. split; [lia|].
  apply (Torus2_caps_degenerate 1 (1 / 4) 3 4 0 true 90 true 0 true); lia.
Defined.

(** *** The twist deformer *)

Lemma twist_mesh_axis bb vertex_list mesh_verts Axis Angle StartFrom EndAt :
  is_axis Axis ->
  Twist.twist_mesh bb vertex_list mesh_verts Axis Angle StartFrom EndAt
  = Twist.finish
      (Twist.enumerate_update
         (Twist.twist_vertex (axis_co Axis) (axis_rot Axis) (axis_lo bb Axis)
            (axis_extent bb Axis)
            (Rmax StartFrom EndAt / 100 - Rmin StartFrom EndAt / 100)
            (PI * Angle / 180)
            (Rmin StartFrom EndAt / 100) (Rmax StartFrom EndAt / 100))
         vertex_list 0 mesh_verts).
Proof. intros [-> | [-> | ->]]; reflexivity. Qed.

Section TwistVertex.

Variables (co : Vert -> R) (rot : Vert -> R -> Vert).
Variables (lo d rd Angle StartFrom EndAt : R).

Lemma twist_vertex_no_extent p :
  d = 0%R ->
  Twist.twist_vertex co rot lo d rd Angle StartFrom EndAt p
  = Raise ZeroDivisionError.
Proof.
  intros Hd. unfold Twist.twist_vertex. subst d. now rewrite fdiv_zero.
Qed.

Lemma twist_vertex_inside p :
  d <> 0%R -> rd <> 0%R -> (StartFrom <= (co p - lo) / d <= EndAt)%R ->
  Twist.twist_vertex co rot lo d rd Angle StartFrom EndAt p
  = Ok (rot p (Angle * ((co p - lo) / d - StartFrom) / rd)%R).
Proof.
  intros Hd Hrd [H1 H2]. unfold Twist.twist_vertex.
  rewrite fdiv_ok by assumption.
  destruct (Rle_dec StartFrom ((co p - lo) / d)); [|contradiction].
  destruct (Rle_dec ((co p - lo) / d) EndAt); [|contradiction].
  now rewrite fdiv_ok.
Qed.

Lemma twist_vertex_empty_range p :
  d <> 0%R -> rd = 0%R -> (StartFrom <= (co p - lo) / d <= EndAt)%R ->
  Twist.twist_vertex co rot lo d rd Angle StartFrom EndAt p
  = Raise ZeroDivisionError.
Proof.
  intros Hd Hrd [H1 H2]. unfold Twist.twist_vertex.
  rewrite fdiv_ok by assumption.
  destruct (Rle_dec StartFrom ((co p - lo) / d)); [|contradiction].
  destruct (Rle_dec ((co p - lo) / d) EndAt); [|contradiction].
  subst rd. now rewrite fdiv_zero.
Qed.

Lemma twist_vertex_outside p :
  d <> 0%R -> ~ (StartFrom <= (co p - lo) / d <= EndAt)%R ->
  Twist.twist_vertex co rot lo d rd Angle StartFrom EndAt p = Ok p.
Proof.
  intros Hd Hout. unfold Twist.twist_vertex.
  rewrite fdiv_ok by assumption.
  destruct (Rle_dec StartFrom ((co p - lo) / d)); [|reflexivity].
  destruct (Rle_dec ((co p - lo) / d) EndAt); [|reflexivity].
  exfalso. apply Hout. now split.
Qed.

(** The only exception of the body is the division by zero. *)
Lemma twist_vertex_exn p e :
  Twist.twist_vertex co rot lo d rd Angle StartFrom EndAt p = Raise e ->
  e = ZeroDivisionError.
Proof.
  unfold Twist.twist_vertex, fdiv.
  destruct (Req_dec_T d 0); [congruence|].
  destruct (Rle_dec StartFrom ((co p - lo) / d)); [|congruence].
  destruct (Rle_dec ((co p - lo) / d) EndAt); [|congruence].
  destruct (Req_dec_T rd 0); congruence.
Qed.

End TwistVertex.

Section EnumerateUpdate.

Variable upd : Vert -> result Vert.

(** The loop leaves every vertex at its baseline when the body does. *)
Lemma enumerate_update_restore done todo mesh_verts :
  (forall p, In p todo -> upd p = Ok p) ->
  length mesh_verts = length todo ->
  Twist.enumerate_update upd (done ++ todo) (length done) mesh_verts
  = (todo, None).
Proof.
  revert done mesh_verts.
  induction todo as [|p todo IH]; intros done mesh_verts Hu Hl.
  - destruct mesh_verts; [reflexivity|discriminate].
  - destruct mesh_verts as [|v0 rest]; [discriminate|].
    cbn [Twist.enumerate_update].
    rewrite nth_error_app2, Nat.sub_diag by lia. cbn [nth_error].
    rewrite Hu by now left.
    specialize (IH (done ++ [p]) rest).
    rewrite <- app_assoc, length_app, Nat.add_1_r in IH. cbn [app] in IH.
    rewrite IH; [reflexivity| |].
    + intros; apply Hu; now right.
    + simpl in Hl. lia.
Qed.

(** The loop raises as soon as the body does; when this is at the first
    vertex, no vertex was written. *)
Lemma enumerate_update_first vertex_list p ps v0 rest e :
  vertex_list = p :: ps -> upd p = Raise e ->
  Twist.enumerate_update upd vertex_list 0 (v0 :: rest)
  = (v0 :: rest, Some e).
Proof. intros -> Hp. cbn. now rewrite Hp. Qed.

(** The loop raises when the body raises at some baseline vertex, and
    the body has no other exception. *)
Lemma enumerate_update_raises done todo mesh_verts e :
  (forall p e', upd p = Raise e' -> e' = e) ->
  (exists p, In p todo /\ upd p = Raise e) ->
  length mesh_verts = length todo ->
  snd (Twist.enumerate_update upd (done ++ todo) (length done) mesh_verts)
  = Some e.
Proof.
  revert done mesh_verts.
  induction todo as [|p todo IH]; intros done mesh_verts He Hex Hl.
  - destruct Hex as (p & [] & _).
  - destruct mesh_verts as [|v0 rest]; [discriminate|].
    cbn [Twist.enumerate_update].
    rewrite nth_error_app2, Nat.sub_diag by lia. cbn [nth_error].
    destruct (upd p) as [p'|e'] eqn:Ep.
    + specialize (IH (done ++ [p]) rest).
      rewrite <- app_assoc, length_app, Nat.add_1_r in IH. cbn [app] in IH.
      destruct (Twist.enumerate_update upd (done ++ p :: todo)
                  (S (length done)) rest) as [rest' r] eqn:Er.
      cbn [snd] in *. apply IH; auto.
      destruct Hex as (q & [<- | Hq] & Hr); [congruence|]. now exists q.
    + cbn [snd]. f_equal. eapply He; eauto.
Qed.

End EnumerateUpdate.

Lemma range_width_nonzero StartFrom EndAt :
  StartFrom <> EndAt ->
  (Rmax StartFrom EndAt / 100 - Rmin StartFrom EndAt / 100 <> 0)%R.
Proof.
  intros H. unfold Rmax, Rmin. destruct (Rle_dec StartFrom EndAt); lra.
Qed.

Lemma rot_x_zero p : Twist.rot_x p 0 = p.
Proof.
  destruct p as [[x y] z]. unfold Twist.rot_x. rewrite cos_0, sin_0.
  repeat f_equal; ring.
Qed.

Lemma rot_y_zero p : Twist.rot_y p 0 = p.
Proof.
  destruct p as [[x y] z]. unfold Twist.rot_y. rewrite cos_0, sin_0.
  repeat f_equal; ring.
Qed.

(** [rot_z] multiplies both terms of the second coordinate by the sine:
    at angle 0 it does not give the point back. *)
Lemma rot_z_zero x y z : Twist.rot_z (x, y, z) 0 = (x, 0%R, z).
Proof.
  unfold Twist.rot_z. rewrite cos_0, sin_0. repeat f_equal; ring.
Qed.

Lemma finish_snd r :
  snd (Twist.finish r)
  = match snd r with
    | None => Twist.Returned true
    | Some e => Twist.Raised e
    end.
Proof. destruct r as [m [e|]]; reflexivity. Qed.

Lemma Rmin_same a : Rmin a a = a.
Proof. apply Rmin_left, Rle_refl. Qed.

Lemma Rmax_same a : Rmax a a = a.
Proof. apply Rmax_left, Rle_refl. Qed.

Ltac axis_simpl :=
  unfold axis_t, axis_co, axis_lo, axis_extent,
    Twist.co0, Twist.co1, Twist.co2;
  simpl.

(** C9: for every axis, when the start and end percentages are equal and
    some vertex has its fraction [t] along the axis (the extent being
    non-zero, so that [t] exists) equal to that common value, [twist_mesh]
    raises [ZeroDivisionError]: the in-range branch divides by
    [EndAt - StartFrom = 0]. *)
Theorem twist_equal_range_raises bb vertex_list mesh_verts Axis Angle Start p :
  is_axis Axis ->
  axis_extent bb Axis <> 0%R ->
  length mesh_verts = length vertex_list ->
  In p vertex_list ->
  axis_t bb Axis p = (Start / 100)%R ->
  snd (Twist.twist_mesh bb vertex_list mesh_verts Axis Angle Start Start)
  = Twist.Raised ZeroDivisionError.
Proof.
  intros Hax Hd Hlen Hp Ht.
  rewrite twist_mesh_axis, finish_snd by assumption.
  rewrite Rmin_same, Rmax_same.
  rewrite (enumerate_update_raises _ [] vertex_list mesh_verts
             ZeroDivisionError); auto.
  - intros q e. apply twist_vertex_exn.
  - exists p. split; [assumption|].
    apply twist_vertex_empty_range; [assumption|ring|].
    fold (axis_t bb Axis p). rewrite Ht. split; apply Rle_refl.
Qed.

Lemma twist_equal_range_raises_witness :
  is_axis "y" /\
  axis_extent (Twist.mkBoundBox 0 1 0 2 0 1) "y" <> 0%R /\
  length [(0, 0, 0)%R; (0, 1, 0)%R] = length [(0, 0, 0)%R; (0, 1, 0)%R] /\
  In (0, 1, 0)%R [(0, 0, 0)%R; (0, 1, 0)%R] /\
  axis_t (Twist.mkBoundBox 0 1 0 2 0 1) "y" (0, 1, 0)%R = (50 / 100)%R /\
  snd (Twist.twist_mesh (Twist.mkBoundBox 0 1 0 2 0 1)
         [(0, 0, 0)%R; (0, 1, 0)%R] [(0, 0, 0)%R; (0, 1, 0)%R] "y" 90 50 50)
  = Twist.Raised ZeroDivisionError.
Proof.
  assert (Hax : is_axis "y") by (right; left; reflexivity).
  assert (Hd : axis_extent (Twist.mkBoundBox 0 1 0 2 0 1) "y" <> 0%R)
    by (axis_simpl; lra).
  assert (Hin : In (0, 1, 0)%R [(0, 0, 0)%R; (0, 1, 0)%R])
    by (right; left; reflexivity).
  assert (Ht : axis_t (Twist.mkBoundBox 0 1 0 2 0 1) "y" (0, 1, 0)%R
               = (50 / 100)%R)
    by (axis_simpl; lra).
  repeat split; try assumption.
  exact (twist_equal_range_raises (Twist.mkBoundBox 0 1 0 2 0 1)
           [(0, 0, 0)%R; (0, 1, 0)%R] [(0, 0, 0)%R; (0, 1, 0)%R] "y" 90 50
           (0, 1, 0)%R Hax Hd eq_refl Hin Ht).
Defined.

Lemma twist_vertex_zero_angle co rot lo d rd StartFrom EndAt p :
  rot p 0%R = p -> d <> 0%R -> rd <> 0%R ->
  Twist.twist_vertex co rot lo d rd (PI * 0 / 180) StartFrom EndAt p = Ok p.
Proof.
  intros Hrot Hd Hrd.
  destruct (Rle_dec StartFrom ((co p - lo) / d)) as [H1|H1].
  - destruct (Rle_dec ((co p - lo) / d) EndAt) as [H2|H2].
    + rewrite twist_vertex_inside by (auto; now split).
      replace (PI * 0 / 180 * ((co p - lo) / d - StartFrom) / rd)%R
        with 0%R by (unfold Rdiv; ring).
      now rewrite Hrot.
    + apply twist_vertex_outside; [assumption|]. now intros [_ H].
  - apply twist_vertex_outside; [assumption|]. now intros [H _].
Qed.

(** Without extent on the axis the first vertex raises, before any vertex
    is written. *)
Lemma twist_no_extent_first bb vertex_list mesh_verts Axis Angle StartFrom
    EndAt :
  is_axis Axis -> axis_extent bb Axis = 0%R ->
  vertex_list <> [] -> mesh_verts <> [] ->
  Twist.twist_mesh bb vertex_list mesh_verts Axis Angle StartFrom EndAt
  = (mesh_verts, Twist.Raised ZeroDivisionError).
Proof.
  intros Hax Hd Hvl Hm. rewrite twist_mesh_axis by assumption.
  destruct vertex_list as [|p ps]; [contradiction|].
  destruct mesh_verts as [|v0 rest]; [contradiction|].
  erewrite enumerate_update_first; [reflexivity|reflexivity|].
  now apply twist_vertex_no_extent.
Qed.

(** C3 (as amended): when the bounding box has no extent along the twist
    axis the division by the extent is not guarded: on a mesh with at
    least one vertex [twist_mesh] raises [ZeroDivisionError] at the first
    vertex, before any vertex position is changed. *)
Theorem twist_flat_box_raises bb vertex_list mesh_verts Axis Angle StartFrom
    EndAt :
  is_axis Axis -> axis_extent bb Axis = 0%R ->
  vertex_list <> [] -> mesh_verts <> [] ->
  Twist.twist_mesh bb vertex_list mesh_verts Axis Angle StartFrom EndAt
  = (mesh_verts, Twist.Raised ZeroDivisionError).
Proof. apply twist_no_extent_first. Qed.

Lemma twist_flat_box_raises_witness :
  is_axis "y" /\
  axis_extent (Twist.mkBoundBox 0 1 0 0 0 1) "y" = 0%R /\
  [(1, 0, 1)%R] <> [] /\ [(1, 0, 1)%R] <> [] /\
  Twist.twist_mesh (Twist.mkBoundBox 0 1 0 0 0 1) [(1, 0, 1)%R]
    [(1, 0, 1)%R] "y" 90 0 100
  = ([(1, 0, 1)%R], Twist.Raised ZeroDivisionError).
Proof.
  assert (Hax : is_axis "y") by (right; left; reflexivity).
  assert (Hd : axis_extent (Twist.mkBoundBox 0 1 0 0 0 1) "y" = 0%R)
    by (axis_simpl; lra).
  assert (Hne : [(1, 0, 1)%R] <> []) by discriminate.
  repeat split; try assumption.
  exact (twist_flat_box_raises (Twist.mkBoundBox 0 1 0 0 0 1) [(1, 0, 1)%R]
           [(1, 0, 1)%R] "y" 90 0 100 Hax Hd Hne Hne).
Defined.

(** C3 (as stated) fails: on the flat mesh with the single vertex (1,0,1),
    whose bounding box has no extent along y, twisting about y is not a
    silent no-op: it raises. *)
Lemma twist_flat_box_counterexample :
  ~ (forall bb vertex_list mesh_verts Axis Angle StartFrom EndAt,
       is_axis Axis -> axis_extent bb Axis = 0%R ->
       length mesh_verts = length vertex_list ->
       exists b,
         Twist.twist_mesh bb vertex_list mesh_verts Axis Angle StartFrom EndAt
         = (mesh_verts, Twist.Returned b)).
Proof.
  intros H.
  destruct (H (Twist.mkBoundBox 0 1 0 0 0 1) [(1, 0, 1)%R] [(1, 0, 1)%R]
              "y"%string 90%R 0%R 100%R) as (b & Hb).
  - right; left; reflexivity.
  - axis_simpl; lra.
  - reflexivity.
  - rewrite twist_no_extent_first in Hb; try discriminate.
    + right; left; reflexivity.
    + axis_simpl; lra.
Qed.

(** C2 (as amended): for the axis X or Y, a bounding box with extent along
    the axis and a start/end range with start different from end, twisting
    by the angle 0 sets every vertex of the mesh to exactly its baseline
    position. *)
Theorem twist_zero_angle_restores bb vertex_list mesh_verts Axis StartFrom
    EndAt :
  Axis = "x"%string \/ Axis = "y"%string ->
  axis_extent bb Axis <> 0%R ->
  StartFrom <> EndAt ->
  length mesh_verts = length vertex_list ->
  Twist.twist_mesh bb vertex_list mesh_verts Axis 0 StartFrom EndAt
  = (vertex_list, Twist.Returned true).
Proof.
  intros Hax Hd Hse Hlen.
  rewrite twist_mesh_axis by (destruct Hax; [left|right; left]; assumption).
  rewrite (enumerate_update_restore _ [] vertex_list mesh_verts);
    [reflexivity| |assumption].
  intros p _. apply twist_vertex_zero_angle.
  - destruct Hax as [-> | ->]; [apply rot_x_zero|apply rot_y_zero].
  - assumption.
  - now apply range_width_nonzero.
Qed.

Lemma twist_zero_angle_restores_witness :
  ("y"%string = "x"%string \/ "y"%string = "y"%string) /\
  axis_extent (Twist.mkBoundBox 0 1 0 2 0 1) "y" <> 0%R /\
  0%R <> 100%R /\
  length [(3, 4, 5)%R; (6, 7, 8)%R] = length [(0, 0, 0)%R; (1, 2, 1)%R] /\
  Twist.twist_mesh (Twist.mkBoundBox 0 1 0 2 0 1)
    [(0, 0, 0)%R; (1, 2, 1)%R] [(3, 4, 5)%R; (6, 7, 8)%R] "y" 0 0 100
  = ([(0, 0, 0)%R; (1, 2, 1)%R], Twist.Returned true).
Proof.
  assert (Hax : "y"%string = "x"%string \/ "y"%string = "y"%string)
    by (right; reflexivity).
  assert (Hd : axis_extent (Twist.mkBoundBox 0 1 0 2 0 1) "y" <> 0%R)
    by (axis_simpl; lra).
  assert (Hse : 0%R <> 100%R) by lra.
  repeat split; try assumption.
  exact (twist_zero_angle_restores (Twist.mkBoundBox 0 1 0 2 0 1)
           [(0, 0, 0)%R; (1, 2, 1)%R] [(3, 4, 5)%R; (6, 7, 8)%R] "y" 0 100
           Hax Hd Hse eq_refl).
Defined.

(** C2 (as stated) fails.  With start = end = 50 and a vertex half way
    along x, the twist by 0 about x raises [ZeroDivisionError] and leaves
    the vertex where it was, here at (1/2, 5, 5) and not at its baseline
    (1/2, 0, 0).  And about z, with the range 0 to 100, the twist by 0
    moves the in-range vertex (1, 1, 1/2) to (1, 0, 1/2), because of the
    sine in the second coordinate of [rot_z]. *)
Lemma twist_zero_angle_counterexample :
  Twist.twist_mesh (Twist.mkBoundBox 0 1 0 1 0 1)
    [(1 / 2, 0, 0)%R] [(1 / 2, 5, 5)%R] "x" 0 50 50
  = ([(1 / 2, 5, 5)%R], Twist.Raised ZeroDivisionError) /\
  Twist.twist_mesh (Twist.mkBoundBox 0 1 0 1 0 1)
    [(1, 1, 1 / 2)%R] [(1, 1, 1 / 2)%R] "z" 0 0 100
  = ([(1, 0, 1 / 2)%R], Twist.Returned true).
Proof.
  split.
  - rewrite twist_mesh_axis by (left; reflexivity).
    erewrite enumerate_update_first; [reflexivity|reflexivity|].
    rewrite Rmin_same, Rmax_same.
    apply twist_vertex_empty_range; axis_simpl; lra.
  - rewrite twist_mesh_axis by (right; right; reflexivity).
    cbn [Twist.enumerate_update nth_error].
    rewrite twist_vertex_inside.
    + replace (PI * 0 / 180 * _ / _)%R with 0%R by (unfold Rdiv; ring).
      unfold axis_rot. simpl String.eqb. cbv iota.
      rewrite rot_z_zero. reflexivity.
    + axis_simpl; lra.
    + apply range_width_nonzero; lra.
    + rewrite Rmin_left, Rmax_right by lra. axis_simpl; lra.
Qed.

(** *** The clipped sphere *)

Lemma verts_append_ok p poly :
  verts_append p poly = Ok (tt, add_verts poly [p]).
Proof. reflexivity. Qed.

Lemma for_in_faces_some {A} (body : A -> M unit) (n : Z) (l : list A) :
  (forall x poly, In x l -> nverts poly = n ->
     exists fs, body x poly = Ok (tt, add_faces poly fs)) ->
  forall poly, nverts poly = n ->
    exists fs, for_in l body poly = Ok (tt, add_faces poly fs).
Proof.
  unfold for_in.
  induction l as [|x l IH]; intros Hb poly Hn.
  - exists []. simpl. unfold ret. now rewrite add_faces_nil.
  - destruct (Hb x poly (or_introl eq_refl) Hn) as (fs & Hx).
    destruct (IH (fun y q Hy => Hb y q (or_intror Hy)) (add_faces poly fs) Hn)
      as (gs & Hl).
    exists (fs ++ gs). simpl for_acc. erewrite bind_ok by exact Hx.
    now rewrite Hl, add_faces_app.
Qed.

Lemma new_face_some sm ks poly :
  Forall (fun k => - nverts poly <= k < nverts poly) ks ->
  exists fs, new_face sm ks poly = Ok (tt, add_faces poly fs).
Proof. intros H. eexists. now apply new_face_ok. Qed.

Lemma walk_sub n (da a : R) :
  walk n (fun x => (x - da)%R) a
  = map (fun k => (a - INR k * da)%R) (seq 0 n).
Proof.
  assert (Hit : forall m, Nat.iter m (fun x => (x - da)%R) a
                          = (a - INR m * da)%R).
  { induction m as [|m IH].
    - simpl. ring.
    - rewrite Nat.iter_succ, IH, S_INR. ring. }
  induction n as [|n IH]; [reflexivity|].
  rewrite walk_snoc, seq_S, map_app, IH, Hit. reflexivity.
Qed.

Lemma rang_ok Clip :
  (0 <= Clip <= 100)%R ->
  Sph.rang Clip = Ok (180 * acos (Sph.norm_z Clip) / PI)%R.
Proof.
  intros [H0 H1]. unfold Sph.rang, py_acos, Sph.norm_z.
  destruct (Rle_dec (-1) (1 - Clip / 50)); [|lra].
  destruct (Rle_dec (1 - Clip / 50) 1); [reflexivity|lra].
Qed.

Lemma sphere2_rings_walk Radius U V rng :
  flat_map (fun a =>
              ring_pts U (Radius * sin (a / 180 * PI))
                (Radius * cos (a / 180 * PI)))
    (walk (Z.to_nat (V - 1)) (fun a => (a - rng / IZR V)%R) rng)
  = sphere2_rings Radius U V rng.
Proof.
  unfold sphere2_rings, xrange. rewrite walk_sub, !flat_map_concat_map.
  rewrite !map_map. f_equal. apply map_ext. intros k.
  unfold ring_angle. now rewrite <- INR_IZR_INZ.
Qed.

Lemma sphere2_rings_length Radius U V rng :
  0 <= U -> 1 <= V ->
  Z.of_nat (length (sphere2_rings Radius U V rng)) = U * (V - 1).
Proof.
  intros HU HV. unfold sphere2_rings.
  rewrite (flat_map_length_const _ (Z.to_nat U))
    by (intros; apply ring_pts_length).
  rewrite xrange_length. nia.
Qed.

Lemma Sphere2_closed Radius U V Clip (CapBottom CapSymmetrical Smooth : bool) :
  0 <= U -> 2 <= V -> (0 <= Clip <= 100)%R ->
  exists rng fs,
    Sph.rang Clip = Ok rng /\
    rng = (180 * acos (Sph.norm_z Clip) / PI)%R /\
    Sph.Sphere2 Radius U V Clip CapBottom CapSymmetrical Smooth
    = Ok (mkMesh
            (sphere2_rings Radius U V rng ++
             (0, 0, Radius)%R ::
             (if CapBottom then
                if CapSymmetrical then [(0, 0, Sph.min_z Radius rng)%R] else []
              else []))
            fs).
Proof.
  intros HU HV HClip.
  exists (180 * acos (Sph.norm_z Clip) / PI)%R.
  set (rng := (180 * acos (Sph.norm_z Clip) / PI)%R).
  unfold Sph.Sphere2, build, Sph.Sphere2_body. cbv zeta.
  erewrite bind_ok by (apply lift_ok, rang_ok, HClip). fold rng.
  erewrite bind_ok by (apply lift_ok, fdiv_IZR_ok; lia).
  erewrite bind_ok by
    (apply (rings_loop_ok
              (fun a => Sph.MakeVertexRing U (Radius * sin (a / 180 * PI))
                          (Radius * cos (a / 180 * PI)))
              (fun a => (a - rng / IZR V)%R));
     intros; apply Sph_MakeVertexRing_ok).
  rewrite sphere2_rings_walk.
  pose proof (sphere2_rings_length Radius U V rng HU ltac:(lia)) as Hrv.
  set (rv := sphere2_rings Radius U V rng) in *.
  erewrite bind_ok by apply verts_append_ok. rewrite add_verts_app.
  set (p1 := add_verts GetRaw (rv ++ [(0, 0, Radius)%R])).
  assert (Hn1 : nverts p1 = U * (V - 1) + 1).
  { unfold p1. rewrite nverts_add_verts, length_app. cbn. lia. }
  erewrite (bind_ok _ _ p1) by (apply Sph_skin_ok; rewrite Hn1; nia).
  set (p2 := add_faces p1 _).
  destruct (for_in_faces_some
              (fun k => new_face Smooth [-1; - (k + 2); - ((k + 1) mod U + 2)])
              (U * (V - 1) + 1) (xrange U)) with (poly := p2) as (fs3 & H3).
  { intros k q Hk Hq. apply xrange_In in Hk.
    pose proof (Z.mod_pos_bound (k + 1) U ltac:(lia)).
    apply new_face_some. rewrite Hq. repeat constructor; nia. }
  { exact Hn1. }
  erewrite bind_ok by exact H3.
  set (p3 := add_faces p2 fs3).
  assert (Hn3 : nverts p3 = U * (V - 1) + 1) by exact Hn1.
  destruct CapBottom; [destruct CapSymmetrical|].
  - erewrite bind_ok by apply verts_append_ok.
    match goal with
    | |- context [for_in ?l ?b ?q] =>
        destruct (for_in_faces_some b (U * (V - 1) + 2) l) with (poly := q)
          as (fs4 & H4)
    end.
    { intros k q Hk Hq. apply xrange_In in Hk.
      pose proof (Z.mod_pos_bound (k + 1) U ltac:(lia)).
      apply new_face_some. rewrite Hq. repeat constructor; nia. }
    { rewrite nverts_add_verts, Hn3. cbn. lia. }
    eexists. split; [apply rang_ok, HClip|]. split; [reflexivity|]. rewrite H4.
    unfold p3, p2, p1, add_faces, add_verts, GetRaw. cbn [verts faces app].
    rewrite <- app_assoc. reflexivity.
  - destruct (for_in_faces_some
                (fun i => new_face Smooth [0; i + 1; i + 2])
                (U * (V - 1) + 1) (xrange (U - 2))) with (poly := p3)
      as (fs4 & H4).
    { intros k q Hk Hq. apply xrange_In in Hk.
      apply new_face_some. rewrite Hq. repeat constructor; nia. }
    { exact Hn3. }
    eexists. split; [apply rang_ok, HClip|]. split; [reflexivity|]. rewrite H4.
    unfold p3, p2, p1, add_faces, add_verts, GetRaw. cbn [verts faces app].
    reflexivity.
  - unfold ret. eexists. split; [apply rang_ok, HClip|]. split; [reflexivity|].
    unfold p3, p2, p1, add_faces, add_verts, GetRaw. cbn [verts faces app].
    reflexivity.
Qed.

Lemma nth_error_flat_map_const {A B} (f : A -> list B) m l k i x :
  (forall y, length (f y) = m) ->
  nth_error l k = Some x -> (i < m)%nat ->
  nth_error (flat_map f l) (k * m + i) = nth_error (f x) i.
Proof.
  intros Hf. revert k.
  induction l as [|y l IH]; intros k Hk Hi.
  - destruct k; discriminate.
  - destruct k as [|k]; cbn [flat_map].
    + injection Hk as ->. rewrite nth_error_app1 by (rewrite Hf; lia).
      reflexivity.
    + rewrite nth_error_app2 by (rewrite Hf; lia).
      rewrite Hf. replace (S k * m + i - m)%nat with (k * m + i)%nat by lia.
      now apply IH.
Qed.

Lemma xrange_nth n k : 0 <= k < n -> nth_error (xrange n) (Z.to_nat k) = Some k.
Proof.
  intros Hk. unfold xrange.
  rewrite nth_error_map, nth_error_seq.
  replace (Z.to_nat k <? Z.to_nat n)%nat with true
    by (symmetry; apply Nat.ltb_lt; lia).
  cbn. f_equal. lia.
Qed.

Lemma ring_pts_nth n r z i :
  0 <= i < n ->
  nth_error (ring_pts n r z) (Z.to_nat i)
  = Some (r * cos (PI * 2 * IZR i / IZR n),
          r * sin (PI * 2 * IZR i / IZR n), z)%R.
Proof.
  intros Hi. unfold ring_pts. rewrite nth_error_map, xrange_nth by lia.
  reflexivity.
Qed.

Lemma sphere2_rings_nth Radius U V rng k i :
  0 <= k < V - 1 -> 0 <= i < U ->
  nth_error (sphere2_rings Radius U V rng) (Z.to_nat (U * k + i))
  = Some (let theta := (ring_angle rng V k / 180 * PI)%R in
          let phi := (PI * 2 * IZR i / IZR U)%R in
          (Radius * sin theta * cos phi, Radius * sin theta * sin phi,
           Radius * cos theta)%R).
Proof.
  intros Hk Hi. unfold sphere2_rings.
  replace (Z.to_nat (U * k + i))
    with (Z.to_nat k * Z.to_nat U + Z.to_nat i)%nat by nia.
  erewrite nth_error_flat_map_const.
  - cbv zeta. now apply ring_pts_nth.
  - intros y. apply ring_pts_length.
  - apply xrange_nth. lia.
  - lia.
Qed.

Lemma ring_angle_bounds rng V k :
  (0 <= rng)%R -> 0 <= k < V -> (0 <= ring_angle rng V k <= rng)%R.
Proof.
  intros Hr Hk. unfold ring_angle.
  assert (HV : (0 < IZR V)%R) by (apply IZR_lt; lia).
  assert (Hk0 : (0 <= IZR k)%R) by (apply IZR_le; lia).
  assert (HkV : (IZR k <= IZR V)%R) by (apply IZR_le; lia).
  assert (Hq : (0 <= rng / IZR V)%R)
    by (apply Rmult_le_pos; [assumption|left; now apply Rinv_0_lt_compat]).
  assert (Hfull : (IZR V * (rng / IZR V) = rng)%R) by (field; lra).
  assert (Hle : (IZR k * (rng / IZR V) <= IZR V * (rng / IZR V))%R)
    by (apply Rmult_le_compat_r; assumption).
  assert (H0 : (0 <= IZR k * (rng / IZR V))%R)
    by (apply Rmult_le_pos; assumption).
  lra.
Qed.

Lemma rang_radians Clip :
  (180 * acos (Sph.norm_z Clip) / PI / 180 * PI)%R
  = acos (1 - 2 * Clip / 100).
Proof.
  unfold Sph.norm_z.
  replace (1 - Clip / 50)%R with (1 - 2 * Clip / 100)%R by field.
  field. apply PI_neq0.
Qed.

Lemma rang_at_0 : (180 * acos (Sph.norm_z 0) / PI)%R = 0%R.
Proof.
  unfold Sph.norm_z. replace (1 - 0 / 50)%R with 1%R by field.
  rewrite acos_1. unfold Rdiv. ring.
Qed.

Lemma rang_at_100 : (180 * acos (Sph.norm_z 100) / PI)%R = 180%R.
Proof.
  unfold Sph.norm_z. replace (1 - 100 / 50)%R with (- (1))%R by field.
  rewrite acos_opp, acos_1. field. apply PI_neq0.
Qed.

Lemma ring_pts_pole n z theta Radius :
  theta = 0%R -> z = Radius ->
  Forall (fun p => p = (0, 0, Radius)%R)
    (ring_pts n (Radius * sin theta) (z * cos theta)).
Proof.
  intros -> ->. unfold ring_pts. apply Forall_map, Forall_forall.
  intros i _. cbv zeta. rewrite sin_0, cos_0. repeat f_equal; ring.
Qed.

(** What the clipped sphere emits, for every segment count that is not
    negative. *)
Lemma Sphere2_clip_facts Radius U V Clip (CapBottom CapSymmetrical Smooth : bool) :
  0 <= U -> 2 <= V -> (0 <= Clip <= 100)%R ->
  exists rng poly,
    Sph.rang Clip = Ok rng /\
    (rng / 180 * PI)%R = acos (1 - 2 * Clip / 100) /\
    Sph.Sphere2 Radius U V Clip CapBottom CapSymmetrical Smooth = Ok poly /\
    (forall k i, 0 <= k < V - 1 -> 0 <= i < U ->
       (0 <= ring_angle rng V k <= rng)%R /\
       nth_error (verts poly) (Z.to_nat (U * k + i))
       = Some (let theta := (ring_angle rng V k / 180 * PI)%R in
               let phi := (PI * 2 * IZR i / IZR U)%R in
               (Radius * sin theta * cos phi, Radius * sin theta * sin phi,
                Radius * cos theta)%R)) /\
    (Clip = 0%R ->
       rng = 0%R /\ Forall (fun p => p = (0, 0, Radius)%R) (verts poly)) /\
    (Clip = 100%R ->
       rng = 180%R /\
       (0 < U -> nth_error (verts poly) 0 = Some (0, 0, - Radius)%R)).
Proof.
  intros HU HV HClip.
  destruct (Sphere2_closed Radius U V Clip CapBottom CapSymmetrical Smooth
              HU HV HClip) as (rng & fs & Hrng & Erng & Hrun).
  exists rng. eexists. split; [exact Hrng|].
  split; [rewrite Erng; apply rang_radians|].
  split; [exact Hrun|]. cbn [verts].
  pose proof (sphere2_rings_length Radius U V rng HU ltac:(lia)) as Hlen.
  assert (Hpos : (0 <= rng)%R).
  { rewrite Erng. unfold Sph.norm_z.
    pose proof (acos_bound (1 - Clip / 50)) as [Ha _].
    pose proof PI_RGT_0.
    apply Rmult_le_pos; [lra|left; apply Rinv_0_lt_compat; lra]. }
  split; [|split].
  - intros k i Hk Hi. split; [apply ring_angle_bounds; [assumption|lia]|].
    rewrite nth_error_app1 by nia. now apply sphere2_rings_nth.
  - intros ->. rewrite rang_at_0 in Erng. split; [exact Erng|]. subst rng.
    apply Forall_app. split.
    + unfold sphere2_rings. apply Forall_flat_map, Forall_forall.
      intros k _. cbv zeta. apply ring_pts_pole; [|reflexivity].
      unfold ring_angle, Rdiv. ring.
    + assert (Hz : Sph.min_z Radius 0 = Radius).
      { unfold Sph.min_z. replace (0 / 180 * PI)%R with 0%R by field.
        rewrite cos_0. ring. }
      destruct CapBottom; [destruct CapSymmetrical|];
        repeat constructor. now rewrite Hz.
  - intros ->. rewrite rang_at_100 in Erng. split; [exact Erng|]. subst rng.
    intros HU0. rewrite nth_error_app1 by nia.
    change 0%nat with (Z.to_nat 0).
    replace 0 with (U * 0 + 0) at 1 by lia.
    rewrite sphere2_rings_nth by lia. cbv zeta. unfold ring_angle.
    replace ((180 - 0 * (180 / IZR V)) / 180 * PI)%R with PI
      by (field; apply not_0_IZR; lia).
    replace (PI * 2 * 0 / IZR U)%R with 0%R
      by (field; apply not_0_IZR; lia).
    rewrite sin_PI, cos_PI, sin_0, cos_0. repeat f_equal; ring.
Qed.

(** C4 (as amended): for the clipped sphere (U, V >= 3, clip-percent in
    [0, 100]) the clip latitude, measured from the north pole, is
    [acos (1 - 2*clipPercent/100)]; the [k]-th ring ([k = 0 .. V-2]) is
    emitted at the polar angle [(V-k)/V] of the clip latitude, so only
    latitudes between the pole and the clip latitude are emitted; and the
    direction of clip-percent is: 0 keeps nothing (every vertex is at the
    north pole), 100 keeps the full sphere (the clip latitude is 180
    degrees and the first ring lies at the south pole). *)
Theorem Sphere2_clip Radius U V Clip (CapBottom CapSymmetrical Smooth : bool) :
  3 <= U -> 3 <= V -> (0 <= Clip <= 100)%R ->
  exists rng poly,
    Sph.rang Clip = Ok rng /\
    (rng / 180 * PI)%R = acos (1 - 2 * Clip / 100) /\
    Sph.Sphere2 Radius U V Clip CapBottom CapSymmetrical Smooth = Ok poly /\
    (forall k i, 0 <= k < V - 1 -> 0 <= i < U ->
       (0 <= ring_angle rng V k <= rng)%R /\
       nth_error (verts poly) (Z.to_nat (U * k + i))
       = Some (let theta := (ring_angle rng V k / 180 * PI)%R in
               let phi := (PI * 2 * IZR i / IZR U)%R in
               (Radius * sin theta * cos phi, Radius * sin theta * sin phi,
                Radius * cos theta)%R)) /\
    (Clip = 0%R ->
       rng = 0%R /\ Forall (fun p => p = (0, 0, Radius)%R) (verts poly)) /\
    (Clip = 100%R ->
       rng = 180%R /\ nth_error (verts poly) 0 = Some (0, 0, - Radius)%R).
Proof.
  intros HU HV HClip.
  destruct (Sphere2_clip_facts Radius U V Clip CapBottom CapSymmetrical Smooth)
    as (rng & poly & H1 & H2 & H3 & H4 & H5 & H6); try lia; try assumption.
  exists rng, poly. repeat (split; [assumption|]).
  intros E. destruct (H6 E) as [Hr Hs]. split; [assumption|]. apply Hs. lia.
Qed.

Lemma Sphere2_clip_witness :
  3 <= 16 /\ 3 <= 16 /\ (0 <= 50 <= 100)%R /\
  exists rng poly,
    Sph.rang 50 = Ok rng /\
    (rng / 180 * PI)%R = acos (1 - 2 * 50 / 100) /\
    Sph.Sphere2 1 16 16 50 true false true = Ok poly /\
    (forall k i, 0 <= k < 16 - 1 -> 0 <= i < 16 ->
       (0 <= ring_angle rng 16 k <= rng)%R /\
       nth_error (verts poly) (Z.to_nat (16 * k + i))
       = Some (let theta := (ring_angle rng 16 k / 180 * PI)%R in
               let phi := (PI * 2 * IZR i / IZR 16)%R in
               (1 * sin theta * cos phi, 1 * sin theta * sin phi,
                1 * cos theta)%R)) /\
    (50%R = 0%R ->
       rng = 0%R /\ Forall (fun p => p = (0, 0, 1)%R) (verts poly)) /\
    (50%R = 100%R ->
       rng = 180%R /\ nth_error (verts poly) 0 = Some (0, 0, - (1))%R).
Proof.
  assert (Hc : (0 <= 50 <= 100)%R) by lra.
  split; [lia|]. split; [lia|]. split; [exact Hc|].
  apply (Sphere2_clip 1 16 16 50 true false true); [lia|lia|exact Hc].
Defined.

(** C4 (as stated) fails in its direction.  With clip-percent 0 the
    clipped sphere of radius 1 keeps nothing: all its vertices are at the
    north pole (0,0,1).  With clip-percent 100 it is the full sphere: its
    first ring is at the south pole (0,0,-1). *)
Lemma Sphere2_clip_direction_counterexample :
  (exists poly,
     Sph.Sphere2 1 3 3 0 false false true = Ok poly /\
     Forall (fun p => p = (0, 0, 1)%R) (verts poly)) /\
  (exists poly,
     Sph.Sphere2 1 3 3 100 false false true = Ok poly /\
     nth_error (verts poly) 0 = Some (0, 0, -1)%R).
Proof.
  split.
  - destruct (Sphere2_clip_facts 1 3 3 0 false false true)
      as (rng & poly & _ & _ & Hrun & _ & H0 & _); try lia; try lra.
    exists poly. split; [exact Hrun|]. now apply H0.
  - destruct (Sphere2_clip_facts 1 3 3 100 false false true)
      as (rng & poly & _ & _ & Hrun & _ & _ & H100); try lia; try lra.
    exists poly. split; [exact Hrun|].
    destruct (H100 eq_refl) as [_ Hs]. rewrite Hs by lia.
    repeat f_equal; lra.
Qed.

(** *** The tube *)

Lemma walk_hd {T} n (step : T -> T) p :
  (0 < n)%nat -> hd_error (walk n step p) = Some p.
Proof. destruct n; [lia|reflexivity]. Qed.

Lemma MakeVertexRectange_ok InnerRadius OuterRadius Height InnerDivisions
    OuterDivisions CapDivisions :
  1 <= InnerDivisions -> 1 <= OuterDivisions -> 1 <= CapDivisions ->
  exists vert,
    Tub.MakeVertexRectange InnerRadius OuterRadius Height InnerDivisions
      OuterDivisions CapDivisions = Ok vert /\
    Z.of_nat (length vert)
    = 2 * CapDivisions + InnerDivisions + OuterDivisions /\
    hd_error vert = Some (InnerRadius, 0, 0)%R.
Proof.
  intros HI HO HC. unfold Tub.MakeVertexRectange, Tub.rbind.
  rewrite !fdiv_IZR_ok by lia. eexists. split; [reflexivity|]. split.
  - rewrite !length_app, !walk_length. lia.
  - destruct (Z.to_nat InnerDivisions) eqn:E; [lia|reflexivity].
Qed.

Lemma AddYRotatedVertexes_ok vertex_list angle poly :
  Tub.AddYRotatedVertexes vertex_list angle poly
  = Ok (tt, add_verts poly
              (map (fun p => Tub.RotateZvert p angle) vertex_list)).
Proof.
  unfold Tub.AddYRotatedVertexes. now apply for_in_verts.
Qed.

(** The cut tube ([UseAngles] set): its first section starts at
    [StartAngle], whichever way the two angles are ordered. *)
Lemma Tube_cut_first InnerRadius OuterRadius Height InnerDivisions
    OuterDivisions CapDivisions Segments Smooth StartAngle EndAngle :
  1 <= InnerDivisions -> 1 <= OuterDivisions -> 1 <= CapDivisions ->
  1 <= Segments ->
  exists poly,
    Tub.Tube InnerRadius OuterRadius Height InnerDivisions OuterDivisions
      CapDivisions Segments Smooth StartAngle EndAngle true = Ok poly /\
    nverts poly
    = (2 * CapDivisions + InnerDivisions + OuterDivisions) * (Segments + 1)
      + 2 /\
    hd_error (verts poly)
    = Some (Tub.RotateZvert (InnerRadius, 0, 0)%R (Tub.deg2rad StartAngle)).
Proof.
  intros HI HO HC HS.
  destruct (MakeVertexRectange_ok InnerRadius OuterRadius Height _ _ _
              HI HO HC) as (vert & Hvert & Hlen & Hhd).
  unfold Tub.Tube, build, Tub.Tube_body. cbv zeta.
  erewrite bind_ok by (apply lift_ok, Hvert).
  erewrite bind_ok
    by (erewrite bind_ok by (apply lift_ok, fdiv_IZR_ok; lia); reflexivity).
  cbv beta iota.
  erewrite bind_ok by
    (apply (rings_loop_ok (Tub.AddYRotatedVertexes vert));
     intros; apply AddYRotatedVertexes_ok).
  set (vps := 2 * CapDivisions + InnerDivisions + OuterDivisions) in *.
  match goal with
  | |- context [add_verts GetRaw ?l] => set (rv := l)
  end.
  assert (Hrv : Z.of_nat (length rv) = vps * (Segments + 1)).
  { unfold rv.
    rewrite (flat_map_length_const _ (Z.to_nat vps))
      by (intros; rewrite length_map; lia).
    rewrite walk_length. nia. }
  assert (Hhd' : hd_error rv
                 = Some (Tub.RotateZvert (InnerRadius, 0, 0)%R
                           (Tub.deg2rad StartAngle))).
  { unfold rv. replace (Z.to_nat (Segments + 1))
      with (S (Z.to_nat Segments)) by lia.
    cbn [walk flat_map]. destruct vert as [|p vert]; [discriminate|].
    injection Hhd as ->. reflexivity. }
  erewrite bind_ok.
  2:{ apply (for_in_faces _
               (fun i => quad_strip vps (vps * i)
                           (vps * ((i + 1) mod (Segments + 1))) Smooth)
               (vps * (Segments + 1))); [|exact Hrv].
      intros i q Hi Hq. apply xrange_In in Hi. apply strip_ok.
      intros Hpos. rewrite Hq, Z.mod_small by lia. nia. }
  erewrite bind_ok by apply verts_append_ok.
  erewrite bind_ok by apply verts_append_ok.
  rewrite fan_pair_ok.
  - eexists. split; [reflexivity|]. split.
    + rewrite nverts_add_faces, !nverts_add_verts, nverts_add_faces.
      cbn [length]. unfold nverts, add_verts, GetRaw. cbn [verts app].
      lia.
    + unfold add_faces, add_verts, GetRaw. cbn [verts faces app].
      destruct rv; [discriminate|]. exact Hhd'.
  - intros Hpos. rewrite !nverts_add_verts, nverts_add_faces.
    cbn [length]. unfold nverts, add_verts, GetRaw. cbn [verts app]. nia.
Qed.

Lemma RotateZvert_start_0 :
  Tub.RotateZvert (1, 0, 0)%R (Tub.deg2rad 0) = (1, 0, 0)%R.
Proof.
  unfold Tub.RotateZvert, Tub.deg2rad.
  replace (PI * 0 / 180)%R with 0%R by field.
  rewrite cos_0, sin_0. repeat f_equal; ring.
Qed.

Lemma RotateZvert_start_90 :
  Tub.RotateZvert (1, 0, 0)%R (Tub.deg2rad 90) = (0, 1, 0)%R.
Proof.
  unfold Tub.RotateZvert, Tub.deg2rad.
  replace (PI * 90 / 180)%R with (PI / 2)%R by field.
  rewrite cos_PI2, sin_PI2. repeat f_equal; ring.
Qed.

(** The cut torus orders its two angles: swapping them changes nothing. *)
Lemma Torus2_range_normalized MajorRadius MinorRadius MajorDivisions
    MinorDivisions a CapStart b CapEnd StartMinorAngle Smooth :
  Tor.Torus2 MajorRadius MinorRadius MajorDivisions MinorDivisions
    a CapStart b CapEnd StartMinorAngle Smooth
  = Tor.Torus2 MajorRadius MinorRadius MajorDivisions MinorDivisions
      b CapStart a CapEnd StartMinorAngle Smooth.
Proof.
  unfold Tor.Torus2, Tor.Torus2_body.
  now rewrite (Rmin_comm a b), (Rmax_comm a b).
Qed.

(** So does the twist deformer with its two percentages. *)
Lemma twist_mesh_range_normalized bb vertex_list mesh_verts Axis Angle a b :
  Twist.twist_mesh bb vertex_list mesh_verts Axis Angle a b
  = Twist.twist_mesh bb vertex_list mesh_verts Axis Angle b a.
Proof.
  unfold Twist.twist_mesh. now rewrite (Rmin_comm a b), (Rmax_comm a b).
Qed.

(** C8: the tube does not order its two angles.  The cut tube (inner
    radius 1, outer radius 2, height 5, one division each way, 3 segments)
    from 0 to 90 degrees starts its first section at (1,0,0); with the
    angles swapped, from 90 to 0, the builder sweeps backwards from
    (0,1,0), and the two meshes differ. *)
Theorem Tube_range_not_normalized :
  exists poly1 poly2,
    Tub.Tube 1 2 5 1 1 1 3 true 0 90 true = Ok poly1 /\
    Tub.Tube 1 2 5 1 1 1 3 true 90 0 true = Ok poly2 /\
    hd_error (verts poly1) = Some (1, 0, 0)%R /\
    hd_error (verts poly2) = Some (0, 1, 0)%R /\
    poly1 <> poly2.
Proof.
  destruct (Tube_cut_first 1 2 5 1 1 1 3 true 0 90)
    as (poly1 & H1 & _ & Hd1); try lia.
  destruct (Tube_cut_first 1 2 5 1 1 1 3 true 90 0)
    as (poly2 & H2 & _ & Hd2); try lia.
  rewrite RotateZvert_start_0 in Hd1. rewrite RotateZvert_start_90 in Hd2.
  exists poly1, poly2. repeat (split; [assumption|]).
  intros E. rewrite E, Hd2 in Hd1. injection Hd1 as H _. lra.
Qed.

(** *** Builders and invalid parameters *)

Lemma build_raise (m : M unit) e : m GetRaw = Raise e -> build m = Raise e.
Proof. intros H. unfold build. now rewrite H. Qed.

Lemma lift_fdiv_zero {B} x (k : R -> M B) poly :
  bind (lift (fdiv x (IZR 0))) k poly = Raise ZeroDivisionError.
Proof. apply bind_raise, lift_raise, fdiv_zero. Qed.

Lemma Cylinder_no_cap_divisions Radius Height Segments Divisions Smooth :
  Cyl.Cylinder Radius Height Segments Divisions 0 Smooth
  = Raise ZeroDivisionError.
Proof. apply build_raise, lift_fdiv_zero. Qed.

Lemma Cylinder_no_divisions Radius Height Segments CapDivisions Smooth :
  Cyl.Cylinder Radius Height Segments 0 CapDivisions Smooth
  = Raise ZeroDivisionError.
Proof.
  destruct (Z.eq_dec CapDivisions 0) as [-> | HC];
    [apply Cylinder_no_cap_divisions|].
  apply build_raise. unfold Cyl.Cylinder_body.
  erewrite bind_ok by (apply lift_ok, fdiv_IZR_ok; lia).
  erewrite bind_ok by (apply rings_loop_ok; intros; apply Cyl_MakeVertexRing_ok).
  apply lift_fdiv_zero.
Qed.

Lemma Disc_no_subdivisions InnerRadius OuterRadius Segments :
  Dsc.Disc InnerRadius OuterRadius Segments 0 = Raise ZeroDivisionError.
Proof. apply build_raise, lift_fdiv_zero. Qed.

Lemma Disc_no_segments InnerRadius OuterRadius Subdivisions :
  Dsc.Disc InnerRadius OuterRadius 0 Subdivisions = Raise ZeroDivisionError.
Proof.
  destruct (Z.eq_dec Subdivisions 0) as [-> | HD];
    [apply Disc_no_subdivisions|].
  apply build_raise. unfold Dsc.Disc_body.
  erewrite bind_ok by (apply lift_ok, fdiv_IZR_ok; lia).
  apply lift_fdiv_zero.
Qed.

Lemma Sphere_no_vdivisions Radius UDivisions Smooth :
  Sph.Sphere Radius UDivisions 0 Smooth = Raise ZeroDivisionError.
Proof. apply build_raise, lift_fdiv_zero. Qed.

Lemma Sphere2_no_vdivisions Radius UDivisions Clip CapBottom CapSymmetrical
    Smooth :
  aborts (Sph.Sphere2 Radius UDivisions 0 Clip CapBottom CapSymmetrical Smooth).
Proof.
  unfold Sph.Sphere2, build, Sph.Sphere2_body.
  destruct (Sph.rang Clip) as [rng|e] eqn:E.
  - erewrite bind_ok by (apply lift_ok; reflexivity).
    now rewrite lift_fdiv_zero.
  - erewrite bind_raise by (apply lift_raise; reflexivity). exact I.
Qed.

Lemma Torus_no_major_divisions MajorRadius MinorRadius MinorDivisions
    StartMinorAngle Smooth :
  Tor.Torus MajorRadius MinorRadius 0 MinorDivisions StartMinorAngle Smooth
  = Raise ZeroDivisionError.
Proof. apply build_raise, lift_fdiv_zero. Qed.

Lemma Torus2_no_major_divisions MajorRadius MinorRadius MinorDivisions
    StartMajorAngle CapStart EndMajorAngle CapEnd StartMinorAngle Smooth :
  Tor.Torus2 MajorRadius MinorRadius 0 MinorDivisions StartMajorAngle CapStart
    EndMajorAngle CapEnd StartMinorAngle Smooth
  = Raise ZeroDivisionError.
Proof. apply build_raise, lift_fdiv_zero. Qed.

(** [MakeVertexRectange] raises nothing but [ZeroDivisionError], and does
    so when one of its three division counts is zero. *)
Lemma MakeVertexRectange_zero InnerRadius OuterRadius Height InnerDivisions
    OuterDivisions CapDivisions :
  InnerDivisions = 0 \/ OuterDivisions = 0 \/ CapDivisions = 0 ->
  Tub.MakeVertexRectange InnerRadius OuterRadius Height InnerDivisions
    OuterDivisions CapDivisions = Raise ZeroDivisionError.
Proof.
  intros H. unfold Tub.MakeVertexRectange, Tub.rbind, fdiv.
  destruct (Req_dec_T (IZR InnerDivisions) 0) as [|HI]; [reflexivity|].
  destruct (Req_dec_T (IZR CapDivisions) 0) as [|HC]; [reflexivity|].
  destruct (Req_dec_T (IZR OuterDivisions) 0) as [|HO]; [reflexivity|].
  exfalso. destruct H as [-> | [-> | ->]]; auto.
Qed.

Lemma MakeVertexRectange_exn InnerRadius OuterRadius Height InnerDivisions
    OuterDivisions CapDivisions e :
  Tub.MakeVertexRectange InnerRadius OuterRadius Height InnerDivisions
    OuterDivisions CapDivisions = Raise e ->
  e = ZeroDivisionError.
Proof.
  unfold Tub.MakeVertexRectange, Tub.rbind, fdiv.
  destruct (Req_dec_T (IZR InnerDivisions) 0); [congruence|].
  destruct (Req_dec_T (IZR CapDivisions) 0); [congruence|].
  destruct (Req_dec_T (IZR OuterDivisions) 0); congruence.
Qed.

Lemma Tube_zero_division InnerRadius OuterRadius Height InnerDivisions
    OuterDivisions CapDivisions Segments Smooth StartAngle EndAngle UseAngles :
  InnerDivisions = 0 \/ OuterDivisions = 0 \/ CapDivisions = 0 \/ Segments = 0 ->
  Tub.Tube InnerRadius OuterRadius Height InnerDivisions OuterDivisions
    CapDivisions Segments Smooth StartAngle EndAngle UseAngles
  = Raise ZeroDivisionError.
Proof.
  intros H. apply build_raise. unfold Tub.Tube_body.
  destruct (Tub.MakeVertexRectange InnerRadius OuterRadius Height
              InnerDivisions OuterDivisions CapDivisions) as [vert|e] eqn:E.
  - destruct H as [H | [H | [H | ->]]];
      try (rewrite MakeVertexRectange_zero in E by tauto; discriminate).
    erewrite bind_ok by (apply lift_ok; reflexivity).
    apply bind_raise. destruct UseAngles; apply lift_fdiv_zero.
  - apply MakeVertexRectange_exn in E as ->.
    apply bind_raise. reflexivity.
Qed.

(** Negative division counts are not rejected either: they leave the
    loops empty, and the cap fans then read vertices that do not exist. *)
Lemma Cylinder_negative_divisions Radius Height Smooth :
  Cyl.Cylinder Radius Height 3 (-1) (-1) Smooth = Raise IndexError.
Proof.
  apply build_raise. unfold Cyl.Cylinder_body.
  erewrite bind_ok by (apply lift_ok, fdiv_IZR_ok; lia).
  erewrite bind_ok by reflexivity.
  erewrite bind_ok by (apply lift_ok, fdiv_IZR_ok; lia).
  erewrite bind_ok by reflexivity.
  erewrite bind_ok by (apply lift_ok, fdiv_IZR_ok; lia).
  erewrite bind_ok by reflexivity.
  reflexivity.
Qed.

(** C1 (as amended): the builders validate nothing themselves.  A builder
    aborts, handing no mesh to the host, when a division count it divides
    by is zero (cylinder: cap or outer divisions; disc: subdivisions or
    segments; sphere: V-divisions; torus: major divisions; tube: inner,
    outer or cap divisions or segments).  A segment count below 3 or a
    radius that is not positive is not rejected: the cylinder builds a mesh
    of [S * (2*C + O) + 2] vertices for every [S >= 0], [O >= 1], [C >= 1]
    and every radius and height. *)
Theorem builders_abort_on_zero_divisor :
  (forall Radius Height S O Smooth,
     Cyl.Cylinder Radius Height S O 0 Smooth = Raise ZeroDivisionError) /\
  (forall Radius Height S C Smooth,
     Cyl.Cylinder Radius Height S 0 C Smooth = Raise ZeroDivisionError) /\
  (forall InnerRadius OuterRadius S,
     Dsc.Disc InnerRadius OuterRadius S 0 = Raise ZeroDivisionError) /\
  (forall InnerRadius OuterRadius D,
     Dsc.Disc InnerRadius OuterRadius 0 D = Raise ZeroDivisionError) /\
  (forall Radius U Smooth,
     Sph.Sphere Radius U 0 Smooth = Raise ZeroDivisionError) /\
  (forall Radius U Clip CapBottom CapSymmetrical Smooth,
     aborts (Sph.Sphere2 Radius U 0 Clip CapBottom CapSymmetrical Smooth)) /\
  (forall MajorRadius MinorRadius MinorDivisions StartMinorAngle Smooth,
     Tor.Torus MajorRadius MinorRadius 0 MinorDivisions StartMinorAngle Smooth
     = Raise ZeroDivisionError) /\
  (forall MajorRadius MinorRadius MinorDivisions StartMajorAngle CapStart
          EndMajorAngle CapEnd StartMinorAngle Smooth,
     Tor.Torus2 MajorRadius MinorRadius 0 MinorDivisions StartMajorAngle
       CapStart EndMajorAngle CapEnd StartMinorAngle Smooth
     = Raise ZeroDivisionError) /\
  (forall InnerRadius OuterRadius Height InnerDivisions OuterDivisions
          CapDivisions Segments Smooth StartAngle EndAngle UseAngles,
     InnerDivisions = 0 \/ OuterDivisions = 0 \/ CapDivisions = 0 \/
     Segments = 0 ->
     Tub.Tube InnerRadius OuterRadius Height InnerDivisions OuterDivisions
       CapDivisions Segments Smooth StartAngle EndAngle UseAngles
     = Raise ZeroDivisionError) /\
  (forall Radius Height S O C Smooth,
     0 <= S -> 1 <= O -> 1 <= C ->
     exists poly,
       Cyl.Cylinder Radius Height S O C Smooth = Ok poly /\
       nverts poly = S * (2 * C + O) + 2).
Proof.
  split; [exact Cylinder_no_cap_divisions|].
  split; [exact Cylinder_no_divisions|].
  split; [exact Disc_no_subdivisions|].
  split; [exact Disc_no_segments|].
  split; [exact Sphere_no_vdivisions|].
  split; [exact Sphere2_no_vdivisions|].
  split; [exact Torus_no_major_divisions|].
  split; [exact Torus2_no_major_divisions|].
  split; [exact Tube_zero_division|].
  intros Radius Height S O C Smooth HS HO HC.
  destruct (Cylinder_shape Radius Height S O C Smooth HS HO HC)
    as (poly & Hp & Hv & _).
  now exists poly.
Qed.

Lemma builders_abort_on_zero_divisor_witness :
  (1 = 0 \/ 1 = 0 \/ 0 = 0 \/ 3 = 0) /\
  Tub.Tube 1 2 5 1 1 0 3 true 0 90 true = Raise ZeroDivisionError /\
  0 <= 2 /\ 1 <= 1 /\ 1 <= 1 /\
  exists poly,
    Cyl.Cylinder (-1) 3 2 1 1 true = Ok poly /\
    nverts poly = 2 * (2 * 1 + 1) + 2.
Proof.
  assert (Hz : 1 = 0 \/ 1 = 0 \/ 0 = 0 \/ 3 = 0) by (right; right; left; lia).
  destruct builders_abort_on_zero_divisor
    as (_ & _ & _ & _ & _ & _ & _ & _ & Htube & Hcyl).
  split; [exact Hz|]. split; [exact (Htube _ _ _ _ _ _ _ _ _ _ _ Hz)|].
  split; [lia|]. split; [lia|]. split; [lia|].
  apply (Hcyl (-1)%R 3%R 2 1 1 true); lia.
Defined.

(** C1 (as stated) fails: with 2 segments (below the minimum of 3) and the
    radius -1 the cylinder builder does not abort; it returns a mesh of 8
    vertices and 8 faces. *)
Lemma Cylinder_invalid_parameters_counterexample :
  2 < 3 /\ (-1 <= 0)%R /\
  exists poly,
    Cyl.Cylinder (-1) 3 2 1 1 true = Ok poly /\
    nverts poly = 8 /\ nfaces poly = 8.
Proof.
  split; [lia|]. split; [lra|].
  destruct (Cylinder_shape (-1) 3 2 1 1 true)
    as (poly & Hp & Hv & _ & _ & Hf); try lia.
  exists poly. repeat split; [exact Hp|lia|lia].
Qed.

(** ** Further properties of the code *)

(** *** The twist deformer: what a call does to the mesh *)

Lemma enumerate_update_length upd vertex_list index mesh_verts :
  length (fst (Twist.enumerate_update upd vertex_list index mesh_verts))
  = length mesh_verts.
Proof.
  revert index. induction mesh_verts as [|v0 rest IH]; intros index.
  - reflexivity.
  - cbn [Twist.enumerate_update].
    destruct (nth_error vertex_list index) as [p|]; [|reflexivity].
    destruct (upd p) as [p'|e]; [|reflexivity].
    specialize (IH (S index)).
    destruct (Twist.enumerate_update upd vertex_list (S index) rest)
      as [rest' r].
    cbn [fst length] in *. now rewrite IH.
Qed.

Lemma finish_fst r : fst (Twist.finish r) = fst r.
Proof. destruct r as [m [e|]]; reflexivity. Qed.

Lemma twist_mesh_length bb vertex_list mesh_verts Axis Angle StartFrom EndAt :
  length (fst (Twist.twist_mesh bb vertex_list mesh_verts Axis Angle
                 StartFrom EndAt))
  = length mesh_verts.
Proof.
  unfold Twist.twist_mesh.
  destruct (String.eqb Axis "x");
    [now rewrite finish_fst, enumerate_update_length|].
  destruct (String.eqb Axis "y");
    [now rewrite finish_fst, enumerate_update_length|].
  destruct (String.eqb Axis "z");
    [now rewrite finish_fst, enumerate_update_length|].
  reflexivity.
Qed.

(** Whatever the axis string, the parameters and the outcome (returned
    or raised), [twist_mesh] leaves the mesh with as many vertices as it
    had: it only rewrites coordinates. *)
Theorem twist_mesh_keeps_vertex_count bb vertex_list mesh_verts Axis Angle
    StartFrom EndAt :
  length (fst (Twist.twist_mesh bb vertex_list mesh_verts Axis Angle
                 StartFrom EndAt))
  = length mesh_verts.
Proof. apply twist_mesh_length. Qed.

(** The loop maps the body over the baseline when the body raises
    nowhere. *)
Lemma enumerate_update_map upd done todo mesh_verts :
  (forall p, In p todo -> exists q, upd p = Ok q) ->
  length mesh_verts = length todo ->
  Twist.enumerate_update upd (done ++ todo) (length done) mesh_verts
  = (map (fun p => match upd p with Ok q => q | Raise _ => p end) todo, None).
Proof.
  revert done mesh_verts.
  induction todo as [|p todo IH]; intros done mesh_verts Hu Hl.
  - destruct mesh_verts; [reflexivity|discriminate].
  - destruct mesh_verts as [|v0 rest]; [discriminate|].
    cbn [Twist.enumerate_update].
    rewrite nth_error_app2, Nat.sub_diag by lia. cbn [nth_error map].
    destruct (Hu p (or_introl eq_refl)) as (q & Hq). rewrite Hq.
    specialize (IH (done ++ [p]) rest).
    rewrite <- app_assoc, length_app, Nat.add_1_r in IH. cbn [app] in IH.
    rewrite IH; [reflexivity| |].
    + intros; apply Hu; now right.
    + simpl in Hl. lia.
Qed.

Lemma twist_vertex_total co rot lo d rd Angle StartFrom EndAt p :
  d <> 0%R -> rd <> 0%R ->
  exists q, Twist.twist_vertex co rot lo d rd Angle StartFrom EndAt p = Ok q.
Proof.
  intros Hd Hrd.
  destruct (Rle_dec StartFrom ((co p - lo) / d)) as [H1|H1].
  - destruct (Rle_dec ((co p - lo) / d) EndAt) as [H2|H2].
    + eexists. apply twist_vertex_inside; auto.
    + exists p. apply twist_vertex_outside; [assumption|]. now intros [_ H].
  - exists p. apply twist_vertex_outside; [assumption|]. now intros [H _].
Qed.

(** With extent along the axis and start different from end the call
    returns (True), and its result is the body applied to each baseline
    vertex. *)
Lemma twist_mesh_map bb vertex_list mesh_verts Axis Angle StartFrom EndAt :
  is_axis Axis -> axis_extent bb Axis <> 0%R -> StartFrom <> EndAt ->
  length mesh_verts = length vertex_list ->
  Twist.twist_mesh bb vertex_list mesh_verts Axis Angle StartFrom EndAt
  = (map (fun p =>
            match
              Twist.twist_vertex (axis_co Axis) (axis_rot Axis)
                (axis_lo bb Axis) (axis_extent bb Axis)
                (Rmax StartFrom EndAt / 100 - Rmin StartFrom EndAt / 100)
                (PI * Angle / 180)
                (Rmin StartFrom EndAt / 100) (Rmax StartFrom EndAt / 100) p
            with
            | Ok q => q
            | Raise _ => p
            end) vertex_list,
     Twist.Returned true).
Proof.
  intros Hax Hd Hse Hlen. rewrite twist_mesh_axis by assumption.
  rewrite (enumerate_update_map _ [] vertex_list mesh_verts);
    [reflexivity| |assumption].
  intros p _. apply twist_vertex_total; [assumption|].
  now apply range_width_nonzero.
Qed.

(** Range exclusion, for the three axes: with extent along the axis and
    start different from end, the call returns (True) and a vertex whose
    fraction along the axis lies outside the range is set to exactly its
    baseline position, wherever it was before. *)
Theorem twist_outside_range_restored bb vertex_list mesh_verts Axis Angle
    StartFrom EndAt index p :
  is_axis Axis -> axis_extent bb Axis <> 0%R -> StartFrom <> EndAt ->
  length mesh_verts = length vertex_list ->
  nth_error vertex_list index = Some p ->
  ~ (Rmin StartFrom EndAt / 100 <= axis_t bb Axis p
     <= Rmax StartFrom EndAt / 100)%R ->
  snd (Twist.twist_mesh bb vertex_list mesh_verts Axis Angle StartFrom EndAt)
  = Twist.Returned true /\
  nth_error
    (fst (Twist.twist_mesh bb vertex_list mesh_verts Axis Angle StartFrom
            EndAt)) index
  = Some p.
Proof.
  intros Hax Hd Hse Hlen Hp Hout. rewrite twist_mesh_map by assumption.
  split; [reflexivity|]. cbn [fst].
  rewrite nth_error_map, Hp. cbn [option_map].
  now rewrite twist_vertex_outside.
Qed.

Lemma twist_outside_range_restored_witness :
  is_axis "z" /\
  axis_extent (Twist.mkBoundBox 0 1 0 1 0 4) "z" <> 0%R /\
  25%R <> 75%R /\
  length [(9, 9, 9)%R; (8, 8, 8)%R] = length [(1, 1, 0)%R; (1, 1, 2)%R] /\
  nth_error [(1, 1, 0)%R; (1, 1, 2)%R] 0 = Some (1, 1, 0)%R /\
  ~ (Rmin 25 75 / 100
     <= axis_t (Twist.mkBoundBox 0 1 0 1 0 4) "z" (1, 1, 0)%R
     <= Rmax 25 75 / 100)%R /\
  snd (Twist.twist_mesh (Twist.mkBoundBox 0 1 0 1 0 4)
         [(1, 1, 0)%R; (1, 1, 2)%R] [(9, 9, 9)%R; (8, 8, 8)%R] "z" 90 25 75)
  = Twist.Returned true /\
  nth_error
    (fst (Twist.twist_mesh (Twist.mkBoundBox 0 1 0 1 0 4)
            [(1, 1, 0)%R; (1, 1, 2)%R] [(9, 9, 9)%R; (8, 8, 8)%R] "z" 90 25
            75)) 0
  = Some (1, 1, 0)%R.
Proof.
  assert (Hax : is_axis "z") by (right; right; reflexivity).
  assert (Hd : axis_extent (Twist.mkBoundBox 0 1 0 1 0 4) "z" <> 0%R)
    by (axis_simpl; lra).
  assert (Hse : 25%R <> 75%R) by lra.
  assert (Hout : ~ (Rmin 25 75 / 100
                    <= axis_t (Twist.mkBoundBox 0 1 0 1 0 4) "z" (1, 1, 0)%R
                    <= Rmax 25 75 / 100)%R).
  { rewrite Rmin_left, Rmax_right by lra. axis_simpl. lra. }
  split; [exact Hax|]. split; [exact Hd|]. split; [exact Hse|].
  split; [reflexivity|]. split; [reflexivity|]. split; [exact Hout|].
  exact (twist_outside_range_restored (Twist.mkBoundBox 0 1 0 1 0 4)
           [(1, 1, 0)%R; (1, 1, 2)%R] [(9, 9, 9)%R; (8, 8, 8)%R] "z" 90 25 75
           0%nat (1, 1, 0)%R Hax Hd Hse eq_refl eq_refl Hout).
Defined.

(** Inside the range the vertex is the baseline vertex turned about the
    axis by [Angle] (in radians) scaled by its place in the range,
    [(t - start) / (end - start)]; the current position plays no part. *)
Theorem twist_inside_range_rotated bb vertex_list mesh_verts Axis Angle
    StartFrom EndAt index p :
  is_axis Axis -> axis_extent bb Axis <> 0%R -> StartFrom <> EndAt ->
  length mesh_verts = length vertex_list ->
  nth_error vertex_list index = Some p ->
  (Rmin StartFrom EndAt / 100 <= axis_t bb Axis p
   <= Rmax StartFrom EndAt / 100)%R ->
  nth_error
    (fst (Twist.twist_mesh bb vertex_list mesh_verts Axis Angle StartFrom
            EndAt)) index
  = Some (axis_rot Axis p
            (PI * Angle / 180
             * (axis_t bb Axis p - Rmin StartFrom EndAt / 100)
             / (Rmax StartFrom EndAt / 100 - Rmin StartFrom EndAt / 100))%R).
Proof.
  intros Hax Hd Hse Hlen Hp Hin. rewrite twist_mesh_map by assumption.
  cbn [fst]. rewrite nth_error_map, Hp. cbn [option_map].
  rewrite twist_vertex_inside; auto. now apply range_width_nonzero.
Qed.

Lemma twist_inside_range_rotated_witness :
  is_axis "y" /\
  axis_extent (Twist.mkBoundBox 0 1 0 2 0 1) "y" <> 0%R /\
  0%R <> 100%R /\
  length [(9, 9, 9)%R] = length [(1, 1, 0)%R] /\
  nth_error [(1, 1, 0)%R] 0 = Some (1, 1, 0)%R /\
  (Rmin 0 100 / 100 <= axis_t (Twist.mkBoundBox 0 1 0 2 0 1) "y" (1, 1, 0)%R
   <= Rmax 0 100 / 100)%R /\
  nth_error
    (fst (Twist.twist_mesh (Twist.mkBoundBox 0 1 0 2 0 1) [(1, 1, 0)%R]
            [(9, 9, 9)%R] "y" 90 0 100)) 0
  = Some (axis_rot "y" (1, 1, 0)%R
            (PI * 90 / 180
             * (axis_t (Twist.mkBoundBox 0 1 0 2 0 1) "y" (1, 1, 0)%R
                - Rmin 0 100 / 100)
             / (Rmax 0 100 / 100 - Rmin 0 100 / 100))%R).
Proof.
  assert (Hax : is_axis "y") by (right; left; reflexivity).
  assert (Hd : axis_extent (Twist.mkBoundBox 0 1 0 2 0 1) "y" <> 0%R)
    by (axis_simpl; lra).
  assert (Hse : 0%R <> 100%R) by lra.
  assert (Hin : (Rmin 0 100 / 100
                 <= axis_t (Twist.mkBoundBox 0 1 0 2 0 1) "y" (1, 1, 0)%R
                 <= Rmax 0 100 / 100)%R).
  { rewrite Rmin_left, Rmax_right by lra. axis_simpl. lra. }
  split; [exact Hax|]. split; [exact Hd|]. split; [exact Hse|].
  split; [reflexivity|]. split; [reflexivity|]. split; [exact Hin|].
  exact (twist_inside_range_rotated (Twist.mkBoundBox 0 1 0 2 0 1)
           [(1, 1, 0)%R] [(9, 9, 9)%R] "y" 90 0 100 0%nat (1, 1, 0)%R
           Hax Hd Hse eq_refl eq_refl Hin).
Defined.

(** Updates do not accumulate: a call made after another call (whatever
    that one did, even raise) gives what it gives when made alone. *)
Theorem twist_mesh_no_accumulation bb vertex_list mesh_verts Axis1 Angle1
    Start1 End1 Axis Angle StartFrom EndAt :
  is_axis Axis -> axis_extent bb Axis <> 0%R -> StartFrom <> EndAt ->
  length mesh_verts = length vertex_list ->
  Twist.twist_mesh bb vertex_list
    (fst (Twist.twist_mesh bb vertex_list mesh_verts Axis1 Angle1 Start1 End1))
    Axis Angle StartFrom EndAt
  = Twist.twist_mesh bb vertex_list mesh_verts Axis Angle StartFrom EndAt.
Proof.
  intros Hax Hd Hse Hlen.
  rewrite !twist_mesh_map; auto.
  now rewrite twist_mesh_length.
Qed.

Lemma twist_mesh_no_accumulation_witness :
  is_axis "x" /\
  axis_extent (Twist.mkBoundBox 0 2 0 1 0 1) "x" <> 0%R /\
  0%R <> 100%R /\
  length [(0, 1, 0)%R; (2, 1, 0)%R] = length [(0, 1, 0)%R; (2, 1, 0)%R] /\
  Twist.twist_mesh (Twist.mkBoundBox 0 2 0 1 0 1)
    [(0, 1, 0)%R; (2, 1, 0)%R]
    (fst (Twist.twist_mesh (Twist.mkBoundBox 0 2 0 1 0 1)
            [(0, 1, 0)%R; (2, 1, 0)%R] [(0, 1, 0)%R; (2, 1, 0)%R]
            "y" 45 50 50))
    "x" 90 0 100
  = Twist.twist_mesh (Twist.mkBoundBox 0 2 0 1 0 1)
      [(0, 1, 0)%R; (2, 1, 0)%R] [(0, 1, 0)%R; (2, 1, 0)%R] "x" 90 0 100.
Proof.
  assert (Hax : is_axis "x") by (left; reflexivity).
  assert (Hd : axis_extent (Twist.mkBoundBox 0 2 0 1 0 1) "x" <> 0%R)
    by (axis_simpl; lra).
  assert (Hse : 0%R <> 100%R) by lra.
  split; [exact Hax|]. split; [exact Hd|]. split; [exact Hse|].
  split; [reflexivity|].
  exact (twist_mesh_no_accumulation (Twist.mkBoundBox 0 2 0 1 0 1)
           [(0, 1, 0)%R; (2, 1, 0)%R] [(0, 1, 0)%R; (2, 1, 0)%R]
           "y" 45 50 50 "x" 90 0 100 Hax Hd Hse eq_refl).
Defined.

Lemma rot_x_keeps p a :
  Twist.co0 (Twist.rot_x p a) = Twist.co0 p /\
  (Twist.co1 (Twist.rot_x p a) * Twist.co1 (Twist.rot_x p a)
   + Twist.co2 (Twist.rot_x p a) * Twist.co2 (Twist.rot_x p a)
   = Twist.co1 p * Twist.co1 p + Twist.co2 p * Twist.co2 p)%R.
Proof.
  destruct p as [[x y] z]. unfold Twist.rot_x, Twist.co0, Twist.co1, Twist.co2.
  cbn [fst snd]. split; [reflexivity|].
  pose proof (sin2_cos2 a) as H. unfold Rsqr in H.
  replace ((y * cos a - z * sin a) * (y * cos a - z * sin a)
           + (y * sin a + z * cos a) * (y * sin a + z * cos a))%R
    with ((y * y + z * z) * (sin a * sin a + cos a * cos a))%R by ring.
  rewrite H. ring.
Qed.

Lemma rot_y_keeps p a :
  Twist.co1 (Twist.rot_y p a) = Twist.co1 p /\
  (Twist.co0 (Twist.rot_y p a) * Twist.co0 (Twist.rot_y p a)
   + Twist.co2 (Twist.rot_y p a) * Twist.co2 (Twist.rot_y p a)
   = Twist.co0 p * Twist.co0 p + Twist.co2 p * Twist.co2 p)%R.
Proof.
  destruct p as [[x y] z]. unfold Twist.rot_y, Twist.co0, Twist.co1, Twist.co2.
  cbn [fst snd]. split; [reflexivity|].
  pose proof (sin2_cos2 a) as H. unfold Rsqr in H.
  replace ((x * cos a - z * sin a) * (x * cos a - z * sin a)
           + (x * sin a + z * cos a) * (x * sin a + z * cos a))%R
    with ((x * x + z * z) * (sin a * sin a + cos a * cos a))%R by ring.
  rewrite H. ring.
Qed.

Lemma rot_z_keeps_z p a : Twist.co2 (Twist.rot_z p a) = Twist.co2 p.
Proof. destruct p as [[x y] z]. reflexivity. Qed.

Lemma twist_result_cases bb vertex_list mesh_verts Axis Angle StartFrom EndAt
    index p :
  is_axis Axis -> axis_extent bb Axis <> 0%R -> StartFrom <> EndAt ->
  length mesh_verts = length vertex_list ->
  nth_error vertex_list index = Some p ->
  exists q,
    nth_error
      (fst (Twist.twist_mesh bb vertex_list mesh_verts Axis Angle StartFrom
              EndAt)) index = Some q /\
    (q = p \/ exists a, q = axis_rot Axis p a).
Proof.
  intros Hax Hd Hse Hlen Hp. rewrite twist_mesh_map by assumption.
  cbn [fst]. rewrite nth_error_map, Hp. cbn [option_map].
  eexists. split; [reflexivity|].
  pose proof (range_width_nonzero _ _ Hse) as Hrd.
  destruct (Rle_dec (Rmin StartFrom EndAt / 100)
              ((axis_co Axis p - axis_lo bb Axis) / axis_extent bb Axis))
    as [H1|H1].
  - destruct (Rle_dec
                ((axis_co Axis p - axis_lo bb Axis) / axis_extent bb Axis)
                (Rmax StartFrom EndAt / 100)) as [H2|H2].
    + rewrite twist_vertex_inside by auto. right. eexists. reflexivity.
    + rewrite twist_vertex_outside; [now left|assumption|]. now intros [_ H].
  - rewrite twist_vertex_outside; [now left|assumption|]. now intros [H _].
Qed.

(** A twist about any of the three axes keeps the coordinate of every
    vertex on that axis: slices of the mesh stay in their planes. *)
Theorem twist_keeps_axis_coordinate bb vertex_list mesh_verts Axis Angle
    StartFrom EndAt index p :
  is_axis Axis -> axis_extent bb Axis <> 0%R -> StartFrom <> EndAt ->
  length mesh_verts = length vertex_list ->
  nth_error vertex_list index = Some p ->
  exists q,
    nth_error
      (fst (Twist.twist_mesh bb vertex_list mesh_verts Axis Angle StartFrom
              EndAt)) index = Some q /\
    axis_co Axis q = axis_co Axis p.
Proof.
  intros Hax Hd Hse Hlen Hp.
  destruct (twist_result_cases bb vertex_list mesh_verts Axis Angle StartFrom
              EndAt index p Hax Hd Hse Hlen Hp) as (q & Hq & Hcase).
  exists q. split; [exact Hq|].
  destruct Hcase as [-> | (a & ->)]; [reflexivity|].
  destruct Hax as [-> | [-> | ->]]; unfold axis_co, axis_rot; simpl String.eqb;
    cbv iota.
  - apply rot_x_keeps.
  - apply rot_y_keeps.
  - apply rot_z_keeps_z.
Qed.

Lemma twist_keeps_axis_coordinate_witness :
  is_axis "z" /\
  axis_extent (Twist.mkBoundBox 0 1 0 1 0 4) "z" <> 0%R /\
  0%R <> 100%R /\
  length [(9, 9, 9)%R] = length [(1, 1, 2)%R] /\
  nth_error [(1, 1, 2)%R] 0 = Some (1, 1, 2)%R /\
  exists q,
    nth_error
      (fst (Twist.twist_mesh (Twist.mkBoundBox 0 1 0 1 0 4) [(1, 1, 2)%R]
              [(9, 9, 9)%R] "z" 90 0 100)) 0 = Some q /\
    axis_co "z" q = axis_co "z" (1, 1, 2)%R.
Proof.
  assert (Hax : is_axis "z") by (right; right; reflexivity).
  assert (Hd : axis_extent (Twist.mkBoundBox 0 1 0 1 0 4) "z" <> 0%R)
    by (axis_simpl; lra).
  assert (Hse : 0%R <> 100%R) by lra.
  split; [exact Hax|]. split; [exact Hd|]. split; [exact Hse|].
  split; [reflexivity|]. split; [reflexivity|].
  exact (twist_keeps_axis_coordinate (Twist.mkBoundBox 0 1 0 1 0 4)
           [(1, 1, 2)%R] [(9, 9, 9)%R] "z" 90 0 100 0%nat (1, 1, 2)%R
           Hax Hd Hse eq_refl eq_refl).
Defined.

Lemma norm2_rot_x p a : norm2 (Twist.rot_x p a) = norm2 p.
Proof.
  destruct (rot_x_keeps p a) as [H0 H12]. destruct p as [[x y] z].
  unfold Twist.rot_x, Twist.co0, Twist.co1, Twist.co2 in *.
  cbn [fst snd] in *. unfold norm2. rewrite Rplus_assoc, H12. ring.
Qed.

Lemma norm2_rot_y p a : norm2 (Twist.rot_y p a) = norm2 p.
Proof.
  destruct (rot_y_keeps p a) as [H1 H02]. destruct p as [[x y] z].
  unfold Twist.rot_y, Twist.co0, Twist.co1, Twist.co2 in *.
  cbn [fst snd] in *. unfold norm2.
  replace ((x * cos a - z * sin a) * (x * cos a - z * sin a) + y * y
           + (x * sin a + z * cos a) * (x * sin a + z * cos a))%R
    with ((x * cos a - z * sin a) * (x * cos a - z * sin a)
          + (x * sin a + z * cos a) * (x * sin a + z * cos a) + y * y)%R
    by ring.
  rewrite H02. ring.
Qed.

(** A twist about x or y moves no vertex nearer to or farther from the
    origin: with the axis coordinate kept, each vertex stays at its
    distance from the axis. *)
Theorem twist_xy_keeps_distance bb vertex_list mesh_verts Axis Angle
    StartFrom EndAt index p :
  Axis = "x"%string \/ Axis = "y"%string ->
  axis_extent bb Axis <> 0%R -> StartFrom <> EndAt ->
  length mesh_verts = length vertex_list ->
  nth_error vertex_list index = Some p ->
  exists q,
    nth_error
      (fst (Twist.twist_mesh bb vertex_list mesh_verts Axis Angle StartFrom
              EndAt)) index = Some q /\
    norm2 q = norm2 p.
Proof.
  intros Hax Hd Hse Hlen Hp.
  assert (Hax' : is_axis Axis) by (destruct Hax; [left|right; left]; assumption).
  destruct (twist_result_cases bb vertex_list mesh_verts Axis Angle StartFrom
              EndAt index p Hax' Hd Hse Hlen Hp) as (q & Hq & Hcase).
  exists q. split; [exact Hq|].
  destruct Hcase as [-> | (a & ->)]; [reflexivity|].
  destruct Hax as [-> | ->]; unfold axis_rot; simpl String.eqb; cbv iota.
  - apply norm2_rot_x.
  - apply norm2_rot_y.
Qed.

Lemma twist_xy_keeps_distance_witness :
  ("x"%string = "x"%string \/ "x"%string = "y"%string) /\
  axis_extent (Twist.mkBoundBox 0 2 0 1 0 1) "x" <> 0%R /\
  0%R <> 100%R /\
  length [(9, 9, 9)%R] = length [(1, 1, 0)%R] /\
  nth_error [(1, 1, 0)%R] 0 = Some (1, 1, 0)%R /\
  exists q,
    nth_error
      (fst (Twist.twist_mesh (Twist.mkBoundBox 0 2 0 1 0 1) [(1, 1, 0)%R]
              [(9, 9, 9)%R] "x" 90 0 100)) 0 = Some q /\
    norm2 q = norm2 (1, 1, 0)%R.
Proof.
  assert (Hax : "x"%string = "x"%string \/ "x"%string = "y"%string)
    by (left; reflexivity).
  assert (Hd : axis_extent (Twist.mkBoundBox 0 2 0 1 0 1) "x" <> 0%R)
    by (axis_simpl; lra).
  assert (Hse : 0%R <> 100%R) by lra.
  split; [exact Hax|]. split; [exact Hd|]. split; [exact Hse|].
  split; [reflexivity|]. split; [reflexivity|].
  exact (twist_xy_keeps_distance (Twist.mkBoundBox 0 2 0 1 0 1)
           [(1, 1, 0)%R] [(9, 9, 9)%R] "x" 90 0 100 0%nat (1, 1, 0)%R
           Hax Hd Hse eq_refl eq_refl).
Defined.

(** *** The torus: shape of the mesh *)

Lemma quad_strip_nondegenerate n r1 r2 sm :
  2 <= n -> r1 + n <= r2 \/ r2 + n <= r1 ->
  Forall (fun f => degenerate f = false) (quad_strip n r1 r2 sm).
Proof.
  intros Hn Hr. unfold quad_strip. apply Forall_map, Forall_forall.
  intros j Hj. apply xrange_In in Hj.
  pose proof (Z.mod_pos_bound (j + 1) n ltac:(lia)) as Hm.
  assert (Hne : (j + 1) mod n <> j).
  { destruct (Z.eq_dec (j + 1) n) as [E|E].
    - rewrite E, Z.mod_same by lia. lia.
    - rewrite Z.mod_small by lia. lia. }
  unfold degenerate. cbn [v has_dup existsb].
  destruct Hr; eqb_all; reflexivity.
Qed.

Lemma quad_strip_smooth n r1 r2 sm :
  Forall (fun f => smooth f = sm) (quad_strip n r1 r2 sm).
Proof. unfold quad_strip. apply Forall_map, Forall_forall. now intros. Qed.

Lemma torus_skin_length Maj Min sm :
  length (torus_skin Maj Min sm) = (Z.to_nat Min * Z.to_nat Maj)%nat.
Proof.
  unfold torus_skin.
  rewrite (flat_map_length_const _ (Z.to_nat Min)), xrange_length; [lia|].
  intros; apply quad_strip_length.
Qed.

Lemma torus_ring_on_torus MajorRadius MinorRadius MinorDivisions sma angle :
  Forall (on_torus MajorRadius MinorRadius)
    (torus_ring MajorRadius MinorRadius MinorDivisions sma angle).
Proof.
  unfold torus_ring. apply Forall_map, Forall_forall. intros i _.
  cbv zeta. unfold Tor.RotateZ, on_torus.
  set (phi := (PI * 2 * IZR i / IZR MinorDivisions + sma)%R).
  set (a := (angle * PI / 180)%R).
  pose proof (sin2_cos2 phi) as Hp. pose proof (sin2_cos2 a) as Ha.
  unfold Rsqr in Hp, Ha.
  set (X := (MajorRadius + MinorRadius * cos phi)%R).
  assert (Hxy : ((X * cos a - 0 * sin a) * (X * cos a - 0 * sin a)
                 + (X * sin a + 0 * cos a) * (X * sin a + 0 * cos a)
                 = X * X)%R).
  { replace ((X * cos a - 0 * sin a) * (X * cos a - 0 * sin a)
             + (X * sin a + 0 * cos a) * (X * sin a + 0 * cos a))%R
      with (X * X * (sin a * sin a + cos a * cos a))%R by ring.
    rewrite Ha. ring. }
  rewrite Hxy.
  assert (Hs : (X * X + MinorRadius * sin phi * (MinorRadius * sin phi)
                + MajorRadius * MajorRadius - MinorRadius * MinorRadius
                = 2 * MajorRadius * X)%R).
  { unfold X.
    replace (MinorRadius * sin phi * (MinorRadius * sin phi))%R
      with (MinorRadius * MinorRadius
            * (sin phi * sin phi + cos phi * cos phi)
            - MinorRadius * MinorRadius * (cos phi * cos phi))%R by ring.
    rewrite Hp. ring. }
  rewrite Hs. ring.
Qed.

(** The full torus with at least 2 divisions each way is a mesh of
    [MajorDivisions * MinorDivisions] vertices and as many faces, every
    face a quad over four different vertices, carrying the smooth flag it
    was given: the wrap-around stitching makes no degenerate face. *)
Theorem Torus_mesh_shape MajorRadius MinorRadius MajorDivisions MinorDivisions
    StartMinorAngle Smooth :
  2 <= MajorDivisions -> 2 <= MinorDivisions ->
  exists poly,
    Tor.Torus MajorRadius MinorRadius MajorDivisions MinorDivisions
      StartMinorAngle Smooth = Ok poly /\
    nverts poly = MajorDivisions * MinorDivisions /\
    nfaces poly = MajorDivisions * MinorDivisions /\
    Forall (fun f => is_quad f = true /\ smooth f = Smooth /\
                     degenerate f = false) (faces poly).
Proof.
  intros HM Hm. rewrite Torus_closed by lia.
  eexists. split; [reflexivity|]. split; [|split].
  - unfold nverts. cbn [verts].
    rewrite (flat_map_length_const _ (Z.to_nat MinorDivisions))
      by (intros; apply torus_ring_length).
    rewrite walk_length. nia.
  - unfold nfaces. cbn [faces]. rewrite torus_skin_length. nia.
  - cbn [faces]. unfold torus_skin. apply Forall_flat_map, Forall_forall.
    intros i Hi. apply xrange_In in Hi.
    pose proof (Z.mod_pos_bound (i + 1) MajorDivisions ltac:(lia)) as Hb.
    assert (Hne : (i + 1) mod MajorDivisions <> i).
    { destruct (Z.eq_dec (i + 1) MajorDivisions) as [E|E].
      - rewrite E, Z.mod_same by lia. lia.
      - rewrite Z.mod_small by lia. lia. }
    pose proof (quad_strip_quads MinorDivisions (MinorDivisions * i)
                  (MinorDivisions * ((i + 1) mod MajorDivisions)) Smooth) as H1.
    pose proof (quad_strip_smooth MinorDivisions (MinorDivisions * i)
                  (MinorDivisions * ((i + 1) mod MajorDivisions)) Smooth) as H2.
    pose proof (quad_strip_nondegenerate MinorDivisions (MinorDivisions * i)
                  (MinorDivisions * ((i + 1) mod MajorDivisions)) Smooth Hm)
      as H3.
    rewrite Forall_forall in *. intros f Hf.
    split; [now apply H1|]. split; [now apply H2|].
    apply H3; [|assumption]. nia.
Qed.

Lemma Torus_mesh_shape_witness :
  2 <= 32 /\ 2 <= 16 /\
  exists poly,
    Tor.Torus 1 (1 / 4) 32 16 0 true = Ok poly /\
    nverts poly = 32 * 16 /\
    nfaces poly = 32 * 16 /\
    Forall (fun f => is_quad f = true /\ smooth f = true /\
                     degenerate f = false) (faces poly).
Proof.
  split; [lia|]. split; [lia|].
  apply (Torus_mesh_shape 1 (1 / 4) 32 16 0 true); lia.
Defined.

(** Every vertex of the full torus and of the cut torus lies on the
    torus of revolution about z with the given major and minor radii,
    whatever the angles. *)
Theorem Torus_vertices_on_torus MajorRadius MinorRadius MajorDivisions
    MinorDivisions StartMajorAngle CapStart EndMajorAngle CapEnd
    StartMinorAngle Smooth :
  1 <= MajorDivisions -> 0 <= MinorDivisions ->
  (exists poly,
     Tor.Torus MajorRadius MinorRadius MajorDivisions MinorDivisions
       StartMinorAngle Smooth = Ok poly /\
     Forall (on_torus MajorRadius MinorRadius) (verts poly)) /\
  (exists poly,
     Tor.Torus2 MajorRadius MinorRadius MajorDivisions MinorDivisions
       StartMajorAngle CapStart EndMajorAngle CapEnd StartMinorAngle Smooth
     = Ok poly /\
     Forall (on_torus MajorRadius MinorRadius) (verts poly)).
Proof.
  intros HM Hm. rewrite Torus_closed, Torus2_closed by lia.
  split; eexists; (split; [reflexivity|]); cbn [verts];
    apply Forall_flat_map, Forall_forall; intros a _;
    apply torus_ring_on_torus.
Qed.

Lemma Torus_vertices_on_torus_witness :
  1 <= 32 /\ 0 <= 16 /\
  (exists poly,
     Tor.Torus 1 (1 / 4) 32 16 30 true = Ok poly /\
     Forall (on_torus 1 (1 / 4)) (verts poly)) /\
  (exists poly,
     Tor.Torus2 1 (1 / 4) 32 16 10 true 200 false 30 true = Ok poly /\
     Forall (on_torus 1 (1 / 4)) (verts poly)).
Proof.
  split; [lia|]. split; [lia|].
  apply (Torus_vertices_on_torus 1 (1 / 4) 32 16 10 true 200 false 30 true);
    lia.
Defined.

Lemma torus_caps_tris len Min sm (CapStart CapEnd : bool) :
  Forall (fun f => is_quad f = false /\ is_tri f = true)
    ((if CapStart then torus_cap_start Min sm else []) ++
     (if CapEnd then torus_cap_end len Min sm else [])).
Proof.
  apply Forall_app. split.
  - destruct CapStart; [|constructor]. unfold torus_cap_start.
    apply Forall_map, Forall_forall. now intros.
  - destruct CapEnd; [|constructor]. unfold torus_cap_end.
    apply Forall_map, Forall_forall. now intros.
Qed.

(** The cut torus has one ring more than it has strips:
    [MinorDivisions * (MajorDivisions + 1)] vertices,
    [MajorDivisions * MinorDivisions] skin quads, and
    [MinorDivisions - 1] triangles for each cap that is enabled. *)
Theorem Torus2_counts MajorRadius MinorRadius MajorDivisions MinorDivisions
    StartMajorAngle (CapStart : bool) EndMajorAngle (CapEnd : bool)
    StartMinorAngle Smooth :
  1 <= MajorDivisions -> 1 <= MinorDivisions ->
  exists poly,
    Tor.Torus2 MajorRadius MinorRadius MajorDivisions MinorDivisions
      StartMajorAngle CapStart EndMajorAngle CapEnd StartMinorAngle Smooth
    = Ok poly /\
    nverts poly = MinorDivisions * (MajorDivisions + 1) /\
    quads poly = MajorDivisions * MinorDivisions /\
    tris poly = (if CapStart then MinorDivisions - 1 else 0)
                + (if CapEnd then MinorDivisions - 1 else 0).
Proof.
  intros HM Hm. rewrite Torus2_closed by lia.
  eexists. split; [reflexivity|]. split.
  - unfold nverts. cbn [verts].
    rewrite (flat_map_length_const _ (Z.to_nat MinorDivisions))
      by (intros; apply torus_ring_length).
    rewrite walk_length. nia.
  - match goal with
    | |- quads {| verts := ?vs; faces := ?qs ++ ?ts |} = _ /\ _ =>
        destruct (count_quads_tris vs qs ts) as (Hq & Ht & _)
    end.
    + apply stack_skin_quads.
    + apply torus_caps_tris.
    + rewrite Hq, Ht, stack_skin_length, length_app. split; [nia|].
      destruct CapStart, CapEnd; unfold torus_cap_start, torus_cap_end;
        rewrite ?length_map, ?xrange_length; cbn [length]; lia.
Qed.

Lemma Torus2_counts_witness :
  1 <= 32 /\ 1 <= 16 /\
  exists poly,
    Tor.Torus2 1 (1 / 4) 32 16 0 true 180 false 0 true = Ok poly /\
    nverts poly = 16 * (32 + 1) /\
    quads poly = 32 * 16 /\
    tris poly = 16 - 1 + 0.
Proof.
  split; [lia|]. split; [lia|].
  apply (Torus2_counts 1 (1 / 4) 32 16 0 true 180 false 0 true); lia.
Defined.

(** *** The spheres: where the vertices lie *)

Lemma ring_pts_on_sphere n Radius theta :
  Forall (fun p => norm2 p = (Radius * Radius)%R)
    (ring_pts n (Radius * sin theta) (Radius * cos theta)).
Proof.
  unfold ring_pts. apply Forall_map, Forall_forall. intros i _. cbv zeta.
  set (phi := (PI * 2 * IZR i / IZR n)%R). unfold norm2.
  pose proof (sin2_cos2 phi) as Hp. pose proof (sin2_cos2 theta) as Ht.
  unfold Rsqr in Hp, Ht.
  replace (Radius * sin theta * cos phi * (Radius * sin theta * cos phi)
           + Radius * sin theta * sin phi * (Radius * sin theta * sin phi)
           + Radius * cos theta * (Radius * cos theta))%R
    with (Radius * Radius
          * (sin theta * sin theta * (sin phi * sin phi + cos phi * cos phi)
             + cos theta * cos theta))%R by ring.
  rewrite Hp, Rmult_1_r, Ht. ring.
Qed.

Lemma Sphere_mesh Radius U V Smooth :
  0 <= U -> 2 <= V ->
  Sph.Sphere Radius U V Smooth
  = Ok (mkMesh
          (flat_map (fun a => ring_pts U (Radius * sin (a / 180 * PI))
                                (Radius * cos (a / 180 * PI)))
             (walk (Z.to_nat (V - 1)) (fun a => (a + 180 / IZR V)%R)
                (180 / IZR V)%R)
           ++ [(0, 0, Radius)%R; (0, 0, - Radius)%R])
          (stack_skin U (V - 2) Smooth ++
           sphere_fans (U * (V - 1) + 2) U Smooth)).
Proof.
  intros HU HV.
  unfold Sph.Sphere, build, Sph.Sphere_body. cbv zeta.
  erewrite bind_ok by (apply lift_ok, fdiv_IZR_ok; lia).
  erewrite bind_ok by
    (apply (rings_loop_ok
              (fun a => Sph.MakeVertexRing U (Radius * sin (a / 180 * PI))
                          (Radius * cos (a / 180 * PI)))
              (fun a => (a + 180 / IZR V)%R));
     intros; apply Sph_MakeVertexRing_ok).
  match goal with
  | |- context [add_verts GetRaw ?l] => set (rv := l)
  end.
  assert (Hrv : Z.of_nat (length rv) = U * (V - 1)).
  { unfold rv.
    rewrite (flat_map_length_const _ (Z.to_nat U))
      by (intros; apply ring_pts_length).
    rewrite walk_length. nia. }
  erewrite bind_ok by apply verts_append_ok.
  erewrite bind_ok by apply verts_append_ok.
  rewrite !add_verts_app.
  set (p1 := add_verts GetRaw _).
  assert (Hn : nverts p1 = U * (V - 1) + 2).
  { unfold p1. rewrite nverts_add_verts, !length_app. cbn. lia. }
  erewrite (bind_ok _ _ p1) by (apply Sph_skin_ok; rewrite Hn; nia).
  rewrite sphere_fans_ok by (rewrite nverts_add_faces, Hn; nia).
  rewrite add_faces_app, nverts_add_faces, Hn.
  unfold p1, add_faces, add_verts, GetRaw. cbn [verts faces app].
  reflexivity.
Qed.

(** Every vertex of the full sphere, ring vertex or pole, lies on the
    sphere of the given radius about the origin. *)
Theorem Sphere_vertices_on_sphere Radius U V Smooth :
  0 <= U -> 2 <= V ->
  exists poly,
    Sph.Sphere Radius U V Smooth = Ok poly /\
    Forall (fun p => norm2 p = (Radius * Radius)%R) (verts poly).
Proof.
  intros HU HV. rewrite Sphere_mesh by assumption.
  eexists. split; [reflexivity|]. cbn [verts].
  apply Forall_app. split.
  - apply Forall_flat_map, Forall_forall. intros a _.
    apply ring_pts_on_sphere.
  - repeat constructor; unfold norm2; ring.
Qed.

Lemma Sphere_vertices_on_sphere_witness :
  0 <= 16 /\ 2 <= 16 /\
  exists poly,
    Sph.Sphere 2 16 16 true = Ok poly /\
    Forall (fun p => norm2 p = (2 * 2)%R) (verts poly).
Proof.
  split; [lia|]. split; [lia|].
  apply (Sphere_vertices_on_sphere 2 16 16 true); lia.
Defined.

Lemma clip_plane_height Radius Clip :
  (0 <= Clip <= 100)%R ->
  Sph.min_z Radius (180 * acos (Sph.norm_z Clip) / PI)
  = (Radius * (1 - Clip / 50))%R.
Proof.
  intros HC. unfold Sph.min_z.
  replace (180 * acos (Sph.norm_z Clip) / PI / 180 * PI)%R
    with (acos (Sph.norm_z Clip)) by (field; apply PI_neq0).
  rewrite cos_acos; [reflexivity|]. unfold Sph.norm_z. lra.
Qed.

(** The clipped sphere (clip-percent in [0, 100]): it has
    [U * (V-1) + 1] vertices, one more with the symmetrical cap; the ring
    vertices and the pole lie on the sphere of the given radius; the first
    ring lies in the clip plane, whose height [Radius * (1 - Clip/50)]
    falls linearly with the clip-percent; and the centre vertex of the
    symmetrical cap is the point of the axis in that plane. *)
Theorem Sphere2_geometry Radius U V Clip (CapBottom CapSymmetrical Smooth : bool) :
  1 <= U -> 2 <= V -> (0 <= Clip <= 100)%R ->
  exists poly,
    Sph.Sphere2 Radius U V Clip CapBottom CapSymmetrical Smooth = Ok poly /\
    nverts poly
    = U * (V - 1) + 1 + (if CapBottom && CapSymmetrical then 1 else 0) /\
    Forall (fun p => norm2 p = (Radius * Radius)%R)
      (firstn (Z.to_nat (U * (V - 1) + 1)) (verts poly)) /\
    (forall i, 0 <= i < U ->
       exists x y,
         nth_error (verts poly) (Z.to_nat i)
         = Some (x, y, (Radius * (1 - Clip / 50))%R)) /\
    (CapBottom = true -> CapSymmetrical = true ->
     nth_error (verts poly) (Z.to_nat (U * (V - 1) + 1))
     = Some (0, 0, Radius * (1 - Clip / 50))%R).
Proof.
  intros HU HV HClip.
  destruct (Sphere2_closed Radius U V Clip CapBottom CapSymmetrical Smooth)
    as (rng & fs & _ & Erng & ->); try lia; try assumption.
  eexists. split; [reflexivity|]. cbn [verts].
  pose proof (sphere2_rings_length Radius U V rng ltac:(lia) ltac:(lia))
    as Hlen.
  pose proof (clip_plane_height Radius Clip HClip) as Hz.
  rewrite <- Erng in Hz.
  set (rings := sphere2_rings Radius U V rng) in *.
  set (extra := if CapBottom then
                  if CapSymmetrical then [(0, 0, Sph.min_z Radius rng)%R]
                  else []
                else []).
  split; [|split; [|split]].
  - unfold nverts. cbn [verts]. rewrite length_app. cbn [length].
    unfold extra. destruct CapBottom, CapSymmetrical; cbn; lia.
  - change (rings ++ (0, 0, Radius)%R :: extra)
      with (rings ++ [(0, 0, Radius)%R] ++ extra).
    rewrite app_assoc.
    assert (Hl : Z.to_nat (U * (V - 1) + 1)
                 = length (rings ++ [(0, 0, Radius)%R]))
      by (rewrite length_app; cbn [length]; lia).
    rewrite Hl, firstn_app, Nat.sub_diag, firstn_O, app_nil_r, firstn_all.
    apply Forall_app. split.
    + unfold rings, sphere2_rings. apply Forall_flat_map, Forall_forall.
      intros k _. cbv zeta. apply ring_pts_on_sphere.
    + repeat constructor. unfold norm2. ring.
  - intros i Hi. rewrite nth_error_app1 by nia.
    replace i with (U * 0 + i) by lia. unfold rings.
    rewrite sphere2_rings_nth by lia. cbv zeta. do 2 eexists.
    do 2 f_equal. rewrite <- Hz. unfold Sph.min_z, ring_angle.
    do 2 f_equal. unfold Rdiv. ring.
  - intros -> ->. unfold extra.
    rewrite nth_error_app2 by lia.
    replace (Z.to_nat (U * (V - 1) + 1) - length rings)%nat with 1%nat by lia.
    cbn [nth_error]. now rewrite Hz.
Qed.

Lemma Sphere2_geometry_witness :
  1 <= 16 /\ 2 <= 16 /\ (0 <= 50 <= 100)%R /\
  exists poly,
    Sph.Sphere2 1 16 16 50 true true true = Ok poly /\
    nverts poly = 16 * (16 - 1) + 1 + (if true && true then 1 else 0) /\
    Forall (fun p => norm2 p = (1 * 1)%R)
      (firstn (Z.to_nat (16 * (16 - 1) + 1)) (verts poly)) /\
    (forall i, 0 <= i < 16 ->
       exists x y,
         nth_error (verts poly) (Z.to_nat i)
         = Some (x, y, (1 * (1 - 50 / 50))%R)) /\
    (true = true -> true = true ->
     nth_error (verts poly) (Z.to_nat (16 * (16 - 1) + 1))
     = Some (0, 0, 1 * (1 - 50 / 50))%R).
Proof.
  assert (Hc : (0 <= 50 <= 100)%R) by lra.
  split; [lia|]. split; [lia|]. split; [exact Hc|].
  apply (Sphere2_geometry 1 16 16 50 true true true); [lia|lia|exact Hc].
Defined.

(** *** The disc *)

Lemma walk_add_nth n (da a : R) k :
  (k < n)%nat ->
  nth_error (walk n (fun x => (x + da)%R) a) k = Some (a + INR k * da)%R.
Proof.
  intros Hk. rewrite walk_add, nth_error_map, nth_error_seq.
  replace (k <? n)%nat with true by (symmetry; apply Nat.ltb_lt; lia).
  reflexivity.
Qed.

Lemma Dsc_ring_ok Segments r da poly :
  Dsc.ring Segments r da poly
  = Ok (tt, add_verts poly
              (map (fun alpha => (r * cos alpha, r * sin alpha, 0)%R)
                 (walk (Z.to_nat Segments) (fun x => (x + da)%R) 0%R))).
Proof.
  unfold Dsc.ring. rewrite <- flat_map_singleton, <- (xrange_length Segments).
  erewrite bind_ok; [reflexivity|].
  apply (for_acc_verts _ (fun x => (x + da)%R)
           (fun alpha => [(r * cos alpha, r * sin alpha, 0)%R])).
  intros x alpha q _. erewrite bind_ok by apply verts_append_ok.
  reflexivity.
Qed.

Lemma Disc_shape InnerRadius OuterRadius S D :
  1 <= S -> 1 <= D ->
  exists poly,
    Dsc.Disc InnerRadius OuterRadius S D = Ok poly /\
    nverts poly = S * (D + 1) /\
    nfaces poly = S * D /\
    Forall (fun f => is_quad f = true /\ smooth f = false) (faces poly) /\
    (forall k i, 0 <= k <= D -> 0 <= i < S ->
       let r := (InnerRadius + IZR k * ((OuterRadius - InnerRadius) / IZR D))%R in
       let alpha := (0 + IZR i * (PI * 2 / IZR S))%R in
       nth_error (verts poly) (Z.to_nat (S * k + i))
       = Some (r * cos alpha, r * sin alpha, 0)%R) /\
    (InnerRadius + IZR 0 * ((OuterRadius - InnerRadius) / IZR D)
     = InnerRadius)%R /\
    (InnerRadius + IZR D * ((OuterRadius - InnerRadius) / IZR D)
     = OuterRadius)%R.
Proof.
  intros HS HD.
  unfold Dsc.Disc, build, Dsc.Disc_body. cbv zeta.
  erewrite bind_ok by (apply lift_ok, fdiv_IZR_ok; lia).
  erewrite bind_ok by (apply lift_ok, fdiv_IZR_ok; lia).
  erewrite bind_ok by
    (apply (rings_loop_ok
              (fun r => Dsc.ring S r (PI * 2 / IZR S))
              (fun r => (r + (OuterRadius - InnerRadius) / IZR D)%R));
     intros; apply Dsc_ring_ok).
  match goal with
  | |- context [add_verts GetRaw ?l] => set (rv := l)
  end.
  assert (Hring : forall r,
             length (map (fun alpha => (r * cos alpha, r * sin alpha, 0)%R)
                       (walk (Z.to_nat S) (fun x => (x + PI * 2 / IZR S)%R)
                          0%R)) = Z.to_nat S)
    by (intros; now rewrite length_map, walk_length).
  assert (Hrv : Z.of_nat (length rv) = S * (D + 1)).
  { unfold rv. rewrite (flat_map_length_const _ (Z.to_nat S)) by auto.
    rewrite walk_length. nia. }
  rewrite (for_in_faces _
             (fun i => quad_strip S (S * i) (S * (i + 1)) false)
             (S * (D + 1))).
  - fold (stack_skin S D false).
    eexists. split; [reflexivity|].
    unfold add_faces, add_verts, GetRaw. cbn [verts faces app].
    split; [exact Hrv|]. split; [|split; [|split; [|split]]].
    + unfold nfaces. cbn [faces]. rewrite stack_skin_length. nia.
    + unfold stack_skin. apply Forall_flat_map, Forall_forall. intros i _.
      unfold quad_strip. apply Forall_map, Forall_forall. now intros.
    + intros k i Hk Hi. cbv zeta. unfold rv.
      replace (Z.to_nat (S * k + i))
        with (Z.to_nat k * Z.to_nat S + Z.to_nat i)%nat by nia.
      erewrite nth_error_flat_map_const; auto.
      * rewrite nth_error_map, walk_add_nth by lia.
        cbn [option_map]. rewrite INR_IZR_INZ, Z2Nat.id by lia. reflexivity.
      * rewrite walk_add_nth by lia.
        rewrite INR_IZR_INZ, Z2Nat.id by lia. reflexivity.
      * lia.
    + ring.
    + field. apply not_0_IZR. lia.
  - intros i q Hi Hq. apply xrange_In in Hi. apply strip_ok.
    intros Hpos. rewrite Hq. nia.
  - exact Hrv.
Qed.

(** The disc with at least one segment and one subdivision: [S * (D+1)]
    vertices in [D+1] flat rings and [S * D] quads, none of them smooth
    (the builder never sets the flag); the [i]-th vertex of ring [k] is at
    the angle [i * 2*pi/S] on the circle of radius
    [inner + k * (outer - inner)/D] in the plane z = 0, so that ring 0 has
    the inner radius and ring [D] the outer radius. *)
Theorem Disc_mesh_shape InnerRadius OuterRadius S D :
  1 <= S -> 1 <= D ->
  exists poly,
    Dsc.Disc InnerRadius OuterRadius S D = Ok poly /\
    nverts poly = S * (D + 1) /\
    nfaces poly = S * D /\
    Forall (fun f => is_quad f = true /\ smooth f = false) (faces poly) /\
    (forall k i, 0 <= k <= D -> 0 <= i < S ->
       let r := (InnerRadius + IZR k * ((OuterRadius - InnerRadius) / IZR D))%R in
       let alpha := (0 + IZR i * (PI * 2 / IZR S))%R in
       nth_error (verts poly) (Z.to_nat (S * k + i))
       = Some (r * cos alpha, r * sin alpha, 0)%R) /\
    (InnerRadius + IZR 0 * ((OuterRadius - InnerRadius) / IZR D)
     = InnerRadius)%R /\
    (InnerRadius + IZR D * ((OuterRadius - InnerRadius) / IZR D)
     = OuterRadius)%R.
Proof. apply Disc_shape. Qed.

Lemma Disc_mesh_shape_witness :
  1 <= 8 /\ 1 <= 1 /\
  exists poly,
    Dsc.Disc (1 / 2) 1 8 1 = Ok poly /\
    nverts poly = 8 * (1 + 1) /\
    nfaces poly = 8 * 1 /\
    Forall (fun f => is_quad f = true /\ smooth f = false) (faces poly) /\
    (forall k i, 0 <= k <= 1 -> 0 <= i < 8 ->
       let r := (1 / 2 + IZR k * ((1 - 1 / 2) / IZR 1))%R in
       let alpha := (0 + IZR i * (PI * 2 / IZR 8))%R in
       nth_error (verts poly) (Z.to_nat (8 * k + i))
       = Some (r * cos alpha, r * sin alpha, 0)%R) /\
    (1 / 2 + IZR 0 * ((1 - 1 / 2) / IZR 1) = 1 / 2)%R /\
    (1 / 2 + IZR 1 * ((1 - 1 / 2) / IZR 1) = 1)%R.
Proof.
  split; [lia|]. split; [lia|].
  apply (Disc_mesh_shape (1 / 2) 1 8 1); lia.
Defined.

(** *** The tube *)

Lemma tube_skin_quads vps n m sm :
  Forall (fun f => is_quad f = true /\ is_tri f = false)
    (flat_map (fun i => quad_strip vps (vps * i) (vps * ((i + 1) mod m)) sm)
       (xrange n)).
Proof.
  apply Forall_flat_map, Forall_forall. intros i _. apply quad_strip_quads.
Qed.

Lemma tube_skin_length vps n m sm :
  length (flat_map
            (fun i => quad_strip vps (vps * i) (vps * ((i + 1) mod m)) sm)
            (xrange n))
  = (Z.to_nat vps * Z.to_nat n)%nat.
Proof.
  rewrite (flat_map_length_const _ (Z.to_nat vps)), xrange_length; [lia|].
  intros; apply quad_strip_length.
Qed.

Lemma Tube_shape InnerRadius OuterRadius Height InnerDivisions
    OuterDivisions CapDivisions Segments Smooth StartAngle EndAngle
    (UseAngles : bool) :
  1 <= InnerDivisions -> 1 <= OuterDivisions -> 1 <= CapDivisions ->
  1 <= Segments ->
  let vps := 2 * CapDivisions + InnerDivisions + OuterDivisions in
  exists poly,
    Tub.Tube InnerRadius OuterRadius Height InnerDivisions OuterDivisions
      CapDivisions Segments Smooth StartAngle EndAngle UseAngles = Ok poly /\
    nverts poly = (if UseAngles then vps * (Segments + 1) + 2
                   else vps * Segments) /\
    quads poly = vps * Segments /\
    tris poly = (if UseAngles then 2 * vps else 0).
Proof.
  intros HI HO HC HS vps.
  destruct (MakeVertexRectange_ok InnerRadius OuterRadius Height _ _ _
              HI HO HC) as (vert & Hvert & Hlen & _).
  fold vps in Hlen.
  unfold Tub.Tube, build, Tub.Tube_body. cbv zeta. fold vps.
  erewrite bind_ok by (apply lift_ok, Hvert).
  destruct UseAngles.
  - erewrite bind_ok
      by (erewrite bind_ok by (apply lift_ok, fdiv_IZR_ok; lia); reflexivity).
    cbv beta iota.
    erewrite bind_ok by
      (apply (rings_loop_ok (Tub.AddYRotatedVertexes vert));
       intros; apply AddYRotatedVertexes_ok).
    match goal with
    | |- context [add_verts GetRaw ?l] => set (rv := l)
    end.
    assert (Hrv : Z.of_nat (length rv) = vps * (Segments + 1)).
    { unfold rv.
      rewrite (flat_map_length_const _ (Z.to_nat vps))
        by (intros; rewrite length_map; lia).
      rewrite walk_length. nia. }
    erewrite bind_ok.
    2:{ apply (for_in_faces _
                 (fun i => quad_strip vps (vps * i)
                             (vps * ((i + 1) mod (Segments + 1))) Smooth)
                 (vps * (Segments + 1))); [|exact Hrv].
        intros i q Hi Hq. apply xrange_In in Hi. apply strip_ok.
        intros Hpos. rewrite Hq, Z.mod_small by lia. nia. }
    erewrite bind_ok by apply verts_append_ok.
    erewrite bind_ok by apply verts_append_ok.
    rewrite fan_pair_ok.
    + match goal with
      | |- context [cylinder_caps ?n _ _] => set (len := n)
      end.
      eexists. split; [reflexivity|].
      unfold add_verts, add_faces, GetRaw.
      cbn [verts faces app]. split.
      * unfold nverts. cbn [verts]. rewrite !length_app. cbn [length]. lia.
      * match goal with
        | |- quads {| verts := ?vs; faces := ?qs ++ ?ts |} = _ /\ _ =>
            destruct (count_quads_tris vs qs ts) as (Hq & Ht & _)
        end.
        -- apply tube_skin_quads.
        -- apply cylinder_caps_tris.
        -- rewrite Hq, Ht, tube_skin_length, cylinder_caps_length. nia.
    + intros Hpos. rewrite !nverts_add_verts, nverts_add_faces.
      cbn [length]. unfold nverts, add_verts, GetRaw. cbn [verts app]. nia.
  - erewrite bind_ok
      by (erewrite bind_ok by (apply lift_ok, fdiv_IZR_ok; lia); reflexivity).
    cbv beta iota.
    erewrite bind_ok by
      (apply (rings_loop_ok (Tub.AddYRotatedVertexes vert));
       intros; apply AddYRotatedVertexes_ok).
    match goal with
    | |- context [add_verts GetRaw ?l] => set (rv := l)
    end.
    assert (Hrv : Z.of_nat (length rv) = vps * Segments).
    { unfold rv.
      rewrite (flat_map_length_const _ (Z.to_nat vps))
        by (intros; rewrite length_map; lia).
      rewrite walk_length. nia. }
    erewrite bind_ok.
    2:{ apply (for_in_faces _
                 (fun i => quad_strip vps (vps * i)
                             (vps * ((i + 1) mod Segments)) Smooth)
                 (vps * Segments)); [|exact Hrv].
        intros i q Hi Hq. apply xrange_In in Hi. apply strip_ok.
        intros Hpos. rewrite Hq.
        pose proof (Z.mod_pos_bound (i + 1) Segments ltac:(lia)). nia. }
    unfold ret. eexists. split; [reflexivity|].
    unfold add_verts, add_faces, GetRaw. cbn [verts faces app]. split.
    + exact Hrv.
    + match goal with
      | |- quads {| verts := ?vs; faces := ?qs |} = _ /\ _ =>
          destruct (count_quads_tris vs qs []) as (Hq & Ht & _)
      end.
      * apply tube_skin_quads.
      * constructor.
      * rewrite app_nil_r in Hq, Ht.
        rewrite Hq, Ht, tube_skin_length. cbn [length]. nia.
Qed.

(** The tube, closed or cut, with at least one division of each kind:
    its section has [vps = 2*Cap + Inner + Outer] points; the closed tube
    has [vps * S] vertices, the cut tube one section more and the two cap
    centres; both have [vps * S] skin quads, and the cut tube [2 * vps] cap
    triangles besides, where the closed tube has no triangle. *)
Theorem Tube_counts InnerRadius OuterRadius Height InnerDivisions
    OuterDivisions CapDivisions Segments Smooth StartAngle EndAngle
    (UseAngles : bool) :
  1 <= InnerDivisions -> 1 <= OuterDivisions -> 1 <= CapDivisions ->
  1 <= Segments ->
  let vps := 2 * CapDivisions + InnerDivisions + OuterDivisions in
  exists poly,
    Tub.Tube InnerRadius OuterRadius Height InnerDivisions OuterDivisions
      CapDivisions Segments Smooth StartAngle EndAngle UseAngles = Ok poly /\
    nverts poly = (if UseAngles then vps * (Segments + 1) + 2
                   else vps * Segments) /\
    quads poly = vps * Segments /\
    tris poly = (if UseAngles then 2 * vps else 0).
Proof. apply Tube_shape. Qed.

Lemma Tube_counts_witness :
  1 <= 1 /\ 1 <= 1 /\ 1 <= 1 /\ 1 <= 32 /\
  let vps := 2 * 1 + 1 + 1 in
  exists poly,
    Tub.Tube 1 2 5 1 1 1 32 true 0 90 true = Ok poly /\
    nverts poly = (if true then vps * (32 + 1) + 2 else vps * 32) /\
    quads poly = vps * 32 /\
    tris poly = (if true then 2 * vps else 0).
Proof.
  split; [lia|]. split; [lia|]. split; [lia|]. split; [lia|].
  apply (Tube_counts 1 2 5 1 1 1 32 true 0 90 true); lia.
Defined.

(** *** The twist plugin: a session *)

Lemma extents_ok p bbox :
  exists bb, TwistPlugin.extents (p :: bbox) = Ok bb.
Proof. eexists. reflexivity. Qed.

Lemma get_selected_loop_first selected ob bb g :
  first_mesh selected = Some ob ->
  TwistPlugin.extents (TwistPlugin.getBoundBox ob) = Ok bb ->
  TwistPlugin.get_selected_loop selected g
  = TwistPlugin.mkEffect
      (TwistPlugin.mkGlobals (TwistPlugin.getData ob)
         (TwistPlugin.MeshData (TwistPlugin.getData ob)) (Some bb)
         (String.append (TwistPlugin.getName ob) " selected"))
      None None.
Proof.
  intros Hf Hbb. induction selected as [|o rest IH]; [discriminate|].
  cbn [first_mesh find] in Hf. cbn [TwistPlugin.get_selected_loop].
  destruct (String.eqb (TwistPlugin.getType o) "Mesh").
  - injection Hf as ->. now rewrite Hbb.
  - now apply IH.
Qed.

Lemma update_holds_mesh ob g k an st en :
  holds_mesh ob g -> holds_mesh ob (TwistPlugin.after (TwistPlugin.update g k an st en)).
Proof.
  intros (Hvl & cur & Hm & Hlen). unfold TwistPlugin.update. rewrite Hm.
  destruct (TwistPlugin.axis k) as [Axis|]; [|now split; [|exists cur]].
  destruct (TwistPlugin.bounds g) as [bb|]; [|now split; [|exists cur]].
  pose proof (twist_mesh_length bb (TwistPlugin.vertex_list g) cur Axis an st en)
    as Hl.
  destruct (Twist.twist_mesh bb (TwistPlugin.vertex_list g) cur Axis an st en)
    as [cur' out].
  cbn [fst] in Hl.
  destruct out; (split; [exact Hvl|]); exists cur';
    (split; [reflexivity|congruence]).
Qed.

Lemma act_holds_mesh ob a g :
  holds_mesh ob g -> holds_mesh ob (TwistPlugin.after (act a g)).
Proof.
  intros H. destruct a as [sel|k an st en|b k an st en]; cbn [act].
  - destruct H as (Hvl & cur & Hm & Hlen).
    unfold TwistPlugin.get_selected. rewrite Hm. cbn.
    split; [exact Hvl|]. now exists cur.
  - now apply update_holds_mesh.
  - unfold TwistPlugin.live_update. destruct b; [|exact H].
    now apply update_holds_mesh.
Qed.

Lemma session_holds_mesh ob acts g :
  holds_mesh ob g -> holds_mesh ob (session acts g).
Proof.
  revert g. induction acts as [|a acts IH]; intros g H; [exact H|].
  cbn [session fold_left]. apply IH. now apply act_holds_mesh.
Qed.

Lemma get_selected_acquires selected ob g :
  first_mesh selected = Some ob ->
  TwistPlugin.getBoundBox ob <> [] ->
  (forall vs, TwistPlugin.mesh g <> TwistPlugin.MeshData vs) ->
  exists bb,
    TwistPlugin.extents (TwistPlugin.getBoundBox ob) = Ok bb /\
    TwistPlugin.get_selected selected g
    = TwistPlugin.mkEffect
        (TwistPlugin.mkGlobals (TwistPlugin.getData ob)
           (TwistPlugin.MeshData (TwistPlugin.getData ob)) (Some bb)
           (String.append (TwistPlugin.getName ob) " selected"))
        None None.
Proof.
  intros Hf Hbox Hm.
  destruct (TwistPlugin.getBoundBox ob) as [|p bbox] eqn:Eb; [contradiction|].
  destruct (extents_ok p bbox) as (bb & Hbb). exists bb. split; [exact Hbb|].
  unfold TwistPlugin.get_selected.
  destruct (TwistPlugin.mesh g) as [| |vs] eqn:Em;
    [| |exfalso; now apply (Hm vs)];
    apply get_selected_loop_first; auto; now rewrite Eb.
Qed.

(** Cancel undoes everything: after a mesh object was acquired, whatever
    updates, live updates and further presses of "Get mesh" followed
    (raising or not), Cancel hands to the host exactly the coordinates the
    mesh had when it was acquired, raises nothing, and forgets the mesh. *)
Theorem cancel_restores_acquired_mesh selected ob acts :
  first_mesh selected = Some ob ->
  TwistPlugin.getBoundBox ob <> [] ->
  let g := session acts
             (TwistPlugin.after
                (TwistPlugin.get_selected selected TwistPlugin.initial)) in
  TwistPlugin.updated (TwistPlugin.cancel g) = Some (TwistPlugin.getData ob) /\
  TwistPlugin.raised (TwistPlugin.cancel g) = None /\
  TwistPlugin.mesh (TwistPlugin.after (TwistPlugin.cancel g))
  = TwistPlugin.MeshNone /\
  TwistPlugin.vertex_list (TwistPlugin.after (TwistPlugin.cancel g)) = [].
Proof.
  intros Hf Hbox g.
  destruct (get_selected_acquires selected ob TwistPlugin.initial Hf Hbox)
    as (bb & _ & Hget); [discriminate|].
  assert (Hg : holds_mesh ob g).
  { unfold g. apply session_holds_mesh. rewrite Hget. cbn.
    split; [reflexivity|]. now eexists. }
  destruct Hg as (Hvl & cur & Hm & Hlen).
  unfold TwistPlugin.cancel. rewrite Hm, Hvl.
  pose proof (enumerate_update_restore (fun p => Ok p) []
                (TwistPlugin.getData ob) cur (fun p _ => eq_refl) Hlen) as Hr.
  cbn [app length] in Hr. rewrite Hr.
  repeat split.
Qed.

Lemma cancel_restores_acquired_mesh_witness :
  first_mesh
    [TwistPlugin.mkObject "Lamp" "Lamp" [] [(0, 0, 0)%R];
     TwistPlugin.mkObject "Mesh" "Cube" [(0, 0, 0)%R; (1, 2, 3)%R]
       [(0, 0, 0)%R; (1, 2, 3)%R]]
  = Some (TwistPlugin.mkObject "Mesh" "Cube" [(0, 0, 0)%R; (1, 2, 3)%R]
            [(0, 0, 0)%R; (1, 2, 3)%R]) /\
  [(0, 0, 0)%R; (1, 2, 3)%R] <> [] /\
  let g := session [DoUpdate 2 90 0 100; DoUpdate 1 45 50 50]
             (TwistPlugin.after
                (TwistPlugin.get_selected
                   [TwistPlugin.mkObject "Lamp" "Lamp" [] [(0, 0, 0)%R];
                    TwistPlugin.mkObject "Mesh" "Cube"
                      [(0, 0, 0)%R; (1, 2, 3)%R] [(0, 0, 0)%R; (1, 2, 3)%R]]
                   TwistPlugin.initial)) in
  TwistPlugin.updated (TwistPlugin.cancel g)
  = Some [(0, 0, 0)%R; (1, 2, 3)%R] /\
  TwistPlugin.raised (TwistPlugin.cancel g) = None /\
  TwistPlugin.mesh (TwistPlugin.after (TwistPlugin.cancel g))
  = TwistPlugin.MeshNone /\
  TwistPlugin.vertex_list (TwistPlugin.after (TwistPlugin.cancel g)) = [].
Proof.
  assert (Hne : [(0, 0, 0)%R; (1, 2, 3)%R] <> []) by discriminate.
  split; [reflexivity|]. split; [exact Hne|].
  exact (cancel_restores_acquired_mesh
           [TwistPlugin.mkObject "Lamp" "Lamp" [] [(0, 0, 0)%R];
            TwistPlugin.mkObject "Mesh" "Cube" [(0, 0, 0)%R; (1, 2, 3)%R]
              [(0, 0, 0)%R; (1, 2, 3)%R]]
           (TwistPlugin.mkObject "Mesh" "Cube" [(0, 0, 0)%R; (1, 2, 3)%R]
              [(0, 0, 0)%R; (1, 2, 3)%R])
           [DoUpdate 2 90 0 100; DoUpdate 1 45 50 50] eq_refl Hne).
Defined.

Lemma fold_Rmin_le l x :
  (fold_left Rmin l x <= x)%R /\
  forall y, In y l -> (fold_left Rmin l x <= y)%R.
Proof.
  revert x. induction l as [|a l IH]; intros x.
  - split; [apply Rle_refl|intros y []].
  - cbn [fold_left]. destruct (IH (Rmin x a)) as [H1 H2]. split.
    + eapply Rle_trans; [exact H1|apply Rmin_l].
    + intros y [<- | Hy]; [|now apply H2].
      eapply Rle_trans; [exact H1|apply Rmin_r].
Qed.

Lemma fold_Rmax_ge l x :
  (x <= fold_left Rmax l x)%R /\
  forall y, In y l -> (y <= fold_left Rmax l x)%R.
Proof.
  revert x. induction l as [|a l IH]; intros x.
  - split; [apply Rle_refl|intros y []].
  - cbn [fold_left]. destruct (IH (Rmax x a)) as [H1 H2]. split.
    + eapply Rle_trans; [apply Rmax_l|exact H1].
    + intros y [<- | Hy]; [|now apply H2].
      eapply Rle_trans; [apply Rmax_r|exact H1].
Qed.

Lemma py_min_max_bounds (f : Vert -> R) p bbox lo hi :
  TwistPlugin.py_min (map f (p :: bbox)) = Ok lo ->
  TwistPlugin.py_max (map f (p :: bbox)) = Ok hi ->
  forall q, In q (p :: bbox) -> (lo <= f q <= hi)%R.
Proof.
  cbn [map TwistPlugin.py_min TwistPlugin.py_max].
  intros Hlo Hhi q Hq. injection Hlo as <-. injection Hhi as <-.
  destruct (fold_Rmin_le (map f bbox) (f p)) as [L1 L2].
  destruct (fold_Rmax_ge (map f bbox) (f p)) as [U1 U2].
  destruct Hq as [<- | Hq]; [now split|].
  split; [apply L2|apply U2]; now apply in_map.
Qed.

(** "Get mesh" with no mesh held takes the first mesh object of the
    selection (the others, and objects of other types before it, are
    ignored): its coordinates become the baseline, its name goes to the
    info line, and the extents taken from its bounding box enclose every
    corner of the box, so that no extent is negative. *)
Theorem get_selected_takes_first_mesh selected ob g :
  first_mesh selected = Some ob ->
  TwistPlugin.getBoundBox ob <> [] ->
  (forall vs, TwistPlugin.mesh g <> TwistPlugin.MeshData vs) ->
  exists bb,
    TwistPlugin.get_selected selected g
    = TwistPlugin.mkEffect
        (TwistPlugin.mkGlobals (TwistPlugin.getData ob)
           (TwistPlugin.MeshData (TwistPlugin.getData ob)) (Some bb)
           (String.append (TwistPlugin.getName ob) " selected"))
        None None /\
    (forall q, In q (TwistPlugin.getBoundBox ob) ->
       (Twist.min_x bb <= Twist.co0 q <= Twist.max_x bb)%R /\
       (Twist.min_y bb <= Twist.co1 q <= Twist.max_y bb)%R /\
       (Twist.min_z bb <= Twist.co2 q <= Twist.max_z bb)%R) /\
    (0 <= Twist.max_x bb - Twist.min_x bb)%R /\
    (0 <= Twist.max_y bb - Twist.min_y bb)%R /\
    (0 <= Twist.max_z bb - Twist.min_z bb)%R.
Proof.
  intros Hf Hbox Hm.
  destruct (get_selected_acquires selected ob g Hf Hbox Hm)
    as (bb & Hbb & Hget).
  exists bb. split; [exact Hget|].
  destruct (TwistPlugin.getBoundBox ob) as [|p bbox]; [contradiction|].
  unfold TwistPlugin.extents in Hbb.
  destruct (TwistPlugin.py_min (map Twist.co0 (p :: bbox))) as [x0|] eqn:E1;
    [|discriminate].
  destruct (TwistPlugin.py_max (map Twist.co0 (p :: bbox))) as [x1|] eqn:E2;
    [|discriminate].
  destruct (TwistPlugin.py_min (map Twist.co1 (p :: bbox))) as [y0|] eqn:E3;
    [|discriminate].
  destruct (TwistPlugin.py_max (map Twist.co1 (p :: bbox))) as [y1|] eqn:E4;
    [|discriminate].
  destruct (TwistPlugin.py_min (map Twist.co2 (p :: bbox))) as [z0|] eqn:E5;
    [|discriminate].
  destruct (TwistPlugin.py_max (map Twist.co2 (p :: bbox))) as [z1|] eqn:E6;
    [|discriminate].
  injection Hbb as <-. cbn [Twist.min_x Twist.max_x Twist.min_y Twist.max_y
                             Twist.min_z Twist.max_z].
  pose proof (py_min_max_bounds Twist.co0 p bbox x0 x1 E1 E2) as Hx.
  pose proof (py_min_max_bounds Twist.co1 p bbox y0 y1 E3 E4) as Hy.
  pose proof (py_min_max_bounds Twist.co2 p bbox z0 z1 E5 E6) as Hz.
  split; [intros q Hq; auto|].
  specialize (Hx p (or_introl eq_refl)).
  specialize (Hy p (or_introl eq_refl)).
  specialize (Hz p (or_introl eq_refl)).
  repeat split; lra.
Qed.

Lemma get_selected_takes_first_mesh_witness :
  first_mesh
    [TwistPlugin.mkObject "Lamp" "Lamp" [] [(0, 0, 0)%R];
     TwistPlugin.mkObject "Mesh" "Cube" [(0, 0, 0)%R; (1, 2, 3)%R]
       [(0, 0, 0)%R; (1, 2, 3)%R]]
  = Some (TwistPlugin.mkObject "Mesh" "Cube" [(0, 0, 0)%R; (1, 2, 3)%R]
            [(0, 0, 0)%R; (1, 2, 3)%R]) /\
  [(0, 0, 0)%R; (1, 2, 3)%R] <> [] /\
  (forall vs,
     TwistPlugin.mesh TwistPlugin.initial <> TwistPlugin.MeshData vs) /\
  exists bb,
    TwistPlugin.get_selected
      [TwistPlugin.mkObject "Lamp" "Lamp" [] [(0, 0, 0)%R];
       TwistPlugin.mkObject "Mesh" "Cube" [(0, 0, 0)%R; (1, 2, 3)%R]
         [(0, 0, 0)%R; (1, 2, 3)%R]]
      TwistPlugin.initial
    = TwistPlugin.mkEffect
        (TwistPlugin.mkGlobals [(0, 0, 0)%R; (1, 2, 3)%R]
           (TwistPlugin.MeshData [(0, 0, 0)%R; (1, 2, 3)%R]) (Some bb)
           (String.append "Cube" " selected"))
        None None /\
    (forall q, In q [(0, 0, 0)%R; (1, 2, 3)%R] ->
       (Twist.min_x bb <= Twist.co0 q <= Twist.max_x bb)%R /\
       (Twist.min_y bb <= Twist.co1 q <= Twist.max_y bb)%R /\
       (Twist.min_z bb <= Twist.co2 q <= Twist.max_z bb)%R) /\
    (0 <= Twist.max_x bb - Twist.min_x bb)%R /\
    (0 <= Twist.max_y bb - Twist.min_y bb)%R /\
    (0 <= Twist.max_z bb - Twist.min_z bb)%R.
Proof.
  assert (Hne : [(0, 0, 0)%R; (1, 2, 3)%R] <> []) by discriminate.
  assert (Hm : forall vs,
             TwistPlugin.mesh TwistPlugin.initial <> TwistPlugin.MeshData vs)
    by discriminate.
  split; [reflexivity|]. split; [exact Hne|]. split; [exact Hm|].
  exact (get_selected_takes_first_mesh
           [TwistPlugin.mkObject "Lamp" "Lamp" [] [(0, 0, 0)%R];
            TwistPlugin.mkObject "Mesh" "Cube" [(0, 0, 0)%R; (1, 2, 3)%R]
              [(0, 0, 0)%R; (1, 2, 3)%R]]
           (TwistPlugin.mkObject "Mesh" "Cube" [(0, 0, 0)%R; (1, 2, 3)%R]
              [(0, 0, 0)%R; (1, 2, 3)%R])
           TwistPlugin.initial eq_refl Hne Hm).
Defined.

Lemma update_without_mesh g k an st en :
  (forall vs, TwistPlugin.mesh g <> TwistPlugin.MeshData vs) ->
  TwistPlugin.update g k an st en = TwistPlugin.mkEffect g None None.
Proof.
  intros Hm. unfold TwistPlugin.update.
  destruct (TwistPlugin.mesh g) as [| |vs]; try reflexivity.
  exfalso. now apply (Hm vs).
Qed.

Lemma cancel_without_mesh g :
  (forall vs, TwistPlugin.mesh g <> TwistPlugin.MeshData vs) ->
  TwistPlugin.updated (TwistPlugin.cancel g) = None.
Proof.
  intros Hm. unfold TwistPlugin.cancel.
  destruct (TwistPlugin.mesh g) as [| |vs]; try reflexivity.
  exfalso. now apply (Hm vs).
Qed.

(** Apply is final: when it does not raise, it hands to the host what the
    update it makes hands over, and it drops the mesh, so that afterwards
    Update does nothing and Cancel restores nothing. *)
Theorem apply_is_final g k an st en :
  TwistPlugin.raised (TwistPlugin.apply g k an st en) = None ->
  let g' := TwistPlugin.after (TwistPlugin.apply g k an st en) in
  TwistPlugin.updated (TwistPlugin.apply g k an st en)
  = TwistPlugin.updated (TwistPlugin.update g k an st en) /\
  (forall k' an' st' en',
     TwistPlugin.update g' k' an' st' en' = TwistPlugin.mkEffect g' None None) /\
  TwistPlugin.updated (TwistPlugin.cancel g') = None.
Proof.
  intros Hr g'.
  assert (Hm : forall vs, TwistPlugin.mesh g' <> TwistPlugin.MeshData vs /\
               TwistPlugin.updated (TwistPlugin.apply g k an st en)
               = TwistPlugin.updated (TwistPlugin.update g k an st en)).
  { intros vs. unfold g' in *. unfold TwistPlugin.apply in *.
    destruct (TwistPlugin.mesh g) as [| |cur] eqn:Em.
    - rewrite update_without_mesh by (rewrite Em; discriminate).
      cbn. rewrite Em. now split.
    - rewrite update_without_mesh by (rewrite Em; discriminate).
      cbn. rewrite Em. now split.
    - destruct (TwistPlugin.raised (TwistPlugin.update g k an st en))
        eqn:Eu; [rewrite Eu in Hr; discriminate|].
      cbn. now split. }
  split; [exact (proj2 (Hm []))|]. split.
  - intros. apply update_without_mesh. intros vs. apply Hm.
  - apply cancel_without_mesh. intros vs. apply Hm.
Qed.

Lemma apply_is_final_witness :
  TwistPlugin.raised
    (TwistPlugin.apply
       (TwistPlugin.mkGlobals [(0, 0, 0)%R; (1, 2, 1)%R]
          (TwistPlugin.MeshData [(0, 0, 0)%R; (1, 2, 1)%R])
          (Some (Twist.mkBoundBox 0 1 0 2 0 1)) "Cube selected")
       2 0 0 100) = None /\
  let g' := TwistPlugin.after
              (TwistPlugin.apply
                 (TwistPlugin.mkGlobals [(0, 0, 0)%R; (1, 2, 1)%R]
                    (TwistPlugin.MeshData [(0, 0, 0)%R; (1, 2, 1)%R])
                    (Some (Twist.mkBoundBox 0 1 0 2 0 1)) "Cube selected")
                 2 0 0 100) in
  TwistPlugin.updated
    (TwistPlugin.apply
       (TwistPlugin.mkGlobals [(0, 0, 0)%R; (1, 2, 1)%R]
          (TwistPlugin.MeshData [(0, 0, 0)%R; (1, 2, 1)%R])
          (Some (Twist.mkBoundBox 0 1 0 2 0 1)) "Cube selected")
       2 0 0 100)
  = TwistPlugin.updated
      (TwistPlugin.update
         (TwistPlugin.mkGlobals [(0, 0, 0)%R; (1, 2, 1)%R]
            (TwistPlugin.MeshData [(0, 0, 0)%R; (1, 2, 1)%R])
            (Some (Twist.mkBoundBox 0 1 0 2 0 1)) "Cube selected")
         2 0 0 100) /\
  (forall k' an' st' en',
     TwistPlugin.update g' k' an' st' en' = TwistPlugin.mkEffect g' None None) /\
  TwistPlugin.updated (TwistPlugin.cancel g') = None.
Proof.
  assert (Hr : TwistPlugin.raised
                 (TwistPlugin.apply
                    (TwistPlugin.mkGlobals [(0, 0, 0)%R; (1, 2, 1)%R]
                       (TwistPlugin.MeshData [(0, 0, 0)%R; (1, 2, 1)%R])
                       (Some (Twist.mkBoundBox 0 1 0 2 0 1)) "Cube selected")
                    2 0 0 100) = None).
  { unfold TwistPlugin.apply, TwistPlugin.update.
    cbn [TwistPlugin.mesh TwistPlugin.bounds TwistPlugin.vertex_list
         TwistPlugin.axis].
    change (TwistPlugin.axis 2) with (Some "y"%string). cbv iota.
    rewrite twist_mesh_map; [reflexivity| | | |reflexivity].
    - right; left; reflexivity.
    - axis_simpl; lra.
    - lra. }
  split; [exact Hr|].
  exact (apply_is_final _ 2 0%R 0%R 100%R Hr).
Defined.

Lemma update_keeps_bounds g k an st en :
  TwistPlugin.bounds (TwistPlugin.after (TwistPlugin.update g k an st en))
  = TwistPlugin.bounds g.
Proof.
  unfold TwistPlugin.update.
  destruct (TwistPlugin.mesh g) as [| |cur]; try reflexivity.
  destruct (TwistPlugin.axis k) as [Axis|]; [|reflexivity].
  destruct (TwistPlugin.bounds g) as [bb|] eqn:Eb; [|exact Eb].
  destruct (Twist.twist_mesh bb (TwistPlugin.vertex_list g) cur Axis an st en)
    as [cur' out].
  destruct out; reflexivity.
Qed.

Lemma session_keeps_bounds ob acts g :
  holds_mesh ob g ->
  TwistPlugin.bounds (session acts g) = TwistPlugin.bounds g.
Proof.
  revert g. induction acts as [|a acts IH]; intros g H; [reflexivity|].
  cbn [session fold_left].
  change (fold_left (fun g0 a0 => TwistPlugin.after (act a0 g0)) acts
            (TwistPlugin.after (act a g)))
    with (session acts (TwistPlugin.after (act a g))).
  rewrite IH by now apply act_holds_mesh.
  destruct a as [sel|k an st en|b k an st en]; cbn [act].
  - destruct H as (_ & cur & Hm & _).
    unfold TwistPlugin.get_selected. now rewrite Hm.
  - apply update_keeps_bounds.
  - unfold TwistPlugin.live_update. destruct b; [|reflexivity].
    apply update_keeps_bounds.
Qed.

(** In a session every Update shows the twist of the mesh as acquired:
    with extent along the chosen axis and start different from end, Update
    raises nothing and hands to the host the twist of the baseline for the
    current values of the widgets, whatever was done since the mesh was
    acquired. *)
Theorem session_update_twists_baseline selected ob bb acts k Axis an st en :
  first_mesh selected = Some ob ->
  TwistPlugin.extents (TwistPlugin.getBoundBox ob) = Ok bb ->
  TwistPlugin.axis k = Some Axis ->
  axis_extent bb Axis <> 0%R -> st <> en ->
  let g := session acts
             (TwistPlugin.after
                (TwistPlugin.get_selected selected TwistPlugin.initial)) in
  TwistPlugin.raised (TwistPlugin.update g k an st en) = None /\
  TwistPlugin.updated (TwistPlugin.update g k an st en)
  = Some (fst (Twist.twist_mesh bb (TwistPlugin.getData ob)
                 (TwistPlugin.getData ob) Axis an st en)).
Proof.
  intros Hf Hbb Hk Hd Hse g.
  assert (Hget : TwistPlugin.get_selected selected TwistPlugin.initial
                 = TwistPlugin.mkEffect
                     (TwistPlugin.mkGlobals (TwistPlugin.getData ob)
                        (TwistPlugin.MeshData (TwistPlugin.getData ob))
                        (Some bb)
                        (String.append (TwistPlugin.getName ob) " selected"))
                     None None)
    by (now apply get_selected_loop_first).
  assert (H0 : holds_mesh ob
                 (TwistPlugin.after
                    (TwistPlugin.get_selected selected TwistPlugin.initial))).
  { rewrite Hget. cbn. split; [reflexivity|]. now eexists. }
  assert (Hg : holds_mesh ob g) by (now apply session_holds_mesh).
  assert (Hb : TwistPlugin.bounds g = Some bb).
  { unfold g. rewrite (session_keeps_bounds ob) by assumption.
    now rewrite Hget. }
  assert (Hax : is_axis Axis).
  { unfold TwistPlugin.axis in Hk.
    destruct (k =? TwistPlugin.AXIS_X); [injection Hk as <-; now left|].
    destruct (k =? TwistPlugin.AXIS_Y);
      [injection Hk as <-; right; now left|].
    destruct (k =? TwistPlugin.AXIS_Z);
      [injection Hk as <-; right; now right|discriminate]. }
  destruct Hg as (Hvl & cur & Hm & Hlen).
  unfold TwistPlugin.update. rewrite Hm, Hk, Hb, Hvl.
  rewrite (twist_mesh_map bb (TwistPlugin.getData ob) cur) by assumption.
  rewrite (twist_mesh_map bb (TwistPlugin.getData ob)
             (TwistPlugin.getData ob)) by auto.
  split; reflexivity.
Qed.

Lemma session_update_twists_baseline_witness :
  first_mesh
    [TwistPlugin.mkObject "Mesh" "Cube" [(0, 0, 0)%R; (1, 2, 3)%R]
       [(0, 0, 0)%R; (1, 2, 3)%R]]
  = Some (TwistPlugin.mkObject "Mesh" "Cube" [(0, 0, 0)%R; (1, 2, 3)%R]
            [(0, 0, 0)%R; (1, 2, 3)%R]) /\
  TwistPlugin.extents [(0, 0, 0)%R; (1, 2, 3)%R]
  = Ok (Twist.mkBoundBox (Rmin 0 1) (Rmax 0 1) (Rmin 0 2) (Rmax 0 2)
          (Rmin 0 3) (Rmax 0 3)) /\
  TwistPlugin.axis 2 = Some "y"%string /\
  axis_extent
    (Twist.mkBoundBox (Rmin 0 1) (Rmax 0 1) (Rmin 0 2) (Rmax 0 2)
       (Rmin 0 3) (Rmax 0 3)) "y" <> 0%R /\
  0%R <> 100%R /\
  let g := session [DoUpdate 1 45 50 50; DoLiveUpdate true 3 10 0 100]
             (TwistPlugin.after
                (TwistPlugin.get_selected
                   [TwistPlugin.mkObject "Mesh" "Cube"
                      [(0, 0, 0)%R; (1, 2, 3)%R] [(0, 0, 0)%R; (1, 2, 3)%R]]
                   TwistPlugin.initial)) in
  TwistPlugin.raised (TwistPlugin.update g 2 90 0 100) = None /\
  TwistPlugin.updated (TwistPlugin.update g 2 90 0 100)
  = Some (fst (Twist.twist_mesh
                 (Twist.mkBoundBox (Rmin 0 1) (Rmax 0 1) (Rmin 0 2)
                    (Rmax 0 2) (Rmin 0 3) (Rmax 0 3))
                 [(0, 0, 0)%R; (1, 2, 3)%R] [(0, 0, 0)%R; (1, 2, 3)%R]
                 "y" 90 0 100)).
Proof.
  assert (Hd : axis_extent
                 (Twist.mkBoundBox (Rmin 0 1) (Rmax 0 1) (Rmin 0 2)
                    (Rmax 0 2) (Rmin 0 3) (Rmax 0 3)) "y" <> 0%R).
  { axis_simpl. rewrite Rmin_left, Rmax_right by lra. lra. }
  assert (Hse : 0%R <> 100%R) by lra.
  split; [reflexivity|]. split; [reflexivity|]. split; [reflexivity|].
  split; [exact Hd|]. split; [exact Hse|].
  exact (session_update_twists_baseline
           [TwistPlugin.mkObject "Mesh" "Cube" [(0, 0, 0)%R; (1, 2, 3)%R]
              [(0, 0, 0)%R; (1, 2, 3)%R]]
           (TwistPlugin.mkObject "Mesh" "Cube" [(0, 0, 0)%R; (1, 2, 3)%R]
              [(0, 0, 0)%R; (1, 2, 3)%R])
           _ [DoUpdate 1 45 50 50; DoLiveUpdate true 3 10 0 100]
           2 "y"%string 90%R 0%R 100%R eq_refl eq_refl eq_refl Hd Hse).
Defined.

(** ** gui.py: the widgets *)

(** *** Number *)

Lemma IntNumber_bounds value lo hi :
  Gui.Number.min (Gui.IntNumber value lo hi)
    = Z.min (Gui.py_int lo) (Gui.py_int hi) /\
  Gui.Number.max (Gui.IntNumber value lo hi)
    = Z.max (Gui.py_int lo) (Gui.py_int hi).
Proof.
  unfold Gui.IntNumber, Gui.Number.__init__.
  destruct (Z.leb_spec (Gui.py_int lo) (Gui.py_int hi)); cbn; lia.
Qed.

Lemma FloatNumber_bounds value lo hi :
  Gui.Number.min (Gui.FloatNumber value lo hi)
    = Rmin (Gui.py_float lo) (Gui.py_float hi) /\
  Gui.Number.max (Gui.FloatNumber value lo hi)
    = Rmax (Gui.py_float lo) (Gui.py_float hi).
Proof.
  unfold Gui.FloatNumber, Gui.Number.__init__, Gui.Rleb, Rmin, Rmax.
  destruct (Rle_dec (Gui.py_float lo) (Gui.py_float hi)); cbn; auto.
Qed.

Lemma int_setvalue_spec w v w' :
  Gui.int_setvalue w v = Gui.Val w' ->
  exists n, v = Gui.PNum (Gui.NInt n) /\
    Gui.Number.min w' = Gui.Number.min w /\
    Gui.Number.max w' = Gui.Number.max w /\
    Gui.Number.value w'
      = Z.max (Z.min n (Gui.Number.max w)) (Gui.Number.min w).
Proof.
  unfold Gui.int_setvalue, Gui.Number._setvalue.
  destruct v as [[n|x]|b|s| |l]; cbn; try discriminate.
  intros H; injection H as <-. exists n; cbn.
  repeat split.
  unfold Gui.Number.builtin_max, Gui.Number.builtin_min.
  destruct (Z.ltb_spec (Gui.Number.max w) n);
    match goal with |- context [Z.ltb ?a ?b] =>
      destruct (Z.ltb_spec a b) end; lia.
Qed.

Lemma float_setvalue_spec w v w' :
  Gui.float_setvalue w v = Gui.Val w' ->
  exists x, v = Gui.PNum (Gui.NFloat x) /\
    Gui.Number.min w' = Gui.Number.min w /\
    Gui.Number.max w' = Gui.Number.max w /\
    Gui.Number.value w'
      = Rmax (Rmin x (Gui.Number.max w)) (Gui.Number.min w).
Proof.
  unfold Gui.float_setvalue, Gui.Number._setvalue.
  destruct v as [[n|x]|b|s| |l]; cbn; try discriminate.
  intros H; injection H as <-. exists x; cbn.
  repeat split.
  unfold Gui.Number.builtin_max, Gui.Number.builtin_min, Gui.Rltb, Rmax, Rmin.
  destruct (Rlt_dec (Gui.Number.max w) x), (Rle_dec x (Gui.Number.max w));
    try lra;
    match goal with |- context [Rlt_dec ?a ?b] =>
      destruct (Rlt_dec a b), (Rle_dec a b) end; lra.
Qed.

Lemma assign_all_int_bounds vals : forall w w',
  assign_all Gui.int_setvalue w vals = Gui.Val w' ->
  Gui.Number.min w' = Gui.Number.min w /\
  Gui.Number.max w' = Gui.Number.max w.
Proof.
  induction vals as [|v vals IH]; cbn; intros w w' H.
  - injection H as <-. auto.
  - destruct (Gui.int_setvalue w v) as [w1|e] eqn:E; [|discriminate].
    destruct (int_setvalue_spec _ _ _ E) as (n & _ & Hlo & Hhi & _).
    destruct (IH _ _ H) as [H1 H2]. split; congruence.
Qed.

Lemma assign_all_float_bounds vals : forall w w',
  assign_all Gui.float_setvalue w vals = Gui.Val w' ->
  Gui.Number.min w' = Gui.Number.min w /\
  Gui.Number.max w' = Gui.Number.max w.
Proof.
  induction vals as [|v vals IH]; cbn; intros w w' H.
  - injection H as <-. auto.
  - destruct (Gui.float_setvalue w v) as [w1|e] eqn:E; [|discriminate].
    destruct (float_setvalue_spec _ _ _ E) as (n & _ & Hlo & Hhi & _).
    destruct (IH _ _ H) as [H1 H2]. split; congruence.
Qed.

(** X18.  A number widget keeps the bounds it was built with, ordered
    even when [min] and [max] were passed the other way round; an
    assignment to [value], at any time, stores the assigned number clamped
    to these bounds, so a number within them is stored as it is, and after
    the assignment the value lies within them.  This holds for the widgets
    of integers and for the widgets of floats. *)
Theorem Number_assignment_clamps :
  (forall value lo hi vals w v w',
     assign_all Gui.int_setvalue (Gui.IntNumber value lo hi) vals
       = Gui.Val w ->
     Gui.int_setvalue w v = Gui.Val w' ->
     let lo' := Z.min (Gui.py_int lo) (Gui.py_int hi) in
     let hi' := Z.max (Gui.py_int lo) (Gui.py_int hi) in
     Gui.Number.min w' = lo' /\ Gui.Number.max w' = hi' /\
     lo' <= Gui.Number.value w' <= hi' /\
     exists n, v = Gui.PNum (Gui.NInt n) /\
       (lo' <= n <= hi' -> Gui.Number.value w' = n) /\
       (n < lo' -> Gui.Number.value w' = lo') /\
       (hi' < n -> Gui.Number.value w' = hi')) /\
  (forall value lo hi vals w v w',
     assign_all Gui.float_setvalue (Gui.FloatNumber value lo hi) vals
       = Gui.Val w ->
     Gui.float_setvalue w v = Gui.Val w' ->
     let lo' := Rmin (Gui.py_float lo) (Gui.py_float hi) in
     let hi' := Rmax (Gui.py_float lo) (Gui.py_float hi) in
     Gui.Number.min w' = lo' /\ Gui.Number.max w' = hi' /\
     (lo' <= Gui.Number.value w' <= hi')%R /\
     exists x, v = Gui.PNum (Gui.NFloat x) /\
       ((lo' <= x <= hi')%R -> Gui.Number.value w' = x) /\
       ((x < lo')%R -> Gui.Number.value w' = lo') /\
       ((hi' < x)%R -> Gui.Number.value w' = hi')).
Proof.
  split.
  - intros value lo hi vals w v w' Hw Hv lo' hi'.
    destruct (assign_all_int_bounds _ _ _ Hw) as [H1 H2].
    destruct (IntNumber_bounds value lo hi) as [B1 B2].
    destruct (int_setvalue_spec _ _ _ Hv) as (n & -> & Hlo & Hhi & Hval).
    rewrite Hlo, Hhi, Hval, H1, H2, B1, B2. fold lo' hi'.
    assert (lo' <= hi') by (unfold lo', hi'; lia).
    repeat split; try lia.
    exists n. repeat split; lia.
  - intros value lo hi vals w v w' Hw Hv lo' hi'.
    destruct (assign_all_float_bounds _ _ _ Hw) as [H1 H2].
    destruct (FloatNumber_bounds value lo hi) as [B1 B2].
    destruct (float_setvalue_spec _ _ _ Hv) as (x & -> & Hlo & Hhi & Hval).
    rewrite Hlo, Hhi, Hval, H1, H2, B1, B2. fold lo' hi'.
    assert (lo' <= hi')%R.
    { unfold lo', hi', Rmin, Rmax.
      destruct (Rle_dec (Gui.py_float lo) (Gui.py_float hi)); lra. }
    assert (Hc : forall y, ((lo' <= y <= hi' -> Rmax (Rmin y hi') lo' = y) /\
                     (y < lo' -> Rmax (Rmin y hi') lo' = lo') /\
                     (hi' < y -> Rmax (Rmin y hi') lo' = hi') /\
                     lo' <= Rmax (Rmin y hi') lo' <= hi')%R).
    { intros y. clearbody lo' hi'. unfold Rmax, Rmin.
      destruct (Rle_dec y hi');
        match goal with |- context [Rle_dec ?a ?b] =>
          destruct (Rle_dec a b) end; repeat split; intros; lra. }
    destruct (Hc x) as (C1 & C2 & C3 & C4 & C5).
    repeat split; auto.
    exists x. repeat split; auto.
Qed.

Lemma Number_assignment_clamps_witness :
  (exists w', Gui.int_setvalue
      (Gui.IntNumber (Gui.NInt 0) (Gui.NInt 1024) (Gui.NInt 3))
      (Gui.PNum (Gui.NInt 5000)) = Gui.Val w' /\
    Gui.Number.value w' = 1024) /\
  (exists w', Gui.float_setvalue
      (Gui.FloatNumber (Gui.NInt 0) (Gui.NInt 0) (Gui.NInt 360))
      (Gui.PNum (Gui.NFloat (-1))) = Gui.Val w' /\
    Gui.Number.value w' = 0%R).
Proof.
  split.
  - eexists. split; [reflexivity|].
    destruct (proj1 Number_assignment_clamps (Gui.NInt 0) (Gui.NInt 1024)
                (Gui.NInt 3) [] _ (Gui.PNum (Gui.NInt 5000)) _
                eq_refl eq_refl) as (_ & _ & _ & n & Hn & _ & _ & H).
    injection Hn as <-. apply H. cbn. lia.
  - destruct (Gui.float_setvalue
      (Gui.FloatNumber (Gui.NInt 0) (Gui.NInt 0) (Gui.NInt 360))
      (Gui.PNum (Gui.NFloat (-1)))) as [w'|e] eqn:E; [|discriminate E].
    exists w'. split; [reflexivity|].
    destruct (proj2 Number_assignment_clamps (Gui.NInt 0) (Gui.NInt 0)
                (Gui.NInt 360) [] _ (Gui.PNum (Gui.NFloat (-1))) _
                eq_refl E) as (_ & _ & _ & x & Hx & _ & H & _).
    injection Hx as <-. rewrite H.
    + cbn. unfold Rmin. destruct (Rle_dec 0 360); [reflexivity|lra].
    + cbn. unfold Rmin. destruct (Rle_dec 0 360); lra.
Defined.

(** *** MultipleSelect *)

Lemma parse_length options : forall value values titles,
  Gui.MultipleSelect.parse options value = Gui.Val (values, titles) ->
  length values = length options /\ length titles = length options.
Proof.
  induction options as [|o options IH]; cbn; intros value values titles H.
  - injection H as <- <-. auto.
  - destruct o as [x|b|s| |items]; try discriminate.
    + destruct (Gui.MultipleSelect.parse options (value + 1))
        as [[vs ts]|e] eqn:E; [|discriminate].
      injection H as <- <-. destruct (IH _ _ _ E). cbn. auto.
    + destruct items as [|[x|b|s| |l] [|[[n|y]|b'|s'| |l'] [|]]];
        try discriminate.
      destruct (Gui.MultipleSelect.parse options n)
        as [[vs ts]|e] eqn:E; [|discriminate].
      injection H as <- <-. destruct (IH _ _ _ E). cbn. auto.
Qed.

Lemma index_some lst value : forall i,
  Gui.MultipleSelect.index lst value = Some i ->
  0 <= i < Z.of_nat (length lst) /\
  exists x, nth_error lst (Z.to_nat i) = Some x /\
    Gui.eq_int value x = true.
Proof.
  induction lst as [|y lst IH]; cbn [Gui.MultipleSelect.index]; intros i H.
  - discriminate.
  - destruct (Gui.eq_int value y) eqn:E.
    + injection H as <-. cbn [length]. split; [lia|].
      exists y. auto.
    + destruct (Gui.MultipleSelect.index lst value) as [j|]; [|discriminate].
      injection H as <-. destruct (IH j eq_refl) as (Hj & x & Hx & Hv).
      cbn [length]. split; [lia|]. exists x. split; [|exact Hv].
      replace (Z.to_nat (j + 1)) with (S (Z.to_nat j)) by lia. exact Hx.
Qed.

Lemma index_none lst value :
  Gui.MultipleSelect.index lst value = None ->
  forall x, In x lst -> Gui.eq_int value x = false.
Proof.
  induction lst as [|y lst IH]; cbn [Gui.MultipleSelect.index In];
    intros H x Hx; [tauto|].
  destruct (Gui.eq_int value y) eqn:E; [discriminate|].
  destruct (Gui.MultipleSelect.index lst value); [discriminate|].
  destruct Hx as [<-|Hx]; auto.
Qed.

Lemma index_int lst k :
  In k lst ->
  exists i, Gui.MultipleSelect.index lst (Gui.PNum (Gui.NInt k)) = Some i /\
    nth_error lst (Z.to_nat i) = Some k.
Proof.
  intros Hk.
  destruct (Gui.MultipleSelect.index lst (Gui.PNum (Gui.NInt k)))
    as [i|] eqn:E.
  - exists i. split; [reflexivity|].
    destruct (index_some _ _ _ E) as (_ & x & Hx & Hv).
    cbn in Hv. apply Z.eqb_eq in Hv. congruence.
  - pose proof (index_none _ _ E k Hk) as Hv. cbn in Hv.
    rewrite Z.eqb_refl in Hv. discriminate.
Qed.

Lemma getitem_nth {A : Type} (lst : list A) (k : Z) :
  0 <= k < Z.of_nat (length lst) ->
  exists x, nth_error lst (Z.to_nat k) = Some x /\
    Gui.MultipleSelect.getitem lst k = Gui.Val x.
Proof.
  intros Hk. unfold Gui.MultipleSelect.getitem, py_index.
  replace (0 <=? k) with true by (symmetry; apply Z.leb_le; lia).
  replace (k <? Z.of_nat (length lst)) with true
    by (symmetry; apply Z.ltb_lt; lia).
  cbn [andb].
  destruct (nth_error lst (Z.to_nat k)) as [x|] eqn:E.
  - exists x. auto.
  - apply nth_error_None in E. lia.
Qed.

Lemma init_select_ok options default w :
  Gui.MultipleSelect.__init__ options default = Gui.Val w ->
  select_ok w.
Proof.
  unfold Gui.MultipleSelect.__init__.
  destruct (Gui.MultipleSelect.parse options (-1)) as [[vs ts]|e] eqn:E;
    [|discriminate].
  destruct (Z.eqb_spec (Z.of_nat (length vs)) 0) as [|Hn]; [discriminate|].
  intros H; injection H as <-.
  destruct (parse_length _ _ _ _ E) as [H1 H2].
  unfold select_ok, Gui.MultipleSelect.__setvalue.
  cbn [Gui.MultipleSelect.selected Gui.MultipleSelect.available_values
       Gui.MultipleSelect.titles].
  split; [|congruence].
  destruct (Gui.MultipleSelect.index vs default) as [i|] eqn:Ei.
  - apply (index_some _ _ _ Ei).
  - lia.
Qed.

Lemma select_keeps w op :
  select_ok w ->
  select_ok (select w op) /\
  Gui.MultipleSelect.available_values (select w op)
    = Gui.MultipleSelect.available_values w /\
  Gui.MultipleSelect.titles (select w op) = Gui.MultipleSelect.titles w.
Proof.
  intros [Hs Hl]. unfold select_ok.
  destruct op as [value|index|]; cbn [select].
  - unfold Gui.MultipleSelect.__setvalue.
    cbn [Gui.MultipleSelect.selected Gui.MultipleSelect.available_values
         Gui.MultipleSelect.titles].
    repeat split; auto.
    + destruct (Gui.MultipleSelect.index _ value) as [i|] eqn:Ei; [|lia].
      apply (index_some _ _ _ Ei).
    + destruct (Gui.MultipleSelect.index _ value) as [i|] eqn:Ei; [|lia].
      apply (index_some _ _ _ Ei).
  - unfold Gui.RadioButtons.event, Gui.MultipleSelect._setselected.
    destruct ((0 <=? index) && (index <? _)) eqn:E;
      cbn [Gui.MultipleSelect.selected Gui.MultipleSelect.available_values
           Gui.MultipleSelect.titles]; repeat split; auto; lia.
  - unfold Gui.MultipleToggle.event, Gui.MultipleSelect._setselected.
    destruct ((0 <=? _) && (_ <? _)) eqn:E;
      cbn [Gui.MultipleSelect.selected Gui.MultipleSelect.available_values
           Gui.MultipleSelect.titles]; repeat split; auto; lia.
Qed.

Lemma select_all_keeps ops : forall w,
  select_ok w ->
  select_ok (select_all w ops) /\
  Gui.MultipleSelect.available_values (select_all w ops)
    = Gui.MultipleSelect.available_values w /\
  Gui.MultipleSelect.titles (select_all w ops) = Gui.MultipleSelect.titles w.
Proof.
  unfold select_all.
  induction ops as [|op ops IH]; cbn [fold_left]; intros w Hw; [auto|].
  destruct (select_keeps w op Hw) as (H1 & H2 & H3).
  destruct (IH _ H1) as (H4 & H5 & H6).
  split; [exact H4|].
  split; [rewrite H5; exact H2 | rewrite H6; exact H3].
Qed.

Lemma select_ok_value w :
  select_ok w ->
  exists k value title,
    Gui.MultipleSelect.selected w = Z.of_nat k /\
    nth_error (Gui.MultipleSelect.available_values w) k = Some value /\
    nth_error (Gui.MultipleSelect.titles w) k = Some title /\
    Gui.MultipleSelect.__getvalue w = Gui.Val value /\
    Gui.MultipleSelect.__gettitle w = Gui.Val title.
Proof.
  intros [Hs Hl].
  destruct (getitem_nth (Gui.MultipleSelect.available_values w) _ Hs)
    as (value & Hv & Gv).
  assert (Hs' : 0 <= Gui.MultipleSelect.selected w
                  < Z.of_nat (length (Gui.MultipleSelect.titles w)))
    by (rewrite Hl; exact Hs).
  destruct (getitem_nth (Gui.MultipleSelect.titles w) _ Hs')
    as (title & Ht & Gt).
  exists (Z.to_nat (Gui.MultipleSelect.selected w)), value, title.
  repeat split; auto. lia.
Qed.

Lemma init_lengths options default w :
  Gui.MultipleSelect.__init__ options default = Gui.Val w ->
  length (Gui.MultipleSelect.available_values w) = length options /\
  length (Gui.MultipleSelect.titles w) = length options.
Proof.
  unfold Gui.MultipleSelect.__init__.
  destruct (Gui.MultipleSelect.parse options (-1)) as [[vs ts]|e] eqn:E;
    [|discriminate].
  destruct (Z.of_nat (length vs) =? 0); [discriminate|].
  intros H; injection H as <-. cbn. apply (parse_length _ _ _ _ E).
Qed.

(** X19.  A selection widget that was built always has a current option:
    whatever values are assigned to it and whatever button and toggle
    events reach it, its options stay as built, and reading [value] and
    [title] never raises but gives the value and the title of one and the
    same option of the list. *)
Theorem MultipleSelect_value_available options default w ops :
  Gui.MultipleSelect.__init__ options default = Gui.Val w ->
  let w' := select_all w ops in
  Gui.MultipleSelect.available_values w'
    = Gui.MultipleSelect.available_values w /\
  Gui.MultipleSelect.titles w' = Gui.MultipleSelect.titles w /\
  length (Gui.MultipleSelect.available_values w) = length options /\
  length (Gui.MultipleSelect.titles w) = length options /\
  exists k value title,
    Gui.MultipleSelect.selected w' = Z.of_nat k /\
    nth_error (Gui.MultipleSelect.available_values w) k = Some value /\
    nth_error (Gui.MultipleSelect.titles w) k = Some title /\
    Gui.MultipleSelect.__getvalue w' = Gui.Val value /\
    Gui.MultipleSelect.__gettitle w' = Gui.Val title.
Proof.
  intros Hw w'.
  pose proof (init_select_ok _ _ _ Hw) as Hok.
  destruct (select_all_keeps ops w Hok) as (Hok' & Hv & Ht).
  fold w' in Hok', Hv, Ht.
  split; [exact Hv|]. split; [exact Ht|].
  destruct (init_lengths _ _ _ Hw) as [L1 L2]. split; [exact L1|]. split; [exact L2|].
  destruct (select_ok_value w' Hok') as (k & value & title & H).
  exists k, value, title. rewrite <- Hv, <- Ht. exact H.
Qed.

Lemma MultipleSelect_value_available_witness :
  exists w,
    Gui.MultipleSelect.__init__
      [Gui.PTuple [Gui.PStr "xz"; Gui.PNum (Gui.NInt 1)];
       Gui.PTuple [Gui.PStr "xy"; Gui.PNum (Gui.NInt 2)];
       Gui.PTuple [Gui.PStr "yz"; Gui.PNum (Gui.NInt 4)]]
      (Gui.PNum (Gui.NInt 1)) = Gui.Val w /\
    Gui.MultipleSelect.available_values
      (select_all w [ButtonEvent 7; ToggleEvent; SetValue Gui.PNone])
      = Gui.MultipleSelect.available_values w.
Proof.
  eexists. split; [reflexivity|].
  apply (MultipleSelect_value_available
           [Gui.PTuple [Gui.PStr "xz"; Gui.PNum (Gui.NInt 1)];
            Gui.PTuple [Gui.PStr "xy"; Gui.PNum (Gui.NInt 2)];
            Gui.PTuple [Gui.PStr "yz"; Gui.PNum (Gui.NInt 4)]]
           (Gui.PNum (Gui.NInt 1)) _
           [ButtonEvent 7; ToggleEvent; SetValue Gui.PNone] eq_refl).
Defined.

Lemma init_from_first options default w :
  Gui.MultipleSelect.__init__ options default = Gui.Val w ->
  exists w0, select_ok w0 /\ w = Gui.MultipleSelect.__setvalue w0 default.
Proof.
  unfold Gui.MultipleSelect.__init__.
  destruct (Gui.MultipleSelect.parse options (-1)) as [[vs ts]|e] eqn:E;
    [|discriminate].
  destruct (Z.eqb_spec (Z.of_nat (length vs)) 0) as [|Hn]; [discriminate|].
  intros H; injection H as <-.
  exists (Gui.MultipleSelect.mk vs ts 0). split; [|reflexivity].
  destruct (parse_length _ _ _ _ E) as [H1 H2].
  split; cbn; [lia|congruence].
Qed.

Lemma setvalue_known w k :
  select_ok w ->
  In k (Gui.MultipleSelect.available_values w) ->
  Gui.MultipleSelect.__getvalue
    (Gui.MultipleSelect.__setvalue w (Gui.PNum (Gui.NInt k))) = Gui.Val k.
Proof.
  intros Hok Hk.
  destruct (index_int _ _ Hk) as (i & Hi & Hn).
  destruct (index_some _ _ _ Hi) as (Hr & _).
  unfold Gui.MultipleSelect.__setvalue, Gui.MultipleSelect.__getvalue.
  rewrite Hi.
  cbn [Gui.MultipleSelect.selected Gui.MultipleSelect.available_values].
  destruct (getitem_nth _ _ Hr) as (x & Hx & ->). congruence.
Qed.

Lemma setvalue_unknown w value :
  select_ok w ->
  (forall x, In x (Gui.MultipleSelect.available_values w) ->
             Gui.eq_int value x = false) ->
  exists first,
    nth_error (Gui.MultipleSelect.available_values w) 0 = Some first /\
    Gui.MultipleSelect.__getvalue (Gui.MultipleSelect.__setvalue w value)
      = Gui.Val first.
Proof.
  intros [Hs _] Hv.
  unfold Gui.MultipleSelect.__setvalue, Gui.MultipleSelect.__getvalue.
  destruct (Gui.MultipleSelect.index _ value) as [i|] eqn:Ei.
  - destruct (index_some _ _ _ Ei) as (_ & x & Hx & He).
    apply nth_error_In in Hx. rewrite (Hv x Hx) in He. discriminate.
  - cbn [Gui.MultipleSelect.selected Gui.MultipleSelect.available_values].
    assert (Hr : 0 <= 0 < Z.of_nat
                   (length (Gui.MultipleSelect.available_values w))) by lia.
    destruct (getitem_nth _ _ Hr) as (x & Hx & ->). exists x. auto.
Qed.

(** X20.  Assigning to [value] one of the values of the options selects
    it, so that it is read back; assigning anything that equals none of
    them selects the first option.  The same holds for the [default] the
    widget is built with. *)
Theorem MultipleSelect_assignment options default w ops :
  Gui.MultipleSelect.__init__ options default = Gui.Val w ->
  let values := Gui.MultipleSelect.available_values w in
  let unknown value := forall x, In x values -> Gui.eq_int value x = false in
  let w' := select_all w ops in
  (forall k, In k values ->
     Gui.MultipleSelect.__getvalue
       (Gui.MultipleSelect.__setvalue w' (Gui.PNum (Gui.NInt k)))
       = Gui.Val k) /\
  (forall value, unknown value ->
     exists first, nth_error values 0 = Some first /\
       Gui.MultipleSelect.__getvalue
         (Gui.MultipleSelect.__setvalue w' value) = Gui.Val first) /\
  (forall k, default = Gui.PNum (Gui.NInt k) -> In k values ->
     Gui.MultipleSelect.__getvalue w = Gui.Val k) /\
  (unknown default ->
     exists first, nth_error values 0 = Some first /\
       Gui.MultipleSelect.__getvalue w = Gui.Val first).
Proof.
  intros Hw values unknown w'.
  pose proof (init_select_ok _ _ _ Hw) as Hok.
  destruct (select_all_keeps ops w Hok) as (Hok' & Hv & _).
  fold w' in Hok', Hv.
  destruct (init_from_first _ _ _ Hw) as (w0 & Hok0 & Hw0).
  assert (Hv0 : Gui.MultipleSelect.available_values w0 = values)
    by (unfold values; rewrite Hw0; reflexivity).
  repeat split.
  - intros k Hk. apply setvalue_known; [exact Hok'|].
    rewrite Hv. exact Hk.
  - intros value Hu. unfold values. rewrite <- Hv.
    apply setvalue_unknown; [exact Hok'|]. rewrite Hv. exact Hu.
  - intros k -> Hk. rewrite Hw0. apply setvalue_known; [exact Hok0|].
    rewrite Hv0. exact Hk.
  - intros Hu. rewrite Hw0. rewrite <- Hv0.
    apply setvalue_unknown; [exact Hok0|]. rewrite Hv0. exact Hu.
Qed.

Lemma MultipleSelect_assignment_witness :
  exists w,
    Gui.MultipleSelect.__init__
      [Gui.PTuple [Gui.PStr "World center"; Gui.PNum (Gui.NInt 256)];
       Gui.PTuple [Gui.PStr "3D cursor"; Gui.PNum (Gui.NInt 512)]]
      (Gui.PNum (Gui.NInt 0)) = Gui.Val w /\
    Gui.MultipleSelect.__getvalue w = Gui.Val 256 /\
    Gui.MultipleSelect.__getvalue
      (Gui.MultipleSelect.__setvalue (select_all w [ToggleEvent])
         (Gui.PNum (Gui.NInt 512))) = Gui.Val 512.
Proof.
  eexists. split; [reflexivity|].
  destruct (MultipleSelect_assignment
      [Gui.PTuple [Gui.PStr "World center"; Gui.PNum (Gui.NInt 256)];
       Gui.PTuple [Gui.PStr "3D cursor"; Gui.PNum (Gui.NInt 512)]]
      (Gui.PNum (Gui.NInt 0)) _ [ToggleEvent] eq_refl)
    as (H1 & _ & _ & H4).
  split.
  - destruct H4 as (first & Hf & Hg).
    + intros x [<-|[<-|[]]]; reflexivity.
    + injection Hf as <-. exact Hg.
  - apply H1. cbn. auto.
Defined.

Lemma toggle_event_selected w :
  select_ok w ->
  let n := Z.of_nat (length (Gui.MultipleSelect.available_values w)) in
  select_ok (Gui.MultipleToggle.event w) /\
  Gui.MultipleSelect.available_values (Gui.MultipleToggle.event w)
    = Gui.MultipleSelect.available_values w /\
  Gui.MultipleSelect.selected (Gui.MultipleToggle.event w)
    = (Gui.MultipleSelect.selected w + 1) mod n.
Proof.
  intros Hok n.
  destruct (select_keeps w ToggleEvent Hok) as (H1 & H2 & _).
  cbn [select] in H1, H2. split; [exact H1|]. split; [exact H2|].
  destruct Hok as [Hs _]. fold n in Hs.
  unfold Gui.MultipleToggle.event, Gui.MultipleSelect._setselected.
  fold n.
  destruct (Z.ltb_spec (Gui.MultipleSelect.selected w + 1) n) as [Hlt|Hge].
  - replace (0 <=? Gui.MultipleSelect.selected w + 1) with true
      by (symmetry; apply Z.leb_le; lia).
    cbn [andb Gui.MultipleSelect.selected].
    rewrite Z.mod_small by lia. reflexivity.
  - rewrite andb_false_r. cbn [Gui.MultipleSelect.selected].
    replace (Gui.MultipleSelect.selected w + 1) with n by lia.
    rewrite Z.mod_same by lia. reflexivity.
Qed.

Lemma toggle_iter w k :
  select_ok w ->
  let n := Z.of_nat (length (Gui.MultipleSelect.available_values w)) in
  select_ok (Nat.iter k Gui.MultipleToggle.event w) /\
  Gui.MultipleSelect.available_values (Nat.iter k Gui.MultipleToggle.event w)
    = Gui.MultipleSelect.available_values w /\
  Gui.MultipleSelect.selected (Nat.iter k Gui.MultipleToggle.event w)
    = (Gui.MultipleSelect.selected w + Z.of_nat k) mod n.
Proof.
  intros Hok n. induction k as [|k (IH1 & IH2 & IH3)].
  - cbn [Nat.iter nat_rect]. split; [exact Hok|]. split; [reflexivity|].
    change (Z.of_nat 0) with 0.
    rewrite Z.add_0_r, Z.mod_small; [reflexivity|]. apply Hok.
  - rewrite Nat.iter_succ.
    destruct (toggle_event_selected _ IH1) as (H1 & H2 & H3).
    split; [exact H1|]. split; [congruence|].
    rewrite H3, IH2, IH3. fold n.
    rewrite Z.add_mod_idemp_l by (destruct Hok; lia).
    f_equal. lia.
Qed.

(** X21.  The events of a [MultipleToggle] step through the options in
    their order and start again at the first after the last: [k] events
    move the selection from position [s] to position [(s + k) mod n],
    where [n] is the number of options, so [n] events bring the widget
    back to the option it showed. *)
Theorem MultipleToggle_cycles options default w ops k :
  Gui.MultipleSelect.__init__ options default = Gui.Val w ->
  let w' := select_all w ops in
  let n := Z.of_nat (length options) in
  Gui.MultipleSelect.selected (Nat.iter k Gui.MultipleToggle.event w')
    = (Gui.MultipleSelect.selected w' + Z.of_nat k) mod n /\
  Nat.iter (length options) Gui.MultipleToggle.event w' = w'.
Proof.
  intros Hw w' n.
  pose proof (init_select_ok _ _ _ Hw) as Hok.
  destruct (select_all_keeps ops w Hok) as (Hok' & Hv & Ht).
  fold w' in Hok', Hv, Ht.
  destruct (init_lengths _ _ _ Hw) as [L1 _].
  assert (Hn : Z.of_nat (length (Gui.MultipleSelect.available_values w'))
               = n) by (rewrite Hv, L1; reflexivity).
  split.
  - destruct (toggle_iter w' k Hok') as (_ & _ & H). rewrite H, Hn.
    reflexivity.
  - destruct (toggle_iter w' (length options) Hok') as (_ & H2 & H3).
    assert (Ht' : Gui.MultipleSelect.titles
                    (Nat.iter (length options) Gui.MultipleToggle.event w')
                  = Gui.MultipleSelect.titles w').
    { clear. induction (length options) as [|m IH]; [reflexivity|].
      rewrite Nat.iter_succ, <- IH.
      unfold Gui.MultipleToggle.event at 1, Gui.MultipleSelect._setselected.
      destruct (_ && _); reflexivity. }
    rewrite Hn in H3. fold n in H3.
    destruct Hok' as [Hs _]. rewrite Hn in Hs.
    rewrite <- (Z.mul_1_l n) in H3 at 1.
    rewrite Z.mod_add in H3 by lia.
    rewrite Z.mod_small in H3 by lia.
    destruct (Nat.iter (length options) Gui.MultipleToggle.event w'),  w'.
    cbn in *. congruence.
Qed.

Lemma MultipleToggle_cycles_witness :
  exists w,
    Gui.MultipleSelect.__init__ [Gui.PStr "X"; Gui.PStr "Y"; Gui.PStr "Z"]
      (Gui.PNum (Gui.NInt 1)) = Gui.Val w /\
    Gui.MultipleSelect.selected (Nat.iter 5 Gui.MultipleToggle.event w)
      = (1 + 5) mod 3.
Proof.
  eexists. split; [reflexivity|].
  apply (MultipleToggle_cycles [Gui.PStr "X"; Gui.PStr "Y"; Gui.PStr "Z"]
           (Gui.PNum (Gui.NInt 1)) _ [] 5%nat eq_refl).
Defined.

Lemma parse_cons o options value values titles :
  Gui.MultipleSelect.parse (o :: options) value = Gui.Val (values, titles) ->
  exists value0 title vs ts,
    values = value0 :: vs /\ titles = title :: ts /\
    Gui.MultipleSelect.parse options value0 = Gui.Val (vs, ts) /\
    ((o = Gui.PStr title /\ value0 = value + 1) \/
     o = Gui.PTuple [Gui.PStr title; Gui.PNum (Gui.NInt value0)]).
Proof.
  cbn [Gui.MultipleSelect.parse]. intros H.
  destruct o as [x|b|s| |items]; try discriminate.
  - destruct (Gui.MultipleSelect.parse options (value + 1))
      as [[vs ts]|e] eqn:E; [|discriminate].
    injection H as <- <-. exists (value + 1), s, vs, ts.
    repeat split; auto.
  - destruct items as [|[x|b|s| |l] [|[[n|y]|b'|s'| |l'] [|]]];
      try discriminate.
    destruct (Gui.MultipleSelect.parse options n)
      as [[vs ts]|e] eqn:E; [|discriminate].
    injection H as <- <-. exists n, s, vs, ts.
    repeat split; auto.
Qed.

Lemma parse_option options : forall value values titles k o,
  Gui.MultipleSelect.parse options value = Gui.Val (values, titles) ->
  nth_error options k = Some o ->
  exists title x,
    nth_error titles k = Some title /\ nth_error values k = Some x /\
    ((o = Gui.PStr title /\
      x = match k with O => value | S j => nth j values 0 end + 1) \/
     o = Gui.PTuple [Gui.PStr title; Gui.PNum (Gui.NInt x)]).
Proof.
  induction options as [|o' options IH]; intros value values titles k o H Hk.
  - destruct k; discriminate.
  - destruct (parse_cons _ _ _ _ _ H)
      as (value0 & title & vs & ts & -> & -> & Hrest & Ho).
    destruct k as [|k].
    + injection Hk as <-. exists title, value0. cbn [nth_error].
      split; [reflexivity|]. split; [reflexivity|].
      destruct Ho as [[-> ->]| ->]; auto.
    + cbn [nth_error] in Hk.
      destruct (IH _ _ _ _ _ Hrest Hk) as (t & x & Ht & Hx & Hform).
      exists t, x. cbn [nth_error].
      split; [exact Ht|]. split; [exact Hx|].
      destruct Hform as [[-> ->]| ->]; [left|right; reflexivity].
      split; [reflexivity|]. destruct k; reflexivity.
Qed.


(** X22.  The options of a selection widget are strings and pairs of a
    string and an integer, at least one; a pair gives the title and the
    value of its option, a string gives the title and takes as value the
    value of the option before it plus one, or 0 when it is the first. *)
Theorem MultipleSelect_option_values options default w :
  Gui.MultipleSelect.__init__ options default = Gui.Val w ->
  let values := Gui.MultipleSelect.available_values w in
  let titles := Gui.MultipleSelect.titles w in
  options <> [] /\
  (forall k o, nth_error options k = Some o ->
     (exists title, o = Gui.PStr title) \/
     (exists title value,
        o = Gui.PTuple [Gui.PStr title; Gui.PNum (Gui.NInt value)])) /\
  (forall k title value,
     nth_error options k
       = Some (Gui.PTuple [Gui.PStr title; Gui.PNum (Gui.NInt value)]) ->
     nth_error titles k = Some title /\ nth_error values k = Some value) /\
  (forall k title,
     nth_error options k = Some (Gui.PStr title) ->
     nth_error titles k = Some title /\
     nth_error values k
       = Some (match k with O => 0 | S j => nth j values 0 + 1 end)).
Proof.
  intros Hw values titles.
  assert (Hp : Gui.MultipleSelect.parse options (-1)
               = Gui.Val (values, titles) /\ values <> []).
  { revert Hw. unfold Gui.MultipleSelect.__init__.
    destruct (Gui.MultipleSelect.parse options (-1)) as [[vs ts]|e] eqn:E;
      [|discriminate].
    destruct vs as [|v0 vs]; [discriminate|].
    cbn [length]. destruct (Z.eqb_spec (Z.of_nat (S (length vs))) 0);
      [discriminate|].
    intros H; injection H as <-. split; [reflexivity|discriminate]. }
  destruct Hp as [Hp Hne].
  split; [|split; [|split]].
  - intros ->. cbn in Hp. injection Hp as Hv _. congruence.
  - intros k o Hk.
    destruct (parse_option _ _ _ _ _ _ Hp Hk) as (t & x & _ & _ & [[-> _]| ->]);
      eauto.
  - intros k title value Hk.
    destruct (parse_option _ _ _ _ _ _ Hp Hk) as (t & x & Ht & Hx & [[Ho _]|Ho]);
      [discriminate|].
    injection Ho as -> ->. auto.
  - intros k title Hk.
    destruct (parse_option _ _ _ _ _ _ Hp Hk) as (t & x & Ht & Hx & [[Ho ->]|Ho]);
      [|discriminate].
    injection Ho as ->. split; [exact Ht|]. rewrite Hx.
    destruct k; reflexivity.
Qed.

Lemma MultipleSelect_option_values_witness :
  exists w,
    Gui.MultipleSelect.__init__
      [Gui.PTuple [Gui.PStr "A"; Gui.PNum (Gui.NInt 100)];
       Gui.PStr "A1"; Gui.PStr "A2";
       Gui.PTuple [Gui.PStr "B"; Gui.PNum (Gui.NInt 200)]; Gui.PStr "B0"]
      (Gui.PNum (Gui.NInt 0)) = Gui.Val w /\
    nth_error (Gui.MultipleSelect.available_values w) 3 = Some 200.
Proof.
  eexists. split; [reflexivity|].
  apply (MultipleSelect_option_values
      [Gui.PTuple [Gui.PStr "A"; Gui.PNum (Gui.NInt 100)];
       Gui.PStr "A1"; Gui.PStr "A2";
       Gui.PTuple [Gui.PStr "B"; Gui.PNum (Gui.NInt 200)]; Gui.PStr "B0"]
      (Gui.PNum (Gui.NInt 0)) _ eq_refl) with (title := "B"%string).
  reflexivity.
Defined.



(** *** The cylinder plugin: from the widgets to the mesh *)

Lemma int_within_event lo hi w v w' :
  lo <= hi -> int_within lo hi w ->
  Gui.Number.event Z Z.ltb Gui.typed_int w v = Gui.Val w' ->
  int_within lo hi w'.
Proof.
  intros Hle (H1 & H2 & H3) Hv.
  destruct (int_setvalue_spec w v w' Hv) as (n & _ & Hlo & Hhi & Hval).
  unfold int_within. rewrite Hlo, Hhi, Hval, H1, H2. lia.
Qed.

Lemma float_within_event lo hi w v w' :
  (lo <= hi)%R -> float_within lo hi w ->
  Gui.Number.event R Gui.Rltb Gui.typed_float w v = Gui.Val w' ->
  float_within lo hi w'.
Proof.
  intros Hle (H1 & H2 & H3) Hv.
  destruct (float_setvalue_spec w v w' Hv) as (x & _ & Hlo & Hhi & Hval).
  unfold float_within. rewrite Hlo, Hhi, Hval, H1, H2.
  split; [reflexivity|]. split; [reflexivity|].
  unfold Rmax, Rmin.
  destruct (Rle_dec x hi);
    match goal with |- context [Rle_dec ?a ?b] =>
      destruct (Rle_dec a b) end; lra.
Qed.

Lemma IntNumber_within value lo hi :
  lo <= value <= hi ->
  int_within lo hi
    (Gui.IntNumber (Gui.NInt value) (Gui.NInt lo) (Gui.NInt hi)).
Proof.
  intros H. unfold int_within, Gui.IntNumber, Gui.Number.__init__.
  cbn [Gui.py_int].
  destruct (Z.leb_spec lo hi); cbn; lia.
Qed.

Lemma FloatNumber_within value lo hi :
  (lo <= value <= hi)%R ->
  float_within lo hi
    (Gui.FloatNumber (Gui.NFloat value) (Gui.NFloat lo) (Gui.NFloat hi)).
Proof.
  intros H. unfold float_within, Gui.FloatNumber, Gui.Number.__init__, Gui.Rleb.
  cbn [Gui.py_float].
  destruct (Rle_dec lo hi); cbn; [auto|lra].
Qed.

Lemma selects_among_select values w op :
  selects_among values w -> selects_among values (select w op).
Proof.
  intros [Hok Hv]. destruct (select_keeps w op Hok) as (H1 & H2 & _).
  split; [exact H1|congruence].
Qed.

Lemma selects_among_value values w :
  selects_among values w ->
  exists value, Gui.MultipleSelect.__getvalue w = Gui.Val value /\
    In value values.
Proof.
  intros [Hok <-].
  destruct (select_ok_value w Hok) as (k & value & _ & _ & Hn & _ & Hv & _).
  exists value. split; [exact Hv|]. apply (nth_error_In _ _ Hn).
Qed.

Lemma make_widgets_ok :
  exists w, CylPlugin.make_widgets = Gui.Val w /\ cyl_widgets_ok w.
Proof.
  eexists. split; [reflexivity|].
  unfold cyl_widgets_ok.
  cbn [CylPlugin.Radius CylPlugin.Height CylPlugin.CapDivisions
       CylPlugin.OuterDivisions CylPlugin.Segments CylPlugin.Origin
       CylPlugin.Orientation].
  split; [apply FloatNumber_within; lra|].
  split; [apply FloatNumber_within; lra|].
  split; [apply IntNumber_within; lia|].
  split; [apply IntNumber_within; lia|].
  split; [apply IntNumber_within; lia|].
  split; (split; [split; cbn; [lia|reflexivity] | reflexivity]).
Qed.

Lemma cyl_handle_ok w ev w' :
  cyl_widgets_ok w -> cyl_handle w ev = Gui.Val w' -> cyl_widgets_ok w'.
Proof.
  destruct w as [Ra He Ca Ou Se Or On Sm].
  intros (HR & HH & HC & HO & HS & HOr & HOn).
  cbn [CylPlugin.Radius CylPlugin.Height CylPlugin.CapDivisions
       CylPlugin.OuterDivisions CylPlugin.Segments CylPlugin.Origin
       CylPlugin.Orientation] in *.
  assert (Hf : (1 / 10000 <= 100000000)%R) by lra.
  assert (Hi1 : 1 <= 256) by lia.
  assert (Hi3 : 3 <= 1024) by lia.
  unfold cyl_widgets_ok.
  destruct ev as [val|val|val|val|val| |index| ]; cbn [cyl_handle].
  - destruct (Gui.Number.event R Gui.Rltb Gui.typed_float Ra val)
      as [x|e] eqn:E; [|discriminate].
    intros H; injection H as <-.
    exact (conj (float_within_event _ _ _ _ _ Hf HR E)
             (conj HH (conj HC (conj HO (conj HS (conj HOr HOn)))))).
  - destruct (Gui.Number.event R Gui.Rltb Gui.typed_float He val)
      as [x|e] eqn:E; [|discriminate].
    intros H; injection H as <-.
    exact (conj HR (conj (float_within_event _ _ _ _ _ Hf HH E)
             (conj HC (conj HO (conj HS (conj HOr HOn)))))).
  - destruct (Gui.Number.event Z Z.ltb Gui.typed_int Ca val)
      as [x|e] eqn:E; [|discriminate].
    intros H; injection H as <-.
    exact (conj HR (conj HH (conj (int_within_event _ _ _ _ _ Hi1 HC E)
             (conj HO (conj HS (conj HOr HOn)))))).
  - destruct (Gui.Number.event Z Z.ltb Gui.typed_int Ou val)
      as [x|e] eqn:E; [|discriminate].
    intros H; injection H as <-.
    exact (conj HR (conj HH (conj HC
             (conj (int_within_event _ _ _ _ _ Hi1 HO E)
                (conj HS (conj HOr HOn)))))).
  - destruct (Gui.Number.event Z Z.ltb Gui.typed_int Se val)
      as [x|e] eqn:E; [|discriminate].
    intros H; injection H as <-.
    exact (conj HR (conj HH (conj HC (conj HO
             (conj (int_within_event _ _ _ _ _ Hi3 HS E)
                (conj HOr HOn)))))).
  - intros H; injection H as <-.
    exact (conj HR (conj HH (conj HC (conj HO (conj HS
             (conj (selects_among_select _ _ ToggleEvent HOr) HOn)))))).
  - intros H; injection H as <-.
    exact (conj HR (conj HH (conj HC (conj HO (conj HS
             (conj HOr
                (selects_among_select _ _ (ButtonEvent index) HOn))))))).
  - intros H; injection H as <-.
    exact (conj HR (conj HH (conj HC (conj HO (conj HS (conj HOr HOn)))))).
Qed.

Lemma cyl_run_ok evs : forall w w',
  cyl_widgets_ok w -> cyl_run w evs = Gui.Val w' -> cyl_widgets_ok w'.
Proof.
  induction evs as [|ev evs IH]; cbn [cyl_run]; intros w w' Hok H.
  - injection H as <-. exact Hok.
  - destruct (cyl_handle w ev) as [w1|e] eqn:E; [|discriminate].
    apply (IH w1 w' (cyl_handle_ok _ _ _ Hok E) H).
Qed.

(** X24.  Whatever events reach the widgets of the cylinder plugin, the
    values they hold stay within the bounds the plugin declares, and with
    them [create] never raises: it builds the cylinder of these values,
    with [S * (2 * C + O) + 2] vertices, places it at the cursor exactly
    when the origin toggle shows the cursor, and turns it by a quarter
    turn about y for the orientation xy, about x for yz, and not at all
    for xz. *)
Theorem Cylinder_create_from_widgets evs w cursor :
  cyl_session evs = Gui.Val w ->
  let S := Gui.Number.value (CylPlugin.Segments w) in
  let O := Gui.Number.value (CylPlugin.OuterDivisions w) in
  let C := Gui.Number.value (CylPlugin.CapDivisions w) in
  let Radius := Gui.Number.value (CylPlugin.Radius w) in
  let Height := Gui.Number.value (CylPlugin.Height w) in
  3 <= S <= 1024 /\ 1 <= O <= 256 /\ 1 <= C <= 256 /\
  (1 / 10000 <= Radius <= 100000000)%R /\
  (1 / 10000 <= Height <= 100000000)%R /\
  exists p origin orientation,
    CylPlugin.create w cursor = Gui.Val p /\
    Cyl.Cylinder Radius Height S O C (CylPlugin.Smooth w)
      = Ok (CylPlugin.data p) /\
    nverts (CylPlugin.data p) = S * (2 * C + O) + 2 /\
    nfaces (CylPlugin.data p) = S * (2 * C + O - 1) + 2 * S /\
    Gui.MultipleSelect.__getvalue (CylPlugin.Origin w) = Gui.Val origin /\
    Gui.MultipleSelect.__getvalue (CylPlugin.Orientation w)
      = Gui.Val orientation /\
    (origin = CylPlugin.CURSOR /\ CylPlugin.setLocation p = Some cursor \/
     origin = CylPlugin.CENTER /\ CylPlugin.setLocation p = None) /\
    (orientation = CylPlugin.XZ /\
       CylPlugin.RotX p = None /\ CylPlugin.RotY p = None \/
     orientation = CylPlugin.XY /\
       CylPlugin.RotX p = None /\ CylPlugin.RotY p = Some (PI / 2)%R \/
     orientation = CylPlugin.YZ /\
       CylPlugin.RotX p = Some (PI / 2)%R /\ CylPlugin.RotY p = None).
Proof.
  unfold cyl_session.
  destruct make_widgets_ok as (w0 & -> & Hok0).
  intros Hrun.
  set (nS := Gui.Number.value (CylPlugin.Segments w)).
  set (nO := Gui.Number.value (CylPlugin.OuterDivisions w)).
  set (nC := Gui.Number.value (CylPlugin.CapDivisions w)).
  set (Radius := Gui.Number.value (CylPlugin.Radius w)).
  set (Height := Gui.Number.value (CylPlugin.Height w)).
  destruct (cyl_run_ok _ _ _ Hok0 Hrun)
    as (HR & HH & HC & HO & HS & HOr & HOn).
  destruct HR as (_ & _ & HR), HH as (_ & _ & HH), HC as (_ & _ & HC),
    HO as (_ & _ & HO), HS as (_ & _ & HS).
  fold nS in HS. fold nO in HO. fold nC in HC. fold Radius in HR.
  fold Height in HH.
  split; [exact HS|]. split; [exact HO|]. split; [exact HC|].
  split; [exact HR|]. split; [exact HH|].
  destruct (Cylinder_shape Radius Height nS nO nC (CylPlugin.Smooth w))
    as (poly & Hc & Hnv & _ & _ & Hnf); try lia.
  destruct (selects_among_value _ _ HOr) as (origin & Ho & Hoin).
  destruct (selects_among_value _ _ HOn) as (orientation & Hn & Hnin).
  unfold CylPlugin.create. fold nS nO nC Radius Height.
  rewrite Hc, Ho, Hn.
  destruct Hoin as [<-|[<-|[]]];
    destruct Hnin as [<-|[<-|[<-|[]]]]; cbn;
    do 3 eexists;
    (split; [reflexivity|]); cbn;
    (split; [reflexivity|]); (split; [exact Hnv|]); (split; [exact Hnf|]);
    (split; [reflexivity|]); (split; [reflexivity|]); split; auto 6.
Qed.

Lemma Cylinder_create_from_widgets_witness :
  exists w,
    cyl_session [SegmentsEvent (Gui.PNum (Gui.NInt 0)); OriginEvent;
                 OrientationEvent 2] = Gui.Val w /\
    3 <= Gui.Number.value (CylPlugin.Segments w) <= 1024.
Proof.
  destruct (cyl_session [SegmentsEvent (Gui.PNum (Gui.NInt 0)); OriginEvent;
                         OrientationEvent 2]) as [w|e] eqn:E.
  - exists w. split; [reflexivity|].
    apply (Cylinder_create_from_widgets _ w (0, 0, 0)%R E).
  - discriminate E.
Defined.

(** *** The twist plugin: from the widgets to the deformer *)

Lemma enumerate_update_exn upd vertex_list mesh_verts : forall index e,
  snd (Twist.enumerate_update upd vertex_list index mesh_verts) = Some e ->
  e = IndexError \/ exists p, upd p = Raise e.
Proof.
  induction mesh_verts as [|v0 rest IH]; cbn [Twist.enumerate_update];
    intros index e H.
  - discriminate.
  - destruct (nth_error vertex_list index) as [p|].
    + destruct (upd p) as [p'|e'] eqn:E.
      * specialize (IH (S index) e).
        destruct (Twist.enumerate_update upd vertex_list (S index) rest)
          as [rest' r]. cbn in H, IH. auto.
      * cbn in H. injection H as <-. right. eauto.
    + cbn in H. injection H as <-. auto.
Qed.

Lemma twist_mesh_exn bb vertex_list mesh_verts Axis Angle StartFrom EndAt e :
  snd (Twist.twist_mesh bb vertex_list mesh_verts Axis Angle StartFrom EndAt)
    = Twist.Raised e ->
  e = IndexError \/ e = ZeroDivisionError.
Proof.
  unfold Twist.twist_mesh.
  destruct (String.eqb Axis "x");
    [|destruct (String.eqb Axis "y"); [|destruct (String.eqb Axis "z")]];
    try (cbn; discriminate);
    rewrite finish_snd;
    match goal with |- context [Twist.enumerate_update ?u ?l ?i ?m] =>
      pose proof (enumerate_update_exn u l m i) as Hx;
      destruct (snd (Twist.enumerate_update u l i m)) as [e'|];
        [|discriminate]
    end;
    intros H; injection H as <-;
    (destruct (Hx e' eq_refl) as [->|[p Hp]]; [left; reflexivity|]);
    right; apply (twist_vertex_exn _ _ _ _ _ _ _ _ _ _ Hp).
Qed.

Lemma slide_within lo hi w val :
  (lo <= hi)%R -> float_within lo hi w -> float_within lo hi (slide w val).
Proof.
  intros Hle Hw. unfold slide.
  destruct (Gui.Number.event R Gui.Rltb Gui.typed_float w val) as [w'|e] eqn:E.
  - apply (float_within_event _ _ _ _ _ Hle Hw E).
  - exact Hw.
Qed.

Lemma twist_make_widgets_ok :
  exists w, TwistGui.make_widgets = Gui.Val w /\ twist_widgets_ok w.
Proof.
  eexists. split; [reflexivity|].
  unfold twist_widgets_ok.
  cbn [TwistGui.StartFrom TwistGui.EndAt TwistGui.Angle TwistGui.Axis].
  split; [apply FloatNumber_within; lra|].
  split; [apply FloatNumber_within; lra|].
  split; [apply FloatNumber_within; lra|].
  split; [split; cbn; [lia|reflexivity] | reflexivity].
Qed.

Lemma twist_handle_ok w ev :
  twist_widgets_ok w -> twist_widgets_ok (twist_handle w ev).
Proof.
  destruct w as [St En Ax An Li]. intros (HS & HE & HA & HX).
  cbn [TwistGui.StartFrom TwistGui.EndAt TwistGui.Angle TwistGui.Axis] in *.
  assert (H100 : (0 <= 100)%R) by lra.
  assert (H360 : (0 <= 360 * 100)%R) by lra.
  unfold twist_widgets_ok.
  destruct ev as [val|val|index|val| ]; cbn [twist_handle].
  - exact (conj (slide_within _ _ _ val H100 HS) (conj HE (conj HA HX))).
  - exact (conj HS (conj (slide_within _ _ _ val H100 HE) (conj HA HX))).
  - exact (conj HS (conj HE (conj HA
             (selects_among_select _ _ (ButtonEvent index) HX)))).
  - exact (conj HS (conj HE (conj (slide_within _ _ _ val H360 HA) HX))).
  - exact (conj HS (conj HE (conj HA HX))).
Qed.

Lemma twist_handle_all_ok evs : forall w,
  twist_widgets_ok w -> twist_widgets_ok (fold_left twist_handle evs w).
Proof.
  induction evs as [|ev evs IH]; cbn [fold_left]; intros w Hw; [exact Hw|].
  apply IH, twist_handle_ok, Hw.
Qed.

(** X25.  Whatever events reach the widgets of the twist plugin, the
    sliders stay within their bounds and the axis buttons select one of the
    three axes; so [update] always finds its axis, whatever mesh it holds:
    it never raises [KeyError], and what it raises is a [TypeError], only
    when no bounding box was recorded, a [ZeroDivisionError] or an
    [IndexError]. *)
Theorem twist_update_from_widgets evs w g :
  twist_widgets_after evs = Gui.Val w ->
  let StartFrom := Gui.Number.value (TwistGui.StartFrom w) in
  let EndAt := Gui.Number.value (TwistGui.EndAt w) in
  let Angle := Gui.Number.value (TwistGui.Angle w) in
  (0 <= StartFrom <= 100)%R /\ (0 <= EndAt <= 100)%R /\
  (0 <= Angle <= 36000)%R /\
  exists Axis_value Axis,
    Gui.MultipleSelect.__getvalue (TwistGui.Axis w) = Gui.Val Axis_value /\
    TwistPlugin.axis Axis_value = Some Axis /\ is_axis Axis /\
    (forall vs, TwistPlugin.mesh g = TwistPlugin.MeshData vs ->
       TwistGui.update w g
       = TwistPlugin.update g Axis_value Angle StartFrom EndAt) /\
    forall err, TwistPlugin.raised (TwistGui.update w g) = Some err ->
      err = TwistPlugin.TypeError /\ TwistPlugin.bounds g = None \/
      err = TwistPlugin.PyExn ZeroDivisionError \/
      err = TwistPlugin.PyExn IndexError.
Proof.
  unfold twist_widgets_after.
  destruct twist_make_widgets_ok as (w0 & E0 & Hok0). rewrite E0.
  intros H; injection H as <-.
  destruct (twist_handle_all_ok evs w0 Hok0) as (HS & HE & HA & HX).
  set (w := fold_left twist_handle evs w0) in *.
  destruct HS as (_ & _ & HS), HE as (_ & _ & HE), HA as (_ & _ & HA).
  cbv zeta.
  split; [exact HS|]. split; [exact HE|]. split; [lra|].
  destruct (selects_among_value _ _ HX) as (k & Hk & Hin).
  assert (Hax : exists Axis, TwistPlugin.axis k = Some Axis /\ is_axis Axis).
  { unfold is_axis.
    destruct Hin as [<-|[<-|[<-|[]]]]; eexists; (split; [reflexivity|]);
      auto. }
  destruct Hax as (Axis & Hax & His).
  exists k, Axis. split; [exact Hk|]. split; [exact Hax|].
  split; [exact His|].
  unfold TwistGui.update. rewrite Hk.
  split; [intros vs ->; reflexivity|].
  intros err. destruct (TwistPlugin.mesh g) as [| |vs] eqn:Em;
    try (cbn; discriminate).
  unfold TwistPlugin.update. rewrite Em, Hax.
  destruct (TwistPlugin.bounds g) as [bb|]; cbn [TwistPlugin.raised].
  - match goal with |- context [Twist.twist_mesh ?a ?b ?c ?d ?e ?f ?h] =>
      pose proof (twist_mesh_exn a b c d e f h) as Hx;
      destruct (Twist.twist_mesh a b c d e f h) as [vs' out]
    end.
    destruct out as [b|e]; cbn [TwistPlugin.raised]; [discriminate|].
    intros H; injection H as <-.
    destruct (Hx e eq_refl) as [-> | ->]; auto.
  - intros H; injection H as <-. auto.
Qed.

Lemma twist_update_from_widgets_witness :
  exists w,
    twist_widgets_after [AxisEvent 9; AngleEvent (Gui.PNum (Gui.NInt 3))]
      = Gui.Val w /\
    (0 <= Gui.Number.value (TwistGui.Angle w) <= 36000)%R.
Proof.
  eexists. split; [reflexivity|].
  apply (twist_update_from_widgets
           [AxisEvent 9; AngleEvent (Gui.PNum (Gui.NInt 3))] _
           TwistPlugin.initial eq_refl).
Defined.

(** *** The sphere plugin: from the widgets to the mesh *)

Lemma FloatNumber_within_float value lo hi :
  (Gui.py_float lo <= Gui.py_float value <= Gui.py_float hi)%R ->
  float_within (Gui.py_float lo) (Gui.py_float hi)
    (Gui.FloatNumber value lo hi).
Proof.
  intros H. unfold float_within, Gui.FloatNumber, Gui.Number.__init__, Gui.Rleb.
  destruct (Rle_dec (Gui.py_float lo) (Gui.py_float hi)); cbn; [auto|lra].
Qed.

Lemma spin_within lo hi w val :
  lo <= hi -> int_within lo hi w -> int_within lo hi (spin w val).
Proof.
  intros Hle Hw. unfold spin.
  destruct (Gui.Number.event Z Z.ltb Gui.typed_int w val) as [w'|e] eqn:E.
  - apply (int_within_event _ _ _ _ _ Hle Hw E).
  - exact Hw.
Qed.

Lemma shows_among_select values names w op :
  shows_among values names w -> shows_among values names (select w op).
Proof.
  intros [[Hok Hv] Ht]. destruct (select_keeps w op Hok) as (H1 & H2 & H3).
  split; [split; [exact H1|congruence]|congruence].
Qed.

Lemma shows_among_value values names w :
  shows_among values names w ->
  exists k value title,
    nth_error values k = Some value /\ nth_error names k = Some title /\
    Gui.MultipleSelect.__getvalue w = Gui.Val value /\
    Gui.MultipleSelect.__gettitle w = Gui.Val title.
Proof.
  intros [[Hok <-] <-].
  destruct (select_ok_value w Hok) as (k & value & title & _ & H1 & H2 & H3 & H4).
  exists k, value, title. auto.
Qed.

Lemma sph_make_widgets_ok :
  exists w, SphPlugin.make_widgets = Gui.Val w /\ SphSession.widgets_ok w.
Proof.
  eexists. split; [reflexivity|].
  unfold SphSession.widgets_ok.
  cbn [SphPlugin.Radius SphPlugin.UDivisions SphPlugin.VDivisions
       SphPlugin.CapMethod SphPlugin.Percent SphPlugin.Origin
       SphPlugin.Orientation].
  split.
  { apply (FloatNumber_within_float (Gui.NInt 1) (Gui.NFloat (1 / 1000))
             (Gui.NFloat 100000000)). cbn. lra. }
  split; [apply IntNumber_within; lia|].
  split; [apply IntNumber_within; lia|].
  split; [split; [split; [split; cbn; [lia|reflexivity]|reflexivity]
                 |reflexivity]|].
  split.
  { apply (FloatNumber_within_float (Gui.NInt 50) (Gui.NInt 0)
             (Gui.NInt 100)). cbn. lra. }
  split; (split; [split; cbn; [lia|reflexivity] | reflexivity]).
Qed.

Lemma sph_handle_ok w ev :
  SphSession.widgets_ok w -> SphSession.widgets_ok (SphSession.handle w ev).
Proof.
  destruct w as [Ra Ud Vd Sm He Ca Cm Pe Or On].
  intros (HR & HU & HV & HM & HP & HOr & HOn).
  cbn [SphPlugin.Radius SphPlugin.UDivisions SphPlugin.VDivisions
       SphPlugin.CapMethod SphPlugin.Percent SphPlugin.Origin
       SphPlugin.Orientation] in *.
  assert (Hr : (1 / 1000 <= 100000000)%R) by lra.
  assert (Hp : (0 <= 100)%R) by lra.
  assert (Hi : 3 <= 1024) by lia.
  unfold SphSession.widgets_ok.
  destruct ev as [val|val|val| | | | |val| |index];
    cbn [SphSession.handle].
  - exact (conj (slide_within _ _ _ val Hr HR)
             (conj HU (conj HV (conj HM (conj HP (conj HOr HOn)))))).
  - exact (conj HR (conj (spin_within _ _ _ val Hi HU)
             (conj HV (conj HM (conj HP (conj HOr HOn)))))).
  - exact (conj HR (conj HU (conj (spin_within _ _ _ val Hi HV)
             (conj HM (conj HP (conj HOr HOn)))))).
  - exact (conj HR (conj HU (conj HV (conj HM (conj HP (conj HOr HOn)))))).
  - exact (conj HR (conj HU (conj HV (conj HM (conj HP (conj HOr HOn)))))).
  - exact (conj HR (conj HU (conj HV (conj HM (conj HP (conj HOr HOn)))))).
  - exact (conj HR (conj HU (conj HV
             (conj (shows_among_select _ _ _ ToggleEvent HM)
                (conj HP (conj HOr HOn)))))).
  - exact (conj HR (conj HU (conj HV (conj HM
             (conj (slide_within _ _ _ val Hp HP) (conj HOr HOn)))))).
  - exact (conj HR (conj HU (conj HV (conj HM (conj HP
             (conj (selects_among_select _ _ ToggleEvent HOr) HOn)))))).
  - exact (conj HR (conj HU (conj HV (conj HM (conj HP (conj HOr
             (selects_among_select _ _ (ButtonEvent index) HOn))))))).
Qed.

Lemma sph_handle_all_ok evs : forall w,
  SphSession.widgets_ok w ->
  SphSession.widgets_ok (fold_left SphSession.handle evs w).
Proof.
  induction evs as [|ev evs IH]; cbn [fold_left]; intros w Hw; [exact Hw|].
  apply IH, sph_handle_ok, Hw.
Qed.

(** X26.  Whatever events reach the widgets of the sphere plugin, the
    radius, the division counts and the percent slider stay within their
    declared bounds, and with them [create] never raises: the clip
    percentage cannot leave the domain of [acos] and no division count can
    be zero.  It builds the clipped sphere exactly when the hemisphere
    toggle is on, capped symmetrically exactly when the cap method shows
    'symmetrical', and the full sphere otherwise, and places and turns the
    object as the origin and orientation widgets say. *)
Theorem Sphere_create_from_widgets evs w cursor :
  SphSession.widgets_after evs = Gui.Val w ->
  let U := Gui.Number.value (SphPlugin.UDivisions w) in
  let V := Gui.Number.value (SphPlugin.VDivisions w) in
  let Radius := Gui.Number.value (SphPlugin.Radius w) in
  let Percent := Gui.Number.value (SphPlugin.Percent w) in
  3 <= U <= 1024 /\ 3 <= V <= 1024 /\
  (1 / 1000 <= Radius <= 100000000)%R /\ (0 <= Percent <= 100)%R /\
  exists p method title origin orientation,
    SphPlugin.create w cursor = Gui.Val p /\
    Gui.MultipleSelect.__getvalue (SphPlugin.CapMethod w) = Gui.Val method /\
    Gui.MultipleSelect.__gettitle (SphPlugin.CapMethod w) = Gui.Val title /\
    (method = 0 /\ title = "simple"%string \/
     method = 1 /\ title = "symmetrical"%string) /\
    (if SphPlugin.Hemisphere w
     then Sph.Sphere2 Radius U V Percent (SphPlugin.Cap w)
            (String.eqb title "symmetrical") (SphPlugin.Smooth w)
     else Sph.Sphere Radius U V (SphPlugin.Smooth w))
    = Ok (SphPlugin.data p) /\
    Gui.MultipleSelect.__getvalue (SphPlugin.Origin w) = Gui.Val origin /\
    Gui.MultipleSelect.__getvalue (SphPlugin.Orientation w)
      = Gui.Val orientation /\
    (origin = SphPlugin.CURSOR /\ SphPlugin.setLocation p = Some cursor \/
     origin = SphPlugin.CENTER /\ SphPlugin.setLocation p = None) /\
    (orientation = SphPlugin.XZ /\
       SphPlugin.RotX p = None /\ SphPlugin.RotY p = None \/
     orientation = SphPlugin.XY /\
       SphPlugin.RotX p = None /\ SphPlugin.RotY p = Some (PI / 2)%R \/
     orientation = SphPlugin.YZ /\
       SphPlugin.RotX p = Some (PI / 2)%R /\ SphPlugin.RotY p = None).
Proof.
  unfold SphSession.widgets_after.
  destruct sph_make_widgets_ok as (w0 & E0 & Hok0). rewrite E0.
  intros H; injection H as <-.
  destruct (sph_handle_all_ok evs w0 Hok0)
    as (HR & HU & HV & HM & HP & HOr & HOn).
  set (w := fold_left SphSession.handle evs w0) in *.
  destruct HR as (_ & _ & HR), HU as (_ & _ & HU), HV as (_ & _ & HV),
    HP as (_ & _ & HP).
  cbv zeta.
  set (U := Gui.Number.value (SphPlugin.UDivisions w)) in *.
  set (V := Gui.Number.value (SphPlugin.VDivisions w)) in *.
  set (Radius := Gui.Number.value (SphPlugin.Radius w)) in *.
  set (Percent := Gui.Number.value (SphPlugin.Percent w)) in *.
  split; [exact HU|]. split; [exact HV|]. split; [exact HR|].
  split; [exact HP|].
  destruct (shows_among_value _ _ _ HM)
    as (k & method & title & Hkv & Hkt & Hm & Ht).
  assert (Hmt : method = 0 /\ title = "simple"%string \/
                method = 1 /\ title = "symmetrical"%string).
  { destruct k as [|[|k]]; cbn in Hkv, Hkt.
    - injection Hkv as <-. injection Hkt as <-. auto.
    - injection Hkv as <-. injection Hkt as <-. auto.
    - destruct k; discriminate. }
  assert (Hb : negb (method =? 0) = String.eqb title "symmetrical").
  { destruct Hmt as [[-> ->]|[-> ->]]; reflexivity. }
  assert (Hobj : exists poly,
            SphPlugin.create_obj w = Gui.Val poly /\
            (if SphPlugin.Hemisphere w
             then Sph.Sphere2 Radius U V Percent (SphPlugin.Cap w)
                    (String.eqb title "symmetrical") (SphPlugin.Smooth w)
             else Sph.Sphere Radius U V (SphPlugin.Smooth w)) = Ok poly).
  { unfold SphPlugin.create_obj. fold U V Radius Percent.
    destruct (SphPlugin.Hemisphere w).
    - rewrite Hm, Hb.
      destruct (Sphere2_closed Radius U V Percent (SphPlugin.Cap w)
                  (String.eqb title "symmetrical") (SphPlugin.Smooth w))
        as (rng & fs & _ & _ & ->); try lia; [exact HP|].
      eexists. split; reflexivity.
    - destruct (Sphere_shape Radius U V (SphPlugin.Smooth w))
        as (poly & -> & _); try lia.
      eexists. split; reflexivity. }
  destruct Hobj as (poly & Hobj & Hpoly).
  destruct (selects_among_value _ _ HOr) as (origin & Ho & Hoin).
  destruct (selects_among_value _ _ HOn) as (orientation & Hn & Hnin).
  unfold SphPlugin.create. rewrite Hobj, Ho, Hn.
  destruct Hoin as [<-|[<-|[]]];
    destruct Hnin as [<-|[<-|[<-|[]]]]; cbn [Z.eqb Pos.eqb SphPlugin.CENTER
      SphPlugin.CURSOR SphPlugin.XZ SphPlugin.XY SphPlugin.YZ];
    eexists; exists method, title; do 2 eexists;
    (split; [reflexivity|]); (split; [exact Hm|]);
    (split; [exact Ht|]); (split; [exact Hmt|]);
    (split; [exact Hpoly|]); (split; [reflexivity|]);
    (split; [reflexivity|]); cbn; split; auto 6.
Qed.

Lemma Sphere_create_from_widgets_witness :
  exists w,
    SphSession.widgets_after
      [SphSession.OnHemisphere; SphSession.OnCapMethod;
       SphSession.OnPercent (Gui.PNum (Gui.NFloat 250))] = Gui.Val w /\
    (0 <= Gui.Number.value (SphPlugin.Percent w) <= 100)%R.
Proof.
  eexists. split; [reflexivity|].
  apply (Sphere_create_from_widgets
           [SphSession.OnHemisphere; SphSession.OnCapMethod;
            SphSession.OnPercent (Gui.PNum (Gui.NFloat 250))] _
           (0, 0, 0)%R eq_refl).
Defined.

(** ** gui.py: the event tables of the interface *)

Lemma dict_get_set_eq {A : Type} (d : list (Z * A)) k a :
  Interface.dict_get Z.eqb (Interface.dict_set Z.eqb d k a) k = Some a.
Proof.
  induction d as [|[k' a'] d IH]; cbn.
  - now rewrite Z.eqb_refl.
  - destruct (Z.eqb_spec k' k) as [->|Hne]; cbn.
    + now rewrite Z.eqb_refl.
    + destruct (Z.eqb_spec k' k); [contradiction|exact IH].
Qed.

Lemma dict_get_set_neq {A : Type} (d : list (Z * A)) k a k' :
  k' <> k ->
  Interface.dict_get Z.eqb (Interface.dict_set Z.eqb d k a) k'
  = Interface.dict_get Z.eqb d k'.
Proof.
  intros Hne. induction d as [|[k0 a0] d IH]; cbn.
  - destruct (Z.eqb_spec k k'); [congruence|reflexivity].
  - destruct (Z.eqb_spec k0 k) as [->|H0]; cbn.
    + destruct (Z.eqb_spec k k'); [congruence|reflexivity].
    + destruct (Z.eqb_spec k0 k'); [reflexivity|exact IH].
Qed.

Lemma dict_get_map_snd {A B : Type} (g : A -> B) (d : list (Z * A)) k :
  Interface.dict_get Z.eqb (map (fun item => (fst item, g (snd item))) d) k
  = option_map g (Interface.dict_get Z.eqb d k).
Proof.
  induction d as [|[k' a'] d IH]; cbn; [reflexivity|].
  destruct (k' =? k); [reflexivity|exact IH].
Qed.

Lemma existsb_eqb_In x l : existsb (Z.eqb x) l = true <-> In x l.
Proof.
  rewrite existsb_exists. split.
  - intros (y & Hy & E). apply Z.eqb_eq in E. now subst.
  - intros H. exists x. split; [exact H|apply Z.eqb_refl].
Qed.

Lemma remove_first_In x l h :
  In h (Interface.remove_first x l) -> In h l.
Proof.
  induction l as [|y l IH]; cbn; [tauto|].
  destruct (y =? x); cbn; tauto.
Qed.

Lemma remove_first_other x l h :
  h <> x -> In h l -> In h (Interface.remove_first x l).
Proof.
  intros Hne. induction l as [|y l IH]; cbn; [tauto|].
  destruct (Z.eqb_spec y x) as [->|Hy]; cbn; intros [E|H]; auto.
  congruence.
Qed.

Lemma remove_first_NoDup x l :
  NoDup l ->
  NoDup (Interface.remove_first x l) /\ ~ In x (Interface.remove_first x l).
Proof.
  induction 1 as [|y l Hy Hl [IH1 IH2]]; cbn.
  - split; [constructor|tauto].
  - destruct (Z.eqb_spec y x) as [->|Hne].
    + auto.
    + split.
      * constructor; [|exact IH1].
        intros H. apply Hy. apply (remove_first_In _ _ _ H).
      * cbn. intros [E|H]; [congruence|tauto].
Qed.

Lemma chain_of_bind_single s function event :
  (In function (chain_of s event) ->
   Interface.__bind_single s function event = s) /\
  (~ In function (chain_of s event) ->
   chain_of (Interface.__bind_single s function event) event
   = function :: chain_of s event) /\
  (forall e, e <> event ->
   chain_of (Interface.__bind_single s function event) e = chain_of s e) /\
  Interface.button_events_lookup (Interface.__bind_single s function event)
  = Interface.button_events_lookup s.
Proof.
  unfold chain_of, Interface.__bind_single.
  destruct (Interface.dict_get Z.eqb (Interface.events_lookup s) event)
    as [chain|] eqn:E.
  - destruct (existsb (Z.eqb function) chain) eqn:Ex.
    + repeat split; auto.
      intros Hn. apply existsb_eqb_In in Ex. contradiction.
    + cbn [Interface.events_lookup Interface.button_events_lookup].
      split; [|split; [|split]].
      * intros Hin. apply existsb_eqb_In in Hin. congruence.
      * intros _. now rewrite dict_get_set_eq.
      * intros e He. now rewrite dict_get_set_neq.
      * reflexivity.
  - cbn [Interface.events_lookup Interface.button_events_lookup].
    split; [|split; [|split]].
    + intros [].
    + intros _. now rewrite dict_get_set_eq.
    + intros e He. now rewrite dict_get_set_neq.
    + reflexivity.
Qed.

Lemma bind_single_nodup s function event :
  chains_nodup s -> chains_nodup (Interface.__bind_single s function event).
Proof.
  intros Hs e.
  destruct (chain_of_bind_single s function event) as (H1 & H2 & H3 & _).
  destruct (Z.eq_dec e event) as [->|Hne].
  - destruct (in_dec Z.eq_dec function (chain_of s event)) as [Hin|Hnin].
    + rewrite (H1 Hin). apply Hs.
    + rewrite (H2 Hnin). constructor; [exact Hnin|apply Hs].
  - rewrite (H3 e Hne). apply Hs.
Qed.

Lemma bind_nodup s function event :
  chains_nodup s -> chains_nodup (Interface.bind s function event).
Proof.
  destruct event as [e|es]; cbn [Interface.bind].
  - apply bind_single_nodup.
  - revert s. induction es as [|e es IH]; cbn [fold_left]; intros s Hs;
      [exact Hs|].
    apply IH, bind_single_nodup, Hs.
Qed.

Lemma bind_buttons s function event :
  Interface.button_events_lookup (Interface.bind s function event)
  = Interface.button_events_lookup s.
Proof.
  destruct event as [e|es]; cbn [Interface.bind].
  - apply chain_of_bind_single.
  - revert s. induction es as [|e es IH]; cbn [fold_left]; intros s;
      [reflexivity|].
    rewrite IH. apply chain_of_bind_single.
Qed.

Lemma chain_of_unbind s function e :
  chain_of (fst (Interface.unbind s function)) e
  = Interface.remove_first function (chain_of s e).
Proof.
  unfold chain_of, Interface.unbind.
  cbn [fst Interface.events_lookup].
  rewrite dict_get_map_snd.
  destruct (Interface.dict_get Z.eqb (Interface.events_lookup s) e);
    reflexivity.
Qed.

Lemma unbind_nodup s function :
  chains_nodup s -> chains_nodup (fst (Interface.unbind s function)).
Proof.
  intros Hs e. rewrite chain_of_unbind. apply remove_first_NoDup, Hs.
Qed.

Lemma interface_do_nodup s op :
  chains_nodup s -> chains_nodup (interface_do s op).
Proof.
  destruct op as [f ev|f|f c]; cbn [interface_do].
  - apply bind_nodup.
  - apply unbind_nodup.
  - intros Hs. exact Hs.
Qed.

Lemma interface_after_nodup modifiers ops :
  chains_nodup (interface_after modifiers ops).
Proof.
  unfold interface_after.
  assert (H0 : chains_nodup (Interface.__init__ modifiers))
    by (intros e; constructor).
  revert H0. generalize (Interface.__init__ modifiers).
  induction ops as [|op ops IH]; cbn [fold_left]; intros s Hs; [exact Hs|].
  apply IH, interface_do_nodup, Hs.
Qed.

Lemma call_chain_In stops event value chain h :
  In h (Interface.call_chain stops event value chain) -> In h chain.
Proof.
  induction chain as [|x chain IH]; cbn; [tauto|].
  destruct (stops x event value); cbn; tauto.
Qed.

Lemma called_In s stops event value h :
  In h (called s stops event value) -> In h (chain_of s event).
Proof.
  unfold called, chain_of, Interface.__events_process. cbn [fst].
  destruct (Interface.dict_get Z.eqb (Interface.events_lookup s) event).
  - apply call_chain_In.
  - intros [].
Qed.

Lemma dict_set_keys {A : Type} (d : list (Z * A)) k a :
  (forall k', In k' (map fst (Interface.dict_set Z.eqb d k a)) ->
              k' = k \/ In k' (map fst d)) /\
  (NoDup (map fst d) -> NoDup (map fst (Interface.dict_set Z.eqb d k a))).
Proof.
  induction d as [|[k0 a0] d [IH1 IH2]]; cbn.
  - split; [intros k' [E|[]]; auto|].
    intros _. constructor; [intros []|constructor].
  - destruct (Z.eqb_spec k0 k) as [->|Hne]; cbn.
    + split; [intros k' [E|H]; auto|]. auto.
    + split.
      * intros k' [E|H]; [auto|]. destruct (IH1 k' H); auto.
      * intros Hd. inversion Hd as [|? ? Hn Hd']; subst.
        constructor; [|auto].
        intros H. destruct (IH1 k0 H); [congruence|contradiction].
Qed.

Lemma dict_get_In {A : Type} (d : list (Z * A)) k a :
  NoDup (map fst d) -> In (k, a) d ->
  Interface.dict_get Z.eqb d k = Some a.
Proof.
  induction d as [|[k0 a0] d IH]; cbn; [tauto|].
  intros Hd [E|Hin].
  - injection E as -> ->. now rewrite Z.eqb_refl.
  - inversion Hd as [|? ? Hn Hd']; subst.
    destruct (Z.eqb_spec k0 k) as [->|Hne].
    + exfalso. apply Hn. apply (in_map fst _ _ Hin).
    + auto.
Qed.

Lemma dict_get_Some_In {A : Type} (d : list (Z * A)) k a :
  Interface.dict_get Z.eqb d k = Some a -> In (k, a) d.
Proof.
  induction d as [|[k0 a0] d IH]; cbn; [discriminate|].
  destruct (Z.eqb_spec k0 k) as [->|Hne].
  - intros E; injection E as ->. now left.
  - auto.
Qed.

Lemma bind_single_keys s function event :
  keys_unique s -> keys_unique (Interface.__bind_single s function event).
Proof.
  unfold keys_unique, Interface.__bind_single. intros Hs.
  destruct (Interface.dict_get Z.eqb (Interface.events_lookup s) event)
    as [chain|]; [destruct (existsb (Z.eqb function) chain)|];
    cbn [Interface.events_lookup]; auto; now apply dict_set_keys.
Qed.

Lemma interface_do_keys s op :
  keys_unique s -> keys_unique (interface_do s op).
Proof.
  destruct op as [f [e|es]|f|f c]; cbn [interface_do Interface.bind].
  - apply bind_single_keys.
  - revert s. induction es as [|e es IH]; cbn [fold_left]; intros s Hs;
      [exact Hs|].
    apply IH, bind_single_keys, Hs.
  - unfold keys_unique, Interface.unbind. cbn [fst Interface.events_lookup].
    rewrite map_map. cbn [fst]. auto.
  - auto.
Qed.

Lemma interface_after_keys modifiers ops :
  keys_unique (interface_after modifiers ops).
Proof.
  unfold interface_after.
  assert (H0 : keys_unique (Interface.__init__ modifiers)) by constructor.
  revert H0. generalize (Interface.__init__ modifiers).
  induction ops as [|op ops IH]; cbn [fold_left]; intros s Hs; [exact Hs|].
  apply IH, interface_do_keys, Hs.
Qed.

Lemma unbind_returns s function :
  keys_unique s ->
  (snd (Interface.unbind s function) = true <->
   exists e, In function (chain_of s e)).
Proof.
  intros Hk. unfold Interface.unbind, chain_of. cbn [snd].
  rewrite existsb_exists. split.
  - intros ([e chain] & Hin & Hex). cbn in Hex.
    apply existsb_eqb_In in Hex. exists e.
    now rewrite (dict_get_In _ _ _ Hk Hin).
  - intros (e & He).
    destruct (Interface.dict_get Z.eqb (Interface.events_lookup s) e)
      as [chain|] eqn:E; [|destruct He].
    exists (e, chain). split; [apply (dict_get_Some_In _ _ _ E)|].
    cbn. now apply existsb_eqb_In.
Qed.

(** X27.  The handler chains of an interface never hold a handler twice.
    Binding a handler to an event it is not bound to puts it in front of
    the chain of that event, so that it is called first; binding it again
    changes nothing; the chains of other events are not touched.
    Unbinding a handler removes it from the chain of every event, after
    which no event calls it, keeps the other handlers, and returns true
    exactly when the handler was bound to some event. *)
Theorem Interface_handlers modifiers ops :
  let s := interface_after modifiers ops in
  (forall event, NoDup (chain_of s event)) /\
  (forall function event,
     let s' := Interface.bind s function (Interface.One event) in
     (In function (chain_of s event) -> s' = s) /\
     (~ In function (chain_of s event) ->
      chain_of s' event = function :: chain_of s event /\
      forall stops value,
        exists rest, called s' stops event value = function :: rest) /\
     (forall e, e <> event -> chain_of s' e = chain_of s e)) /\
  (forall function,
     let s' := fst (Interface.unbind s function) in
     (forall e, ~ In function (chain_of s' e)) /\
     (forall stops e value, ~ In function (called s' stops e value)) /\
     (forall e h, h <> function ->
        (In h (chain_of s' e) <-> In h (chain_of s e))) /\
     (snd (Interface.unbind s function) = true <->
      exists e, In function (chain_of s e))).
Proof.
  intros s.
  pose proof (interface_after_nodup modifiers ops) as Hnd.
  pose proof (interface_after_keys modifiers ops) as Hk.
  fold s in Hnd, Hk.
  split; [exact Hnd|]. split.
  - intros function event s'. unfold s'. cbn [Interface.bind].
    destruct (chain_of_bind_single s function event) as (H1 & H2 & H3 & _).
    split; [exact H1|]. split; [|exact H3].
    intros Hn. split; [exact (H2 Hn)|].
    intros stops value. unfold called, Interface.__events_process.
    cbn [fst]. specialize (H2 Hn). unfold chain_of in H2 at 1.
    destruct (Interface.dict_get Z.eqb
                (Interface.events_lookup
                   (Interface.__bind_single s function event)) event)
      as [chain|]; [|discriminate].
    rewrite H2. cbn [Interface.call_chain].
    destruct (stops function event value); eauto.
  - intros function s'. unfold s'.
    assert (Hno : forall e,
              ~ In function (chain_of (fst (Interface.unbind s function)) e)).
    { intros e. rewrite chain_of_unbind. apply remove_first_NoDup, Hnd. }
    split; [exact Hno|]. split; [|split].
    + intros stops e value H. apply (Hno e). apply (called_In _ _ _ _ _ H).
    + intros e h Hne. rewrite chain_of_unbind. split.
      * apply remove_first_In.
      * apply remove_first_other, Hne.
    + apply unbind_returns, Hk.
Qed.

Lemma dict_set_fresh {A : Type} (d : list (Z * A)) k a :
  ~ In k (map fst d) -> Interface.dict_set Z.eqb d k a = d ++ [(k, a)].
Proof.
  induction d as [|[k0 a0] d IH]; cbn; [reflexivity|].
  intros Hn. destruct (Z.eqb_spec k0 k) as [->|Hne]; [tauto|].
  f_equal. apply IH. tauto.
Qed.

Lemma dict_get_keys {A : Type} (d : list (Z * A)) k :
  Interface.dict_get Z.eqb d k <> None <-> In k (map fst d).
Proof.
  induction d as [|[k0 a0] d IH]; cbn; [tauto|].
  destruct (Z.eqb_spec k0 k) as [->|Hne].
  - split; [auto|discriminate].
  - rewrite IH. split; [auto|]. intros [E|H]; [contradiction|exact H].
Qed.

Lemma numbered_keys s k :
  buttons_numbered s ->
  (In k (map fst (Interface.button_events_lookup s)) <->
   1 <= k <= Z.of_nat (length (Interface.button_events_lookup s))).
Proof.
  unfold buttons_numbered. intros ->. rewrite in_map_iff. split.
  - intros (i & <- & Hi). apply in_seq in Hi. lia.
  - intros Hk. exists (Z.to_nat (k - 1)). split; [lia|].
    apply in_seq. lia.
Qed.

Lemma bind_button_numbered s function constant :
  buttons_numbered s ->
  let s' := fst (Interface.bind_button_event s function constant) in
  buttons_numbered s' /\
  length (Interface.button_events_lookup s')
  = S (length (Interface.button_events_lookup s)) /\
  forall k, k <> snd (Interface.bind_button_event s function constant) ->
    Interface.__button_events_process s' k
    = Interface.__button_events_process s k.
Proof.
  intros Hs. unfold Interface.bind_button_event.
  cbn [fst snd Interface.button_events_lookup].
  set (n := length (Interface.button_events_lookup s)).
  assert (Hfresh : ~ In (Z.of_nat n + 1)
                     (map fst (Interface.button_events_lookup s))).
  { rewrite (numbered_keys s _ Hs). fold n. lia. }
  unfold buttons_numbered, Interface.__button_events_process.
  cbn [Interface.button_events_lookup].
  split; [|split].
  - rewrite (dict_set_fresh _ _ _ Hfresh), map_app, length_app.
    cbn [map length fst]. fold n.
    replace (n + 1)%nat with (S n) by lia.
    rewrite seq_S, map_app. cbn [map Nat.add]. f_equal. exact Hs.
  - rewrite (dict_set_fresh _ _ _ Hfresh), length_app. cbn [length].
    fold n. lia.
  - intros k Hk. apply dict_get_set_neq, Hk.
Qed.

Lemma interface_do_buttons s op :
  buttons_numbered s ->
  buttons_numbered (interface_do s op) /\
  length (Interface.button_events_lookup (interface_do s op))
  = (length (Interface.button_events_lookup s) + button_bindings [op])%nat /\
  forall k v, Interface.__button_events_process s k = Some v ->
    Interface.__button_events_process (interface_do s op) k = Some v.
Proof.
  intros Hs. destruct op as [f ev|f|f c]; cbn [interface_do].
  - unfold buttons_numbered, Interface.__button_events_process.
    rewrite bind_buttons. cbn. rewrite Nat.add_0_r. auto.
  - unfold buttons_numbered, Interface.__button_events_process,
      Interface.unbind. cbn. rewrite Nat.add_0_r. auto.
  - destruct (bind_button_numbered s f c Hs) as (H1 & H2 & H3).
    split; [exact H1|]. split; [rewrite H2; cbn; lia|].
    intros k v Hk. rewrite H3; [exact Hk|].
    unfold Interface.bind_button_event. cbn [snd].
    assert (Hin : In k (map fst (Interface.button_events_lookup s))).
    { apply dict_get_keys. unfold Interface.__button_events_process in Hk.
      congruence. }
    apply (numbered_keys s k Hs) in Hin. lia.
Qed.

Lemma interface_do_all_buttons ops : forall s,
  buttons_numbered s ->
  buttons_numbered (fold_left interface_do ops s) /\
  length (Interface.button_events_lookup (fold_left interface_do ops s))
  = (length (Interface.button_events_lookup s) + button_bindings ops)%nat /\
  forall k v, Interface.__button_events_process s k = Some v ->
    Interface.__button_events_process (fold_left interface_do ops s) k
    = Some v.
Proof.
  induction ops as [|op ops IH]; cbn [fold_left]; intros s Hs.
  - cbn. rewrite Nat.add_0_r. auto.
  - destruct (interface_do_buttons s op Hs) as (H1 & H2 & H3).
    destruct (IH _ H1) as (H4 & H5 & H6).
    split; [exact H4|]. split.
    + rewrite H5, H2. unfold button_bindings. cbn [filter].
      destruct op; cbn [length]; lia.
    + intros k v Hk. apply H6, H3, Hk.
Qed.

(** X28.  The button events of an interface are numbered in the order in
    which they are bound, from 1 on, whatever handlers are bound and
    unbound in between: the number returned is new, an event of the host
    with that number calls the function bound with the constant bound,
    and it goes on doing so whatever is bound or unbound later; a number
    never bound calls nothing. *)
Theorem Interface_button_events modifiers ops function constant later :
  let s := interface_after modifiers ops in
  let s' := fst (Interface.bind_button_event s function constant) in
  let id := snd (Interface.bind_button_event s function constant) in
  id = Z.of_nat (button_bindings ops) + 1 /\
  Interface.__button_events_process s id = None /\
  Interface.__button_events_process (fold_left interface_do later s') id
    = Some (function, constant) /\
  forall k, ~ 1 <= k <= Z.of_nat (button_bindings ops) ->
    Interface.__button_events_process s k = None.
Proof.
  intros s s' id.
  assert (H0 : buttons_numbered (Interface.__init__ modifiers))
    by reflexivity.
  destruct (interface_do_all_buttons ops _ H0) as (Hs & Hlen & _).
  fold (interface_after modifiers ops) in Hs, Hlen. fold s in Hs, Hlen.
  cbn [Interface.__init__ Interface.button_events_lookup length Nat.add]
    in Hlen.
  assert (Hnone : forall k, ~ 1 <= k <= Z.of_nat (button_bindings ops) ->
                    Interface.__button_events_process s k = None).
  { intros k Hk.
    destruct (Interface.__button_events_process s k) as [v|] eqn:E;
      [|reflexivity].
    exfalso. apply Hk. rewrite <- Hlen. apply (numbered_keys s k Hs).
    apply dict_get_keys. unfold Interface.__button_events_process in E.
    congruence. }
  assert (Hid : id = Z.of_nat (button_bindings ops) + 1).
  { unfold id, Interface.bind_button_event. cbn [snd]. now rewrite Hlen. }
  split; [exact Hid|]. split; [apply Hnone; lia|]. split; [|exact Hnone].
  destruct (bind_button_numbered s function constant Hs) as (H1 & _ & _).
  fold s' in H1.
  destruct (interface_do_all_buttons later s' H1) as (_ & _ & H).
  apply H. unfold s', id, Interface.bind_button_event,
    Interface.__button_events_process.
  cbn [fst snd Interface.button_events_lookup].
  apply dict_get_set_eq.
Qed.

(** *** The torus plugin: from the widgets to the mesh *)

Lemma slide_all_within lo hi vals : forall w,
  (lo <= hi)%R -> float_within lo hi w ->
  float_within lo hi (fold_left slide vals w).
Proof.
  induction vals as [|v vals IH]; cbn [fold_left]; intros w Hle Hw;
    [exact Hw|].
  apply IH; [exact Hle|]. apply slide_within; assumption.
Qed.

Lemma spin_all_within lo hi vals : forall w,
  lo <= hi -> int_within lo hi w ->
  int_within lo hi (fold_left spin vals w).
Proof.
  induction vals as [|v vals IH]; cbn [fold_left]; intros w Hle Hw;
    [exact Hw|].
  apply IH; [exact Hle|]. apply spin_within; assumption.
Qed.

Lemma selects_among_toggles values n w :
  selects_among values w ->
  selects_among values (Nat.iter n Gui.MultipleToggle.event w).
Proof.
  intros Hw. induction n as [|n IH]; [exact Hw|].
  rewrite Nat.iter_succ. apply (selects_among_select _ _ ToggleEvent IH).
Qed.

Lemma selects_among_buttons values indices : forall w,
  selects_among values w ->
  selects_among values (fold_left Gui.RadioButtons.event indices w).
Proof.
  induction indices as [|i indices IH]; cbn [fold_left]; intros w Hw;
    [exact Hw|].
  apply IH. apply (selects_among_select _ _ (ButtonEvent i) Hw).
Qed.

Lemma walk_fixed {T} n (step : T -> T) p :
  (forall a, step a = a) -> walk n step p = repeat p n.
Proof.
  intros Hs. induction n as [|n IH]; cbn; [reflexivity|].
  now rewrite Hs, IH.
Qed.

Lemma flat_map_repeat {A B} (f : A -> list B) a n :
  flat_map f (repeat a n) = concat (repeat (f a) n).
Proof. induction n as [|n IH]; cbn; [reflexivity|now rewrite IH]. Qed.

(** X29.  Whatever events reach the widgets of the torus plugin, their
    values stay within the declared bounds, and with them [create] never
    raises: it builds the cut torus exactly when the cut toggle is on and
    the full torus otherwise, and places and turns the object as the
    origin and orientation widgets say.  A cut torus whose start and end
    angles are equal, as they are until a slider is moved, is collapsed:
    its [MajorDivisions + 1] cross-sections are one and the same ring. *)
Theorem Torus_create_from_widgets w cursor :
  TorSession.reachable w ->
  let Maj := Gui.Number.value (TorPlugin.MajorDivisions w) in
  let Min := Gui.Number.value (TorPlugin.MinorDivisions w) in
  let R1 := Gui.Number.value (TorPlugin.MajorRadius w) in
  let R2 := Gui.Number.value (TorPlugin.MinorRadius w) in
  let sma := Gui.Number.value (TorPlugin.StartMinorAngle w) in
  let a0 := Gui.Number.value (TorPlugin.StartMajorAngle w) in
  let a1 := Gui.Number.value (TorPlugin.EndMajorAngle w) in
  3 <= Maj <= 1024 /\ 3 <= Min <= 1024 /\
  (1 / 100000 <= R1 <= 100000000)%R /\ (1 / 100000 <= R2 <= 100000000)%R /\
  (0 <= sma <= 360)%R /\ (0 <= a0 <= 360)%R /\ (0 <= a1 <= 360)%R /\
  exists p origin orientation,
    TorPlugin.create w cursor = Gui.Val p /\
    (if TorPlugin.Cut w
     then Tor.Torus2 R1 R2 Maj Min a0 (TorPlugin.CapStart w) a1
            (TorPlugin.CapEnd w) sma (TorPlugin.Smooth w)
     else Tor.Torus R1 R2 Maj Min sma (TorPlugin.Smooth w))
    = Ok (TorPlugin.data p) /\
    (TorPlugin.Cut w = true -> a0 = a1 ->
     verts (TorPlugin.data p)
     = concat (repeat (torus_ring R1 R2 Min (sma * 2 * PI / 180) a0)
                 (Z.to_nat (Maj + 1)))) /\
    Gui.MultipleSelect.__getvalue (TorPlugin.Origin w) = Gui.Val origin /\
    Gui.MultipleSelect.__getvalue (TorPlugin.Orientation w)
      = Gui.Val orientation /\
    (origin = TorPlugin.CURSOR /\ TorPlugin.setLocation p = Some cursor \/
     origin = TorPlugin.CENTER /\ TorPlugin.setLocation p = None) /\
    (orientation = TorPlugin.XZ /\
       TorPlugin.RotX p = None /\ TorPlugin.RotY p = None \/
     orientation = TorPlugin.XY /\
       TorPlugin.RotX p = None /\ TorPlugin.RotY p = Some (PI / 2)%R \/
     orientation = TorPlugin.YZ /\
       TorPlugin.RotX p = Some (PI / 2)%R /\ TorPlugin.RotY p = None).
Proof.
  intros (w0 & E0 & (v1 & H1) & (v2 & H2) & (v3 & H3) & (v4 & H4) &
          (v5 & H5) & (v6 & H6) & (v7 & H7) & (n & H8) & (ix & H9)).
  cbv zeta.
  injection E0 as <-.
  cbn [TorPlugin.MajorRadius TorPlugin.MinorRadius TorPlugin.MajorDivisions
       TorPlugin.MinorDivisions TorPlugin.StartMinorAngle
       TorPlugin.StartMajorAngle TorPlugin.EndMajorAngle TorPlugin.Origin
       TorPlugin.Orientation] in *.
  assert (HR1 : float_within (1 / 100000) 100000000 (TorPlugin.MajorRadius w)).
  { rewrite H1. apply slide_all_within; [lra|].
    apply FloatNumber_within; lra. }
  assert (HR2 : float_within (1 / 100000) 100000000 (TorPlugin.MinorRadius w)).
  { rewrite H2. apply slide_all_within; [lra|].
    apply FloatNumber_within; lra. }
  assert (HMaj : int_within 3 1024 (TorPlugin.MajorDivisions w)).
  { rewrite H3. apply spin_all_within; [lia|].
    apply IntNumber_within; lia. }
  assert (HMin : int_within 3 1024 (TorPlugin.MinorDivisions w)).
  { rewrite H4. apply spin_all_within; [lia|].
    apply IntNumber_within; lia. }
  assert (Hang : float_within 0 360
                   (Gui.FloatSlider (Gui.NInt 0) (Gui.NInt 0) (Gui.NInt 360))).
  { apply (FloatNumber_within_float (Gui.NInt 0) (Gui.NInt 0) (Gui.NInt 360)).
    cbn. lra. }
  assert (Hsma : float_within 0 360 (TorPlugin.StartMinorAngle w)).
  { rewrite H5. apply slide_all_within; [lra|exact Hang]. }
  assert (Ha0 : float_within 0 360 (TorPlugin.StartMajorAngle w)).
  { rewrite H6. apply slide_all_within; [lra|exact Hang]. }
  assert (Ha1 : float_within 0 360 (TorPlugin.EndMajorAngle w)).
  { rewrite H7. apply slide_all_within; [lra|exact Hang]. }
  assert (HOr : selects_among [TorPlugin.CENTER; TorPlugin.CURSOR]
                  (TorPlugin.Origin w)).
  { rewrite H8. apply selects_among_toggles.
    split; [split; cbn; [lia|reflexivity] | reflexivity]. }
  assert (HOn : selects_among [TorPlugin.XZ; TorPlugin.XY; TorPlugin.YZ]
                  (TorPlugin.Orientation w)).
  { rewrite H9. apply selects_among_buttons.
    split; [split; cbn; [lia|reflexivity] | reflexivity]. }
  clear H1 H2 H3 H4 H5 H6 H7 H8 H9 Hang.
  destruct HR1 as (_ & _ & HR1), HR2 as (_ & _ & HR2),
    HMaj as (_ & _ & HMaj), HMin as (_ & _ & HMin), Hsma as (_ & _ & Hsma),
    Ha0 as (_ & _ & Ha0), Ha1 as (_ & _ & Ha1).
  set (Maj := Gui.Number.value (TorPlugin.MajorDivisions w)) in *.
  set (Min := Gui.Number.value (TorPlugin.MinorDivisions w)) in *.
  set (R1 := Gui.Number.value (TorPlugin.MajorRadius w)) in *.
  set (R2 := Gui.Number.value (TorPlugin.MinorRadius w)) in *.
  set (sma := Gui.Number.value (TorPlugin.StartMinorAngle w)) in *.
  set (a0 := Gui.Number.value (TorPlugin.StartMajorAngle w)) in *.
  set (a1 := Gui.Number.value (TorPlugin.EndMajorAngle w)) in *.
  split; [exact HMaj|]. split; [exact HMin|]. split; [exact HR1|].
  split; [exact HR2|]. split; [exact Hsma|]. split; [exact Ha0|].
  split; [exact Ha1|].
  assert (Hobj : exists poly,
            TorPlugin.create_obj w = Ok poly /\
            (if TorPlugin.Cut w
             then Tor.Torus2 R1 R2 Maj Min a0 (TorPlugin.CapStart w) a1
                    (TorPlugin.CapEnd w) sma (TorPlugin.Smooth w)
             else Tor.Torus R1 R2 Maj Min sma (TorPlugin.Smooth w))
            = Ok poly /\
            (TorPlugin.Cut w = true -> a0 = a1 ->
             verts poly
             = concat (repeat (torus_ring R1 R2 Min (sma * 2 * PI / 180) a0)
                         (Z.to_nat (Maj + 1))))).
  { unfold TorPlugin.create_obj. fold Maj Min R1 R2 sma a0 a1.
    destruct (TorPlugin.Cut w).
    - rewrite Torus2_closed by lia.
      eexists. split; [reflexivity|]. split; [reflexivity|].
      intros _ <-. cbn [verts].
      rewrite Rmin_same, Rmax_same.
      rewrite walk_fixed.
      + apply flat_map_repeat.
      + intros a. unfold Rminus. rewrite Rplus_opp_r.
        unfold Rdiv. rewrite Rmult_0_l. apply Rplus_0_r.
    - rewrite Torus_closed by lia.
      eexists. split; [reflexivity|]. split; [reflexivity|].
      discriminate. }
  destruct Hobj as (poly & Hobj & Hpoly & Hflat).
  destruct (selects_among_value _ _ HOr) as (origin & Ho & Hoin).
  destruct (selects_among_value _ _ HOn) as (orientation & Hn & Hnin).
  unfold TorPlugin.create. rewrite Hobj, Ho, Hn.
  destruct Hoin as [<-|[<-|[]]];
    destruct Hnin as [<-|[<-|[<-|[]]]]; cbn [Z.eqb Pos.eqb TorPlugin.CENTER
      TorPlugin.CURSOR TorPlugin.XZ TorPlugin.XY TorPlugin.YZ];
    do 3 eexists;
    (split; [reflexivity|]); (split; [exact Hpoly|]);
    (split; [exact Hflat|]); (split; [reflexivity|]);
    (split; [reflexivity|]); cbn; split; auto 6.
Qed.

Lemma Torus_create_from_widgets_witness :
  exists w,
    TorSession.reachable w /\ TorPlugin.Cut w = true /\
    3 <= Gui.Number.value (TorPlugin.MajorDivisions w) <= 1024.
Proof.
  destruct TorPlugin.make_widgets as [w0|e] eqn:E0; [|discriminate E0].
  assert (Hr : TorSession.reachable
                 (TorPlugin.mkWidgets (TorPlugin.Smooth w0)
                    (TorPlugin.MajorRadius w0) (TorPlugin.MinorRadius w0)
                    (TorPlugin.MajorDivisions w0)
                    (TorPlugin.MinorDivisions w0)
                    (TorPlugin.StartMinorAngle w0)
                    (TorPlugin.StartMajorAngle w0)
                    (TorPlugin.EndMajorAngle w0) (TorPlugin.CapStart w0)
                    (TorPlugin.CapEnd w0) true (TorPlugin.Origin w0)
                    (TorPlugin.Orientation w0))).
  { exists w0. split; [exact E0|].
    repeat (split; [exists []; reflexivity|]).
    split; [exists 0%nat; reflexivity|exists []; reflexivity]. }
  eexists. split; [exact Hr|]. split; [reflexivity|].
  apply (Torus_create_from_widgets _ (0, 0, 0)%R Hr).
Defined.

(** *** The tube and disc plugins: from the widgets to the mesh *)







